(* ===== verification/_CoqProject ===== *)
-Q . S2P
Prelude.v
Slab.v
Value.v
Histogram.v
Metric.v
City.v
Statsd.v
Bloom.v
Internal.v
StatsdSecure.v
Utils.v
Net.v
Json.v
Carbon.v
Store.v
Workers.v
Startup.v
Backend.v
Pipeline.v
Server.v
Http.v
Flow.v
Config.v
Options.v
Title.v
Log.v
Main.v
Tools.v
Clients.v
Tests.v
Sput.v
