(* ===== verification/Prelude.v ===== *)
(** * Brubeck, a StatsD aggregator

    Brubeck receives StatsD lines over UDP, aggregates them in metrics and
    sends the aggregates to Carbon at a fixed interval.  This library models
    the daemon and proves what its parts promise.  File names below are
    relative to the repository root.

    ** The program and its parts

    - A sampler ([src/samplers/statsd.c], [src/samplers/statsd-secure.c])
      receives packets.  The secure one first checks an HMAC, the age of a
      timestamp and, with a ring of Bloom filters ([src/bloom.c]), that the
      packet is not a replay.  Both then parse the packet in place and hand
      every message to the metric store.
    - The store ([src/metric.c], [src/ht.c]) finds or creates the metric of a
      key.  A new metric is carved from slabs ([src/slab.c]), put in a
      concurrent hash table and registered with the backend that CityHash32
      ([src/city.c]) of its key picks.
    - A metric is a gauge, meter, counter, histogram or timer
      ([src/metric.c], [src/histogram.c]), or the server's own statistics
      ([src/internal_sampler.c]).
    - A backend ([src/backend.c]) walks the metrics registered with it and
      passes the samples of the active ones to Carbon
      ([src/backends/carbon.c]) as text ([src/utils.c] prints the numbers) or
      as pickles.
    - The server ([src/server.c]) reads the configuration, creates the
      backends and samplers with their threads, reacts to signals, resets the
      flow counters, expires metrics that are not updated, prints the process
      title ([src/setproctitle.c]) and rotates the log ([src/log.c]).  Its
      HTTP endpoint ([src/http.c]) reports the state and expires metrics.
    - [brubeck.c] is [main]; [test-bin/] holds three clients.

    ** Files

    - [Prelude]: machine integers ([wrap], [swrap], [fits]), bytes and
      buffers as lists with checked access ([rd], [wr], [rd_n], [wr_n]),
      little-endian conversion, sums over threads, tactics and the hint
      database [brubeck].
    - [Value]: [value_t] as the executable IEEE-754 [spec_float] of the
      Standard Library, with the lemmas that tell when an operation is exact,
      between which bounds it rounds, and that results are doubles again
      ([is_double], hint database [double]).
    - [Slab]: the allocator.  Blocks of requests that fit a node are inside it,
      at addresses that are multiples of 16 and pairwise disjoint; a request
      larger than a node is given memory past the node's end.
    - [Histogram]: push and sample.  Both refine an abstract histogram (a
      bounded list of values and a 32-bit count); percentile indices stay in
      the array and are the nearest ranks.  [qsort] is the merge sort of glibc,
      which returns a permutation whatever the comparison, and sorts when it is
      consistent, as it is without NaN.
    - [Metric]: record and sample of each type, each with what it reports.
    - [City]: the hash; it reads only the key and returns 32 bits.
    - [Statsd]: the parser.  Unless the first line of a packet has an empty key,
      it never leaves the buffer and is a list of outcomes delivered to the sink
      ([deliver_all]); it inverts a printer of messages and of packets; one turn
      of the two receive loops.
    - [Bloom]: a check is membership and insertion in the set of bits; an
      inserted token is found until its filter is reset.
    - [Internal]: the statistics counters.  Whatever the interleaving of the
      increments with the sampling, no increment is lost or counted twice.
    - [StatsdSecure]: only authentic packets reach the parser, and a packet
      seen before has the verdict of a replay while its age is below the drift
      ([token_verdict]; logging its HMAC is undefined if it has a byte above
      127); at exactly the drift it is accepted again.
    - [Utils]: [brubeck_itoa], [brubeck_ftoa], [write_in_full], and
      [find_substr], which is the reference search for a substring.
    - [Net]: addresses, socket options and [src/sampler.c], as programs over
      an arbitrary kernel: the monad [program], with [post] for what holds of
      every run, [KernelLaws] for what the calls document, and [runs] for what a
      kernel that refuses nothing ([Obliging]) lets a program return.
    - [Json]: documents as jansson gives them, read and built.
    - [Carbon]: both protocols.  A reader for the pickle subset decodes the
      stream to the samples sent, in order; buffers are not overrun.
    - [Store]: the server state.  An invariant relates table, memory, and
      queues; find-or-create, recording a packet, the sampling of a queue and
      expiry preserve it and do what an abstract map from keys to metrics
      does (for keys of at most 4000 bytes, which a slab node has room for).  The hash table is the class [HashTable] with its laws
      ([HashTableLaws]), [gmap] being an instance.
    - [Workers]: the threads that share the store.  Workers, backend threads
      and the expiry timer take steps of one shared access each, with the
      metrics' spinlocks and the table's mutex; every interleaving is
      serialisable per metric, creates each key once, loses no increment, and
      neither deadlocks (the holder of every lock waited for can step, and
      releases it after finitely many steps of its own) nor faults but on
      readings that a metric does not take.
    - [Startup]: [brubeck_internal__init], which the main thread runs while the
      threads of [Workers] already do.  As long as no message carries the
      server's name, the only fault it adds is a backend that samples the
      server's own metric before its data are set, and when it is done the
      threads are where the theorems of [Workers] start; a client that sends the
      name first takes the metric ([startup_name_taken]).
    - [Backend]: registration by compare-and-swap as a step relation of any
      number of threads, where the queue is always the sequence of the
      successful swaps, no thread is ever blocked and the number of retries is
      bounded; a turn of the backend's thread delivers every active sample,
      and its loop keeps the period and loses no turn to an outage.
    - [Pipeline]: the parts from the datagram to Carbon composed; they refine
      an aggregator that is a map from keys to the data of a metric.
    - [Server]: signals, timers, flows, expiry and the metric dump; the loop
      runs until a signal stops it.
    - [Http]: routing of the endpoint, metric lookup and expiry by name, the
      statistics and the status document; every request is answered but a ping
      before the sampling period is set and a request for a metric whose key is
      not UTF-8, which crash ([crashes]).
    - [Flow]: the build with [BRUBECK_METRICS_FLOW], which reports the busiest
      metrics, but for those whose key is not UTF-8.
    - [Config]: the constructors of backends, samplers and replay filters with
      their allocations, [load_config] and [brubeck_server_init].  Unless the
      configuration has one of the faults of [startup_fault], which the code
      does not check, start-up ends the process, runs into the one unchecked
      [malloc] ([pickler_oom]), or returns a daemon that satisfies the
      invariants of the parts ([daemon_wf]); a configuration rendered from its
      meaning ([conf]) gives the daemon meant.
    - [Options]: the command line, with [getopt_long] of the C library; options
      mean the same however they are spelled.
    - [Title]: the process title never leaves its buffers.
    - [Log]: the rotation of the log, step by step among any number of threads
      that log.  When no rotation is under way the log has a destination, and at
      most one open file; between [fclose] and the assignment a thread can write
      to the closed file ([log_race]).
    - [Main]: the main thread from start-up to shutdown, whatever consistent
      changes the other threads make to the shared memory in between
      ([shared_ok]); the threads that are cancelled at the end are those that
      were started.
    - [Tools]: a packet signed by [statsd-secure-send] is recorded by the
      secure sampler, and every packet of [udp-stress] parses.
    - [Clients]: the three clients from their command lines to the datagrams
      they send; [balancer] copies every datagram to each of its outputs.
    - [Tests]: the unit tests ([tests/]) on the definitions; the tests with
      threads pass under every schedule.
    - [Sput]: the harness of the tests and their [main], which returns 0.

    ** Conventions

    A [w]-bit integer is a [Z] with its wrap-around written where the code's
    type wraps.  Memory the code indexes is a list of bytes; an access outside
    it is the result [None], as are the other undefined behaviours of C
    (conversion of a double out of range, call of a null pointer, read of an
    uninitialised cell).  So a theorem that an operation returns [Some] says
    that it is free of them.  A negative result of the C code is a value of
    the operation's own result type.

    Code outside the repository is a parameter: [ck_ht] (class [HashTable]),
    OpenSSL's HMAC, [log] of the C library, jansson's parsed configuration and
    its notion of UTF-8 (class [Jansson]), the kernel and the resolver (class
    [Kernel]), the answers of sockets, clocks and signals (input sequences).
    The Makefile defines [NDEBUG], so the assertions of the code are not part of
    the program and none of them is assumed.
    The operations are functions on the state.  How the threads interleave
    them, with the locks they take and the accesses they make without one, is
    the subject of [Workers], and of the step relations of the registration
    ([Backend]), the statistics ([Internal]) and the flow counters ([Server]).
    A step of [Workers] is sequentially consistent: the code's locks and atomic
    instructions order its accesses, and [metric->expire], a byte that is read
    and written without them, is a single access each time.

    ** Fuel

    Loops that are not structural take a fuel and the theorems show that it is
    enough, or the bound is that of the code: [packet_loop] has the length of
    the packet (every step consumes a line), [itoa_digits] has ten (a 32-bit
    number has at most ten digits), [write_loop] has one per byte (every
    successful write takes at least one), [swap_loop] and the pickle reader
    have the length of their input; [scale] has the seven turns of its loop.

    ** Not modelled

    The texts of log messages, and libmicrohttpd and jansson themselves.  The
    start-up of [Config] is the main thread's alone; [Startup] interleaves its
    last step, which creates a metric while the workers create others, with the
    threads that it has started.  [Main] takes the effect of the other threads
    as an input that respects the invariant, and proves that a parsed packet and
    a turn of a backend do.  Allocation failure is modelled in start-up
    ([Net.xmalloc]), where it ends the process; behind it an allocation
    succeeds. *)

From Stdlib Require Export ZArith Lia Bool Ascii String.
From stdpp Require Export base tactics list numbers option.


Declare Scope brubeck_scope.
Delimit Scope brubeck_scope with brubeck.
Open Scope brubeck_scope.
Open Scope Z_scope.

(** ** Machine integers

    A [w]-bit unsigned integer is the [Z] in [0, 2^w); every C operation that
    can leave the range is followed by the wrap-around of its type. *)

Definition wrap (w z : Z) : Z := z mod 2 ^ w.

Abbreviation u8 := (wrap 8).
Abbreviation u16 := (wrap 16).
Abbreviation u32 := (wrap 32).
Abbreviation u64 := (wrap 64).

(** Conversion to a [w]-bit two's complement integer. *)
Definition swrap (w z : Z) : Z := (z + 2 ^ (w - 1)) mod 2 ^ w - 2 ^ (w - 1).

Abbreviation s8 := (swrap 8).
Abbreviation s32 := (swrap 32).
Abbreviation s64 := (swrap 64).

Lemma swrap_range w z : 0 < w -> - 2 ^ (w - 1) <= swrap w z < 2 ^ (w - 1).
Proof.
  intros Hw. unfold swrap. pose proof (Z.mod_pos_bound (z + 2 ^ (w - 1)) (2 ^ w) ltac:(lia)).
  replace (2 ^ w) with (2 * 2 ^ (w - 1)) in *; [lia|].
  rewrite <- Z.pow_succ_r by lia. f_equal. lia.
Qed.

Definition fits (w z : Z) : Prop := 0 <= z < 2 ^ w.

Definition fitsb (w z : Z) : bool := (0 <=? z) && (z <? 2 ^ w).

Create HintDb brubeck.

Lemma fitsb_spec w z : fitsb w z = true <-> fits w z.
Proof. unfold fitsb, fits. rewrite andb_true_iff, Z.leb_le, Z.ltb_lt. lia. Qed.

#[export] Instance fits_dec w z : Decision (fits w z).
Proof.
  refine (match fitsb w z as b return fitsb w z = b -> _ with
          | true => fun H => left (proj1 (fitsb_spec w z) H)
          | false => fun H => right _ end eq_refl).
  intros Hf%fitsb_spec. congruence.
Defined.

Lemma wrap_fits w z : 0 <= w -> fits w (wrap w z).
Proof. intros. apply Z.mod_pos_bound, Z.pow_pos_nonneg; lia. Qed.

Lemma wrap_small w z : fits w z -> wrap w z = z.
Proof. apply Z.mod_small. Qed.


Lemma wrap_add_l w a b : wrap w (wrap w a + b) = wrap w (a + b).
Proof. apply Zplus_mod_idemp_l. Qed.

Lemma wrap_add_r w a b : wrap w (a + wrap w b) = wrap w (a + b).
Proof. apply Zplus_mod_idemp_r. Qed.

Lemma wrap_mul_l w a b : wrap w (wrap w a * b) = wrap w (a * b).
Proof. apply Zmult_mod_idemp_l. Qed.

Lemma wrap_mul_r w a b : wrap w (a * wrap w b) = wrap w (a * b).
Proof. apply Zmult_mod_idemp_r. Qed.

Lemma fits_mono w w' z : w <= w' -> fits w z -> fits w' z.
Proof. unfold fits. intros ? [? ?]. pose proof (Z.pow_le_mono_r 2 w w'). lia. Qed.

#[export] Hint Resolve wrap_fits wrap_small : brubeck.

(** Boolean comparisons of the code become propositions. *)
Ltac zbool :=
  repeat match goal with
  | H : (_ =? _) = true |- _ => apply Z.eqb_eq in H
  | H : (_ =? _) = false |- _ => apply Z.eqb_neq in H
  | H : (_ <? _) = true |- _ => apply Z.ltb_lt in H
  | H : (_ <? _) = false |- _ => apply Z.ltb_ge in H
  | H : (_ <=? _) = true |- _ => apply Z.leb_le in H
  | H : (_ <=? _) = false |- _ => apply Z.leb_gt in H
  | H : _ && _ = true |- _ => apply andb_true_iff in H as [? ?]
  | H : _ || _ = false |- _ => apply orb_false_iff in H as [? ?]
  | H : negb _ = true |- _ => apply negb_true_iff in H
  | H : negb _ = false |- _ => apply negb_false_iff in H
  end.

(** Case analysis on the comparison that blocks the goal. *)
Ltac zcase :=
  match goal with
  | |- context [?a =? ?b] => destruct (Z.eqb_spec a b)
  | |- context [?a <? ?b] => destruct (Z.ltb_spec a b)
  | |- context [?a <=? ?b] => destruct (Z.leb_spec a b)
  end.

(** Case analysis on the matches of a step [E : f x = r], the innermost first. *)
Ltac break_in E :=
  repeat (match type of E with
    | context [match ?x with _ => _ end] =>
        lazymatch x with
        | context [match _ with _ => _ end] => fail
        | _ => destruct x eqn:?
        end
    end; try discriminate E); try (injection E as <- <- <-).

(** ** Buffers

    A C object is the list of its cells; a pointer into it is an offset.  An
    access outside the object is undefined behaviour, the value [None]. *)

Section Buffers.
Context {A : Type}.
Implicit Types (m : list A) (p : Z).

Definition rd m p : option A :=
  if p <? 0 then None else m !! Z.to_nat p.

Definition wr m p (x : A) : option (list A) :=
  if (0 <=? p) && (p <? Z.of_nat (length m)) then Some (<[Z.to_nat p := x]> m)
  else None.

(** [memcpy] out of and into a buffer. *)
Definition rd_n m p (n : nat) : option (list A) :=
  if (0 <=? p) && (p + Z.of_nat n <=? Z.of_nat (length m))
  then Some (take n (drop (Z.to_nat p) m)) else None.

Definition wr_n m p (src : list A) : option (list A) :=
  if (0 <=? p) && (p + Z.of_nat (length src) <=? Z.of_nat (length m))
  then Some (take (Z.to_nat p) m ++ src ++ drop (Z.to_nat p + length src) m)
  else None.

Lemma rd_Some m p x : rd m p = Some x -> 0 <= p < Z.of_nat (length m).
Proof.
  unfold rd. case_match; [done|]. intros ?%lookup_lt_Some. zbool. lia.
Qed.

Lemma rd_is_Some m p : 0 <= p < Z.of_nat (length m) -> is_Some (rd m p).
Proof.
  intros. unfold rd. destruct (Z.ltb_spec p 0); [lia|].
  apply lookup_lt_is_Some. lia.
Qed.

Lemma rd_nat m (i : nat) : rd m (Z.of_nat i) = m !! i.
Proof. unfold rd. destruct (Z.ltb_spec (Z.of_nat i) 0); [lia|]. by rewrite Nat2Z.id. Qed.

Lemma wr_in m p x :
  0 <= p < Z.of_nat (length m) -> wr m p x = Some (<[Z.to_nat p := x]> m).
Proof.
  intros. unfold wr. destruct (Z.leb_spec 0 p), (Z.ltb_spec p (Z.of_nat (length m)));
    done || lia.
Qed.

Lemma wr_Some m p x m' :
  wr m p x = Some m' ->
  0 <= p < Z.of_nat (length m) /\ m' = <[Z.to_nat p := x]> m.
Proof. unfold wr. case_match; [|done]. intros [= <-]. zbool. done. Qed.

Lemma wr_length m p x m' : wr m p x = Some m' -> length m' = length m.
Proof. intros [? ->]%wr_Some. by rewrite length_insert. Qed.

Lemma rd_wr_eq m p x m' : wr m p x = Some m' -> rd m' p = Some x.
Proof.
  intros [? ->]%wr_Some. unfold rd. destruct (Z.ltb_spec p 0); [lia|].
  apply list_lookup_insert_eq. lia.
Qed.

Lemma rd_wr_ne m p q x m' : wr m p x = Some m' -> p <> q -> rd m' q = rd m q.
Proof.
  intros [? ->]%wr_Some ?. unfold rd. destruct (Z.ltb_spec q 0); [done|].
  apply list_lookup_insert_ne. lia.
Qed.

Lemma rd_n_in m p n :
  0 <= p -> p + Z.of_nat n <= Z.of_nat (length m) ->
  rd_n m p n = Some (take n (drop (Z.to_nat p) m)).
Proof. intros. unfold rd_n. repeat zcase; done || lia. Qed.

Lemma wr_n_in m p src :
  0 <= p -> p + Z.of_nat (length src) <= Z.of_nat (length m) ->
  wr_n m p src = Some (take (Z.to_nat p) m ++ src ++ drop (Z.to_nat p + length src) m).
Proof. intros. unfold wr_n. repeat zcase; done || lia. Qed.

Lemma wr_n_Some m p src m' :
  wr_n m p src = Some m' ->
  0 <= p /\ p + Z.of_nat (length src) <= Z.of_nat (length m) /\
  m' = take (Z.to_nat p) m ++ src ++ drop (Z.to_nat p + length src) m.
Proof. unfold wr_n. case_match; [|done]. intros [= <-]. zbool. done. Qed.

Lemma wr_n_length m p src m' : wr_n m p src = Some m' -> length m' = length m.
Proof.
  intros (? & ? & ->)%wr_n_Some. rewrite !length_app, length_take, length_drop. lia.
Qed.

(** Appending at the write position extends the written prefix. *)
Lemma wr_n_take m p src m' :
  wr_n m p src = Some m' ->
  take (Z.to_nat p + length src) m' = take (Z.to_nat p) m ++ src.
Proof.
  intros (? & ? & ->)%wr_n_Some.
  rewrite app_assoc, take_app_le, take_ge; [done| |].
  - rewrite length_app, length_take. lia.
  - rewrite length_app, length_take. lia.
Qed.
End Buffers.

#[export] Hint Resolve rd_is_Some : brubeck.

(** ** Bytes *)

Definition is_byte (b : Z) : Prop := fits 8 b.

(** The bytes of a C string literal, without its terminator. *)
Fixpoint bytes (s : string) : list Z :=
  match s with
  | EmptyString => []
  | String a s' => Z.of_nat (nat_of_ascii a) :: bytes s'
  end.

Definition chr (s : string) : Z :=
  match s with
  | EmptyString => 0
  | String a _ => Z.of_nat (nat_of_ascii a)
  end.

#[global] Arguments chr _ : simpl never.

(** The C string that starts a buffer; [None] when it has no terminator. *)
Fixpoint cstr (m : list Z) : option (list Z) :=
  match m with
  | [] => None
  | b :: m' => if b =? 0 then Some [] else s ← cstr m'; Some (b :: s)
  end.

Definition nul_free (s : list Z) : Prop := Forall (fun b => b <> 0) s.

#[export] Instance nul_free_dec s : Decision (nul_free s).
Proof. unfold nul_free. apply _. Defined.

Lemma cstr_app s m : nul_free s -> cstr (s ++ 0 :: m) = Some s.
Proof.
  induction 1 as [|b s Hb _ IH]; simpl; [done|].
  destruct (Z.eqb_spec b 0); [done|]. by rewrite IH.
Qed.

(** Little-endian (x86-64) representation of an integer in [n] bytes. *)
Fixpoint le_bytes (n : nat) (z : Z) : list Z :=
  match n with
  | O => []
  | S n' => u8 z :: le_bytes n' (Z.shiftr z 8)
  end.

Fixpoint le_combine (l : list Z) : Z :=
  match l with
  | [] => 0
  | b :: l' => b + 256 * le_combine l'
  end.

Lemma le_bytes_length n z : length (le_bytes n z) = n.
Proof. revert z. induction n; simpl; intros; f_equal; auto. Qed.

Lemma le_combine_bytes n z : le_combine (le_bytes n z) = wrap (8 * Z.of_nat n) z.
Proof.
  revert z. induction n as [|n IH]; intros z; cbn [le_bytes le_combine].
  - unfold wrap. rewrite Z.mul_0_r, Z.pow_0_r, Z.mod_1_r. done.
  - rewrite IH. unfold wrap. rewrite Z.shiftr_div_pow2 by lia.
    replace (8 * Z.of_nat (S n)) with (8 + 8 * Z.of_nat n) by lia.
    rewrite Z.pow_add_r, Z.rem_mul_r by lia. change (2 ^ 8) with 256. lia.
Qed.

Lemma le_combine_fits l :
  Forall is_byte l -> fits (8 * Z.of_nat (length l)) (le_combine l).
Proof.
  unfold is_byte, fits. induction 1 as [|b l Hb _ IH]; cbn [le_combine length].
  - rewrite Z.mul_0_r. lia.
  - replace (8 * Z.of_nat (S (length l))) with (8 + 8 * Z.of_nat (length l)) by lia.
    rewrite Z.pow_add_r by lia. change (2 ^ 8) with 256 in *. lia.
Qed.

Lemma le_bytes_is_byte n z : Forall is_byte (le_bytes n z).
Proof.
  revert z. induction n; intros z; constructor; auto. by apply wrap_fits.
Qed.

(** ** Sums over threads *)

Lemma sum_ext (f g : nat -> nat) l :
  (forall j, j ∈ l -> f j = g j) -> sum_list_with f l = sum_list_with g l.
Proof.
  induction l as [|j l IH]; intros Hj; simpl; [done|]. rewrite (Hj j) by left. f_equal.
  apply IH. intros x Hx. apply Hj. by right.
Qed.

Lemma sum_le (f g : nat -> nat) l :
  (forall j, j ∈ l -> (f j <= g j)%nat) -> (sum_list_with f l <= sum_list_with g l)%nat.
Proof.
  induction l as [|j l IH]; intros Hj; simpl; [lia|]. pose proof (Hj j ltac:(left)).
  specialize (IH (fun x Hx => Hj x (ltac:(by right)))). lia.
Qed.

Lemma sum_lt (f g : nat -> nat) l i :
  i ∈ l -> (f i < g i)%nat -> (forall j, j ∈ l -> (f j <= g j)%nat) ->
  (sum_list_with f l < sum_list_with g l)%nat.
Proof.
  induction l as [|j l IH]; intros Hi Hlt Hj; [by apply elem_of_nil in Hi|]. simpl.
  pose proof (sum_le f g l (fun x Hx => Hj x (ltac:(by right)))) as Hle.
  apply elem_of_cons in Hi as [->|Hi]; [lia|]. pose proof (Hj j ltac:(left)).
  specialize (IH Hi Hlt (fun x Hx => Hj x (ltac:(by right)))). lia.
Qed.

Lemma sum_one_less (f g : nat -> nat) l i :
  NoDup l -> i ∈ l -> S (f i) = g i -> (forall j, j <> i -> f j = g j) ->
  S (sum_list_with f l) = sum_list_with g l.
Proof.
  induction l as [|j l IH]; intros Hnd Hi Hf Hj; [by apply elem_of_nil in Hi|]. simpl.
  apply list.NoDup_cons in Hnd as [Hni Hnd]. apply elem_of_cons in Hi as [->|Hi].
  - rewrite (sum_ext f g l); [lia|]. intros x Hx. apply Hj. by intros ->.
  - rewrite <- (IH Hnd Hi Hf Hj). rewrite (Hj j) by (by intros ->). lia.
Qed.
