(* ===== verification/Slab.v ===== *)
(** * The slab allocator ([src/slab.c], [src/slab.h])

    Metrics are never freed; their memory comes from nodes of one page each.
    A node is the header ([next], [alloc]) followed by its heap; [current]
    heads the chain, so the chain is the list of the nodes' [alloc] fields and
    the node pushed [n]-th has the identity [n].  [xmalloc] either succeeds or
    ends the process, so it does not appear in the result. *)

From S2P Require Import Prelude.

Module Slab.

Definition SLAB_SIZE : Z := 32.
Definition SLABS_PER_NODE : Z := 128.
Definition NODE_SIZE : Z := SLAB_SIZE * (SLABS_PER_NODE - 1).

(** [sizeof(struct brubeck_slab_node)] on x86-64: a pointer and a [size_t]. *)
Definition node_header : Z := 16.

(** The bytes of a node, [xmalloc(SLAB_SIZE * SLABS_PER_NODE)]. *)
Definition node_bytes : Z := SLAB_SIZE * SLABS_PER_NODE.

Record brubeck_slab := { nodes : list Z; total_alloc : Z }.

(** A pointer into a node: the offset from the start of the node, whose [heap]
    begins behind the header. *)
Record ptr := { p_node : nat; p_off : Z }.

Definition push_node (slab : brubeck_slab) : brubeck_slab :=
  {| nodes := 0 :: nodes slab; total_alloc := total_alloc slab |}.

Definition round_need (need : Z) : Z :=
  Z.land (u64 (need + SLAB_SIZE - 1)) (u64 (Z.lnot (SLAB_SIZE - 1))).

(** The lock makes the body atomic.  [None]: [current] is dereferenced while
    the chain is empty. *)
Definition brubeck_slab_alloc (slab : brubeck_slab) (need : Z)
    : option (brubeck_slab * ptr) :=
  let need := round_need need in
  match nodes slab with
  | [] => None
  | alloc :: _ =>
      let slab := if NODE_SIZE <? u64 (alloc + need) then push_node slab else slab in
      match nodes slab with
      | [] => None
      | alloc :: rest =>
          Some ({| nodes := u64 (alloc + need) :: rest;
                   total_alloc := u64 (total_alloc slab + need) |},
                {| p_node := length rest; p_off := node_header + alloc |})
      end
  end.

(** The slab is part of a zeroed [struct brubeck_server]. *)
Definition brubeck_slab_init : brubeck_slab :=
  push_node {| nodes := []; total_alloc := 0 |}.

(** A run of the allocator: the blocks handed out, latest first, with the size
    the caller asked for. *)
Fixpoint alloc_all (slab : brubeck_slab) (needs : list Z)
    : option (brubeck_slab * list (ptr * Z)) :=
  match needs with
  | [] => Some (slab, [])
  | need :: needs' =>
      '(slab', bs) ← alloc_all slab needs';
      '(slab'', p) ← brubeck_slab_alloc slab' need;
      Some (slab'', (p, need) :: bs)
  end.

(** ** Rounding *)

Lemma round_need_eq need :
  0 <= need <= 2 ^ 64 - SLAB_SIZE ->
  round_need need = (need + 31) / 32 * 32.
Proof.
  intros Hn. unfold round_need, SLAB_SIZE in *.
  rewrite (wrap_small 64 (need + 32 - 1)) by (unfold fits; lia).
  replace (need + 32 - 1) with (need + 31) by lia.
  change 32 with (2 ^ 5) at 3. change 32 with (2 ^ 5) at 2.
  rewrite <- Z.shiftr_div_pow2, <- Z.shiftl_mul_pow2, <- Z.ldiff_ones_r by lia.
  apply Z.bits_inj'. intros i Hi. rewrite Z.land_spec, Z.ldiff_spec.
  destruct (Z.lt_ge_cases i 64).
  - f_equal. unfold wrap. rewrite Z.mod_pow2_bits_low, Z.lnot_spec by lia. done.
  - rewrite Z.bits_above_log2; [done|lia|].
    destruct (Z.eq_dec (need + 31) 0) as [->|]; [simpl; lia|].
    apply Z.log2_lt_pow2; [lia|]. pose proof (Z.pow_le_mono_r 2 64 i). lia.
Qed.

Lemma round_need_bounds need :
  0 <= need <= NODE_SIZE ->
  need <= round_need need <= NODE_SIZE /\ round_need need mod SLAB_SIZE = 0.
Proof.
  unfold NODE_SIZE, SLAB_SIZE, SLABS_PER_NODE. intros.
  rewrite round_need_eq by (unfold SLAB_SIZE; lia).
  rewrite Z.mod_mul by lia. Z.div_mod_to_equations. lia.
Qed.

(** ** Invariant *)

Record slab_wf (slab : brubeck_slab) : Prop := {
  wf_nonempty : nodes slab <> [];
  wf_allocs : Forall (fun a => 0 <= a <= NODE_SIZE /\ a mod SLAB_SIZE = 0) (nodes slab);
}.

(** The [alloc] field of a node, by identity. *)
Definition alloc_of (slab : brubeck_slab) (n : nat) : option Z :=
  reverse (nodes slab) !! n.

(** A block owns [need] bytes of a node, below the node's [alloc] mark. *)
Definition block_ok (slab : brubeck_slab) (b : ptr * Z) : Prop :=
  let '(p, need) := b in
  node_header <= p_off p /\ (p_off p - node_header) mod SLAB_SIZE = 0 /\
  exists a, alloc_of slab (p_node p) = Some a /\ p_off p + need <= node_header + a.

Definition disjoint (b1 b2 : ptr * Z) : Prop :=
  p_node b1.1 <> p_node b2.1 \/
  p_off b1.1 + b1.2 <= p_off b2.1 \/ p_off b2.1 + b2.2 <= p_off b1.1.

Lemma slab_init_wf : slab_wf brubeck_slab_init.
Proof.
  split; [done|]. repeat constructor; unfold NODE_SIZE, SLAB_SIZE, SLABS_PER_NODE; lia.
Qed.

Lemma alloc_of_push slab n a :
  alloc_of slab n = Some a -> alloc_of (push_node slab) n = Some a.
Proof.
  unfold alloc_of, push_node. simpl. rewrite reverse_cons. apply lookup_app_l_Some.
Qed.

Lemma push_node_wf slab : slab_wf slab -> slab_wf (push_node slab).
Proof. intros [_ ?]. split; [done|]. by constructor. Qed.

(** Handing out the next [r] bytes of the current node. *)
Definition bump (s : brubeck_slab) (a r : Z) (rest : list Z) : brubeck_slab :=
  {| nodes := u64 (a + r) :: rest; total_alloc := u64 (total_alloc s + r) |}.

Lemma node_size_small a : 0 <= a <= NODE_SIZE -> fits 64 a.
Proof. unfold NODE_SIZE, SLAB_SIZE, SLABS_PER_NODE, fits. lia. Qed.

Lemma bump_wf s a r rest :
  slab_wf s -> nodes s = a :: rest -> 0 <= r -> r mod SLAB_SIZE = 0 ->
  a + r <= NODE_SIZE ->
  slab_wf (bump s a r rest) /\ 0 <= a /\ a mod SLAB_SIZE = 0.
Proof.
  intros [_ Hs] E Hr Hm Hcap. rewrite E in Hs. inversion_clear Hs as [|?? [Ha Ham] Hrest].
  split_and!; [|lia|done]. split; simpl; [done|]. constructor; [|done].
  rewrite wrap_small by (apply node_size_small; lia). split; [lia|].
  unfold SLAB_SIZE in *. by rewrite Zplus_mod, Ham, Hm.
Qed.

Lemma bump_alloc_of s a r rest :
  nodes s = a :: rest -> 0 <= a + r <= NODE_SIZE ->
  alloc_of (bump s a r rest) (length rest) = Some (a + r).
Proof.
  intros E Hc. unfold alloc_of. simpl. rewrite wrap_small by by apply node_size_small.
  rewrite reverse_cons, lookup_app_r, length_reverse, Nat.sub_diag; [done|].
  by rewrite length_reverse.
Qed.

Lemma bump_other s a r rest n x :
  nodes s = a :: rest -> alloc_of s n = Some x ->
  n <> length rest /\ alloc_of (bump s a r rest) n = Some x \/ n = length rest /\ x = a.
Proof.
  unfold alloc_of. intros E. rewrite E. simpl. rewrite !reverse_cons.
  destruct (decide (n < length rest)%nat) as [Hlt|Hge].
  - rewrite !lookup_app_l by (rewrite length_reverse; lia). left. split; [lia|done].
  - rewrite lookup_app_r by (rewrite length_reverse; lia). rewrite length_reverse.
    intros Hx. pose proof (lookup_lt_Some _ _ _ Hx) as Hlen. simpl in Hlen.
    right. assert (n = length rest) as -> by lia.
    rewrite Nat.sub_diag in Hx. simpl in Hx. split; congruence.
Qed.

(** What one allocation does: it bumps the current node, or a fresh one. *)
Lemma slab_alloc_bump slab need :
  slab_wf slab -> 0 <= need <= NODE_SIZE ->
  exists s a rest,
    (s = slab \/ s = push_node slab) /\ nodes s = a :: rest /\
    a + round_need need <= NODE_SIZE /\
    brubeck_slab_alloc slab need =
      Some (bump s a (round_need need) rest, {| p_node := length rest; p_off := node_header + a |}).
Proof.
  intros Hwf Hn. destruct (round_need_bounds need Hn) as [Hr Hm].
  unfold brubeck_slab_alloc. destruct Hwf as [Hne Hall].
  destruct (nodes slab) as [|a rest] eqn:E; [done|]. inversion_clear Hall as [|?? [Ha _]].
  rewrite (wrap_small 64 (a + _))
    by (unfold fits, NODE_SIZE, SLAB_SIZE, SLABS_PER_NODE in *; lia).
  destruct (Z.ltb_spec NODE_SIZE (a + round_need need)).
  - exists (push_node slab), 0, (nodes slab). split_and!; [by right|done|lia|done].
  - rewrite E. exists slab, a, rest. split_and!; [by left|done|lia|done].
Qed.

Lemma slab_alloc_step slab need :
  slab_wf slab -> 0 <= need <= NODE_SIZE ->
  exists slab' p,
    brubeck_slab_alloc slab need = Some (slab', p) /\ slab_wf slab' /\
    block_ok slab' (p, need) /\
    (forall b, block_ok slab b -> block_ok slab' b /\ disjoint (p, need) b).
Proof.
  intros Hwf Hn. destruct (round_need_bounds need Hn) as [Hr Hm].
  destruct (slab_alloc_bump slab need Hwf Hn) as (s & a & rest & Hs & E & Hc & ->).
  assert (Hws : slab_wf s) by (destruct Hs as [->| ->]; auto using push_node_wf).
  destruct (bump_wf s a (round_need need) rest Hws E) as (Hw & Ha & Ham); [lia..|].
  assert (Hoff : node_header + a - node_header = a) by lia.
  do 2 eexists. split; [reflexivity|]. split; [done|]. split.
  { split_and!; [cbn; lia|cbn; by rewrite Hoff|]. exists (a + round_need need). split; [|simpl; lia].
    apply bump_alloc_of; [done|lia]. }
  intros [q n] (Hq & Hqm & x & Hx & Hle). simpl in *.
  assert (Hx' : alloc_of s (p_node q) = Some x)
    by (destruct Hs as [->| ->]; auto using alloc_of_push).
  destruct (bump_other s a (round_need need) rest _ _ E Hx') as [[? ?]|[Heq ->]].
  - split; [split_and!; eauto|]. left. simpl. congruence.
  - split; [|right; right; simpl; lia]. split_and!; [done..|].
    exists (a + round_need need). rewrite Heq. split; [|lia].
    apply bump_alloc_of; [done|lia].
Qed.

(** A run keeps the invariant, and every block it has returned lies in its node
    apart from the others. *)
Lemma alloc_all_run needs :
  Forall (fun n => 0 <= n <= NODE_SIZE) needs ->
  exists slab bs, alloc_all brubeck_slab_init needs = Some (slab, bs) /\
    slab_wf slab /\ bs.*2 = needs /\ Forall (block_ok slab) bs /\ ForallOrdPairs disjoint bs.
Proof.
  induction 1 as [|n needs Hn _ (slab & bs & IH & Hwf & Hsz & Hok & Hd)]; simpl.
  - exists brubeck_slab_init, []. split_and!; auto using slab_init_wf; constructor.
  - rewrite IH. simpl.
    destruct (slab_alloc_step slab n Hwf Hn) as (slab' & p & -> & Hwf' & Hp & Hold).
    exists slab', ((p, n) :: bs). simpl. split_and!; [done|done|by f_equal| |].
    + constructor; [done|]. eapply Forall_impl; [|exact Hok]. intros b Hb. by apply Hold.
    + constructor; [|done]. eapply Forall_impl; [|exact Hok]. intros b Hb. by apply Hold.
Qed.

Lemma block_in_node slab b :
  slab_wf slab -> block_ok slab b ->
  node_header <= p_off b.1 /\ p_off b.1 mod 16 = 0 /\ p_off b.1 + b.2 <= node_bytes.
Proof.
  destruct b as [p n]. intros [_ Hall] (Hp & Hm & x & Hx & Hle). cbn. apply list_elem_of_lookup_2 in Hx.
  rewrite elem_of_reverse, list_elem_of_In in Hx. rewrite Forall_forall in Hall. destruct (Hall x Hx).
  unfold node_bytes, node_header, NODE_SIZE, SLAB_SIZE, SLABS_PER_NODE in *.
  split_and!; [done|Z.div_mod_to_equations; lia|lia].
Qed.

(** ** Addresses *)

Section Addresses.

(** Where [malloc] places the nodes: apart from each other, and aligned for
    every type (16 bytes on x86-64). *)
Context (base : nat -> Z).
Context (base_aligned : forall n, base n mod 16 = 0).
Context (base_apart : forall n n', n <> n' -> base n + node_bytes <= base n' \/ base n' + node_bytes <= base n).

Definition address (p : ptr) : Z := base (p_node p) + p_off p.

Definition apart (b1 b2 : ptr * Z) : Prop :=
  address b1.1 + b1.2 <= address b2.1 \/ address b2.1 + b2.2 <= address b1.1.

Lemma disjoint_apart slab b1 b2 :
  slab_wf slab -> block_ok slab b1 -> block_ok slab b2 -> disjoint b1 b2 -> apart b1 b2.
Proof.
  intros Hwf H1 H2 Hd. apply (block_in_node _ _ Hwf) in H1 as (H1 & _ & E1).
  apply (block_in_node _ _ Hwf) in H2 as (H2 & _ & E2). unfold apart, address, node_header in *.
  destruct (decide (p_node b1.1 = p_node b2.1)) as [E|Hne].
  - rewrite E. destruct Hd as [?|?]; [done|lia].
  - destruct (base_apart _ _ Hne); lia.
Qed.

(** C34: from an initialised slab, any sequence of requests of at most
    [NODE_SIZE] bytes succeeds.  Wherever [malloc] places the nodes, the blocks
    returned lie inside their node behind its header, at addresses that are
    multiples of 16, and no two of them overlap: two metrics never share
    memory.  (A request that is larger than a node is not refused:
    [slab_alloc_oversize].) *)
Theorem slab_blocks_separate (needs : list Z)
  (Hneeds : Forall (fun n => 0 <= n <= NODE_SIZE) needs) :
  exists slab bs,
    alloc_all brubeck_slab_init needs = Some (slab, bs) /\
    bs.*2 = needs /\
    Forall (fun b => node_header <= p_off b.1 /\ p_off b.1 + b.2 <= node_bytes /\
                     address b.1 mod 16 = 0) bs /\
    ForallOrdPairs apart bs.
Proof.
  destruct (alloc_all_run needs Hneeds) as (slab & bs & Hrun & Hwf & Hsz & Hok & Hd).
  exists slab, bs. split_and!; [done|done| |].
  - eapply Forall_impl; [|exact Hok]. intros b Hb. destruct (block_in_node _ _ Hwf Hb) as (H1 & H2 & H3).
    split_and!; [done|done|]. unfold address. by rewrite Zplus_mod, base_aligned, H2.
  - clear -Hwf Hok Hd base_apart. induction Hd as [|b bs Hb _ IH]; [constructor|].
    apply list.Forall_cons in Hok as [Hbok Hok]. constructor; [|by apply IH].
    rewrite Forall_forall in Hb, Hok |- *. intros b' Hin. apply (disjoint_apart slab); auto.
Qed.
End Addresses.

Lemma slab_blocks_separate_witness :
  exists slab bs,
    alloc_all brubeck_slab_init [48; 4000; 33] = Some (slab, bs) /\
    bs.*2 = [48; 4000; 33] /\
    Forall (fun b => node_header <= p_off b.1 /\ p_off b.1 + b.2 <= node_bytes /\
                     address (fun n => 4096 * Z.of_nat n) b.1 mod 16 = 0) bs /\
    ForallOrdPairs (apart (fun n => 4096 * Z.of_nat n)) bs.
Proof.
  apply (slab_blocks_separate (fun n => 4096 * Z.of_nat n)).
  - intros n. replace (4096 * Z.of_nat n) with (256 * Z.of_nat n * 16) by lia. apply Z.mod_mul. lia.
  - intros n n' Hn. unfold node_bytes, SLAB_SIZE, SLABS_PER_NODE. lia.
  - repeat constructor; vm_compute; congruence.
Defined.

(** A request larger than a node's heap is not refused: the block returned
    runs past the end of the [xmalloc]ed node. *)
Theorem slab_alloc_oversize (slab : brubeck_slab) (need : Z)
  (Hwf : slab_wf slab) (Hneed : node_bytes - node_header < need <= 2 ^ 32) :
  exists slab' p,
    brubeck_slab_alloc slab need = Some (slab', p) /\ node_bytes < p_off p + need.
Proof.
  destruct Hwf as [Hne Hall]. unfold brubeck_slab_alloc.
  unfold node_bytes, node_header, NODE_SIZE, SLAB_SIZE, SLABS_PER_NODE in *.
  destruct (nodes slab) as [|a rest] eqn:E; [done|]. inversion_clear Hall as [|?? [Ha _]].
  rewrite round_need_eq by (unfold SLAB_SIZE; lia).
  rewrite (wrap_small 64 (a + _)) by (unfold fits; Z.div_mod_to_equations; lia).
  destruct (Z.ltb_spec (32 * (128 - 1)) (a + (need + 31) / 32 * 32)) as [Hlt|Hge].
  - do 2 eexists. split; [reflexivity|]. simpl. lia.
  - Z.div_mod_to_equations. lia.
Qed.

Lemma slab_alloc_oversize_witness :
  exists slab' p,
    brubeck_slab_alloc brubeck_slab_init 5000 = Some (slab', p) /\
    node_bytes < p_off p + 5000.
Proof.
  apply (slab_alloc_oversize brubeck_slab_init 5000 slab_init_wf).
  vm_compute. split; congruence.
Defined.

End Slab.
