(* ===== verification/Value.v ===== *)
(** * Floating-point values ([value_t] of [src/brubeck.h])

    [value_t] is an IEEE-754 binary64 and the code also uses binary32
    ([histo_percentile], [brubeck_ftoa]).  Both are the executable
    specification [spec_float] of the Standard Library, rounding to nearest
    even.  The lemmas of this file say when an operation is exact. *)

From S2P Require Import Prelude.
From Stdlib Require Export SpecFloat.

Abbreviation value_t := spec_float.

(** ** Digits and powers of two *)

Lemma digits2_pos_bounds p :
  2 ^ (Z.pos (digits2_pos p) - 1) <= Z.pos p < 2 ^ Z.pos (digits2_pos p).
Proof.
  induction p as [p IH|p IH|]; cbn [digits2_pos]; [..|lia];
    rewrite Pos2Z.inj_succ;
    replace (Z.succ (Z.pos (digits2_pos p)) - 1) with (Z.succ (Z.pos (digits2_pos p) - 1)) by lia;
    rewrite !Z.pow_succ_r by lia; lia.
Qed.

Lemma Zdigits2_bounds m : 0 < m -> 2 ^ (Zdigits2 m - 1) <= m < 2 ^ Zdigits2 m.
Proof. destruct m; [lia| |lia]. intros _. apply digits2_pos_bounds. Qed.

Lemma Zdigits2_pos m : 0 < m -> 0 < Zdigits2 m.
Proof. destruct m; simpl; lia. Qed.

Lemma Zdigits2_upper m : 0 <= m -> m < 2 ^ Zdigits2 m /\ 0 <= Zdigits2 m.
Proof.
  intros Hm. destruct (Z.eq_dec m 0) as [->|]; [done|].
  pose proof (Zdigits2_bounds m ltac:(lia)). pose proof (Zdigits2_pos m). lia.
Qed.

Lemma Zdigits2_unique m d : 0 < m -> 2 ^ (d - 1) <= m < 2 ^ d -> Zdigits2 m = d.
Proof.
  intros Hm [Hl Hu]. destruct (Zdigits2_bounds m Hm) as [Hl' Hu'].
  pose proof (Zdigits2_pos m Hm).
  assert (0 < d).
  { destruct (Z.lt_ge_cases 0 d); [done|]. exfalso. destruct (Z.eq_dec d 0) as [->|].
    - lia.
    - rewrite Z.pow_neg_r in Hu by lia. lia. }
  apply Z.le_antisymm; apply Z.nlt_ge; intros Hlt.
  - pose proof (Z.pow_le_mono_r 2 d (Zdigits2 m - 1)). lia.
  - pose proof (Z.pow_le_mono_r 2 (Zdigits2 m) (d - 1)). lia.
Qed.

Lemma Zdigits2_shift m k : 0 < m -> 0 <= k -> Zdigits2 (m * 2 ^ k) = Zdigits2 m + k.
Proof.
  intros Hm Hk. pose proof (Zdigits2_pos m Hm).
  pose proof (Z.pow_pos_nonneg 2 k).
  apply Zdigits2_unique; [nia|].
  replace (Zdigits2 m + k - 1) with ((Zdigits2 m - 1) + k) by lia.
  rewrite !Z.pow_add_r by lia. pose proof (Zdigits2_bounds m Hm). nia.
Qed.

Lemma Zdigits2_le m w : 0 < m -> 0 <= w -> m < 2 ^ w -> Zdigits2 m <= w.
Proof.
  intros Hm Hw Hlt. apply Z.nlt_ge. intros Hd.
  pose proof (Zdigits2_bounds m Hm). pose proof (Z.pow_le_mono_r 2 w (Zdigits2 m - 1)). lia.
Qed.

Lemma Zdigits2_mono a b : 0 < a <= b -> Zdigits2 a <= Zdigits2 b.
Proof.
  intros. apply Zdigits2_le; [lia| |].
  - pose proof (Zdigits2_pos b). lia.
  - pose proof (Zdigits2_bounds b). lia.
Qed.

Lemma Pos_iter_xO m d : Z.pos (Pos.iter xO m d) = Z.pos m * 2 ^ Z.pos d.
Proof.
  induction d as [|d IH] using Pos.peano_ind; [simpl; lia|].
  rewrite Pos.iter_succ, Pos2Z.inj_xO, IH, Pos2Z.inj_succ, Z.pow_succ_r by lia. lia.
Qed.

Lemma shl_align_spec m e e' :
  e' <= e -> shl_align m e e' = (Z.to_pos (Z.pos m * 2 ^ (e - e')), e').
Proof.
  intros He. unfold shl_align. destruct (e' - e) eqn:E; try lia.
  - replace (e - e') with 0 by lia. rewrite Z.mul_1_r. simpl. f_equal. lia.
  - f_equal. apply Pos2Z.inj. rewrite Pos_iter_xO. replace (e - e') with (Z.pos p) by lia.
    rewrite Z2Pos.id; [done|]. pose proof (Z.pow_pos_nonneg 2 (Z.pos p)). nia.
Qed.

Lemma shl_align_id m e e' : e <= e' -> shl_align m e e' = (m, e).
Proof. intros. unfold shl_align. destruct (e' - e) eqn:E; done || lia. Qed.

(** ** Right shifts *)

Lemma spec_iter_pos {A} (f : A -> A) n x : SpecFloat.iter_pos f n x = Pos.iter f x n.
Proof.
  revert x. induction n as [n IH|n IH|]; intros x; cbn [SpecFloat.iter_pos Pos.iter];
    [rewrite !IH|rewrite !IH|done]; [|done].
  f_equal. rewrite <- !Pos.iter_swap. done.
Qed.

(** [bracket M D r]: the record [r] is the integer part of the rational [M/D],
    with the position of the remainder relative to one half. *)
Definition bracket (M D : Z) (r : shr_record) : Prop :=
  shr_m r = M / D /\
  shr_r r = (D <=? 2 * (M mod D)) /\
  shr_s r = negb ((2 * (M mod D)) mod D =? 0).

Lemma bracket_exact M : bracket M 1 (shr_record_of_loc M loc_Exact).
Proof. unfold bracket. simpl. by rewrite Z.div_1_r, Z.mod_1_r. Qed.

Lemma shr_1_spec m r s :
  0 <= m -> shr_1 (Build_shr_record m r s) = Build_shr_record (m / 2) (Z.odd m) (r || s).
Proof.
  intros Hm. destruct m as [|p|p]; [done| |lia]. destruct p as [p|p|]; simpl; try done.
  - f_equal. replace (Z.pos p~1) with (1 + Z.pos p * 2) by lia.
    rewrite Z.div_add by lia. done.
  - f_equal. replace (Z.pos p~0) with (Z.pos p * 2) by lia. by rewrite Z.div_mul by lia.
Qed.

Lemma shr_1_bracket M D r :
  0 <= M -> 0 < D -> bracket M D r -> bracket M (D * 2) (shr_1 r).
Proof.
  intros HM HD. destruct r as [m r s]. unfold bracket at 1. cbn [shr_m shr_r shr_s]. intros (-> & -> & ->).
  rewrite shr_1_spec by by apply Z.div_pos. unfold bracket. cbn [shr_m shr_r shr_s].
  rewrite Z.div_div by lia. split; [done|].
  pose proof (Z.mod_pos_bound M D HD) as Hb.
  rewrite Z.rem_mul_r by lia. rewrite Zmod_odd.
  assert (E : (2 * (M mod D + D * (if Z.odd (M / D) then 1 else 0))) mod (D * 2) = 2 * (M mod D)).
  { destruct (Z.odd (M / D)).
    - replace (2 * (M mod D + D * 1)) with (2 * (M mod D) + 1 * (D * 2)) by lia.
      rewrite Z.mod_add, Z.mod_small by lia. done.
    - rewrite Z.mod_small by lia. lia. }
  rewrite E. split.
  - destruct (Z.odd (M / D)); repeat zcase; done || lia.
  - destruct (Z.eqb_spec (2 * (M mod D)) 0) as [E0|E0].
    + rewrite E0, Z.mod_0_l by lia. simpl. zcase; done || lia.
    + destruct (Z.leb_spec D (2 * (M mod D))) as [|Hlt]; [done|].
      rewrite Z.mod_small by lia. simpl. zcase; done || lia.
Qed.

Lemma shr_bracket M D r e n :
  0 <= M -> 0 < D -> 0 <= n -> bracket M D r ->
  exists r', shr r e n = (r', e + n) /\ bracket M (D * 2 ^ n) r'.
Proof.
  intros HM HD Hn Hr. destruct n as [|p|p]; [..|lia].
  - exists r. rewrite Z.mul_1_r, Z.add_0_r. done.
  - exists (Pos.iter shr_1 r p). split; [simpl; by rewrite spec_iter_pos|].
    induction p as [|p IH] using Pos.peano_ind.
    + rewrite Z.pow_1_r. by apply shr_1_bracket.
    + rewrite Pos.iter_succ, Pos2Z.inj_succ, Z.pow_succ_r, (Z.mul_comm 2), Z.mul_assoc by lia.
      apply shr_1_bracket; [done| |apply IH; lia].
      pose proof (Z.pow_pos_nonneg 2 (Z.pos p)). nia.
Qed.

(** Rounding [M/D] to the nearest integer, ties to even. *)
Definition rne (M D : Z) : Z :=
  let q := M / D in
  match 2 * (M mod D) ?= D with
  | Lt => q
  | Eq => if Z.even q then q else q + 1
  | Gt => q + 1
  end.

Lemma rne_bracket M D r :
  0 <= M -> 0 < D -> bracket M D r ->
  round_nearest_even (shr_m r) (loc_of_shr_record r) = rne M D.
Proof.
  intros HM HD. destruct r as [m r s]. unfold bracket at 1. cbn [shr_m shr_r shr_s]. intros (-> & -> & ->).
  pose proof (Z.mod_pos_bound M D HD). unfold rne.
  destruct (Z.compare_spec (2 * (M mod D)) D) as [E|E|E].
  - rewrite E, Z.leb_refl, Z_mod_same_full. done.
  - destruct (Z.leb_spec D (2 * (M mod D))); [lia|].
    rewrite (Z.mod_small (2 * _) D) by lia. by destruct (2 * (M mod D) =? 0).
  - destruct (Z.leb_spec D (2 * (M mod D))); [|lia].
    replace (2 * (M mod D)) with ((2 * (M mod D) - D) + 1 * D) at 1 by lia.
    rewrite Z.mod_add, Z.mod_small by lia. zcase; [lia|done].
Qed.

Lemma rne_bounds M D :
  0 < D -> M / D <= rne M D <= M / D + 1 /\ (M mod D = 0 -> rne M D = M / D).
Proof.
  intros HD. unfold rne. split.
  - repeat case_match; lia.
  - intros ->. destruct D; done || lia.
Qed.

Lemma rne_mul M D : 0 < D -> rne (M * D) D = M.
Proof.
  intros HD. pose proof (rne_bounds (M * D) D HD) as [_ H].
  rewrite Z.mod_mul, Z.div_mul in H by lia. by apply H.
Qed.

Lemma rne_le M D b : 0 < D -> M <= b * D -> rne M D <= b.
Proof.
  intros HD Hb. destruct (rne_bounds M D HD) as [[_ Hu] He].
  destruct (Z.eq_dec (M mod D) 0) as [Hm|Hm].
  - rewrite He by done. apply Z.div_le_upper_bound; lia.
  - pose proof (Z.div_mod M D). pose proof (Z.mod_pos_bound M D HD). nia.
Qed.

Lemma rne_ge M D b : 0 < D -> b * D <= M -> b <= rne M D.
Proof.
  intros HD Hb. destruct (rne_bounds M D HD) as [[Hl _] _].
  transitivity (M / D); [|done]. apply Z.div_le_lower_bound; lia.
Qed.

(** ** Rounding to a format *)

Section Format.
Context (prec emax : Z) (Hprec : 1 < prec) (Hemax : prec < emax).

Local Abbreviation emin := (SpecFloat.emin prec emax).
Local Abbreviation fexp := (SpecFloat.fexp prec emax).

(** The float of value [R * 2^e], for an integer [R] of at most [prec] digits
    or just above; the infinity when it is out of range. *)
Definition encode (s : bool) (R e : Z) : spec_float :=
  if R =? 0 then S754_zero s
  else
    let '(R, e) := if R =? 2 ^ prec then (2 ^ (prec - 1), e + 1) else (R, e) in
    if e <=? emax - prec then S754_finite s (Z.to_pos R) e else S754_infinity s.

Lemma emin_le_fexp d : emin <= fexp d.
Proof. unfold SpecFloat.fexp. lia. Qed.

Lemma fexp_ge d : d - prec <= fexp d.
Proof. unfold SpecFloat.fexp. lia. Qed.

Lemma shr_fexp_id m e :
  0 <= m < 2 ^ prec -> emin <= e ->
  shr_fexp prec emax m e loc_Exact = (shr_record_of_loc m loc_Exact, e).
Proof.
  intros [Hm Hlt] He. unfold shr_fexp, shr.
  destruct (SpecFloat.fexp prec emax (Zdigits2 m + e) - e) eqn:E; try done. exfalso.
  assert (Zdigits2 m <= prec).
  { destruct (Z.eq_dec m 0) as [->|]; [simpl; lia|]. apply Zdigits2_le; lia. }
  unfold SpecFloat.fexp in E. lia.
Qed.

Lemma shr_fexp_carry e :
  emin <= e ->
  exists r, shr_fexp prec emax (2 ^ prec) e loc_Exact = (r, e + 1) /\
            shr_m r = 2 ^ (prec - 1).
Proof.
  intros He. pose proof (Z.pow_pos_nonneg 2 prec). unfold shr_fexp.
  assert (Hd : Zdigits2 (2 ^ prec) = prec + 1).
  { apply Zdigits2_unique; [lia|]. rewrite Z.pow_add_r by lia.
    replace (prec + 1 - 1) with prec by lia. lia. }
  rewrite Hd.
  replace (SpecFloat.fexp prec emax (prec + 1 + e) - e) with 1
    by (unfold SpecFloat.fexp; lia).
  destruct (shr_bracket (2 ^ prec) 1 (shr_record_of_loc (2 ^ prec) loc_Exact) e 1)
    as (r & -> & Hr & _); [lia..|apply bracket_exact|].
  exists r. split; [done|]. rewrite Hr. replace prec with (Z.succ (prec - 1)) at 1 by lia.
  rewrite Z.pow_succ_r by lia. change (1 * 2 ^ 1) with 2.
  by rewrite (Z.mul_comm 2), Z.div_mul by lia.
Qed.

Lemma encode_round s R e :
  0 <= R <= 2 ^ prec -> emin <= e ->
  (let '(r, e') := shr_fexp prec emax R e loc_Exact in
   match shr_m r with
   | Z0 => S754_zero s
   | Zpos m => if e' <=? emax - prec then S754_finite s m e' else S754_infinity s
   | _ => S754_nan
   end) = encode s R e.
Proof.
  intros HR He. unfold encode. pose proof (Z.pow_pos_nonneg 2 prec).
  pose proof (Z.pow_pos_nonneg 2 (prec - 1)).
  destruct (Z.eqb_spec R (2 ^ prec)) as [->|].
  - destruct (shr_fexp_carry e He) as (r & -> & ->). zcase; [lia|].
    destruct (2 ^ (prec - 1)); done || lia.
  - rewrite shr_fexp_id by lia. cbn [shr_record_of_loc shr_m].
    destruct R; done || lia.
Qed.

(** [binary_round_aux] rounds the bracketed rational [M/D * 2^e]. *)
Lemma round_aux_spec s m e l M D :
  0 <= m -> 0 <= M -> 0 < D -> bracket M D (shr_record_of_loc m l) ->
  e <= fexp (Zdigits2 m + e) ->
  let e' := fexp (Zdigits2 m + e) in
  let R := rne M (D * 2 ^ (e' - e)) in
  binary_round_aux prec emax s m e l = encode s R e' /\ 0 <= R <= 2 ^ prec.
Proof.
  intros Hm HM HD Hb He e' R. unfold binary_round_aux, shr_fexp at 1.
  fold e'. destruct (shr_bracket M D _ e (e' - e) HM HD ltac:(lia) Hb) as (r & -> & Hr).
  pose proof (Z.pow_pos_nonneg 2 (e' - e)) as Hp.
  rewrite (rne_bracket M (D * 2 ^ (e' - e))) by (done || nia).
  fold R. replace (e + (e' - e)) with e' by lia.
  assert (HR : 0 <= R <= 2 ^ prec).
  { split; [apply rne_ge; nia|]. apply rne_le; [nia|].
    destruct Hb as [Hq _]. assert (shr_m (shr_record_of_loc m l) = m) as Em
      by by destruct l as [|[]]. rewrite Em in Hq.
    destruct (Zdigits2_upper m Hm) as [Hd Hd0].
    pose proof (Z.div_mod M D) as Hdm. rewrite <- Hq in Hdm.
    pose proof (Z.mod_pos_bound M D HD).
    assert (2 ^ Zdigits2 m <= 2 ^ prec * 2 ^ (e' - e)).
    { rewrite <- Z.pow_add_r by lia. apply Z.pow_le_mono_r; [lia|].
      pose proof (fexp_ge (Zdigits2 m + e)). lia. }
    nia. }
  split; [|done]. apply encode_round; [done|]. apply emin_le_fexp.
Qed.

(** ** Order *)

(** [m1 * 2^e1 <= m2 * 2^e2] *)
Definition dle (m1 e1 m2 e2 : Z) : Prop :=
  m1 * 2 ^ (e1 - Z.min e1 e2) <= m2 * 2 ^ (e2 - Z.min e1 e2).

Lemma dle_at K m1 e1 m2 e2 :
  K <= e1 -> K <= e2 -> dle m1 e1 m2 e2 <-> m1 * 2 ^ (e1 - K) <= m2 * 2 ^ (e2 - K).
Proof.
  intros H1 H2. unfold dle. set (k := Z.min e1 e2).
  replace (e1 - K) with ((e1 - k) + (k - K)) by lia.
  replace (e2 - K) with ((e2 - k) + (k - K)) by lia.
  rewrite !Z.pow_add_r, !Z.mul_assoc by lia.
  pose proof (Z.pow_pos_nonneg 2 (k - K)). nia.
Qed.

Lemma dle_trans m1 e1 m2 e2 m3 e3 :
  dle m1 e1 m2 e2 -> dle m2 e2 m3 e3 -> dle m1 e1 m3 e3.
Proof.
  set (K := Z.min e1 (Z.min e2 e3)).
  rewrite !(dle_at K) by lia. lia.
Qed.

Lemma dle_shift m e k : 0 <= k -> dle m e (m * 2 ^ k) (e - k) /\ dle (m * 2 ^ k) (e - k) m e.
Proof.
  intros. rewrite !(dle_at (e - k)) by lia. rewrite Z.sub_diag.
  replace (e - (e - k)) with k by lia. rewrite Z.pow_0_r. lia.
Qed.

Lemma dle_same a b e : dle a e b e <-> a <= b.
Proof. unfold dle. rewrite Z.min_id, Z.sub_diag. lia. Qed.

Lemma dle_mul a e b f c g d h :
  0 <= a -> 0 <= c -> dle a e b f -> dle c g d h -> dle (a * c) (e + g) (b * d) (f + h).
Proof.
  intros Ha Hc H1 H2. set (K := Z.min e f). set (L := Z.min g h).
  rewrite (dle_at K) in H1 by lia. rewrite (dle_at L) in H2 by lia.
  rewrite (dle_at (K + L)) by lia.
  replace (e + g - (K + L)) with ((e - K) + (g - L)) by lia.
  replace (f + h - (K + L)) with ((f - K) + (h - L)) by lia.
  rewrite !Z.pow_add_r by lia.
  pose proof (Z.pow_pos_nonneg 2 (e - K)). pose proof (Z.pow_pos_nonneg 2 (g - L)). nia.
Qed.

Definition fcanon (m e : Z) : Prop :=
  0 < m < 2 ^ prec /\ emin <= e /\ (2 ^ (prec - 1) <= m \/ e = emin).

Lemma bounded_fcanon m e : bounded prec emax m e = true -> fcanon (Z.pos m) e.
Proof.
  unfold bounded, canonical_mantissa. intros H. zbool.
  pose proof (digits2_pos_bounds m) as [Hl Hu].
  assert (Z.pos (digits2_pos m) <= prec /\ emin <= e /\
          (Z.pos (digits2_pos m) = prec \/ e = emin)) as (Hd & He & Hc)
    by (unfold SpecFloat.fexp in H; lia).
  split; [|split; [done|]].
  - pose proof (Z.pow_le_mono_r 2 (Z.pos (digits2_pos m)) prec). lia.
  - destruct Hc as [Hc| ->]; [left|by right]. rewrite <- Hc. lia.
Qed.

(** Comparing canonical floats is comparing exponents, then mantissas. *)
Lemma fcanon_gap m1 e1 m2 e2 :
  fcanon m1 e1 -> fcanon m2 e2 -> e2 < e1 -> ~ dle m1 e1 m2 e2.
Proof.
  intros (_ & He1 & Hc1) ([_ Hm2] & He2 & _) Hlt. rewrite (dle_at e2) by lia.
  destruct Hc1 as [Hc1|]; [|lia]. rewrite Z.sub_diag, Z.mul_1_r.
  assert (2 ^ prec <= 2 ^ (prec - 1) * 2 ^ (e1 - e2)).
  { rewrite <- Z.pow_add_r by lia. apply Z.pow_le_mono_r; lia. }
  pose proof (Z.pow_pos_nonneg 2 (e1 - e2)). nia.
Qed.

Lemma SFleb_dle m1 e1 m2 e2 :
  fcanon (Z.pos m1) e1 -> fcanon (Z.pos m2) e2 ->
  SFleb (S754_finite false m1 e1) (S754_finite false m2 e2) = true <->
  dle (Z.pos m1) e1 (Z.pos m2) e2.
Proof.
  intros H1 H2. unfold SFleb, SFcompare.
  destruct (Z.compare_spec e1 e2) as [->|Hlt|Hgt].
  - rewrite (dle_at e2), Z.sub_diag, !Z.mul_1_r by lia.
    change (Pos.compare_cont Eq m1 m2) with (m1 ?= m2)%positive.
    destruct (Pos.compare_spec m1 m2); split; try done; try lia.
  - split; [intros _|done]. pose proof (fcanon_gap _ _ _ _ H2 H1 Hlt) as Hn.
    rewrite (dle_at e1) in Hn by lia. rewrite (dle_at e1) by lia. lia.
  - split; [done|]. intros Hd. by destruct (fcanon_gap _ _ _ _ H1 H2 Hgt).
Qed.

Definition repr (b f : Z) : Prop := 0 < b < 2 ^ prec /\ emin <= f.

Lemma encode_fcanon s R e :
  0 < R <= 2 ^ prec -> emin <= e -> (2 ^ (prec - 1) <= R \/ e = emin) ->
  exists m e2, fcanon (Z.pos m) e2 /\
    dle R e (Z.pos m) e2 /\ dle (Z.pos m) e2 R e /\
    encode s R e = (if e2 <=? emax - prec then S754_finite s m e2 else S754_infinity s).
Proof.
  intros HR He Hn. unfold encode. zcase; [lia|].
  pose proof (Z.pow_pos_nonneg 2 (prec - 1)).
  assert (Hp : 2 ^ prec = 2 ^ (prec - 1) * 2 ^ 1) by (rewrite <- Z.pow_add_r by lia; f_equal; lia).
  destruct (Z.eqb_spec R (2 ^ prec)) as [->|].
  - exists (Z.to_pos (2 ^ (prec - 1))), (e + 1). rewrite Z2Pos.id by lia.
    split; [split; [lia|split; [lia|left; lia]]|].
    rewrite Hp. pose proof (dle_shift (2 ^ (prec - 1)) (e + 1) 1 ltac:(lia)) as Hs.
    replace (e + 1 - 1) with e in Hs by lia. split_and!; [apply Hs..|done].
  - exists (Z.to_pos R), e. rewrite Z2Pos.id by lia.
    split_and!; [split; [lia|by split]|unfold dle; lia..|done].
Qed.

(** The largest and smallest floats that bound a number also bound its
    rounding: rounding is monotone and exact on the format. *)
Lemma rne_round_ge M D e e' b f :
  0 <= M -> 0 < D -> e <= e' -> repr b f ->
  (2 ^ (prec - 1) <= rne M (D * 2 ^ (e' - e)) \/ e' = emin) ->
  dle (b * D) f M e -> dle b f (rne M (D * 2 ^ (e' - e))) e'.
Proof.
  intros HM HD He [Hb Hf] Hn HB. set (R := rne _ _) in *.
  pose proof (Z.pow_pos_nonneg 2 (e' - e)).
  destruct (Z.le_gt_cases e' f) as [Hle|Hgt].
  - rewrite (dle_at e'), Z.sub_diag, Z.mul_1_r by lia. apply rne_ge; [nia|].
    rewrite (dle_at e), Z.sub_diag, Z.mul_1_r in HB by lia.
    replace (f - e) with ((f - e') + (e' - e)) in HB by lia.
    rewrite Z.pow_add_r in HB by lia. lia.
  - destruct Hn as [Hn|]; [|lia]. rewrite (dle_at f), Z.sub_diag, Z.mul_1_r by lia.
    assert (2 ^ prec <= 2 ^ (prec - 1) * 2 ^ (e' - f)).
    { rewrite <- Z.pow_add_r by lia. apply Z.pow_le_mono_r; lia. }
    pose proof (Z.pow_pos_nonneg 2 (e' - f)). nia.
Qed.

Lemma rne_round_le M D e e' b f :
  0 <= M -> 0 < D -> e <= e' -> repr b f ->
  (2 ^ (prec - 1) * (D * 2 ^ (e' - e)) <= M \/ e' = emin) ->
  dle M e (b * D) f -> dle (rne M (D * 2 ^ (e' - e))) e' b f.
Proof.
  intros HM HD He [Hb Hf] Hn HB. set (R := rne _ _) in *.
  pose proof (Z.pow_pos_nonneg 2 (e' - e)).
  destruct (Z.le_gt_cases e' f) as [Hle|Hgt].
  - rewrite (dle_at e'), Z.sub_diag, Z.mul_1_r by lia. apply rne_le; [nia|].
    rewrite (dle_at e), Z.sub_diag, Z.mul_1_r in HB by lia.
    replace (f - e) with ((f - e') + (e' - e)) in HB by lia.
    rewrite Z.pow_add_r in HB by lia. lia.
  - exfalso. destruct Hn as [Hn|]; [|lia].
    set (K := Z.min e f). rewrite (dle_at K) in HB by lia.
    assert (2 ^ prec * 2 ^ (f - K) <= 2 ^ (prec - 1) * 2 ^ (e' - e) * 2 ^ (e - K)).
    { rewrite <- !Z.pow_add_r by lia. apply Z.pow_le_mono_r; lia. }
    pose proof (Z.pow_pos_nonneg 2 (f - K)) as HF.
    pose proof (Z.pow_pos_nonneg 2 (e - K)) as HE.
    apply (Z.mul_le_mono_nonneg_r _ _ (2 ^ (e - K))) in Hn; [|lia].
    assert (b * D * 2 ^ (f - K) < 2 ^ prec * 2 ^ (f - K) * D) by nia.
    assert (2 ^ prec * 2 ^ (f - K) * D
            <= 2 ^ (prec - 1) * 2 ^ (e' - e) * 2 ^ (e - K) * D) by nia.
    lia.
Qed.

(** A number with enough digits keeps a full mantissa. *)
Lemma full_mantissa m M D e :
  0 <= m -> 0 < D -> m = M / D ->
  let e' := fexp (Zdigits2 m + e) in
  e <= e' -> 2 ^ (prec - 1) * (D * 2 ^ (e' - e)) <= M \/ e' = emin.
Proof.
  intros Hm HD -> e' He. destruct (Z.eq_dec e' emin); [by right|left].
  destruct (Z.eq_dec (M / D) 0) as [E0|Hm0].
  { unfold e', SpecFloat.fexp in *. rewrite E0 in *. cbn [Zdigits2] in *. lia. }
  assert (Ee : e' - e = Zdigits2 (M / D) - prec) by (unfold e', SpecFloat.fexp in *; lia).
  rewrite Ee. pose proof (Zdigits2_bounds (M / D) ltac:(lia)) as [Hl _].
  assert (2 ^ (prec - 1) * 2 ^ (Zdigits2 (M / D) - prec) = 2 ^ (Zdigits2 (M / D) - 1)) as Ep
    by (rewrite <- Z.pow_add_r by lia; f_equal; lia).
  pose proof (Z.mul_div_le M D HD). nia.
Qed.

Lemma loc_mantissa m l : shr_m (shr_record_of_loc m l) = m.
Proof. by destruct l as [|[]]. Qed.

Lemma round_ge s m e l M D b f :
  0 < m -> 0 < D -> bracket M D (shr_record_of_loc m l) ->
  e <= fexp (Zdigits2 m + e) -> repr b f -> dle (b * D) f M e ->
  exists mr er, fcanon (Z.pos mr) er /\ dle b f (Z.pos mr) er /\
    binary_round_aux prec emax s m e l =
      (if er <=? emax - prec then S754_finite s mr er else S754_infinity s) /\
    (forall b' f', repr b' f' -> dle M e (b' * D) f' -> dle (Z.pos mr) er b' f').
Proof.
  intros Hm HD Hb He HB Hle.
  assert (Hq : m = M / D) by (rewrite <- (loc_mantissa m l); apply Hb).
  assert (HM : 0 <= M) by (apply Z.nlt_ge; intros ?; pose proof (Z.div_lt_upper_bound M D 0); lia).
  destruct (round_aux_spec s m e l M D ltac:(lia) HM HD Hb He) as [-> HR].
  pose proof (full_mantissa m M D e ltac:(lia) HD Hq He) as Hf. simpl in Hf.
  set (e' := SpecFloat.fexp prec emax (Zdigits2 m + e)) in *.
  pose proof (Z.pow_pos_nonneg 2 (e' - e)).
  assert (Hn : 2 ^ (prec - 1) <= rne M (D * 2 ^ (e' - e)) \/ e' = emin).
  { destruct Hf as [Hf|]; [left|by right]. apply rne_ge; [nia|]. lia. }
  pose proof (rne_round_ge M D e e' b f HM HD He HB Hn Hle) as Hlo.
  assert (Hpos : 0 < rne M (D * 2 ^ (e' - e))).
  { destruct HB as [[? ?] ?]. unfold dle in Hlo.
    pose proof (Z.pow_pos_nonneg 2 (f - Z.min f e')).
    pose proof (Z.pow_pos_nonneg 2 (e' - Z.min f e')). nia. }
  destruct (encode_fcanon s _ e' (conj Hpos (proj2 HR)) (emin_le_fexp _) Hn)
    as (mr & er & Hc & Hd1 & Hd2 & ->).
  exists mr, er. split_and!; [done|by eapply dle_trans|done|].
  intros b' f' HB' Hle'. eapply dle_trans; [exact Hd2|].
  by apply rne_round_le.
Qed.

Lemma fcanon_exp_le m e b f :
  fcanon m e -> repr b f -> dle m e b f -> e <= f.
Proof.
  intros (_ & _ & Hn) [Hb Hf] Hd. apply Z.nlt_ge. intros Hlt. destruct Hn as [Hn|]; [|lia].
  rewrite (dle_at f), Z.sub_diag, Z.mul_1_r in Hd by lia.
  assert (2 ^ prec <= 2 ^ (prec - 1) * 2 ^ (e - f)).
  { rewrite <- Z.pow_add_r by lia. apply Z.pow_le_mono_r; lia. }
  pose proof (Z.pow_pos_nonneg 2 (e - f)). nia.
Qed.

Lemma round_between s m e l M D b1 f1 b2 f2 :
  0 < m -> 0 < D -> bracket M D (shr_record_of_loc m l) ->
  e <= fexp (Zdigits2 m + e) -> repr b1 f1 -> repr b2 f2 -> f2 <= emax - prec ->
  dle (b1 * D) f1 M e -> dle M e (b2 * D) f2 ->
  exists mr er, binary_round_aux prec emax s m e l = S754_finite s mr er /\
    fcanon (Z.pos mr) er /\ er <= emax - prec /\
    dle b1 f1 (Z.pos mr) er /\ dle (Z.pos mr) er b2 f2.
Proof.
  intros Hm HD Hb He H1 H2 Hf2 Hlo Hhi.
  destruct (round_ge s m e l M D b1 f1 Hm HD Hb He H1 Hlo) as (mr & er & Hc & Hd & -> & Hu).
  specialize (Hu b2 f2 H2 Hhi). exists mr, er.
  pose proof (fcanon_exp_le _ _ _ _ Hc H2 Hu).
  destruct (Z.leb_spec er (emax - prec)); [|lia]. by split_and!.
Qed.

(** ** Validity: every operation returns a number of the format *)

Local Abbreviation valid := (fun x => valid_binary prec emax x = true).

Lemma fcanon_bounded m e : fcanon (Z.pos m) e -> e <= emax - prec -> bounded prec emax m e = true.
Proof.
  intros ([_ Hm] & He & Hc) Hmax. unfold bounded, canonical_mantissa. apply andb_true_iff.
  split; [|by apply Z.leb_le]. apply Z.eqb_eq.
  assert (Zdigits2 (Z.pos m) <= prec) by (apply Zdigits2_le; lia).
  destruct Hc as [Hc| ->]; unfold SpecFloat.fexp; cbn [Zdigits2] in *; [|lia].
  assert (Zdigits2 (Z.pos m) = prec) as E by (apply Zdigits2_unique; lia). cbn [Zdigits2] in E. lia.
Qed.

Lemma round_aux_valid s m e l M D :
  0 <= m -> 0 <= M -> 0 < D -> bracket M D (shr_record_of_loc m l) ->
  e <= fexp (Zdigits2 m + e) -> valid (binary_round_aux prec emax s m e l).
Proof.
  intros Hm HM HD Hb He. destruct (round_aux_spec s m e l M D Hm HM HD Hb He) as [-> HR].
  assert (Hq : m = M / D) by (rewrite <- (loc_mantissa m l); apply Hb).
  pose proof (full_mantissa m M D e Hm HD Hq He) as Hf. simpl in Hf.
  set (e' := SpecFloat.fexp prec emax (Zdigits2 m + e)) in *.
  set (R := rne M (D * 2 ^ (e' - e))) in *. pose proof (Z.pow_pos_nonneg 2 (e' - e)).
  destruct (Z.eq_dec R 0) as [->|Hz]; [done|].
  destruct (encode_fcanon s R e' ltac:(lia) (emin_le_fexp _)) as (mr & er & Hc & _ & _ & ->).
  { destruct Hf as [Hf|]; [left|by right]. apply rne_ge; [nia|]. lia. }
  destruct (Z.leb_spec er (emax - prec)); [|done]. by apply fcanon_bounded.
Qed.

Lemma shl_align_fexp m e :
  exists mz e0, shl_align m e (fexp (Z.pos (digits2_pos m) + e)) = (mz, e0) /\
    e0 <= fexp (Zdigits2 (Z.pos mz) + e0) /\
    dle (Z.pos m) e (Z.pos mz) e0 /\ dle (Z.pos mz) e0 (Z.pos m) e.
Proof.
  set (ez := SpecFloat.fexp prec emax (Z.pos (digits2_pos m) + e)).
  destruct (Z.le_gt_cases ez e) as [Hle|Hgt].
  - rewrite shl_align_spec by done. pose proof (Z.pow_pos_nonneg 2 (e - ez)).
    pose proof (dle_shift (Z.pos m) e (e - ez) ltac:(lia)) as Hs.
    replace (e - (e - ez)) with ez in Hs by lia.
    exists (Z.to_pos (Z.pos m * 2 ^ (e - ez))), ez. rewrite Z2Pos.id by nia.
    split_and!; [done| |apply Hs..]. rewrite Zdigits2_shift by lia.
    replace (Zdigits2 (Z.pos m) + (e - ez) + ez) with (Z.pos (digits2_pos m) + e)
      by (simpl; lia). done.
  - rewrite shl_align_id by lia. exists m, e.
    split_and!; [done|simpl; fold ez; lia|unfold dle; lia..].
Qed.

Lemma binary_round_valid s m e : valid (binary_round prec emax s m e).
Proof.
  unfold binary_round. destruct (shl_align_fexp m e) as (mz & e0 & -> & He & _).
  apply (round_aux_valid _ _ _ _ (Z.pos mz) 1); try done; [lia..|]. apply bracket_exact.
Qed.

Lemma binary_normalize_valid m e s : valid (binary_normalize prec emax m e s).
Proof. destruct m; simpl; [done|apply binary_round_valid..]. Qed.

Lemma SFadd_valid x y : valid x -> valid y -> valid (SFadd prec emax x y).
Proof.
  destruct x as [[]|[]| |], y as [[]|[]| |]; intros Hx Hy; try done; apply binary_normalize_valid.
Qed.

Lemma SFmul_valid x y : valid x -> valid y -> valid (SFmul prec emax x y).
Proof.
  destruct x as [[]|[]| |sx mx ex], y as [[]|[]| |sy my ey]; intros Hx Hy; try done.
  apply bounded_fcanon in Hx as (Hmx & Hex & Hx), Hy as (Hmy & Hey & Hy). unfold SFmul.
  apply (round_aux_valid _ _ _ _ (Z.pos (mx * my)) 1); try done; [lia..|apply bracket_exact|].
  rewrite Pos2Z.inj_mul.
  assert (Hd : forall a b, 2 ^ (prec - 1) <= Z.pos a -> prec <= Zdigits2 (Z.pos a * Z.pos b)).
  { intros a b Ha. etransitivity; [|apply (Zdigits2_mono (2 ^ (prec - 1)))].
    - rewrite (Zdigits2_unique (2 ^ (prec - 1)) prec); [lia|lia|].
      split; [lia|]. apply Z.pow_lt_mono_r; lia.
    - pose proof (Z.pow_pos_nonneg 2 (prec - 1)). nia. }
  unfold SpecFloat.fexp. destruct Hx as [Hx| ->].
  { specialize (Hd mx my Hx). lia. }
  destruct Hy as [Hy| ->].
  { specialize (Hd my mx Hy). rewrite Z.mul_comm in Hd. lia. }
  unfold SpecFloat.emin in *. lia.
Qed.

(** ** Exact results *)

(** [x] is the float of value [(-1)^s * b * 2^f]. *)
Definition is_float (x : spec_float) (s : bool) (b f : Z) : Prop :=
  exists m e, x = S754_finite s m e /\ fcanon (Z.pos m) e /\ e <= emax - prec /\
    dle b f (Z.pos m) e /\ dle (Z.pos m) e b f.

Lemma fcanon_unique m1 e1 m2 e2 :
  fcanon m1 e1 -> fcanon m2 e2 -> dle m1 e1 m2 e2 -> dle m2 e2 m1 e1 -> m1 = m2 /\ e1 = e2.
Proof.
  intros H1 H2 Ha Hb.
  assert (e1 = e2) as ->.
  { destruct (Z.lt_trichotomy e1 e2) as [Hl|[?|Hl]]; [exfalso|done|exfalso].
    - by apply (fcanon_gap _ _ _ _ H2 H1).
    - by apply (fcanon_gap _ _ _ _ H1 H2). }
  split; [|done]. unfold dle in *. rewrite Z.min_id, Z.sub_diag in *. lia.
Qed.

Lemma is_float_unique x y s b f : is_float x s b f -> is_float y s b f -> x = y.
Proof.
  intros (m1 & e1 & -> & H1 & _ & Ha & Hb) (m2 & e2 & -> & H2 & _ & Hc & Hd).
  destruct (fcanon_unique _ _ _ _ H1 H2) as [[= ->] ->]; [by eapply dle_trans..|done].
Qed.

Lemma binary_round_between s m e b1 f1 b2 f2 :
  repr b1 f1 -> repr b2 f2 -> f2 <= emax - prec ->
  dle b1 f1 (Z.pos m) e -> dle (Z.pos m) e b2 f2 ->
  exists mr er, binary_round prec emax s m e = S754_finite s mr er /\
    fcanon (Z.pos mr) er /\ er <= emax - prec /\
    dle b1 f1 (Z.pos mr) er /\ dle (Z.pos mr) er b2 f2.
Proof.
  intros Hb1 Hb2 Hf Ha Hd. unfold binary_round.
  destruct (shl_align_fexp m e) as (mz & e0 & -> & He & H1 & H2).
  apply (round_between s (Z.pos mz) e0 loc_Exact (Z.pos mz) 1 b1 f1 b2 f2);
    rewrite ?Z.mul_1_r; try done; try lia; try by (eapply dle_trans; eauto).
  apply bracket_exact.
Qed.

Lemma binary_round_exact s m e b f :
  repr b f -> f <= emax - prec ->
  dle b f (Z.pos m) e -> dle (Z.pos m) e b f ->
  is_float (binary_round prec emax s m e) s b f.
Proof.
  intros Hb Hf Ha Hd.
  destruct (binary_round_between s m e b f b f) as (mr & er & ? & ? & ? & ? & ?); try done.
  exists mr, er. by split_and!.
Qed.

(** Multiplying a normal number and adding positive numbers keeps bounds. *)
Lemma SFmul_between sx sy mx ex my ey b1 f1 b2 f2 :
  2 ^ (prec - 1) <= Z.pos mx ->
  repr b1 f1 -> repr b2 f2 -> f2 <= emax - prec ->
  dle b1 f1 (Z.pos mx * Z.pos my) (ex + ey) -> dle (Z.pos mx * Z.pos my) (ex + ey) b2 f2 ->
  exists mr er,
    SFmul prec emax (S754_finite sx mx ex) (S754_finite sy my ey) =
      S754_finite (xorb sx sy) mr er /\
    fcanon (Z.pos mr) er /\ er <= emax - prec /\
    dle b1 f1 (Z.pos mr) er /\ dle (Z.pos mr) er b2 f2.
Proof.
  intros Hx H1 H2 Hf Hl Hu. unfold SFmul. rewrite Pos2Z.inj_mul.
  set (M := Z.pos mx * Z.pos my) in *.
  assert (HM : 2 ^ (prec - 1) <= M) by (unfold M; nia).
  assert (Hd : prec <= Zdigits2 M).
  { apply Z.nlt_ge. intros Hlt. pose proof (Zdigits2_bounds M ltac:(unfold M; nia)).
    pose proof (Z.pow_le_mono_r 2 (Zdigits2 M) (prec - 1)). lia. }
  apply (round_between _ M _ loc_Exact M 1); rewrite ?Z.mul_1_r; try done; try lia.
  - apply bracket_exact.
  - unfold SpecFloat.fexp. lia.
Qed.

Lemma SFadd_between mx ex my ey b1 f1 b2 f2 :
  repr b1 f1 -> repr b2 f2 -> f2 <= emax - prec ->
  (forall K, K <= ex -> K <= ey -> K <= f1 -> K <= f2 ->
     b1 * 2 ^ (f1 - K) <= Z.pos mx * 2 ^ (ex - K) + Z.pos my * 2 ^ (ey - K)
                       <= b2 * 2 ^ (f2 - K)) ->
  exists mr er,
    SFadd prec emax (S754_finite false mx ex) (S754_finite false my ey) =
      S754_finite false mr er /\
    fcanon (Z.pos mr) er /\ er <= emax - prec /\
    dle b1 f1 (Z.pos mr) er /\ dle (Z.pos mr) er b2 f2.
Proof.
  intros H1 H2 Hf HK. unfold SFadd. set (ez := Z.min ex ey).
  rewrite !shl_align_spec by lia. cbn [fst cond_Zopp].
  pose proof (Z.pow_pos_nonneg 2 (ex - ez)). pose proof (Z.pow_pos_nonneg 2 (ey - ez)).
  rewrite !Z2Pos.id by nia.
  specialize (HK (Z.min ez (Z.min f1 f2)) ltac:(lia) ltac:(lia) ltac:(lia) ltac:(lia)).
  set (K := Z.min ez (Z.min f1 f2)) in *.
  replace (ex - K) with ((ex - ez) + (ez - K)) in HK by lia.
  replace (ey - K) with ((ey - ez) + (ez - K)) in HK by lia.
  rewrite !Z.pow_add_r in HK by lia.
  destruct (Z.pos mx * 2 ^ (ex - ez) + Z.pos my * 2 ^ (ey - ez)) as [|M|M] eqn:EM;
    [nia| |nia].
  apply binary_round_between; try done; rewrite (dle_at K) by lia; rewrite <- EM; lia.
Qed.

(** Dividing normal numbers keeps bounds too. *)
Lemma new_location_bracket q M D :
  0 < D -> q = M / D -> bracket M D (shr_record_of_loc q (new_location D (M mod D))).
Proof.
  intros HD ->. pose proof (Z.mod_pos_bound M D HD) as Hr. unfold bracket. set (r := M mod D) in *.
  rewrite loc_mantissa. split; [done|].
  assert (Hs : 2 * r < D -> (2 * r) mod D = 2 * r) by (intros; apply Z.mod_small; lia).
  assert (Hg : D <= 2 * r -> (2 * r) mod D = 2 * r - D)
    by (intros; symmetry; apply (Z.mod_unique_pos _ _ 1); lia).
  unfold new_location. destruct (Z.even D) eqn:Ev.
  - unfold new_location_even. destruct (Z.eqb_spec r 0).
    { simpl. repeat zcase; split; lia || done. }
    destruct (Z.compare_spec (2 * r) D); simpl; repeat zcase; split; lia || done.
  - assert (Hodd : exists k, D = 2 * k + 1).
    { apply Z.odd_spec. by rewrite <- Z.negb_even, Ev. }
    destruct Hodd as [k Hk]. unfold new_location_odd. destruct (Z.eqb_spec r 0).
    { simpl. repeat zcase; split; lia || done. }
    destruct (Z.compare_spec (2 * r + 1) D); simpl; repeat zcase; split; lia || done.
Qed.

(** The quotient before rounding, for a normal dividend and a result that is
    not subnormal. *)
Lemma SFdiv_unrounded sx sy mx ex my ey :
  2 ^ (prec - 1) <= Z.pos mx < 2 ^ prec -> emin <= ex - ey - Zdigits2 (Z.pos my) ->
  exists q e l,
    SFdiv prec emax (S754_finite sx mx ex) (S754_finite sy my ey) =
      binary_round_aux prec emax (xorb sx sy) q e l /\
    0 < q /\ bracket (Z.pos mx * 2 ^ Zdigits2 (Z.pos my)) (Z.pos my) (shr_record_of_loc q l) /\
    e <= fexp (Zdigits2 q + e) /\ e = ex - ey - Zdigits2 (Z.pos my).
Proof.
  intros Hx He. pose proof (Zdigits2_bounds (Z.pos my) ltac:(lia)) as Hy.
  pose proof (Zdigits2_pos (Z.pos my) ltac:(lia)) as Hdy.
  set (dy := Zdigits2 (Z.pos my)) in *. unfold SFdiv, SFdiv_core_binary. fold dy.
  rewrite (Zdigits2_unique (Z.pos mx) prec) by lia.
  assert (Ee : Z.min (fexp (prec + ex - (dy + ey))) (ex - ey) = ex - ey - dy)
    by (unfold SpecFloat.fexp; lia).
  rewrite Ee. replace (ex - ey - (ex - ey - dy)) with dy by lia.
  assert (Es : forall z, match dy with Z0 => z | Zpos _ => Z.shiftl z dy | Zneg _ => 0 end = z * 2 ^ dy).
  { intros z. rewrite <- Z.shiftl_mul_pow2 by lia. destruct dy; done || lia. }
  rewrite Es. set (M := Z.pos mx * 2 ^ dy). set (D := Z.pos my) in *.
  destruct (Z.div_eucl M D) as [q r] eqn:Eqr.
  assert (Hq : q = M / D) by (unfold Z.div; by rewrite Eqr).
  assert (Hrm : r = M mod D) by (unfold Z.modulo; by rewrite Eqr).
  pose proof (Z.pow_pos_nonneg 2 (prec - 1)).
  assert (Hq1 : 2 ^ (prec - 1) <= q).
  { rewrite Hq. apply Z.div_le_lower_bound; [lia|]. unfold M. nia. }
  assert (Hd : prec <= Zdigits2 q).
  { apply Z.nlt_ge. intros Hlt. pose proof (Zdigits2_bounds q ltac:(lia)).
    pose proof (Z.pow_le_mono_r 2 (Zdigits2 q) (prec - 1)). lia. }
  exists q, (ex - ey - dy), (new_location D (M mod D)). rewrite Hrm. split_and!; try done; [lia| |].
  - by apply new_location_bracket.
  - unfold SpecFloat.fexp. lia.
Qed.

(** Comparing the scaled quotient with [b * 2^f] is comparing the operands. *)
Lemma dle_quotient b f x my ex ey k :
  0 <= k ->
  (dle (b * my) (f + ey) x ex <-> dle (b * my) f (x * 2 ^ k) (ex - ey - k)) /\
  (dle x ex (b * my) (f + ey) <-> dle (x * 2 ^ k) (ex - ey - k) (b * my) f).
Proof.
  intros Hk. set (K := Z.min (f + ey) (ex - k)).
  rewrite !(dle_at K _ (f + ey)), !(dle_at K _ ex) by lia.
  rewrite !(dle_at (K - ey) _ f), !(dle_at (K - ey) _ (ex - ey - k)) by lia.
  replace (f - (K - ey)) with (f + ey - K) by lia.
  replace (ex - K) with (k + (ex - ey - k - (K - ey))) by lia.
  rewrite Z.pow_add_r by lia. lia.
Qed.

Lemma SFdiv_between sx sy mx ex my ey b1 f1 b2 f2 :
  2 ^ (prec - 1) <= Z.pos mx < 2 ^ prec -> emin <= ex - ey - Zdigits2 (Z.pos my) ->
  repr b1 f1 -> repr b2 f2 -> f2 <= emax - prec ->
  dle (b1 * Z.pos my) (f1 + ey) (Z.pos mx) ex -> dle (Z.pos mx) ex (b2 * Z.pos my) (f2 + ey) ->
  exists mr er,
    SFdiv prec emax (S754_finite sx mx ex) (S754_finite sy my ey) =
      S754_finite (xorb sx sy) mr er /\
    fcanon (Z.pos mr) er /\ er <= emax - prec /\
    dle b1 f1 (Z.pos mr) er /\ dle (Z.pos mr) er b2 f2.
Proof.
  intros Hx He H1 H2 Hf Hl Hu. pose proof (Zdigits2_pos (Z.pos my) ltac:(lia)).
  destruct (SFdiv_unrounded sx sy mx ex my ey Hx He) as (q & e & l & -> & Hq & Hb & Hfe & ->).
  apply (round_between _ q _ l (Z.pos mx * 2 ^ Zdigits2 (Z.pos my)) (Z.pos my)); try done;
    apply dle_quotient; lia || done.
Qed.

(** A quotient of at least [b * 2^f] does not round below it. *)
Lemma SFdiv_ge sx sy mx ex my ey b f :
  2 ^ (prec - 1) <= Z.pos mx < 2 ^ prec -> emin <= ex - ey - Zdigits2 (Z.pos my) ->
  repr b f -> dle (b * Z.pos my) (f + ey) (Z.pos mx) ex ->
  exists mr er, fcanon (Z.pos mr) er /\ dle b f (Z.pos mr) er /\
    SFdiv prec emax (S754_finite sx mx ex) (S754_finite sy my ey) =
      (if er <=? emax - prec then S754_finite (xorb sx sy) mr er else S754_infinity (xorb sx sy)).
Proof.
  intros Hx He H1 Hl. pose proof (Zdigits2_pos (Z.pos my) ltac:(lia)).
  destruct (SFdiv_unrounded sx sy mx ex my ey Hx He) as (q & e & l & -> & Hq & Hb & Hfe & ->).
  destruct (round_ge (xorb sx sy) q _ l _ (Z.pos my) b f Hq ltac:(lia) Hb Hfe H1) as (mr & er & Hc & Hd & E & _);
    [apply dle_quotient; lia || done|]. eauto.
Qed.

Lemma SFdiv_core_valid s mx ex my ey :
  let '(q, e, l) := SFdiv_core_binary prec emax (Z.pos mx) ex (Z.pos my) ey in
  valid (binary_round_aux prec emax s q e l).
Proof.
  unfold SFdiv_core_binary. set (dx := Zdigits2 (Z.pos mx)). set (dy := Zdigits2 (Z.pos my)).
  set (e := Z.min _ _). set (k := ex - ey - e).
  assert (Hk : 0 <= k) by lia.
  assert (Es : match k with Z0 => Z.pos mx | Zpos _ => Z.shiftl (Z.pos mx) k | Zneg _ => 0 end
               = Z.pos mx * 2 ^ k).
  { rewrite <- Z.shiftl_mul_pow2 by lia. destruct k; done || lia. }
  rewrite Es. set (M := Z.pos mx * 2 ^ k). set (D := Z.pos my).
  destruct (Z.div_eucl M D) as [q r] eqn:Eqr.
  assert (Hq : q = M / D) by (unfold Z.div; by rewrite Eqr).
  assert (Hrm : r = M mod D) by (unfold Z.modulo; by rewrite Eqr). rewrite Hrm.
  pose proof (Z.pow_pos_nonneg 2 k).
  assert (Hq0 : 0 <= q) by (rewrite Hq; apply Z.div_pos; unfold M, D; nia).
  apply (round_aux_valid _ _ _ _ M D); try (unfold M, D; nia).
  - by apply new_location_bracket.
  - assert (Hd : dx + k - dy <= Zdigits2 q).
    { destruct (Zdigits2_upper q Hq0) as [Hu Hu0].
      assert (HM : Zdigits2 M = dx + k) by (apply Zdigits2_shift; lia).
      assert (HMd : M < 2 ^ (Zdigits2 q + dy)).
      { rewrite Z.pow_add_r by (unfold dy; simpl; lia).
        destruct (Zdigits2_upper D) as [HD _]; [unfold D; lia|]. change (Zdigits2 D) with dy in HD.
        pose proof (Z.mul_succ_div_gt M D ltac:(unfold D; lia)) as Hs. rewrite <- Hq in Hs.
        pose proof (Z.mul_le_mono_nonneg D (2 ^ dy) (Z.succ q) (2 ^ Zdigits2 q)).
        unfold D in *. lia. }
      enough (Zdigits2 M <= Zdigits2 q + dy) by lia.
      apply Zdigits2_le; [unfold M; nia|unfold dy; simpl; lia|done]. }
    unfold e, k, SpecFloat.fexp in *. lia.
Qed.

Lemma SFdiv_valid x y : valid x -> valid y -> valid (SFdiv prec emax x y).
Proof.
  destruct x as [[]|[]| |sx mx ex], y as [[]|[]| |sy my ey]; intros _ _; try done.
  unfold SFdiv. pose proof (SFdiv_core_valid (xorb sx sy) mx ex my ey) as H.
  by destruct (SFdiv_core_binary _ _ _ _ _ _) as [[q e] l].
Qed.

Lemma is_float_eq_at x s b f K m e :
  x = S754_finite s m e -> K <= e -> K <= f ->
  dle b f (Z.pos m) e -> dle (Z.pos m) e b f ->
  Z.pos m * 2 ^ (e - K) = b * 2 ^ (f - K).
Proof. intros _ He Hf. rewrite !(dle_at K) by lia. lia. Qed.

Lemma binary_normalize_exact M e c f :
  0 < Z.abs c < 2 ^ prec -> emin <= f <= emax - prec ->
  (forall K, K <= e -> K <= f -> M * 2 ^ (e - K) = c * 2 ^ (f - K)) ->
  is_float (binary_normalize prec emax M e false) (c <? 0) (Z.abs c) f.
Proof.
  intros Hc Hf HK. specialize (HK (Z.min e f) ltac:(lia) ltac:(lia)).
  pose proof (Z.pow_pos_nonneg 2 (e - Z.min e f)).
  pose proof (Z.pow_pos_nonneg 2 (f - Z.min e f)).
  assert (Hrep : repr (Z.abs c) f) by (unfold repr; lia).
  destruct M as [|m|m]; simpl.
  - exfalso. nia.
  - assert (0 < c) by nia. destruct (Z.ltb_spec c 0); [lia|].
    apply binary_round_exact; [done|lia|..]; rewrite (dle_at (Z.min e f)) by lia; lia.
  - assert (c < 0) by nia. destruct (Z.ltb_spec c 0); [|lia].
    apply binary_round_exact; [done|lia|..]; rewrite (dle_at (Z.min e f)) by lia; lia.
Qed.

Lemma SFadd_exact x y sx sy a b f :
  is_float x sx a f -> is_float y sy b f -> emin <= f <= emax - prec ->
  let c := cond_Zopp sx a + cond_Zopp sy b in
  Z.abs c < 2 ^ prec ->
  (c <> 0 -> is_float (SFadd prec emax x y) (c <? 0) (Z.abs c) f) /\
  (c = 0 -> SFadd prec emax x y = S754_zero false).
Proof.
  intros (mx & ex & -> & Hx & _ & Hx1 & Hx2) (my & ey & -> & Hy & _ & Hy1 & Hy2) Hf c Hc.
  unfold SFadd. set (ez := Z.min ex ey).
  rewrite !shl_align_spec by lia. cbn [fst].
  pose proof (Z.pow_pos_nonneg 2 (ex - ez)). pose proof (Z.pow_pos_nonneg 2 (ey - ez)).
  rewrite !Z2Pos.id by nia.
  set (M := cond_Zopp sx (Z.pos mx * 2 ^ (ex - ez)) + cond_Zopp sy (Z.pos my * 2 ^ (ey - ez))).
  assert (HK : forall K, K <= ez -> K <= f -> M * 2 ^ (ez - K) = c * 2 ^ (f - K)).
  { intros K HK1 HK2.
    pose proof (is_float_eq_at _ sx a f K mx ex eq_refl ltac:(lia) HK2 Hx1 Hx2) as Ex.
    pose proof (is_float_eq_at _ sy b f K my ey eq_refl ltac:(lia) HK2 Hy1 Hy2) as Ey.
    replace (ex - K) with ((ex - ez) + (ez - K)) in Ex by lia.
    replace (ey - K) with ((ey - ez) + (ez - K)) in Ey by lia.
    rewrite Z.pow_add_r in Ex, Ey by lia.
    unfold M, c. destruct sx, sy; simpl; lia. }
  split; intros Hz.
  - apply binary_normalize_exact; [lia|done|done].
  - assert (M = 0) as ->; [|done]. specialize (HK (Z.min ez f) ltac:(lia) ltac:(lia)).
    rewrite Hz in HK. pose proof (Z.pow_pos_nonneg 2 (ez - Z.min ez f)). nia.
Qed.

(** The sum of the absolute exponents keeps the product in the normal range. *)
Lemma SFmul_exact x y sx sy a b f g :
  is_float x sx a f -> is_float y sy b g ->
  0 < a -> 0 < b -> emin + prec - 1 <= f ->
  a * b < 2 ^ prec -> emin <= f + g <= emax - prec ->
  is_float (SFmul prec emax x y) (xorb sx sy) (a * b) (f + g).
Proof.
  intros (mx & ex & -> & Hx & _ & Hx1 & Hx2) (my & ey & -> & Hy & _ & Hy1 & Hy2)
    Ha Hb Hn Hab Hfg.
  set (M := Z.pos mx * Z.pos my).
  set (K := Z.min ex f). set (L := Z.min ey g).
  pose proof (is_float_eq_at _ sx a f K mx ex eq_refl ltac:(lia) ltac:(lia) Hx1 Hx2) as Ex.
  pose proof (is_float_eq_at _ sy b g L my ey eq_refl ltac:(lia) ltac:(lia) Hy1 Hy2) as Ey.
  assert (EM : M * 2 ^ (ex + ey - (K + L)) = a * b * 2 ^ (f + g - (K + L))).
  { replace (ex + ey - (K + L)) with ((ex - K) + (ey - L)) by lia.
    replace (f + g - (K + L)) with ((f - K) + (g - L)) by lia.
    rewrite !Z.pow_add_r by lia. unfold M. nia. }
  assert (Hfull : 2 ^ (prec - 1) <= Z.pos mx).
  { destruct Hx as (_ & He & [?| ->]); [done|].
    rewrite (dle_at emin), Z.sub_diag, Z.mul_1_r in Hx1 by lia.
    pose proof (Z.pow_le_mono_r 2 (prec - 1) (f - emin)). nia. }
  assert (Hrep : repr (a * b) (f + g)) by (unfold repr; nia).
  destruct (SFmul_between sx sy mx ex my ey (a * b) (f + g) (a * b) (f + g))
    as (mr & er & E & Hc & Her & Hl & Hh); try done; try lia;
    try (rewrite (dle_at (K + L)) by lia; fold M; lia).
  exists mr, er. by split_and!.
Qed.

Lemma SFcompare_exact x y a b f :
  is_float x false a f -> is_float y false b f ->
  SFcompare x y = Some (a ?= b).
Proof.
  intros (mx & ex & -> & Hx & _ & Hx1 & Hx2) (my & ey & -> & Hy & _ & Hy1 & Hy2).
  unfold SFcompare. f_equal. set (K := Z.min (Z.min ex ey) f).
  pose proof (is_float_eq_at _ false a f K mx ex eq_refl ltac:(lia) ltac:(lia) Hx1 Hx2) as Ex.
  pose proof (is_float_eq_at _ false b f K my ey eq_refl ltac:(lia) ltac:(lia) Hy1 Hy2) as Ey.
  pose proof (Z.pow_pos_nonneg 2 (f - K)).
  destruct (Z.compare_spec ex ey) as [->|Hlt|Hgt]; symmetry.
  - pose proof (Z.pow_pos_nonneg 2 (ey - K)).
    change (Pos.compare_cont Eq mx my) with (Z.pos mx ?= Z.pos my).
    destruct (Z.compare_spec (Z.pos mx) (Z.pos my)) as [E|E|E].
    + rewrite E in *. apply Z.compare_eq_iff. nia.
    + apply Z.compare_lt_iff. nia.
    + apply Z.compare_gt_iff. nia.
  - pose proof (fcanon_gap _ _ _ _ Hy Hx Hlt) as Hg. rewrite (dle_at K) in Hg by lia.
    apply Z.compare_lt_iff. nia.
  - pose proof (fcanon_gap _ _ _ _ Hx Hy Hgt) as Hg. rewrite (dle_at K) in Hg by lia.
    apply Z.compare_gt_iff. nia.
Qed.

(** ** Conversion of integers *)

Definition of_Z (z : Z) : spec_float := binary_normalize prec emax z 0 false.

Lemma zero_exp_range : emin + prec - 1 <= 0 <= emax - prec.
Proof. unfold SpecFloat.emin. lia. Qed.

Lemma of_Z_is z : 0 < Z.abs z < 2 ^ prec -> is_float (of_Z z) (z <? 0) (Z.abs z) 0.
Proof.
  intros Hz. pose proof zero_exp_range.
  apply binary_normalize_exact; [done|lia|]. intros K _ _. done.
Qed.

Lemma of_Z_pos z : 0 < z < 2 ^ prec -> is_float (of_Z z) false z 0.
Proof.
  intros Hz. pose proof (of_Z_is z ltac:(lia)) as H.
  destruct (Z.ltb_spec z 0); [lia|]. by rewrite Z.abs_eq in H by lia.
Qed.

Lemma of_Z_0 : of_Z 0 = S754_zero false.
Proof. done. Qed.

Lemma is_float_finite x s b f : is_float x s b f -> exists m e, x = S754_finite s m e.
Proof. intros (m & e & -> & _). eauto. Qed.

(** Adding integers below [2^prec] is exact. *)
Lemma of_Z_add a b :
  Z.abs a < 2 ^ prec -> Z.abs b < 2 ^ prec -> Z.abs (a + b) < 2 ^ prec ->
  SFadd prec emax (of_Z a) (of_Z b) = of_Z (a + b).
Proof.
  intros Ha Hb Hab. destruct (Z.eq_dec a 0) as [->|Ha0].
  { destruct (Z.eq_dec b 0) as [->|Hb0]; [done|].
    destruct (is_float_finite _ _ _ _ (of_Z_is b ltac:(lia))) as (m & e & E).
    rewrite Z.add_0_l, E. done. }
  pose proof (of_Z_is a ltac:(lia)) as Fa. destruct (Z.eq_dec b 0) as [->|Hb0].
  { destruct (is_float_finite _ _ _ _ Fa) as (m & e & E). rewrite Z.add_0_r, E. done. }
  pose proof (of_Z_is b ltac:(lia)) as Fb. pose proof zero_exp_range.
  assert (Es : cond_Zopp (a <? 0) (Z.abs a) + cond_Zopp (b <? 0) (Z.abs b) = a + b)
    by (unfold cond_Zopp; repeat zcase; lia).
  destruct (SFadd_exact _ _ _ _ _ _ 0 Fa Fb ltac:(lia)) as [Hnz Hz]; [by rewrite Es|].
  rewrite Es in *. destruct (Z.eq_dec (a + b) 0) as [E|E].
  - rewrite Hz, E by done. done.
  - eapply is_float_unique; [by apply Hnz|]. by apply of_Z_is; lia.
Qed.

Lemma of_Z_sub a b :
  Z.abs a < 2 ^ prec -> 0 < b < 2 ^ prec -> 0 < a -> Z.abs (a - b) < 2 ^ prec ->
  SFsub prec emax (of_Z a) (of_Z b) = of_Z (a - b).
Proof.
  intros Ha Hb Ha0 Hab.
  pose proof (of_Z_add a (- b) ltac:(lia) ltac:(lia) Hab) as H. rewrite <- Z.sub_opp_r, Z.opp_involutive in H.
  rewrite <- H.
  pose proof (of_Z_pos b Hb) as (mb & eb & Eb & Hcb & Hub & Hb1 & Hb2).
  assert (of_Z (- b) = SFopp (of_Z b)) as ->.
  { eapply is_float_unique; [apply of_Z_is; lia|]. rewrite Eb.
    destruct (Z.ltb_spec (- b) 0); [|lia]. rewrite Z.abs_neq, Z.opp_involutive by lia.
    exists mb, eb. by split_and!. }
  destruct (is_float_finite _ _ _ _ (of_Z_pos a ltac:(lia))) as (ma & ea & ->).
  rewrite Eb. done.
Qed.

(** Multiplying an integer by a positive one is exact while the product
    stays below [2^prec]. *)
Lemma of_Z_mul a b :
  0 < b < 2 ^ prec -> Z.abs (a * b) < 2 ^ prec ->
  SFmul prec emax (of_Z a) (of_Z b) = of_Z (a * b).
Proof.
  intros Hb Hab. pose proof (of_Z_pos b Hb) as Fb.
  destruct (Z.eq_dec a 0) as [->|Ha0].
  { destruct (is_float_finite _ _ _ _ Fb) as (m & e & E). rewrite E. done. }
  pose proof zero_exp_range. eapply is_float_unique; [|apply of_Z_is; nia].
  pose proof (SFmul_exact _ _ (a <? 0) false (Z.abs a) b 0 0 (of_Z_is a ltac:(nia)) Fb
                ltac:(lia) ltac:(lia) ltac:(lia) ltac:(nia) ltac:(lia)) as H1.
  rewrite xorb_false_r in H1. rewrite Z.abs_mul, (Z.abs_eq b) by lia.
  replace (a * b <? 0) with (a <? 0); [exact H1|]. repeat zcase; done || nia.
Qed.

Lemma of_Z_compare a b :
  0 <= a < 2 ^ prec -> 0 <= b < 2 ^ prec -> SFcompare (of_Z a) (of_Z b) = Some (a ?= b).
Proof.
  intros Ha Hb. destruct (Z.eq_dec a 0) as [->|].
  { destruct (Z.eq_dec b 0) as [->|]; [done|].
    destruct (is_float_finite _ _ _ _ (of_Z_pos b ltac:(lia))) as (m & e & E).
    rewrite E. simpl. by destruct b; lia || done. }
  destruct (Z.eq_dec b 0) as [->|].
  { destruct (is_float_finite _ _ _ _ (of_Z_pos a ltac:(lia))) as (m & e & E).
    rewrite E. simpl. by destruct a; lia || done. }
  apply (SFcompare_exact _ _ _ _ 0); apply of_Z_pos; lia.
Qed.

Lemma of_Z_inj a b :
  0 <= a < 2 ^ prec -> 0 <= b < 2 ^ prec -> of_Z a = of_Z b -> a = b.
Proof.
  intros Ha Hb E. pose proof (of_Z_compare a b Ha Hb) as H.
  rewrite E, of_Z_compare in H by done. injection H. rewrite Z.compare_refl.
  intros Hc. symmetry in Hc. by apply Z.compare_eq_iff in Hc.
Qed.
(** An integer as a normal number. *)
Lemma of_Z_normal a :
  0 < a < 2 ^ prec ->
  exists m e, of_Z a = S754_finite false m e /\ 2 ^ (prec - 1) <= Z.pos m < 2 ^ prec /\
    - prec < e <= 0 /\ Z.pos m = a * 2 ^ - e.
Proof.
  intros Ha. pose proof zero_exp_range as Hz.
  destruct (of_Z_pos a Ha) as (m & e & -> & Hc & He & H1 & H2).
  assert (repr a 0) as Hr by (split; lia). pose proof (fcanon_exp_le _ _ _ _ Hc Hr H2) as Hle.
  pose proof (is_float_eq_at _ false a 0 e m e eq_refl ltac:(lia) Hle H1 H2) as E.
  rewrite Z.sub_diag, Z.mul_1_r, Z.sub_0_l in E.
  destruct Hc as ((_ & Hm) & Hmin & Hn).
  assert (- prec < e).
  { apply Z.nle_gt. intros Hlt. pose proof (Z.pow_le_mono_r 2 prec (- e)). nia. }
  assert (e <> emin) by (unfold SpecFloat.emin; lia). exists m, e. split_and!; [done|lia..].
Qed.
End Format.

(** ** The two formats of the code *)

Definition prec64 : Z := 53.
Definition emax64 : Z := 1024.
Definition prec32 : Z := 24.
Definition emax32 : Z := 128.

Abbreviation F64 := (of_Z prec64 emax64).
Abbreviation F32 := (of_Z prec32 emax32).
Abbreviation fadd := (SFadd prec64 emax64).
Abbreviation fsub := (SFsub prec64 emax64).
Abbreviation fmul := (SFmul prec64 emax64).
Abbreviation fdiv := (SFdiv prec64 emax64).

(** Conversion of a [double] to [float]. *)
Definition to_float (x : value_t) : spec_float :=
  match x with
  | S754_finite s m e => binary_round prec32 emax32 s m e
  | _ => x
  end.

(** [floor], and the conversion of a floating-point number to an integer, which
    drops the fraction; [None] when there is no integer (C leaves it
    undefined). *)
Definition ffloor (x : spec_float) : option Z :=
  match x with
  | S754_zero _ => Some 0
  | S754_finite s m e => Some (cond_Zopp s (Z.pos m) * 2 ^ Z.max e 0 / 2 ^ Z.max (- e) 0)
  | _ => None
  end.

Definition ftrunc (x : spec_float) : option Z :=
  match x with
  | S754_zero _ => Some 0
  | S754_finite s m e => Some (cond_Zopp s (Z.pos m * 2 ^ Z.max e 0 / 2 ^ Z.max (- e) 0))
  | _ => None
  end.

(** The double nearest to [(-1)^s * M * 10^E]: decimal literals. *)
Definition decimal (s : bool) (M E : Z) : value_t :=
  match M with
  | Z.pos m =>
      if 0 <=? E then binary_round prec64 emax64 s (Z.to_pos (M * 10 ^ E)) 0
      else let '(q, e, l) := SFdiv_core_binary prec64 emax64 M 0 (10 ^ (- E)) 0 in
           binary_round_aux prec64 emax64 s q e l
  | _ => S754_zero s
  end.

(** Conversion to a [w]-bit unsigned integer: undefined out of range. *)
Definition to_unsigned (w : Z) (x : spec_float) : option Z :=
  z ← ftrunc x; if fitsb w z then Some z else None.

Lemma F64_add a b :
  Z.abs a < 2 ^ 53 -> Z.abs b < 2 ^ 53 -> Z.abs (a + b) < 2 ^ 53 ->
  fadd (F64 a) (F64 b) = F64 (a + b).
Proof. apply of_Z_add; done. Qed.

Lemma F64_sub a b :
  0 < a < 2 ^ 53 -> 0 < b < 2 ^ 53 -> fsub (F64 a) (F64 b) = F64 (a - b).
Proof. intros. apply of_Z_sub; unfold prec64, emax64; lia. Qed.

Lemma F64_mul a b :
  0 < b < 2 ^ 53 -> Z.abs (a * b) < 2 ^ 53 -> fmul (F64 a) (F64 b) = F64 (a * b).
Proof. apply of_Z_mul; done. Qed.

Lemma F64_compare a b :
  0 <= a < 2 ^ 53 -> 0 <= b < 2 ^ 53 -> SFcompare (F64 a) (F64 b) = Some (a ?= b).
Proof. apply of_Z_compare; done. Qed.

Lemma F64_ltb a b :
  0 <= a < 2 ^ 53 -> 0 <= b < 2 ^ 53 -> SFltb (F64 a) (F64 b) = (a <? b).
Proof.
  intros. unfold SFltb. rewrite F64_compare by done.
  destruct (Z.compare_spec a b); zcase; done || lia.
Qed.

Lemma F64_leb a b :
  0 <= a < 2 ^ 53 -> 0 <= b < 2 ^ 53 -> SFleb (F64 a) (F64 b) = (a <=? b).
Proof.
  intros. unfold SFleb. rewrite F64_compare by done.
  destruct (Z.compare_spec a b); zcase; done || lia.
Qed.

Lemma F64_inj a b : 0 <= a < 2 ^ 53 -> 0 <= b < 2 ^ 53 -> F64 a = F64 b -> a = b.
Proof. apply of_Z_inj; done. Qed.

Lemma ftrunc_is_float prec emax x s a :
  1 < prec -> is_float prec emax x s a 0 -> 0 < a -> ftrunc x = Some (cond_Zopp s a).
Proof.
  intros Hp (m & e & -> & _ & _ & H1 & H2) Ha. simpl. do 2 f_equal.
  pose proof (is_float_eq_at prec Hp _ s a 0 (Z.min e 0) m e eq_refl ltac:(lia) ltac:(lia) H1 H2) as E.
  destruct (Z.le_gt_cases 0 e).
  - rewrite Z.min_r, !Z.sub_0_r, Z.mul_1_r in E by lia.
    rewrite Z.max_l, Z.max_r by lia. by rewrite E, Z.div_1_r.
  - rewrite Z.min_l, Z.sub_diag, Z.mul_1_r in E by lia.
    rewrite Z.max_r, Z.max_l, Z.mul_1_r, E by lia. rewrite Z.sub_0_l.
    apply Z.div_mul. apply Z.pow_nonzero; lia.
Qed.

Lemma ftrunc_F64 z : 0 <= z < 2 ^ 53 -> ftrunc (F64 z) = Some z.
Proof.
  intros Hz. destruct (Z.eq_dec z 0) as [->|]; [done|].
  apply (ftrunc_is_float prec64 emax64 _ false); [done| |lia].
  apply of_Z_pos; unfold prec64, emax64; lia.
Qed.

(** [ceil], and the conversions to a [w]-bit signed integer ([None] out of
    range: undefined behaviour). *)
Definition fceil (x : spec_float) : option Z := Z.opp <$> ffloor (SFopp x).

Definition signed_range (w z : Z) : option Z :=
  if (- 2 ^ (w - 1) <=? z) && (z <? 2 ^ (w - 1)) then Some z else None.

Definition to_signed (w : Z) (x : spec_float) : option Z := z ← ftrunc x; signed_range w z.

(** ** Quotients *)

Definition is_finite (x : value_t) : bool :=
  match x with S754_zero _ | S754_finite _ _ _ => true | _ => false end.

(** The quotient of two integers, the divisor positive, is finite. *)
Lemma F64_div_finite a b :
  0 <= a < 2 ^ 53 -> 0 < b < 2 ^ 53 -> is_finite (fdiv (F64 a) (F64 b)) = true.
Proof.
  intros Ha Hb. destruct (of_Z_normal prec64 emax64 eq_refl eq_refl b Hb) as (my & ey & -> & Hmy & Hey & Ey).
  destruct (Z.eq_dec a 0) as [->|Hz]; [done|].
  destruct (of_Z_normal prec64 emax64 eq_refl eq_refl a ltac:(unfold prec64; lia))
    as (mx & ex & -> & Hmx & Hex & Ex).
  assert (Zdigits2 (Z.pos my) = prec64) as Ed by (apply Zdigits2_unique; lia).
  assert (Hrepr : forall f, SpecFloat.emin prec64 emax64 <= f -> repr prec64 emax64 1 f)
    by (intros f Hf; split; [unfold prec64; lia|done]).
  pose proof (Z.pow_pos_nonneg 2 (- ex)). pose proof (Z.pow_pos_nonneg 2 (- ey)).
  unfold prec64, emax64 in *.
  destruct (SFdiv_between 53 1024 eq_refl false false mx ex my ey 1 (-53) 1 53) as (mr & er & -> & _);
    try done; try (apply Hrepr; unfold SpecFloat.emin; lia); try (rewrite Ed); try (unfold SpecFloat.emin; lia).
  - rewrite (dle_at 53 eq_refl (ex + ey - 53)) by lia.
    replace (-53 + ey - (ex + ey - 53)) with (- ex) by lia.
    replace (ex - (ex + ey - 53)) with (53 + - ey) by lia.
    rewrite Z.pow_add_r by lia. rewrite Ex, Ey. nia.
  - rewrite (dle_at 53 eq_refl (ex + ey)) by lia. replace (53 + ey - (ex + ey)) with (53 + - ex) by lia.
    replace (ex - (ex + ey)) with (- ey) by lia.
    rewrite Z.pow_add_r by lia. rewrite Ex, Ey. nia.
Qed.

Definition not_nan (x : value_t) : Prop := x <> S754_nan.

Lemma fle_total x y : not_nan x -> not_nan y -> SFltb y x = negb (SFleb x y).
Proof.
  unfold not_nan, SFltb, SFleb, SFcompare. intros Hx Hy.
  destruct x as [[]|[]| |[] m e], y as [[]|[]| |[] m' e']; try done;
    rewrite (Z.compare_antisym e e'); destruct (e ?= e') eqn:?; try done;
    change (Pos.compare_cont Eq ?a ?b) with (a ?= b)%positive;
    rewrite (Pos.compare_antisym m m'); by destruct (m ?= m')%positive.
Qed.

(** ** Doubles

    A double is a number of the 64-bit format: every operation returns one. *)

Definition is_double (x : value_t) : Prop := valid_binary prec64 emax64 x = true.

Create HintDb double.

Lemma F64_double z : is_double (F64 z).
Proof. by apply binary_normalize_valid. Qed.

Lemma fadd_double x y : is_double x -> is_double y -> is_double (fadd x y).
Proof. by apply SFadd_valid. Qed.

Lemma fmul_double x y : is_double x -> is_double y -> is_double (fmul x y).
Proof. by apply SFmul_valid. Qed.

Lemma fdiv_double x y : is_double x -> is_double y -> is_double (fdiv x y).
Proof. by apply SFdiv_valid. Qed.

Lemma fopp_double x : is_double x -> is_double (SFopp x).
Proof. by destruct x. Qed.

Lemma fsub_double x y : is_double x -> is_double y -> is_double (fsub x y).
Proof.
  destruct x as [[]|[]| |], y as [[]|[]| |]; intros Hx Hy; try done; by apply binary_normalize_valid.
Qed.

Lemma zero_double s : is_double (S754_zero s).
Proof. done. Qed.

Lemma decimal_double s M E : is_double (decimal s M E).
Proof.
  destruct M as [|m|m]; [done| |done]. unfold decimal. destruct (Z.leb_spec 0 E).
  - by apply binary_round_valid.
  - assert (exists p, 10 ^ (- E) = Z.pos p) as [p ->].
    { pose proof (Z.pow_pos_nonneg 10 (- E)). destruct (10 ^ (- E)); try lia. by eexists. }
    pose proof (SFdiv_core_valid prec64 emax64 eq_refl s m 0 p 0) as H1.
    by destruct (SFdiv_core_binary _ _ _ _ _ _) as [[q e] l].
Qed.

#[export] Hint Resolve F64_double fadd_double fmul_double fdiv_double fopp_double fsub_double
  zero_double decimal_double : double.

(** The inverse of a rate in (0, 1] is at least one, possibly infinite. *)
Lemma recip_ge_1 x :
  is_double x -> not_nan x -> SFleb x (S754_zero false) = false -> SFltb (F64 1) x = false ->
  SFleb (F64 1) (fdiv (F64 1) x) = true.
Proof.
  intros Hd Hn H0 H1. rewrite (fle_total x (F64 1) Hn) in H1 by done. apply negb_false_iff in H1.
  destruct x as [s|[]| |[] m e]; try done.
  pose proof (bounded_fcanon prec64 emax64 eq_refl _ _ Hd) as Hc.
  assert (fcanon prec64 emax64 (Z.pos (2 ^ 52)) (-52)) as Hc1 by by repeat split; [|left].
  change (F64 1) with (S754_finite false (2 ^ 52) (-52)) in *.
  apply (SFleb_dle prec64 emax64 eq_refl) in H1; [|done|done].
  assert (e <= -52) as He.
  { eapply (fcanon_exp_le prec64 emax64 eq_refl _ _ (2 ^ 52) (-52)); [exact Hc| |exact H1].
    split; [done|done]. }
  destruct (SFdiv_ge prec64 emax64 eq_refl false false (2 ^ 52) (-52) m e 1 0) as (mr & er & Hcr & Hdr & ->).
  - done.
  - assert (Zdigits2 (Z.pos m) <= 53) by (apply Zdigits2_le; [lia|lia|apply Hc]).
    unfold SpecFloat.emin, prec64, emax64. lia.
  - done.
  - rewrite Z.mul_1_l. exact H1.
  - destruct (Z.leb_spec er (emax64 - prec64)); [|done]. apply (SFleb_dle prec64 emax64 eq_refl); try done.
    eapply (dle_trans prec64 eq_refl); [|exact Hdr]. done.
Qed.
