(* ===== verification/Histogram.v ===== *)
(** * Histograms ([src/histogram.c], [src/histogram.h])

    A histogram keeps at most [USHRT_MAX] raw values in a growing array and the
    number of samples they stand for.  The array cells beyond [size] are
    uninitialised memory, the cell [None].  Undefined behaviour (a conversion
    out of range, an access outside the array or of an uninitialised cell) is
    the result [None] of an operation. *)

From S2P Require Import Prelude Value.
From Stdlib Require Import Sorting.Sorted Sorting.Permutation.

Module Histogram.

Definition HISTO_INIT_SIZE : Z := 16.
Definition USHRT_MAX : Z := 65535.

Record brubeck_histo := {
  values : list (option value_t);
  count : Z;
  alloc : Z;
  size : Z;
}.

Record brubeck_histo_sample_t := {
  s_sum : value_t;
  s_min : value_t;
  s_max : value_t;
  s_mean : value_t;
  s_median : value_t;
  s_count : value_t;
  s_percentile : list value_t;
}.

(** A zeroed [struct brubeck_histo]. *)
Definition histo_zero : brubeck_histo := {| values := []; count := 0; alloc := 0; size := 0 |}.

(** [realloc] keeps the cells that fit; new cells are uninitialised. *)
Definition xrealloc (v : list (option value_t)) (n : Z) : list (option value_t) :=
  take (Z.to_nat n) v ++ replicate (Z.to_nat n - length v) None.

(** The clamped doubling of [alloc]. *)
Definition grow_size (alloc : Z) : Z :=
  let new_size := alloc * 2 in
  let new_size := if USHRT_MAX <? new_size then USHRT_MAX else new_size in
  if new_size <? HISTO_INIT_SIZE then HISTO_INIT_SIZE else new_size.

Definition histo_store (h : brubeck_histo) (value : value_t) : option brubeck_histo :=
  v ← wr (values h) (size h) (Some value);
  Some {| values := v; count := count h; alloc := alloc h; size := u16 (size h + 1) |}.

Definition brubeck_histo_push (h : brubeck_histo) (value sample_freq : value_t)
    : option brubeck_histo :=
  c ← to_unsigned 32 (fadd (F64 (count h)) sample_freq);
  let h := {| values := values h; count := c; alloc := alloc h; size := size h |} in
  if size h =? alloc h then
    if size h =? USHRT_MAX then Some h
    else
      let new_size := grow_size (alloc h) in
      let h :=
        if new_size =? alloc h then h
        else {| values := xrealloc (values h) (u16 new_size); count := count h;
                alloc := u16 new_size; size := size h |} in
      histo_store h value
  else histo_store h value.

(** Reading an initialised cell. *)
Definition get (h : brubeck_histo) (i : Z) : option value_t :=
  c ← rd (values h) i; c.

Definition half32 : spec_float := S754_finite false 8388608 (-24).

(** [floor((rank * histo->size) + 0.5f)]: the product and the sum are floats. *)
Definition irank (rank : spec_float) (sz : Z) : option Z :=
  ffloor (SFadd prec32 emax32 (SFmul prec32 emax32 rank (F32 sz)) half32).

Definition histo_percentile (h : brubeck_histo) (rank : spec_float) : option value_t :=
  r ← irank rank (size h); get h (r - 1).

(** The float literals of the code: the decimal constant rounded to double,
    then to float, is the float nearest to it. *)
Definition f32_lit (num den : positive) : spec_float :=
  let '(m, e, l) := SFdiv_core_binary prec32 emax32 (Z.pos num) 0 (Z.pos den) 0 in
  binary_round_aux prec32 emax32 false m e l.

Definition rank_50 := f32_lit 5 10.
Definition rank_75 := f32_lit 75 100.
Definition rank_95 := f32_lit 95 100.
Definition rank_98 := f32_lit 98 100.
Definition rank_99 := f32_lit 99 100.
Definition rank_999 := f32_lit 999 1000.

Fixpoint histo_sum_loop (l : list (option value_t)) (sum : value_t) : option value_t :=
  match l with
  | [] => Some sum
  | c :: l' => v ← c; histo_sum_loop l' (fadd sum v)
  end.

Definition histo_sum (h : brubeck_histo) : option value_t :=
  cells ← rd_n (values h) 0 (Z.to_nat (size h));
  histo_sum_loop cells (S754_zero false).

Definition value_cmp (va vb : value_t) : Z :=
  if SFltb va vb then -1 else if SFltb vb va then 1 else 0.

(** [qsort] is the merge sort of the GNU C library: the halves are sorted and
    merged, the first one going first where the comparison says equal.  It does
    not depend on a consistent comparison, which the NaN values that a message
    can bring do not have. *)
Fixpoint msort_merge {A : Type} (cmp : A -> A -> Z) (b1 : list A) : list A -> list A :=
  fix go (b2 : list A) : list A :=
    match b1, b2 with
    | [], _ => b2
    | _, [] => b1
    | x :: b1', y :: b2' => if cmp x y <=? 0 then x :: msort_merge cmp b1' b2 else y :: go b2'
    end.

Fixpoint msort {A : Type} (fuel : nat) (cmp : A -> A -> Z) (l : list A) : list A :=
  match fuel with
  | O => l
  | S fuel =>
      if (length l <=? 1)%nat then l
      else let n1 := Nat.div2 (length l) in msort_merge cmp (msort fuel cmp (take n1 l)) (msort fuel cmp (drop n1 l))
  end.

Definition qsort {A : Type} (cmp : A -> A -> Z) (l : list A) : list A := msort (length l) cmp l.

Definition histo_sort (h : brubeck_histo) : option brubeck_histo :=
  cells ← rd_n (values h) 0 (Z.to_nat (size h));
  vs ← mapM (fun c => c) cells;
  v ← wr_n (values h) 0 (Some <$> qsort value_cmp vs);
  Some {| values := v; count := count h; alloc := alloc h; size := size h |}.

Definition sample_zero : brubeck_histo_sample_t :=
  let z := S754_zero false in
  {| s_sum := z; s_min := z; s_max := z; s_mean := z; s_median := z; s_count := z;
     s_percentile := replicate 5 z |}.

Definition brubeck_histo_sample (h : brubeck_histo)
    : option (brubeck_histo_sample_t * brubeck_histo) :=
  if size h =? 0 then Some (sample_zero, h)
  else
    h ← histo_sort h;
    sum ← histo_sum h;
    mn ← get h 0;
    mx ← get h (size h - 1);
    median ← histo_percentile h rank_50;
    p75 ← histo_percentile h rank_75;
    p95 ← histo_percentile h rank_95;
    p98 ← histo_percentile h rank_98;
    p99 ← histo_percentile h rank_99;
    p999 ← histo_percentile h rank_999;
    Some ({| s_sum := sum; s_min := mn; s_max := mx;
             s_mean := fdiv sum (F64 (size h)); s_median := median;
             s_count := F64 (count h); s_percentile := [p75; p95; p98; p99; p999] |},
          {| values := values h; count := 0; alloc := alloc h; size := 0 |}).

(** ** The rank of a percentile *)

(** The ranks of the code: canonical floats in [1/2, 1). *)
Definition rank_ok (rank : spec_float) : Prop :=
  exists m e, rank = S754_finite false m e /\ fcanon prec32 emax32 (Z.pos m) e /\
    2 ^ (prec32 - 1) <= Z.pos m /\ dle 1 (-1) (Z.pos m) e /\ dle (Z.pos m) e 1 0.

Lemma rank_ok_lit m :
  8388608 <= Z.pos m < 16777216 -> rank_ok (S754_finite false m (-24)).
Proof.
  intros Hm. exists m, (-24). split; [done|]. unfold fcanon, dle.
  change (2 ^ prec32) with 16777216. change (2 ^ (prec32 - 1)) with 8388608.
  change (emin prec32 emax32) with (-149).
  change (Z.min (-1) (-24)) with (-24). change (Z.min (-24) 0) with (-24).
  change (2 ^ (-1 - -24)) with 8388608. change (2 ^ (0 - -24)) with 16777216.
  rewrite Z.sub_diag, Z.pow_0_r. lia.
Qed.

Lemma repr32 b f : 0 < b < 16777216 -> -149 <= f -> repr prec32 emax32 b f.
Proof. done. Qed.

Lemma ranks_ok : Forall rank_ok [rank_50; rank_75; rank_95; rank_98; rank_99; rank_999].
Proof.
  repeat (apply List.Forall_cons; [|]); try apply List.Forall_nil;
    match goal with |- rank_ok ?r => let r' := eval vm_compute in r in change r with r' end;
    apply rank_ok_lit; lia.
Qed.

Lemma product_between rank n :
  rank_ok rank -> 1 <= n <= USHRT_MAX ->
  exists m e, SFmul prec32 emax32 rank (F32 n) = S754_finite false m e /\
    dle 1 (-1) (Z.pos m) e /\ dle (Z.pos m) e n 0.
Proof.
  unfold USHRT_MAX. intros (mr & er & -> & Hc & Hn & Hlo & Hhi) Hsz.
  destruct (of_Z_pos prec32 emax32 ltac:(done) ltac:(done) n)
    as (mn & en & -> & Hcn & _ & Hn1 & Hn2).
  { change (2 ^ prec32) with 16777216. lia. }
  destruct (SFmul_between prec32 emax32 ltac:(done) false false mr er mn en 1 (-1) n 0)
    as (mx & ex & E & _ & _ & H1 & H2); [done|apply repr32; lia|apply repr32; lia|done|..].
  - apply (dle_mul prec32 ltac:(done) 1 (-1) _ er 1 0 _ en); try done.
    eapply (dle_trans prec32 ltac:(done)); [|exact Hn1]. rewrite dle_same. lia.
  - replace n with (1 * n) by lia.
    apply (dle_mul prec32 ltac:(done) _ er 1 0 _ en n 0); [lia|lia|done|done].
  - eauto.
Qed.

(** Rounding up by a half keeps the rank between the first and last value. *)
Lemma irank_bounds rank n :
  rank_ok rank -> 1 <= n <= USHRT_MAX -> exists r, irank rank n = Some r /\ 1 <= r <= n.
Proof.
  intros Hr Hn. destruct (product_between rank n Hr Hn) as (mx & ex & E & H1 & H2).
  unfold irank. rewrite E. unfold half32, USHRT_MAX in *.
  destruct (SFadd_between prec32 emax32 ltac:(done) mx ex 8388608 (-24) 1 0 (2 * n + 1) (-1))
    as (my & ey & -> & _ & _ & H3 & H4); [apply repr32; lia..|done| |].
  - intros K HK1 HK2 HK3 HK4. rewrite (dle_at prec32 ltac:(done) K) in H1, H2 by lia.
    replace (-24 - K) with ((-24 - K)) by lia.
    replace (0 - K) with (24 + (-24 - K)) in * by lia.
    replace (-1 - K) with (23 + (-24 - K)) in * by lia.
    rewrite !Z.pow_add_r in * by lia. change (2 ^ 24) with 16777216 in *.
    change (2 ^ 23) with 8388608 in *. lia.
  - simpl. eexists. split; [done|].
    pose proof (Z.pow_pos_nonneg 2 (Z.max (- ey) 0)) as Hp.
    destruct (Z.le_gt_cases 0 ey) as [He|He].
    + rewrite (dle_at prec32 ltac:(done) 0) in H3 by lia.
      rewrite (dle_at prec32 ltac:(done) (-1)) in H4 by lia.
      rewrite Z.max_l, Z.max_r, Z.div_1_r by lia.
      replace (ey - -1) with (Z.succ ey) in H4 by lia. rewrite Z.pow_succ_r in H4 by lia.
      rewrite Z.sub_0_r in H3. change (2 ^ (-1 - -1)) with 1 in H4. lia.
    + rewrite (dle_at prec32 ltac:(done) ey) in H3, H4 by lia.
      rewrite Z.sub_diag, Z.pow_0_r in *. rewrite Z.max_r, Z.max_l by lia.
      rewrite Z.sub_0_l in H3. replace (- ey) with (Z.succ (-1 - ey)) in * by lia.
      rewrite Z.pow_succ_r in * by lia. split.
      * apply Z.div_le_lower_bound; lia.
      * apply Z.lt_succ_r, Z.div_lt_upper_bound; [lia|]. lia.
Qed.

(** The computation in single precision against exact bounds: if the rank times
    [n] is between [A - 1/2] and [B + 1/2 - 1/128], the result is between [A]
    and [B]. *)
Lemma irank_between m n A B :
  8388608 <= Z.pos m < 16777216 -> 1 <= n <= USHRT_MAX -> 1 <= A -> A <= B <= 65536 ->
  (2 * A - 1) * 8388608 <= Z.pos m * n <= (128 * B + 63) * 131072 ->
  exists r, irank (S754_finite false m (-24)) n = Some r /\ A <= r <= B.
Proof.
  unfold USHRT_MAX. intros Hm Hn HA HB Hp.
  destruct (of_Z_pos prec32 emax32 ltac:(done) ltac:(done) n) as (mn & en & En & _ & _ & Hn1 & Hn2).
  { change (2 ^ prec32) with 16777216. lia. }
  assert (Hmul : exists mx ex, SFmul prec32 emax32 (S754_finite false m (-24)) (F32 n) = S754_finite false mx ex /\
            dle (2 * A - 1) (-1) (Z.pos mx) ex /\ dle (Z.pos mx) ex (128 * B + 63) (-7)).
  { rewrite En. destruct (SFmul_between prec32 emax32 ltac:(done) false false m (-24) mn en (2 * A - 1) (-1) (128 * B + 63) (-7))
      as (mx & ex & E & _ & _ & H1 & H2); [change (2 ^ (prec32 - 1)) with 8388608; lia|apply repr32; lia|apply repr32; lia|done|..].
    - apply (dle_trans prec32 ltac:(done) _ _ (Z.pos m * n) (-24 + 0)).
      + rewrite (dle_at prec32 ltac:(done) (-24)) by lia. change (2 ^ (-1 - -24)) with 8388608.
        change (2 ^ (-24 + 0 - -24)) with 1. lia.
      + apply (dle_mul prec32 ltac:(done)); [lia|lia|by rewrite dle_same|done].
    - apply (dle_trans prec32 ltac:(done) _ _ (Z.pos m * n) (-24 + 0)).
      + apply (dle_mul prec32 ltac:(done)); [lia|lia|by rewrite dle_same|done].
      + rewrite (dle_at prec32 ltac:(done) (-24)) by lia. change (2 ^ (-7 - -24)) with 131072.
        change (2 ^ (-24 + 0 - -24)) with 1. lia.
    - eauto. }
  destruct Hmul as (mx & ex & E & H1 & H2). unfold irank. rewrite E. unfold half32.
  destruct (SFadd_between prec32 emax32 ltac:(done) mx ex 8388608 (-24) A 0 (128 * B + 127) (-7))
    as (my & ey & -> & _ & _ & H3 & H4); [apply repr32; lia..|done| |].
  - intros K HK1 HK2 HK3 HK4. rewrite (dle_at prec32 ltac:(done) K) in H1, H2 by lia.
    replace (0 - K) with (24 + (-24 - K)) in * by lia. replace (-1 - K) with (23 + (-24 - K)) in * by lia.
    replace (-7 - K) with (17 + (-24 - K)) in * by lia. rewrite !Z.pow_add_r in * by lia.
    change (2 ^ 24) with 16777216 in *. change (2 ^ 23) with 8388608 in *. change (2 ^ 17) with 131072 in *. lia.
  - eexists. split; [reflexivity|]. cbn [cond_Zopp].
    destruct (Z.le_gt_cases 0 ey) as [He|He].
    + rewrite (dle_at prec32 ltac:(done) 0) in H3 by lia. rewrite (dle_at prec32 ltac:(done) (-7)) in H4 by lia.
      rewrite Z.max_l, Z.max_r, Z.div_1_r by lia. rewrite !Z.sub_0_r, Z.pow_0_r in H3. change (2 ^ (-7 - -7)) with 1 in H4.
      replace (ey - -7) with (ey + 7) in H4 by lia. rewrite Z.pow_add_r in H4 by lia. change (2 ^ 7) with 128 in H4. lia.
    + rewrite Z.max_r, Z.max_l by lia. set (K := Z.min ey (-7)).
      rewrite (dle_at prec32 ltac:(done) K) in H3, H4 by lia. pose proof (Z.pow_pos_nonneg 2 (ey - K) ltac:(lia) ltac:(lia)).
      replace (0 - K) with (- ey + (ey - K)) in H3 by lia. rewrite Z.pow_add_r in H3 by lia.
      pose proof (Z.pow_pos_nonneg 2 (- ey) ltac:(lia) ltac:(lia)). split.
      * apply Z.div_le_lower_bound; [lia|]. nia.
      * apply Z.lt_succ_r, Z.div_lt_upper_bound; [lia|].
        assert (Hs : 128 * 2 ^ (-7 - K) = 2 ^ (- ey) * 2 ^ (ey - K)).
        { change 128 with (2 ^ 7). rewrite <- !Z.pow_add_r by lia. f_equal. lia. }
        assert (0 < 2 ^ (-7 - K)) by (apply Z.pow_pos_nonneg; lia). nia.
Qed.

(** The rank of a fraction of [n] values: the fraction times [n], rounded to
    the nearest integer. *)
Definition nearest_rank (num den n : Z) : Z := (2 * num * n + den) / (2 * den).

(** A float [m / 2^24] that is not below the fraction, or not at a tie. *)
Lemma irank_nearest m num den n :
  8388608 <= Z.pos m < 16777216 -> 1 <= n <= USHRT_MAX ->
  1 <= nearest_rank num den n <= 65535 ->
  (2 * nearest_rank num den n - 1) * 8388608 <= Z.pos m * n <= (128 * nearest_rank num den n + 63) * 131072 ->
  irank (S754_finite false m (-24)) n = Some (nearest_rank num den n).
Proof.
  intros Hm Hn HN Hp. destruct (irank_between m n _ _ Hm Hn ltac:(apply HN) ltac:(split; [apply Z.le_refl|lia]) Hp)
    as (r & -> & Hr). f_equal. lia.
Qed.

Lemma irank_50 n : 1 <= n <= USHRT_MAX -> irank rank_50 n = Some (nearest_rank 50 100 n).
Proof.
  intros Hn. change rank_50 with (S754_finite false 8388608 (-24)).
  apply irank_nearest; [lia|done|..]; unfold nearest_rank, USHRT_MAX in *; Z.div_mod_to_equations; lia.
Qed.

Lemma irank_75 n : 1 <= n <= USHRT_MAX -> irank rank_75 n = Some (nearest_rank 75 100 n).
Proof.
  intros Hn. change rank_75 with (S754_finite false 12582912 (-24)).
  apply irank_nearest; [lia|done|..]; unfold nearest_rank, USHRT_MAX in *; Z.div_mod_to_equations; lia.
Qed.

Lemma irank_98 n : 1 <= n <= USHRT_MAX -> irank rank_98 n = Some (nearest_rank 98 100 n).
Proof.
  intros Hn. change rank_98 with (S754_finite false 16441672 (-24)).
  apply irank_nearest; [lia|done|..]; unfold nearest_rank, USHRT_MAX in *; Z.div_mod_to_equations; lia.
Qed.

Lemma irank_99 n : 1 <= n <= USHRT_MAX -> irank rank_99 n = Some (nearest_rank 99 100 n).
Proof.
  intros Hn. change rank_99 with (S754_finite false 16609444 (-24)).
  apply irank_nearest; [lia|done|..]; unfold nearest_rank, USHRT_MAX in *; Z.div_mod_to_equations; lia.
Qed.

(** 0.95f is below 0.95, so that the sizes with a tie are tried one by one. *)
Lemma irank_95_ties :
  forallb (fun k => bool_decide (irank rank_95 (20 * Z.of_nat k + 10) = Some (nearest_rank 95 100 (20 * Z.of_nat k + 10))))
    (seq 0 3277) = true.
Proof. vm_compute. reflexivity. Qed.

Lemma irank_95 n : 1 <= n <= USHRT_MAX -> irank rank_95 n = Some (nearest_rank 95 100 n).
Proof.
  intros Hn. destruct (decide (n mod 20 = 10)) as [Ht|Ht].
  - pose proof irank_95_ties as Hall. rewrite forallb_forall in Hall. unfold USHRT_MAX in Hn.
    assert (En : n = 20 * Z.of_nat (Z.to_nat (n / 20)) + 10) by (Z.div_mod_to_equations; lia).
    specialize (Hall (Z.to_nat (n / 20))). rewrite <- En in Hall.
    refine (bool_decide_eq_true_1 _ (Hall _)). apply in_seq. Z.div_mod_to_equations. lia.
  - change rank_95 with (S754_finite false 15938355 (-24)).
    apply irank_nearest; [lia|done|..]; unfold nearest_rank, USHRT_MAX in *; Z.div_mod_to_equations; lia.
Qed.

(** The rank of 99.9% is sometimes the next one. *)
Lemma irank_999 n : 1 <= n <= USHRT_MAX ->
  exists r, irank rank_999 n = Some r /\ nearest_rank 999 1000 n <= r <= nearest_rank 999 1000 n + 1.
Proof.
  intros Hn. change rank_999 with (S754_finite false 16760439 (-24)).
  apply irank_between; [lia|done|..]; unfold nearest_rank, USHRT_MAX in *; Z.div_mod_to_equations; lia.
Qed.

(** ** The abstract histogram: a bounded list of values and a counter *)

(** [h] holds the values [vs], in insertion or sorted order, and counts [c]
    samples. *)
Record histo_rep (h : brubeck_histo) (vs : list value_t) (c : Z) : Prop := {
  rep_len : Z.of_nat (length (values h)) = alloc h;
  rep_alloc : alloc h <= USHRT_MAX;
  rep_size : size h = Z.of_nat (length vs);
  rep_room : size h <= alloc h;
  rep_cells : take (length vs) (values h) = Some <$> vs;
  rep_count : count h = c;
  rep_count_fits : fits 32 c;
  rep_empty : vs = [] -> c = 0;
}.

Definition push_spec (vs : list value_t) (v : value_t) : list value_t :=
  if Z.of_nat (length vs) =? USHRT_MAX then vs else vs ++ [v].

Definition pick (vs : list value_t) (rank : spec_float) : option value_t :=
  r ← irank rank (Z.of_nat (length vs)); rd vs (r - 1).

(** What a sample reports of the values held, in ascending order. *)
Definition sample_spec (sorted : list value_t) (c : Z) : option brubeck_histo_sample_t :=
  mn ← rd sorted 0;
  mx ← rd sorted (Z.of_nat (length sorted) - 1);
  median ← pick sorted rank_50;
  p75 ← pick sorted rank_75;
  p95 ← pick sorted rank_95;
  p98 ← pick sorted rank_98;
  p99 ← pick sorted rank_99;
  p999 ← pick sorted rank_999;
  let sum := foldl fadd (S754_zero false) sorted in
  Some {| s_sum := sum; s_min := mn; s_max := mx;
          s_mean := fdiv sum (F64 (Z.of_nat (length sorted))); s_median := median;
          s_count := F64 c; s_percentile := [p75; p95; p98; p99; p999] |}.

Lemma histo_zero_rep : histo_rep histo_zero [] 0.
Proof. by split. Qed.

Lemma grow_size_bounds a :
  0 <= a < USHRT_MAX -> a < grow_size a <= USHRT_MAX.
Proof.
  unfold grow_size, USHRT_MAX, HISTO_INIT_SIZE. intros.
  destruct (Z.ltb_spec 65535 (a * 2)); zcase; lia.
Qed.

Lemma to_unsigned_fits w x z : to_unsigned w x = Some z -> fits w z.
Proof.
  unfold to_unsigned. destruct (ftrunc x); simpl; [|done]. case_match; [|done].
  intros [= <-]. by apply fitsb_spec.
Qed.

(** Storing in the first free cell. *)
Lemma histo_store_rep h vs c c0 v :
  histo_rep h vs c0 -> size h < alloc h -> fits 32 c ->
  exists h', histo_store {| values := values h; count := c; alloc := alloc h; size := size h |} v
             = Some h' /\ histo_rep h' (vs ++ [v]) c.
Proof.
  intros [Hlen Ha Hs Hr Hc _ _ _] Hlt Hfit. unfold histo_store. simpl.
  rewrite wr_in by lia. simpl. eexists. split; [done|].
  unfold USHRT_MAX in *.
  split; simpl; rewrite ?length_insert, ?length_app; simpl; try done; try lia.
  - rewrite wrap_small by (unfold fits; lia). lia.
  - rewrite wrap_small by (unfold fits; lia). lia.
  - rewrite Hs, Nat2Z.id, fmap_app, <- Hc. simpl.
    rewrite Nat.add_1_r, (take_S_r _ _ (Some v)).
    + by rewrite take_insert_ge by lia.
    + apply list_lookup_insert_eq. lia.
  - by destruct vs.
Qed.

(** Growing the array keeps its contents and makes room. *)
Lemma xrealloc_rep h vs c :
  histo_rep h vs c -> size h = alloc h -> size h <> USHRT_MAX ->
  let n := grow_size (alloc h) in
  let h' := {| values := xrealloc (values h) (u16 n); count := count h;
               alloc := u16 n; size := size h |} in
  n <> alloc h /\ histo_rep h' vs c /\ size h' < alloc h'.
Proof.
  intros [Hlen Ha Hs Hr Hc Hn Hf He] Hfull Hmax n h'.
  assert (Hg : alloc h < n <= USHRT_MAX).
  { apply grow_size_bounds. pose proof (Zle_0_nat (length (values h))). lia. }
  assert (E : u16 n = n) by (apply wrap_small; unfold fits, USHRT_MAX in *; lia).
  subst h'. simpl. rewrite E. split_and!; [lia| |lia]. unfold xrealloc.
  split; simpl; try done; try lia.
  - rewrite length_app, length_take, length_replicate. lia.
  - rewrite <- Hc. rewrite take_app_le by (rewrite length_take; lia).
    rewrite take_take. f_equal. lia.
Qed.

Lemma histo_push_run (h : brubeck_histo) (vs : list value_t) (c c' : Z) (v f : value_t)
  (Hrep : histo_rep h vs c)
  (Hcount : to_unsigned 32 (fadd (F64 c) f) = Some c') :
  exists h', brubeck_histo_push h v f = Some h' /\ histo_rep h' (push_spec vs v) c'.
Proof.
  pose proof (to_unsigned_fits _ _ _ Hcount) as Hfit.
  pose proof Hrep as [Hlen Ha Hs Hr Hc Hn Hf He].
  unfold brubeck_histo_push. rewrite Hn, Hcount. simpl.
  unfold push_spec. rewrite <- Hs.
  destruct (Z.eqb_spec (size h) (alloc h)) as [Hfull|Hfull].
  - destruct (Z.eqb_spec (size h) USHRT_MAX) as [Hmax|Hmax].
    + eexists. split; [done|]. split; try done. intros ->. simpl in *. unfold USHRT_MAX in *. lia.
    + destruct (xrealloc_rep h vs c Hrep Hfull Hmax) as (Hne & Hrep' & Hlt).
      destruct (Z.eqb_spec (grow_size (alloc h)) (alloc h)); [done|].
      exact (histo_store_rep _ vs c' c v Hrep' Hlt Hfit).
  - destruct (Z.eqb_spec (size h) USHRT_MAX); [lia|].
    apply (histo_store_rep h vs c' c v Hrep ltac:(lia) Hfit).
Qed.

(** C17: a push refines the abstract histogram: the counter grows by the
    sample frequency, the value is appended while fewer than 65535 are held and
    dropped from then on; the array is never written out of bounds and its
    growth never loses a value. *)
Theorem histo_push_refines (h : brubeck_histo) (vs : list value_t) (c c' : Z) (v f : value_t)
  (Hrep : histo_rep h vs c)
  (Hcount : to_unsigned 32 (fadd (F64 c) f) = Some c') :
  exists h', brubeck_histo_push h v f = Some h' /\ histo_rep h' (push_spec vs v) c'.
Proof. by eapply histo_push_run. Qed.

Lemma histo_push_refines_witness :
  exists h', brubeck_histo_push histo_zero (F64 42) (F64 10) = Some h' /\
             histo_rep h' (push_spec [] (F64 42)) 10.
Proof.
  apply (histo_push_refines histo_zero [] 0 10 (F64 42) (F64 10) histo_zero_rep).
  vm_compute. reflexivity.
Defined.

(** ** Sorting *)

Lemma merge_perm {A} (cmp : A -> A -> Z) b1 : forall b2, Permutation (b1 ++ b2) (msort_merge cmp b1 b2).
Proof.
  induction b1 as [|x b1 IH1]; intros b2; [by destruct b2|].
  induction b2 as [|y b2 IH2]; [cbn; by rewrite app_nil_r|]. cbn [msort_merge]. destruct (cmp x y <=? 0).
  - cbn [app]. constructor. apply IH1.
  - rewrite <- Permutation_middle. constructor. exact IH2.
Qed.

Lemma msort_perm {A} (cmp : A -> A -> Z) fuel : forall l, Permutation l (msort fuel cmp l).
Proof.
  induction fuel as [|fuel IH]; intros l; cbn [msort]; [done|]. destruct (length l <=? 1)%nat; [done|].
  rewrite <- merge_perm, <- !IH. by rewrite take_drop.
Qed.

Lemma qsort_perm {A} (cmp : A -> A -> Z) l : Permutation l (qsort cmp l).
Proof. apply msort_perm. Qed.

Lemma qsort_length {A} (cmp : A -> A -> Z) l : length (qsort cmp l) = length l.
Proof. symmetry. apply Permutation_length, qsort_perm. Qed.

Definition fle (x y : value_t) : Prop := SFleb x y = true.

(** On numbers the comparison is a total preorder. *)
Lemma fle_trans x y z : fle x y -> fle y z -> fle x z.
Proof.
  unfold fle, SFleb, SFcompare. change (Pos.compare_cont Eq) with Pos.compare.
  destruct x as [[]|[]| |[] m e], y as [[]|[]| |[] m' e'], z as [[]|[]| |[] m'' e'']; try done;
    destruct (Z.compare_spec e e'), (Z.compare_spec e' e''), (Z.compare_spec e e'');
    try lia; try done;
    destruct (Pos.compare_spec m m'), (Pos.compare_spec m' m''), (Pos.compare_spec m m'');
    try done; lia.
Qed.

Lemma fle_refl x : not_nan x -> fle x x.
Proof.
  unfold not_nan, fle, SFleb, SFcompare. destruct x as [[]|[]| |[] m e]; try done;
    intros _; rewrite Z.compare_refl; change (Pos.compare_cont Eq m m) with (m ?= m)%positive;
    by rewrite Pos.compare_refl.
Qed.

Lemma value_cmp_le x y : not_nan x -> not_nan y -> (value_cmp x y <=? 0) = SFleb x y.
Proof.
  intros Hx Hy. unfold value_cmp. rewrite (fle_total x y) by done.
  destruct (SFleb x y) eqn:E; simpl; [by case_match|].
  case_match eqn:E'; [|done]. exfalso. unfold SFltb, SFleb in *. by repeat case_match.
Qed.

Lemma merge_sorted b1 : forall b2,
  Forall not_nan b1 -> Forall not_nan b2 -> StronglySorted fle b1 -> StronglySorted fle b2 ->
  StronglySorted fle (msort_merge value_cmp b1 b2).
Proof.
  induction b1 as [|x b1 IH1]; intros b2 N1 N2 S1 S2; [by destruct b2|].
  induction b2 as [|y b2 IH2]; [done|]. cbn [msort_merge].
  pose proof (Forall_inv N1) as Hx. pose proof (Forall_inv_tail N1) as Hn1.
  pose proof (Forall_inv N2) as Hy. pose proof (Forall_inv_tail N2) as Hn2.
  apply StronglySorted_inv in S1 as [S1 F1]. apply StronglySorted_inv in S2 as [S2 F2].
  rewrite value_cmp_le by done. destruct (SFleb x y) eqn:E.
  - constructor; [apply IH1; try done; by constructor|]. rewrite <- merge_perm. apply Forall_app. split; [done|].
    constructor; [done|]. eapply Forall_impl; [|exact F2]. intros z. by apply fle_trans.
  - assert (Hyx : fle y x).
    { unfold fle. pose proof (fle_total x y Hx Hy) as Ht. rewrite E in Ht. cbn in Ht.
      unfold SFltb, SFleb in *. by repeat case_match. }
    constructor; [by apply IH2|].
    change (Forall (fle y) (msort_merge value_cmp (x :: b1) b2)). rewrite <- merge_perm. apply Forall_app.
    split; [|done]. constructor; [done|]. eapply Forall_impl; [|exact F1]. intros z. by apply fle_trans.
Qed.

Lemma msort_sorted fuel : forall l,
  (length l <= fuel)%nat -> Forall not_nan l -> StronglySorted fle (msort fuel value_cmp l).
Proof.
  induction fuel as [|fuel IH]; intros l Hl Hn; cbn [msort]; [destruct l; [constructor|cbn in Hl; lia]|].
  destruct (Nat.leb_spec (length l) 1) as [H1|H1].
  { destruct l as [|x [|y l]]; [constructor|by repeat constructor|cbn in H1; lia]. }
  assert (Hd : (0 < Nat.div2 (length l) < length l)%nat).
  { pose proof (Nat.div2_odd (length l)). destruct (Nat.odd (length l)); cbn in *; lia. }
  assert (Ht : Forall not_nan (take (Nat.div2 (length l)) l)) by by apply Forall_take.
  assert (Hdr : Forall not_nan (drop (Nat.div2 (length l)) l)) by by apply Forall_drop.
  apply merge_sorted; [by rewrite <- msort_perm|by rewrite <- msort_perm|apply IH|apply IH];
    rewrite ?length_take, ?length_drop; try done; lia.
Qed.

Lemma qsort_sorted l : Forall not_nan l -> StronglySorted fle (qsort value_cmp l).
Proof. by apply msort_sorted. Qed.

(** A list that the comparison finds in order stays as it is. *)
Lemma merge_in_order {A} (cmp : A -> A -> Z) b1 : forall b2,
  (forall x y, In x b1 -> In y b2 -> cmp x y <= 0) -> msort_merge cmp b1 b2 = b1 ++ b2.
Proof.
  induction b1 as [|x b1 IH]; intros b2 Hle; [by destruct b2|]. destruct b2 as [|y b2]; [by rewrite app_nil_r|].
  cbn [msort_merge]. destruct (Z.leb_spec (cmp x y) 0) as [_|Hgt]; [|specialize (Hle x y ltac:(by left) ltac:(by left)); lia].
  rewrite IH; [done|]. intros a b Ha Hb. apply Hle; [by right|done].
Qed.

Lemma sorted_app {A} (R : A -> A -> Prop) l1 l2 :
  StronglySorted R (l1 ++ l2) -> StronglySorted R l1 /\ StronglySorted R l2 /\ forall x y, In x l1 -> In y l2 -> R x y.
Proof.
  induction l1 as [|x l1 IH]; intros Hs; [split; [constructor|done]|]. apply StronglySorted_inv in Hs as [Hs Hx].
  destruct (IH Hs) as (H1 & H2 & H12). apply Forall_app in Hx as [Hx1 Hx2].
  split; [by constructor|]. split; [done|]. intros a b [<-|Ha] Hb; [|by apply H12]. rewrite Forall_forall in Hx2. auto.
Qed.

Lemma qsort_in_order {A} (cmp : A -> A -> Z) l :
  StronglySorted (fun x y => cmp x y <= 0) l -> qsort cmp l = l.
Proof.
  unfold qsort. generalize (length l) as fuel. intros fuel. revert l.
  induction fuel as [|fuel IH]; intros l Hs; cbn [msort]; [done|]. destruct (length l <=? 1)%nat; [done|].
  rewrite <- (take_drop (Nat.div2 (length l)) l) in Hs at 1. apply sorted_app in Hs as (H1 & H2 & H12).
  rewrite !IH by done. rewrite merge_in_order by done. apply take_drop.
Qed.

Lemma sorted_lookup_le l (i j : nat) x y :
  StronglySorted fle l -> Forall not_nan l -> (i <= j)%nat ->
  l !! i = Some x -> l !! j = Some y -> fle x y.
Proof.
  intros Hs. revert i j. induction Hs as [|z l Hs IH Hz]; intros i j Hn Hij Hi Hj; [done|].
  inversion_clear Hn as [|?? Hnz Hnl]. destruct i as [|i].
  - simpl in Hi. injection Hi as <-. destruct j as [|j]; simpl in Hj.
    + injection Hj as <-. by apply fle_refl.
    + eapply Forall_lookup_1; [exact Hz|exact Hj].
  - destruct j as [|j]; [lia|]. apply (IH i j); [done|lia|done|done].
Qed.

(** ** Sampling *)

Lemma mapM_id_fmap_Some {A} (vs : list A) : mapM (fun c => c) (Some <$> vs) = Some vs.
Proof. by apply mapM_fmap_Some. Qed.

Lemma histo_rep_cells h vs c :
  histo_rep h vs c -> rd_n (values h) 0 (Z.to_nat (size h)) = Some (Some <$> vs).
Proof.
  intros [Hlen Ha Hs Hr Hc _ _ _]. rewrite rd_n_in by lia.
  change (Z.to_nat 0) with 0%nat. by rewrite drop_0, Hs, Nat2Z.id, Hc.
Qed.

Lemma histo_sort_rep h vs c :
  histo_rep h vs c -> exists h', histo_sort h = Some h' /\ histo_rep h' (qsort value_cmp vs) c.
Proof.
  intros Hrep. unfold histo_sort. rewrite (histo_rep_cells h vs c Hrep). simpl.
  rewrite mapM_id_fmap_Some. simpl. destruct Hrep as [Hlen Ha Hs Hr Hc Hn Hf He].
  rewrite wr_n_in by (rewrite ?length_fmap, ?qsort_length; lia). simpl.
  rewrite length_fmap, qsort_length. eexists. split; [done|].
  split; simpl; rewrite ?qsort_length; try done.
  - rewrite length_app, length_fmap, qsort_length, length_drop. lia.
  - rewrite take_app_le, take_ge; rewrite ?length_fmap, ?qsort_length; done.
  - intros E%(f_equal length). rewrite qsort_length in E. apply He. by destruct vs.
Qed.

Lemma histo_get h vs c i v : histo_rep h vs c -> rd vs i = Some v -> get h i = Some v.
Proof.
  intros [_ _ _ _ Hc _ _ _]. unfold get, rd. destruct (i <? 0); [done|]. intros Hv.
  assert (values h !! Z.to_nat i = Some (Some v)) as ->; [|done].
  rewrite <- (take_drop (length vs) (values h)), Hc.
  apply lookup_app_l_Some. by rewrite list_lookup_fmap, Hv.
Qed.

Lemma histo_percentile_pick h vs c rank v :
  histo_rep h vs c -> pick vs rank = Some v -> histo_percentile h rank = Some v.
Proof.
  intros Hrep. unfold histo_percentile, pick. rewrite (rep_size _ _ _ Hrep).
  destruct (irank rank (Z.of_nat (length vs))) as [r|]; simpl; [|done]. by eapply histo_get.
Qed.

Lemma histo_sum_foldl vs s : histo_sum_loop (Some <$> vs) s = Some (foldl fadd s vs).
Proof. revert s. induction vs as [|v vs IH]; intros s; simpl; [done|]. apply IH. Qed.

(** Every percentile of a non-empty histogram is one of its values. *)
Lemma pick_total vs rank :
  rank_ok rank -> vs <> [] -> Z.of_nat (length vs) <= USHRT_MAX ->
  exists v i, pick vs rank = Some v /\ vs !! i = Some v.
Proof.
  intros Hr Hne Hle. assert (length vs <> 0%nat) by by destruct vs.
  destruct (irank_bounds rank (Z.of_nat (length vs)) Hr ltac:(lia)) as (r & E & Hb).
  unfold pick. rewrite E. simpl. destruct (rd_is_Some vs (r - 1) ltac:(lia)) as [v Hv].
  exists v, (Z.to_nat (r - 1)). split; [done|]. unfold rd in Hv.
  destruct (Z.ltb_spec (r - 1) 0); [lia|done].
Qed.

Lemma sample_spec_total vs c :
  vs <> [] -> Z.of_nat (length vs) <= USHRT_MAX -> exists smp, sample_spec vs c = Some smp.
Proof.
  intros Hne Hle. assert (length vs <> 0%nat) by by destruct vs.
  pose proof ranks_ok as Hr. unfold sample_spec.
  destruct (rd_is_Some vs 0 ltac:(lia)) as [mn ->].
  destruct (rd_is_Some vs (Z.of_nat (length vs) - 1) ltac:(lia)) as [mx ->]. simpl.
  repeat match type of Hr with
  | Forall rank_ok (?r :: _) =>
      let Hk := fresh in
      inversion_clear Hr as [|?? Hk Hr']; rename Hr' into Hr;
      destruct (pick_total vs r Hk Hne Hle) as (? & ? & -> & _); simpl
  end. eauto.
Qed.

Lemma histo_sample_run (h : brubeck_histo) (vs : list value_t) (c : Z)
  (Hrep : histo_rep h vs c) :
  exists smp h', brubeck_histo_sample h = Some (smp, h') /\ histo_rep h' [] 0 /\
    (vs = [] -> smp = sample_zero) /\
    (vs <> [] -> sample_spec (qsort value_cmp vs) c = Some smp).
Proof.
  unfold brubeck_histo_sample. pose proof (rep_size _ _ _ Hrep) as Hs.
  destruct (Z.eqb_spec (size h) 0) as [Hz|Hz].
  { exists sample_zero, h. assert (vs = []) as -> by (destruct vs; [done|simpl in *; lia]).
    split_and!; try done. by rewrite (rep_empty _ _ _ Hrep) in Hrep. }
  destruct (histo_sort_rep h vs c Hrep) as (h1 & -> & Hrep1). simpl.
  set (l := qsort value_cmp vs) in *.
  assert (Hne : l <> []).
  { intros E%(f_equal length). unfold l in E. rewrite qsort_length in E. simpl in E. lia. }
  pose proof Hrep1 as [Hlen Ha Hs1 Hr Hc Hn Hf He].
  destruct (sample_spec_total l c Hne ltac:(lia)) as [smp Hsmp].
  pose proof Hsmp as Hall. unfold sample_spec in Hall.
  repeat (apply bind_Some in Hall as (? & ?E & Hall)). injection Hall as Hall.
  unfold histo_sum. rewrite (histo_rep_cells h1 l c Hrep1). cbn [mbind option_bind].
  rewrite histo_sum_foldl. cbn [mbind option_bind]. rewrite Hs1, Hn.
  repeat match goal with
  | E : rd l ?i = Some _ |- context [get h1 ?i] =>
      rewrite (histo_get h1 l c i _ Hrep1 E); cbn [mbind option_bind]
  | E : pick l ?r = Some _ |- context [histo_percentile h1 ?r] =>
      rewrite (histo_percentile_pick h1 l c r _ Hrep1 E); cbn [mbind option_bind]
  end.
  rewrite Hall. do 2 eexists. split; [done|]. split; [|split; [|done]].
  - split; simpl; try done. pose proof (Zle_0_nat (length (values h1))). lia.
  - intros ->. simpl in *. lia.
Qed.

(** ** What a sample promises

    The statistics of the values [l], in ascending order, that stand for [c]
    readings: the ends, the floating-point sum and mean, and the values at the
    ranks nearest to the fractions.  The 99.9th percentile may be the value
    behind the one at the nearest rank. *)
Record sample_of (l : list value_t) (c : Z) (s : brubeck_histo_sample_t) : Prop := {
  so_min : l !! 0%nat = Some (s_min s);
  so_max : l !! (length l - 1)%nat = Some (s_max s);
  so_sum : s_sum s = foldl fadd (F64 0) l;
  so_mean : s_mean s = fdiv (s_sum s) (F64 (Z.of_nat (length l)));
  so_count : s_count s = F64 c;
  so_median : l !! Z.to_nat (nearest_rank 50 100 (Z.of_nat (length l)) - 1) = Some (s_median s);
  so_percentile : exists p75 p95 p98 p99 p999 r,
    s_percentile s = [p75; p95; p98; p99; p999] /\
    l !! Z.to_nat (nearest_rank 75 100 (Z.of_nat (length l)) - 1) = Some p75 /\
    l !! Z.to_nat (nearest_rank 95 100 (Z.of_nat (length l)) - 1) = Some p95 /\
    l !! Z.to_nat (nearest_rank 98 100 (Z.of_nat (length l)) - 1) = Some p98 /\
    l !! Z.to_nat (nearest_rank 99 100 (Z.of_nat (length l)) - 1) = Some p99 /\
    l !! Z.to_nat (r - 1) = Some p999 /\
    nearest_rank 999 1000 (Z.of_nat (length l)) <= r <= nearest_rank 999 1000 (Z.of_nat (length l)) + 1;
}.

Lemma rd_lookup {A} (l : list A) i x : rd l i = Some x -> l !! Z.to_nat i = Some x.
Proof. unfold rd. by destruct (i <? 0). Qed.

Lemma pick_lookup l rank r v :
  irank rank (Z.of_nat (length l)) = Some r -> pick l rank = Some v -> l !! Z.to_nat (r - 1) = Some v.
Proof. unfold pick. intros ->. apply rd_lookup. Qed.

Lemma sample_spec_of l c s :
  l <> [] -> Z.of_nat (length l) <= USHRT_MAX -> sample_spec l c = Some s -> sample_of l c s.
Proof.
  intros Hne Hle Hs. assert (Hn : 1 <= Z.of_nat (length l) <= USHRT_MAX) by (destruct l; [done|cbn [length] in *; lia]).
  unfold sample_spec in Hs. apply bind_Some in Hs as (mn & Emn & Hs). apply bind_Some in Hs as (mx & Emx & Hs).
  apply bind_Some in Hs as (med & Emed & Hs). apply bind_Some in Hs as (p75 & E75 & Hs).
  apply bind_Some in Hs as (p95 & E95 & Hs). apply bind_Some in Hs as (p98 & E98 & Hs).
  apply bind_Some in Hs as (p99 & E99 & Hs). apply bind_Some in Hs as (p999 & E999 & Hs). injection Hs as <-.
  destruct (irank_999 _ Hn) as (r & Er & Hr).
  split; cbn [s_min s_max s_sum s_mean s_count s_median s_percentile]; try done.
  - apply rd_lookup in Emx. rewrite <- Emx. f_equal. lia.
  - exact (pick_lookup _ _ _ _ (irank_50 _ Hn) Emed).
  - exists p75, p95, p98, p99, p999, r. split; [done|].
    split_and!; [exact (pick_lookup _ _ _ _ (irank_75 _ Hn) E75)|exact (pick_lookup _ _ _ _ (irank_95 _ Hn) E95)
      |exact (pick_lookup _ _ _ _ (irank_98 _ Hn) E98)|exact (pick_lookup _ _ _ _ (irank_99 _ Hn) E99)
      |exact (pick_lookup _ _ _ _ Er E999)|lia|lia].
Qed.

(** C16: sampling a histogram refines the abstract one: with no value it reports
    zeros and changes nothing; otherwise it reports the statistics
    ([sample_of]) of a permutation of the values, which is ascending unless one
    of them is a NaN, and leaves the empty histogram.  Every array access is in
    bounds and initialised. *)
Theorem histo_sample_refines (h : brubeck_histo) (vs : list value_t) (c : Z)
  (Hrep : histo_rep h vs c) :
  exists smp h', brubeck_histo_sample h = Some (smp, h') /\ histo_rep h' [] 0 /\
    (vs = [] -> smp = sample_zero) /\
    (vs <> [] -> exists l, l ≡ₚ vs /\ (Forall not_nan vs -> StronglySorted (fun x y => SFleb x y = true) l) /\
                   sample_of l c smp).
Proof.
  destruct (histo_sample_run h vs c Hrep) as (smp & h' & E & Hh & Hz & Hs). exists smp, h'. split_and!; try done.
  intros Hne. exists (qsort value_cmp vs). split; [symmetry; apply qsort_perm|]. split; [apply qsort_sorted|].
  apply sample_spec_of; [|rewrite qsort_length; rewrite <- (rep_size _ _ _ Hrep); pose proof (rep_room _ _ _ Hrep);
    pose proof (rep_alloc _ _ _ Hrep); lia|by apply Hs].
  intros E'%(f_equal length). rewrite qsort_length in E'. by destruct vs.
Qed.

(** Five readings pushed. *)
Definition demo_histo : brubeck_histo :=
  {| values := (Some <$> (F64 <$> [7; 3; 42; 3; 19])) ++ replicate 11 None; count := 5; alloc := 16; size := 5 |}.

Lemma histo_sample_refines_witness :
  exists smp h', brubeck_histo_sample demo_histo = Some (smp, h') /\ histo_rep h' [] 0 /\
    exists l, l ≡ₚ (F64 <$> [7; 3; 42; 3; 19]) /\ StronglySorted (fun x y => SFleb x y = true) l /\ sample_of l 5 smp.
Proof.
  destruct (histo_sample_refines demo_histo (F64 <$> [7; 3; 42; 3; 19]) 5) as (smp & h' & E & Hh & _ & Hs).
  - split; try reflexivity; try (vm_compute; congruence). vm_compute. split; congruence.
  - exists smp, h'. split; [exact E|]. split; [exact Hh|]. destruct (Hs ltac:(done)) as (l & Hp & Hso & Hof).
    exists l. split; [exact Hp|]. split; [|exact Hof]. apply Hso. repeat constructor; vm_compute; congruence.
Defined.

(** In a sample of NaN-free values, the minimum is below every value, the
    maximum above every value, and the median and the five percentiles are
    recorded values between the two. *)
Theorem histo_sample_order (vs : list value_t) (c : Z) (smp : brubeck_histo_sample_t)
  (Hne : vs <> []) (Hle : Z.of_nat (length vs) <= USHRT_MAX) (Hnan : Forall not_nan vs)
  (Hsmp : sample_spec (qsort value_cmp vs) c = Some smp) :
  Forall (fun v => fle (s_min smp) v /\ fle v (s_max smp)) vs /\
  Forall (fun v => v ∈ vs) (s_min smp :: s_max smp :: s_median smp :: s_percentile smp).
Proof.
  set (l := qsort value_cmp vs) in *.
  assert (Hnl : Forall not_nan l) by (unfold l; by rewrite <- qsort_perm).
  pose proof (qsort_sorted vs Hnan) as Hsort. fold l in Hsort.
  assert (Hlen : length l = length vs) by apply qsort_length.
  assert (Hin : forall v i, rd l i = Some v -> v ∈ vs).
  { intros v i Hv. unfold rd in Hv. case_match; [done|].
    rewrite (qsort_perm value_cmp vs). by apply list_elem_of_lookup_2 in Hv. }
  assert (Hpick : forall v r, pick l r = Some v -> v ∈ vs).
  { intros v r. unfold pick. destruct (irank r _); simpl; [|done]. apply Hin. }
  unfold sample_spec in Hsmp.
  repeat (apply bind_Some in Hsmp as (? & ? & Hsmp)).
  injection Hsmp as <-. cbn [s_min s_max s_median s_percentile].
  split; [|repeat (apply List.Forall_cons; [eauto|]); apply List.Forall_nil].
  rewrite (qsort_perm value_cmp vs) at 1. fold l.
  apply Forall_lookup_2. intros i v Hv. pose proof (lookup_lt_Some _ _ _ Hv) as Hi.
  assert (Hrd : forall k w, 0 <= k -> rd l k = Some w -> l !! Z.to_nat k = Some w).
  { intros k w Hk. unfold rd. by destruct (Z.ltb_spec k 0); [lia|]. }
  split.
  - eapply (sorted_lookup_le l 0 i); [done|done|lia| |done]. by apply (Hrd 0).
  - eapply (sorted_lookup_le l i (length l - 1)); [done|done|lia|done|].
    replace (length l - 1)%nat with (Z.to_nat (Z.of_nat (length l) - 1)) by lia.
    apply Hrd; [lia|done].
Qed.

Definition demo_values : list value_t := F64 <$> [7; 3; 42; 3; 19].

Definition demo_sample : brubeck_histo_sample_t :=
  match sample_spec (qsort value_cmp demo_values) 5 with
  | Some s => s
  | None => sample_zero
  end.

Lemma histo_sample_order_witness :
  Forall (fun v => fle (s_min demo_sample) v /\ fle v (s_max demo_sample)) demo_values /\
  Forall (fun v => v ∈ demo_values)
    (s_min demo_sample :: s_max demo_sample :: s_median demo_sample :: s_percentile demo_sample).
Proof.
  apply (histo_sample_order demo_values 5 demo_sample).
  - done.
  - vm_compute. congruence.
  - repeat constructor; vm_compute; congruence.
  - vm_compute. reflexivity.
Defined.

(** For every sample rank and every possible number of values, the index
    that [histo_percentile] computes in single precision is within the array:
    rounding never reads before the first or past the last value. *)
Theorem percentile_index_in_bounds (rank : spec_float) (sz : Z)
  (Hrank : rank ∈ [rank_50; rank_75; rank_95; rank_98; rank_99; rank_999])
  (Hsz : 1 <= sz <= USHRT_MAX) :
  exists r, irank rank sz = Some r /\ 0 <= r - 1 < sz.
Proof.
  pose proof ranks_ok as Hr. rewrite Forall_forall in Hr.
  destruct (irank_bounds rank sz) as (r & E & Hb); [|done|].
  - apply Hr. by apply list_elem_of_In.
  - exists r. split; [done|lia].
Qed.

Lemma percentile_index_in_bounds_witness :
  exists r, irank rank_999 65535 = Some r /\ 0 <= r - 1 < 65535.
Proof.
  apply (percentile_index_in_bounds rank_999 65535).
  - apply list_elem_of_In. simpl. tauto.
  - vm_compute. split; congruence.
Defined.

(** ** The invariant of a histogram in use *)

Definition histo_ok (h : brubeck_histo) : Prop :=
  exists vs c, histo_rep h vs c /\ Forall is_double vs.

Definition sample_doubles (s : brubeck_histo_sample_t) : Prop :=
  is_double (s_sum s) /\ is_double (s_min s) /\ is_double (s_max s) /\ is_double (s_mean s) /\
  is_double (s_median s) /\ is_double (s_count s) /\ Forall is_double (s_percentile s).

Lemma histo_zero_ok : histo_ok histo_zero.
Proof. exists [], 0. split; [apply histo_zero_rep|constructor]. Qed.

(** A push fails exactly when the new count is not a [uint32_t]. *)
Lemma histo_push_ok h v f :
  histo_ok h -> is_double v ->
  match to_unsigned 32 (fadd (F64 (count h)) f) with
  | Some _ => exists h', brubeck_histo_push h v f = Some h' /\ histo_ok h'
  | None => brubeck_histo_push h v f = None
  end.
Proof.
  intros (vs & c & Hrep & Hd) Hv. pose proof (rep_count _ _ _ Hrep) as ->.
  destruct (to_unsigned 32 (fadd (F64 c) f)) as [c'|] eqn:E.
  - destruct (histo_push_run h vs c c' v f Hrep E) as (h' & -> & Hrep'). exists h'. split; [done|].
    exists (push_spec vs v), c'. split; [done|]. unfold push_spec. case_match; [done|].
    apply Forall_app. split; [done|by repeat constructor].
  - unfold brubeck_histo_push. by rewrite (rep_count _ _ _ Hrep), E.
Qed.

Lemma rd_double (l : list value_t) i v : Forall is_double l -> rd l i = Some v -> is_double v.
Proof.
  intros Hl. unfold rd. case_match; [done|]. intros Hv. exact (proj1 (Forall_lookup _ _) Hl _ _ Hv).
Qed.

Lemma pick_double l r v : Forall is_double l -> pick l r = Some v -> is_double v.
Proof. intros Hl (i & _ & E)%bind_Some. by eapply rd_double. Qed.

Lemma sum_double l : forall acc, is_double acc -> Forall is_double l -> is_double (foldl fadd acc l).
Proof.
  induction l as [|x l IH]; intros acc Ha Hl; [done|]. inversion_clear Hl as [|?? Hx Hl'].
  cbn [foldl]. apply IH; [by apply fadd_double|done].
Qed.

Lemma histo_sample_ok h :
  histo_ok h ->
  exists smp h', brubeck_histo_sample h = Some (smp, h') /\ histo_ok h' /\ sample_doubles smp.
Proof.
  intros (vs & c & Hrep & Hd). destruct (histo_sample_run h vs c Hrep) as (smp & h' & E & Hrep' & Hz & Hnz).
  exists smp, h'. split; [done|]. split; [exists [], 0; by split|].
  destruct vs as [|v vs].
  { rewrite (Hz eq_refl). unfold sample_doubles. split_and!; try done. repeat (constructor; [done|]). constructor. }
  specialize (Hnz ltac:(done)). set (l := qsort value_cmp (v :: vs)) in *.
  assert (Hl : Forall is_double l) by (unfold l; rewrite <- qsort_perm; exact Hd).
  unfold sample_spec in Hnz. repeat (apply bind_Some in Hnz as (? & ?E & Hnz)).
  injection Hnz as <-. unfold sample_doubles. cbn [s_sum s_min s_max s_mean s_median s_count s_percentile].
  pose proof (sum_double l _ (zero_double false) Hl).
  split_and!; try (by eapply rd_double); try (by eapply pick_double); auto with double.
  repeat (constructor; [by eapply pick_double|]). constructor.
Qed.

End Histogram.
