(* ===== verification/Metric.v ===== *)
(** * Metrics ([src/metric.h], [src/metric.c])

    A metric is a key, a type, an expiry state and the data of its type.  The
    union [as] is the sum of its variants; the type picks the variant, so an
    operation that meets another variant has no meaning ([None]).  A sample is
    the list of the calls to the backend's callback, in order. *)

From S2P Require Import Prelude Value Histogram.
From Stdlib Require Import Sorting.Sorted.
Import Histogram.

Module Metric.

Inductive brubeck_metric_t :=
  | BRUBECK_MT_GAUGE
  | BRUBECK_MT_METER
  | BRUBECK_MT_COUNTER
  | BRUBECK_MT_HISTO
  | BRUBECK_MT_TIMER
  | BRUBECK_MT_INTERNAL_STATS.

#[export] Instance brubeck_metric_t_eq_dec : EqDecision brubeck_metric_t.
Proof. solve_decision. Defined.

Definition BRUBECK_MOD_RELATIVE_VALUE : Z := 1.

Definition BRUBECK_EXPIRE_DISABLED : Z := 0.
Definition BRUBECK_EXPIRE_INACTIVE : Z := 1.
Definition BRUBECK_EXPIRE_ACTIVE : Z := 2.

(** The union [as]; [As_other] is the pointer to the server's statistics, null
    until [brubeck_internal__init] sets it. *)
Inductive metric_as :=
  | As_gauge (value : value_t)
  | As_meter (value : value_t)
  | As_counter (value previous : value_t)
  | As_histogram (h : brubeck_histo)
  | As_other (set : bool).

Record brubeck_metric := {
  key : list Z;
  key_len : Z;
  type : brubeck_metric_t;
  expire : Z;
  as_ : metric_as;
}.

Definition set_as (m : brubeck_metric) (a : metric_as) : brubeck_metric :=
  {| key := key m; key_len := key_len m; type := type m; expire := expire m; as_ := a |}.

Definition set_expire (m : brubeck_metric) (e : Z) : brubeck_metric :=
  {| key := key m; key_len := key_len m; type := type m; expire := e; as_ := as_ m |}.

(** All-zero bytes, read as the variant of the type. *)
Definition as_zero (t : brubeck_metric_t) : metric_as :=
  match t with
  | BRUBECK_MT_GAUGE => As_gauge (S754_zero false)
  | BRUBECK_MT_METER => As_meter (S754_zero false)
  | BRUBECK_MT_COUNTER => As_counter (S754_zero false) (S754_zero false)
  | BRUBECK_MT_HISTO | BRUBECK_MT_TIMER => As_histogram histo_zero
  | BRUBECK_MT_INTERNAL_STATS => As_other false
  end.

(** [sizeof(struct brubeck_metric)] on x86-64. *)
Definition sizeof_metric : Z := 32.

(** The contents [new_metric] gives to a fresh metric. *)
Definition new_metric (k : list Z) (t : brubeck_metric_t) : brubeck_metric :=
  {| key := k; key_len := u16 (Z.of_nat (length k)); type := t;
     expire := BRUBECK_EXPIRE_ACTIVE; as_ := as_zero t |}.

(** A call [sample(key, value, opaque)] of the backend's callback. *)
Definition emission : Type := list Z * value_t.

(** ** Gauge *)

Definition gauge__record (m : brubeck_metric) (value sample_freq : value_t) (modifiers : Z)
    : option brubeck_metric :=
  match as_ m with
  | As_gauge v =>
      Some (set_as m (As_gauge
        (if negb (Z.land modifiers BRUBECK_MOD_RELATIVE_VALUE =? 0) then fadd v value
         else value)))
  | _ => None
  end.

Definition gauge__sample (m : brubeck_metric) : option (brubeck_metric * list emission) :=
  match as_ m with
  | As_gauge v => Some (m, [(key m, v)])
  | _ => None
  end.

(** ** Meter *)

Definition meter__record (m : brubeck_metric) (value sample_freq : value_t) (modifiers : Z)
    : option brubeck_metric :=
  let value := fmul value sample_freq in
  match as_ m with
  | As_meter v => Some (set_as m (As_meter (fadd v value)))
  | _ => None
  end.

Definition meter__sample (m : brubeck_metric) : option (brubeck_metric * list emission) :=
  match as_ m with
  | As_meter v => Some (set_as m (As_meter (S754_zero false)), [(key m, v)])
  | _ => None
  end.

(** ** Counter *)

Definition counter__record (m : brubeck_metric) (value sample_freq : value_t) (modifiers : Z)
    : option brubeck_metric :=
  let value := fmul value sample_freq in
  match as_ m with
  | As_counter v previous =>
      let v :=
        if SFltb (S754_zero false) previous then
          let diff := if SFleb previous value then fsub value previous else value in
          fadd v diff
        else v in
      Some (set_as m (As_counter v value))
  | _ => None
  end.

Definition counter__sample (m : brubeck_metric) : option (brubeck_metric * list emission) :=
  match as_ m with
  | As_counter v previous =>
      Some (set_as m (As_counter (S754_zero false) previous), [(key m, v)])
  | _ => None
  end.

(** ** Histogram and timer *)

Definition histogram__record (m : brubeck_metric) (value sample_freq : value_t) (modifiers : Z)
    : option brubeck_metric :=
  match as_ m with
  | As_histogram h =>
      h' ← brubeck_histo_push h value sample_freq;
      Some (set_as m (As_histogram h'))
  | _ => None
  end.

(** [WITH_SUFFIX]: copies the suffix and its terminator behind the key in the
    stack buffer; the callback then reads the buffer as a C string. *)
Definition with_suffix (buf : list Z) (klen : Z) (suffix : string) : option (list Z) :=
  wr_n buf klen (bytes suffix ++ [0]).

(** A run of [WITH_SUFFIX(suffix) { sample(key, value, opaque); }] blocks over
    one buffer. *)
Fixpoint emit_all (buf : list Z) (klen : Z) (l : list (string * value_t))
    : option (list emission) :=
  match l with
  | [] => Some []
  | (suffix, v) :: l' =>
      buf ← with_suffix buf klen suffix;
      k ← cstr buf;
      es ← emit_all buf klen l';
      Some ((k, v) :: es)
  end.

(** The buffer [alloca]ted for [longest] behind the key, with the key copied;
    its other bytes are the arbitrary [junk]. *)
Definition suffix_buffer (m : brubeck_metric) (longest : string) (junk : Z) : option (list Z) :=
  k ← rd_n (key m ++ [0]) 0 (Z.to_nat (key_len m));
  wr_n (replicate (Z.to_nat (key_len m) + length (bytes longest) + 1) junk) 0 k.

Definition histogram_blocks (s : brubeck_histo_sample_t) (sample_freq : Z)
    : list (string * value_t) :=
  let nth i := nth i (s_percentile s) (S754_zero false) in
  [(".count", s_count s); (".count_ps", fdiv (s_count s) (F64 sample_freq))]%string ++
  (if SFeqb (s_count s) (S754_zero false) then []
   else [(".min", s_min s); (".max", s_max s); (".sum", s_sum s); (".mean", s_mean s);
         (".median", s_median s); (".percentile.75", nth 0%nat); (".percentile.95", nth 1%nat);
         (".percentile.98", nth 2%nat); (".percentile.99", nth 3%nat);
         (".percentile.999", nth 4%nat)]%string).

Definition histogram__sample (m : brubeck_metric) (sample_freq junk : Z)
    : option (brubeck_metric * list emission) :=
  match as_ m with
  | As_histogram h =>
      '(s, h') ← brubeck_histo_sample h;
      buf ← suffix_buffer m ".percentile.999" junk;
      es ← emit_all buf (key_len m) (histogram_blocks s sample_freq);
      Some (set_as m (As_histogram h'), es)
  | _ => None
  end.

(** ** The keys of a suffixed sample *)

Lemma wr_n_app (k rest src : list Z) :
  (length src <= length rest)%nat ->
  wr_n (k ++ rest) (Z.of_nat (length k)) src = Some (k ++ src ++ drop (length src) rest).
Proof.
  intros Hle. rewrite wr_n_in by (rewrite ?length_app; lia). rewrite Nat2Z.id.
  rewrite take_app_le, take_ge by lia. by rewrite drop_app_add'.
Qed.

Lemma bytes_nul_free s : forallb (fun b => negb (b =? 0)) (bytes s) = true -> nul_free (bytes s).
Proof.
  rewrite forallb_forall. unfold nul_free. rewrite Forall_forall. intros H b Hb.
  specialize (H b Hb). zbool. done.
Qed.

(** A suffix fits behind the key and has no terminator inside. *)
Definition suffix_ok (room : nat) (s : string) : bool :=
  (length (bytes s) <? room)%nat && forallb (fun b => negb (b =? 0)) (bytes s).

Lemma emit_all_spec k rest l :
  nul_free k -> Forall (fun sv => suffix_ok (length rest) sv.1 = true) l ->
  emit_all (k ++ rest) (Z.of_nat (length k)) l =
    Some ((fun sv : string * value_t => (k ++ bytes sv.1, sv.2)) <$> l).
Proof.
  intros Hk Hl. revert rest Hl. induction l as [|[s v] l IH]; intros rest Hl; simpl; [done|].
  inversion_clear Hl as [|?? Hs Hl']. unfold suffix_ok in Hs. simpl in Hs.
  apply andb_true_iff in Hs as [Hlen%Nat.ltb_lt Hn%bytes_nul_free].
  unfold with_suffix. rewrite wr_n_app by (rewrite length_app; simpl; lia). simpl.
  rewrite <- app_assoc. simpl. rewrite app_assoc, cstr_app by by apply Forall_app. simpl.
  rewrite <- app_assoc, IH; [done|].
  rewrite length_app. simpl. rewrite length_drop, length_app. simpl.
  replace (length (bytes s) + S (length rest - (length (bytes s) + 1)))%nat
    with (length rest) by lia. done.
Qed.

(** A metric as [brubeck_metric_new] leaves it: a C string of its length. *)
Definition key_wf (m : brubeck_metric) : Prop :=
  nul_free (key m) /\ key_len m = Z.of_nat (length (key m)).

Lemma new_metric_key_wf k t :
  nul_free k -> Z.of_nat (length k) < 65536 -> key_wf (new_metric k t).
Proof. intros Hk Hl. split; [done|]. simpl. apply wrap_small. unfold fits. lia. Qed.

Lemma suffix_buffer_spec m longest junk :
  key_wf m ->
  suffix_buffer m longest junk =
    Some (key m ++ replicate (length (bytes longest) + 1) junk).
Proof.
  intros [_ Hl]. unfold suffix_buffer. rewrite Hl, Nat2Z.id.
  rewrite rd_n_in by (rewrite ?length_app; simpl; lia). simpl.
  rewrite drop_0, take_app_le, take_ge by lia.
  rewrite wr_n_in by (rewrite ?length_replicate; lia).
  rewrite take_0, app_nil_l. simpl. rewrite drop_replicate. do 3 f_equal. lia.
Qed.

Lemma histogram_blocks_ok s f :
  Forall (fun sv => suffix_ok 16 sv.1 = true) (histogram_blocks s f).
Proof.
  unfold histogram_blocks. apply Forall_app. split; [repeat constructor|].
  case_match; repeat constructor.
Qed.

Lemma histogram_sample_run (m : brubeck_metric) (h h' : brubeck_histo)
  (s : brubeck_histo_sample_t) (freq junk : Z)
  (Hk : key_wf m) (Has : as_ m = As_histogram h)
  (Hs : brubeck_histo_sample h = Some (s, h')) :
  exists es, histogram__sample m freq junk = Some (set_as m (As_histogram h'), es) /\
    es = (fun sv : string * value_t => (key m ++ bytes sv.1, sv.2)) <$> histogram_blocks s freq /\
    length es = (if SFeqb (s_count s) (S754_zero false) then 2 else 12)%nat.
Proof.
  unfold histogram__sample. rewrite Has, Hs. cbn [mbind option_bind].
  rewrite (suffix_buffer_spec m _ junk Hk). cbn [mbind option_bind].
  rewrite (proj2 Hk), emit_all_spec; [|apply Hk|apply histogram_blocks_ok].
  eexists. split; [done|]. split; [done|]. rewrite length_fmap. unfold histogram_blocks.
  by case_match.
Qed.

(** Sampling a histogram or a timer takes the values collected and calls
    the backend once per statistic, with the metric's key and the statistic's
    suffix: two calls for an idle period (a zero count), twelve otherwise.  The
    stack buffer of the suffixed keys never overflows. *)
Theorem histogram_sample_emissions (m : brubeck_metric) (h h' : brubeck_histo)
  (s : brubeck_histo_sample_t) (freq junk : Z)
  (Hk : key_wf m) (Has : as_ m = As_histogram h)
  (Hs : brubeck_histo_sample h = Some (s, h')) :
  exists es, histogram__sample m freq junk = Some (set_as m (As_histogram h'), es) /\
    es = (fun sv : string * value_t => (key m ++ bytes sv.1, sv.2)) <$> histogram_blocks s freq /\
    length es = (if SFeqb (s_count s) (S754_zero false) then 2 else 12)%nat.
Proof. by eapply histogram_sample_run. Qed.

Lemma histogram_sample_emissions_witness :
  exists es,
    histogram__sample (new_metric (bytes "rq") BRUBECK_MT_TIMER) 10 7 =
      Some (set_as (new_metric (bytes "rq") BRUBECK_MT_TIMER) (As_histogram histo_zero), es) /\
    es = (fun sv : string * value_t => (bytes "rq" ++ bytes sv.1, sv.2)) <$>
           histogram_blocks sample_zero 10 /\
    length es = 2%nat.
Proof.
  apply (histogram_sample_emissions (new_metric (bytes "rq") BRUBECK_MT_TIMER)
           histo_zero histo_zero sample_zero 10 7).
  - apply new_metric_key_wf; [by apply bytes_nul_free|reflexivity].
  - reflexivity.
  - reflexivity.
Defined.

(** ** Runs of integer readings

    A reading is a value, a sample frequency and modifiers.  On integer
    readings the double arithmetic of a run is exact as long as the magnitudes
    add up to less than 2^53. *)

Definition record_fn := brubeck_metric -> value_t -> value_t -> Z -> option brubeck_metric.

Fixpoint record_all (rec : record_fn) (m : brubeck_metric) (l : list (value_t * value_t * Z))
    : option brubeck_metric :=
  match l with
  | [] => Some m
  | (v, f, mods) :: l' => m' ← rec m v f mods; record_all rec m' l'
  end.

Definition int_reading (r : Z * Z) : value_t * value_t * Z := (F64 r.1, F64 r.2, 0).

Definition scaled (r : Z * Z) : Z := r.1 * r.2.
Definition total (l : list (Z * Z)) : Z := foldr (fun r acc => scaled r + acc) 0 l.
Definition magnitude (l : list (Z * Z)) : Z := foldr (fun r acc => Z.abs (scaled r) + acc) 0 l.

Definition freqs_ok (l : list (Z * Z)) : Prop := Forall (fun r => 0 < r.2 < 2 ^ 53) l.

Lemma magnitude_nonneg l : 0 <= magnitude l.
Proof. induction l; simpl; lia. Qed.

Lemma set_as_set_as m a b : set_as (set_as m a) b = set_as m b.
Proof. done. Qed.

Lemma as_set_as m a : as_ (set_as m a) = a.
Proof. done. Qed.

Lemma set_as_id m a : as_ m = a -> set_as m a = m.
Proof. intros <-. by destruct m. Qed.

Lemma meter_record_all m a l :
  as_ m = As_meter (F64 a) -> freqs_ok l -> Z.abs a + magnitude l < 2 ^ 53 ->
  record_all meter__record m (int_reading <$> l) =
    Some (set_as m (As_meter (F64 (a + total l)))).
Proof.
  intros Ha Hl. revert m a Ha. induction Hl as [|[v k] l Hk _ IH]; intros m a Ha Hb; simpl.
  - rewrite Z.add_0_r, set_as_id; done.
  - simpl in *. pose proof (magnitude_nonneg l). unfold scaled in Hb at 1. simpl in Hb.
    unfold meter__record. rewrite Ha, F64_mul, F64_add by lia. simpl.
    rewrite (IH _ (a + v * k)) by (done || lia). unfold scaled. simpl.
    rewrite set_as_set_as. do 4 f_equal. lia.
Qed.

(** A meter sampled after integer readings reports exactly their sum, each
    reading scaled by its sample frequency, and starts again from zero. *)
Theorem meter_reports_total (m : brubeck_metric) (l : list (Z * Z))
  (Hm : as_ m = As_meter (F64 0)) (Hl : freqs_ok l) (Hb : magnitude l < 2 ^ 53) :
  exists m', record_all meter__record m (int_reading <$> l) = Some m' /\
    meter__sample m' = Some (m, [(key m, F64 (total l))]).
Proof.
  rewrite (meter_record_all m 0 l Hm Hl) by lia. eexists. split; [done|].
  unfold meter__sample. rewrite as_set_as, set_as_set_as, set_as_id; done.
Qed.

Lemma meter_reports_total_witness :
  exists m',
    record_all meter__record (new_metric (bytes "hits") BRUBECK_MT_METER)
      (int_reading <$> [(1, 10); (3, 1); (-2, 4)]) = Some m' /\
    meter__sample m' =
      Some (new_metric (bytes "hits") BRUBECK_MT_METER, [(bytes "hits", F64 5)]).
Proof.
  apply (meter_reports_total (new_metric (bytes "hits") BRUBECK_MT_METER)
           [(1, 10); (3, 1); (-2, 4)]); [reflexivity| |reflexivity].
  repeat constructor.
Defined.

(** *** Counters *)

(** One reading [x] of a counter that has grown by [acc] since the last sample
    and read [prev] last. *)
Definition counter_step (s : Z * Z) (x : Z) : Z * Z :=
  let '(acc, prev) := s in
  (if 0 <? prev then acc + (if prev <=? x then x - prev else x) else acc, x).

Local Arguments counter_step : simpl never.

Lemma counter_record_all m acc prev l :
  as_ m = As_counter (F64 acc) (F64 prev) -> freqs_ok l ->
  Forall (fun r => 0 <= scaled r) l -> 0 <= acc -> 0 <= prev < 2 ^ 53 ->
  acc + magnitude l < 2 ^ 53 ->
  let '(acc', prev') := foldl counter_step (acc, prev) (scaled <$> l) in
  record_all counter__record m (int_reading <$> l) =
    Some (set_as m (As_counter (F64 acc') (F64 prev'))).
Proof.
  intros Ha Hl. revert m acc prev Ha.
  induction Hl as [|[v k] l Hk _ IH]; intros m acc prev Ha Hpos Hacc Hprev Hb; simpl.
  - rewrite set_as_id; done.
  - simpl in *. inversion_clear Hpos as [|?? Hx Hpos']. pose proof (magnitude_nonneg l).
    set (x := scaled (v, k)) in *.
    assert (Hrec : counter__record m (F64 v) (F64 k) 0 =
              Some (set_as m (let '(a, p) := counter_step (acc, prev) x in
                              As_counter (F64 a) (F64 p)))).
    { unfold counter__record. rewrite Ha, F64_mul by (unfold x, scaled in *; simpl in *; lia).
      change (v * k) with x. unfold counter_step. do 2 f_equal.
      change (S754_zero false) with (F64 0). rewrite F64_ltb, F64_leb by lia.
      repeat zcase; rewrite ?F64_sub by lia; rewrite ?F64_add by lia; done. }
    rewrite Hrec. cbn [mbind option_bind].
    assert (Hbnd : let '(a, p) := counter_step (acc, prev) x in
              0 <= a /\ 0 <= p < 2 ^ 53 /\ a + magnitude l < 2 ^ 53)
      by (unfold counter_step; repeat zcase; lia).
    destruct (counter_step (acc, prev) x) as [a p]. destruct Hbnd as (? & ? & ?).
    specialize (IH (set_as m (As_counter (F64 a) (F64 p))) a p eq_refl Hpos' ltac:(done) ltac:(done)
                  ltac:(done)).
    exact IH.
Qed.

(** C29: on non-negative integer readings a counter implements its integer
    specification: each reading adds its increase over the previous one, a
    reading below the previous one (a restart of the source) adds its whole
    value, and nothing is added after a reading of zero. *)
Theorem counter_refines (m : brubeck_metric) (acc prev : Z) (l : list (Z * Z))
  (Hm : as_ m = As_counter (F64 acc) (F64 prev)) (Hl : freqs_ok l)
  (Hpos : Forall (fun r => 0 <= scaled r) l) (Hacc : 0 <= acc) (Hprev : 0 <= prev < 2 ^ 53)
  (Hb : acc + magnitude l < 2 ^ 53) :
  let '(acc', prev') := foldl counter_step (acc, prev) (scaled <$> l) in
  exists m', record_all counter__record m (int_reading <$> l) = Some m' /\
    counter__sample m' =
      Some (set_as m (As_counter (F64 0) (F64 prev')), [(key m, F64 acc')]).
Proof.
  pose proof (counter_record_all m acc prev l Hm Hl Hpos Hacc Hprev Hb) as H.
  destruct (foldl counter_step (acc, prev) (scaled <$> l)) as [acc' prev'].
  eexists. split; [exact H|]. unfold counter__sample. by rewrite as_set_as, set_as_set_as.
Qed.

Lemma counter_refines_witness :
  exists m',
    record_all counter__record (new_metric (bytes "n") BRUBECK_MT_COUNTER)
      (int_reading <$> [(100, 1); (130, 1); (7, 1); (9, 1)]) = Some m' /\
    counter__sample m' =
      Some (set_as (new_metric (bytes "n") BRUBECK_MT_COUNTER) (As_counter (F64 0) (F64 9)),
            [(bytes "n", F64 39)]).
Proof.
  apply (counter_refines (new_metric (bytes "n") BRUBECK_MT_COUNTER) 0 0
           [(100, 1); (130, 1); (7, 1); (9, 1)]);
    [reflexivity| | |lia|lia|reflexivity].
  - repeat constructor.
  - repeat constructor; vm_compute; congruence.
Defined.

Lemma last_cons_indep {A} (a : A) l d d' : List.last (a :: l) d = List.last (a :: l) d'.
Proof. revert a. induction l as [|b l IH]; intros a; [done|]. apply (IH b). Qed.

Lemma counter_step_monotone acc x l :
  0 < x -> StronglySorted Z.le (x :: l) ->
  foldl counter_step (acc, x) l = (acc + (List.last l x - x), List.last l x).
Proof.
  revert acc x. induction l as [|y l IH]; intros acc x Hx Hs.
  - simpl. f_equal. lia.
  - inversion_clear Hs as [|?? Hs' Hle]. inversion_clear Hle as [|?? Hxy _].
    cbn [foldl]. unfold counter_step at 2. repeat zcase; try lia.
    rewrite IH by (done || lia).
    assert (List.last (y :: l) x = List.last l y) as ->; [|f_equal; lia].
    destruct l as [|z l]; [done|]. apply (last_cons_indep z l).
Qed.

(** A counter fed the successive non-decreasing values of a positive
    running total reports exactly the growth of that total since the first
    reading. *)
Theorem counter_reports_growth (m : brubeck_metric) (x : Z) (l : list Z)
  (Hm : as_ m = As_counter (F64 0) (F64 0)) (Hx : 0 < x)
  (Hs : StronglySorted Z.le (x :: l)) (Hb : foldr Z.add 0 (x :: l) < 2 ^ 53) :
  exists m' m'',
    record_all counter__record m ((fun v => int_reading (v, 1)) <$> (x :: l)) = Some m' /\
    counter__sample m' = Some (m'', [(key m, F64 (List.last l x - x))]).
Proof.
  set (r := (fun v => (v, 1)) <$> (x :: l)).
  assert (Hpos : Forall (fun v => 0 <= v) (x :: l)).
  { inversion_clear Hs as [|?? _ Hle]. constructor; [lia|].
    eapply Forall_impl; [|exact Hle]. simpl. lia. }
  assert (E : scaled <$> r = x :: l).
  { unfold r. rewrite <- list_fmap_compose. rewrite <- (list_fmap_id (x :: l)) at 2.
    apply list_fmap_ext. intros i v _. unfold scaled. simpl. lia. }
  assert (Hmag : magnitude r = foldr Z.add 0 (x :: l)).
  { unfold r. clear -Hpos. induction Hpos as [|v l' Hv _ IH]; [done|].
    rewrite fmap_cons. unfold magnitude in *. cbn [foldr]. rewrite IH.
    unfold scaled. cbn [fst snd]. lia. }
  pose proof (counter_record_all m 0 0 r Hm) as H. rewrite E in H.
  cbn [foldl] in H. unfold counter_step at 2 in H. simpl (if 0 <? 0 then _ else _) in H.
  rewrite counter_step_monotone in H by done.
  do 2 eexists. split.
  - rewrite (list_fmap_compose (fun v => (v, 1)) int_reading). apply H; try lia.
    + apply Forall_fmap. apply Forall_true. intros v. simpl. lia.
    + apply Forall_fmap. eapply Forall_impl; [|exact Hpos]. unfold scaled. simpl. lia.
  - unfold counter__sample. by rewrite as_set_as, Z.add_0_l.
Qed.

Lemma counter_reports_growth_witness :
  exists m' m'',
    record_all counter__record (new_metric (bytes "n") BRUBECK_MT_COUNTER)
      ((fun v => int_reading (v, 1)) <$> [100; 130; 130; 175]) = Some m' /\
    counter__sample m' = Some (m'', [(bytes "n", F64 75)]).
Proof.
  apply (counter_reports_growth (new_metric (bytes "n") BRUBECK_MT_COUNTER) 100 [130; 130; 175]);
    [reflexivity|lia| |reflexivity].
  repeat constructor; lia.
Defined.

(** *** Gauges *)

(** A relative reading ([+n] or [-n]) moves the gauge, another one sets it. *)
Definition gauge_step (g : Z) (r : Z * bool) : Z := if r.2 then g + r.1 else r.1.

Definition gauge_reading (r : Z * bool) : value_t * value_t * Z :=
  (F64 r.1, F64 1, if r.2 then BRUBECK_MOD_RELATIVE_VALUE else 0).

Lemma gauge_record_all m g l :
  as_ m = As_gauge (F64 g) ->
  Z.abs g + foldr (fun r acc => Z.abs r.1 + acc) 0 l < 2 ^ 53 ->
  record_all gauge__record m (gauge_reading <$> l) =
    Some (set_as m (As_gauge (F64 (foldl gauge_step g l)))).
Proof.
  revert m g. induction l as [|[v rel] l IH]; intros m g Hg Hb; simpl in *.
  - by rewrite set_as_id.
  - assert (0 <= foldr (fun r acc => Z.abs r.1 + acc) 0 l) by (clear; induction l; simpl; lia).
    unfold gauge__record. rewrite Hg. destruct rel; cbn -[F64 foldl record_all].
    + rewrite F64_add by lia.
      rewrite (IH _ (g + v)) by (done || lia). by rewrite set_as_set_as.
    + rewrite (IH _ v) by (done || lia). by rewrite set_as_set_as.
Qed.

(** A gauge sampled after integer readings reports the last absolute
    reading plus the relative ones after it, and keeps its value. *)
Theorem gauge_refines (m : brubeck_metric) (g : Z) (l : list (Z * bool))
  (Hm : as_ m = As_gauge (F64 g))
  (Hb : Z.abs g + foldr (fun r acc => Z.abs r.1 + acc) 0 l < 2 ^ 53) :
  exists m', record_all gauge__record m (gauge_reading <$> l) = Some m' /\
    gauge__sample m' = Some (m', [(key m, F64 (foldl gauge_step g l))]).
Proof. rewrite (gauge_record_all m g l Hm Hb). eexists. by split. Qed.

Lemma gauge_refines_witness :
  exists m',
    record_all gauge__record (new_metric (bytes "g") BRUBECK_MT_GAUGE)
      (gauge_reading <$> [(5, true); (300, false); (-20, true)]) = Some m' /\
    gauge__sample m' = Some (m', [(bytes "g", F64 280)]).
Proof.
  apply (gauge_refines (new_metric (bytes "g") BRUBECK_MT_GAUGE) 0
           [(5, true); (300, false); (-20, true)]); reflexivity.
Defined.

End Metric.
