(* ===== verification/City.v ===== *)
(** * CityHash32 ([src/city.c])

    The hash that assigns a metric to a backend.  The key is the buffer of its
    [len] bytes; a read outside it is [None].  All arithmetic is modulo 2^32
    ([size_t] lengths are 64-bit and convert to 32 bits where the code does). *)

From S2P Require Import Prelude.

Module City.

(** [memcpy] of four bytes into a [uint32_t]. *)
Definition read32 (s : list Z) (p : Z) : option Z :=
  b ← rd_n s p 4; Some (le_combine b).

Definition c1 : Z := 0xcc9e2d51.
Definition c2 : Z := 0x1b873593.

Definition fmix (h : Z) : Z :=
  let h := Z.lxor h (Z.shiftr h 16) in
  let h := u32 (h * 0x85ebca6b) in
  let h := Z.lxor h (Z.shiftr h 13) in
  let h := u32 (h * 0xc2b2ae35) in
  Z.lxor h (Z.shiftr h 16).

Definition ror32 (val shift : Z) : Z :=
  if shift =? 0 then val
  else Z.lor (Z.shiftr val shift) (u32 (Z.shiftl val (32 - shift))).

Definition mur (a h : Z) : Z :=
  let a := u32 (a * c1) in
  let a := ror32 a 17 in
  let a := u32 (a * c2) in
  let h := Z.lxor h a in
  let h := ror32 h 19 in
  u32 (h * 5 + 0xe6546b64).

Definition Hash32Len13to24 (s : list Z) (len : Z) : option Z :=
  a ← read32 s (0 - 4 + Z.shiftr len 1);
  b ← read32 s 4;
  c ← read32 s (len - 8);
  d ← read32 s (Z.shiftr len 1);
  e ← read32 s 0;
  f ← read32 s (len - 4);
  let h := u32 len in
  Some (fmix (mur f (mur e (mur d (mur c (mur b (mur a h))))))).

(** The loop of [Hash32Len0to4]; [s[i]] is a signed [char]. *)
Fixpoint Hash32Len0to4_loop (s : list Z) (i : Z) (n : nat) (b c : Z) : option (Z * Z) :=
  match n with
  | O => Some (b, c)
  | S n' =>
      x ← rd s i;
      let b := u32 (b * c1 + s8 x) in
      let c := Z.lxor c b in
      Hash32Len0to4_loop s (i + 1) n' b c
  end.

Definition Hash32Len0to4 (s : list Z) (len : Z) : option Z :=
  '(b, c) ← Hash32Len0to4_loop s 0 (Z.to_nat len) 0 9;
  Some (fmix (mur b (mur (u32 len) c))).

Definition Hash32Len5to12 (s : list Z) (len : Z) : option Z :=
  let a := u32 len in
  let b := u32 (len * 5) in
  let c := 9 in
  let d := b in
  ra ← read32 s 0;
  let a := u32 (a + ra) in
  rb ← read32 s (len - 4);
  let b := u32 (b + rb) in
  rc ← read32 s (Z.land (Z.shiftr len 1) 4);
  let c := u32 (c + rc) in
  Some (fmix (mur c (mur b (mur a d)))).

Definition bswap_32 (x : Z) : Z := le_combine (reverse (le_bytes 4 x)).

(** [h ^= a; h = ror32(h, n); h = h * 5 + 0xe6546b64] *)
Definition mix_xor (h a n : Z) : Z := u32 (ror32 (Z.lxor h a) n * 5 + 0xe6546b64).

(** [ror32(read * c1, 17) * c2] *)
Definition scramble (r : Z) : Z := u32 (ror32 (u32 (r * c1)) 17 * c2).

(** One iteration of the main loop on the twenty bytes at [s]; the result is in
    the order [(h, g, f)] after [PERMUTE3(f, h, g)]. *)
Definition city_round (s : list Z) (p : Z) (hgf : Z * Z * Z) : option (Z * Z * Z) :=
  let '(h, g, f) := hgf in
  r0 ← read32 s p;
  let a0 := scramble r0 in
  a1 ← read32 s (p + 4);
  r2 ← read32 s (p + 8);
  let a2 := scramble r2 in
  r3 ← read32 s (p + 12);
  let a3 := scramble r3 in
  a4 ← read32 s (p + 16);
  let h := mix_xor h a0 18 in
  let f := u32 (f + a1) in
  let f := ror32 f 19 in
  let f := u32 (f * c1) in
  let g := u32 (g + a2) in
  let g := ror32 g 18 in
  let g := u32 (g * 5 + 0xe6546b64) in
  let h := mix_xor h (u32 (a3 + a1)) 19 in
  let g := Z.lxor g a4 in
  let g := u32 (bswap_32 g * 5) in
  let h := u32 (h + u32 (a4 * 5)) in
  let h := bswap_32 h in
  let f := u32 (f + a0) in
  (* PERMUTE3(f, h, g): swap(f, h); swap(f, g) *)
  let '(f, h) := (h, f) in
  let '(f, g) := (g, f) in
  Some (h, g, f).

Fixpoint city_loop (s : list Z) (p : Z) (iters : nat) (hgf : Z * Z * Z)
    : option (Z * Z * Z) :=
  match iters with
  | O => Some hgf
  | S n => hgf ← city_round s p hgf; city_loop s (p + 20) n hgf
  end.

Definition city_finish (hgf : Z * Z * Z) : Z :=
  let '(h, g, f) := hgf in
  let g := u32 (ror32 g 11 * c1) in
  let g := u32 (ror32 g 17 * c1) in
  let f := u32 (ror32 f 11 * c1) in
  let f := u32 (ror32 f 17 * c1) in
  let h := ror32 (u32 (h + g)) 19 in
  let h := u32 (h * 5 + 0xe6546b64) in
  let h := u32 (ror32 h 17 * c1) in
  let h := ror32 (u32 (h + f)) 19 in
  let h := u32 (h * 5 + 0xe6546b64) in
  u32 (ror32 h 17 * c1).

Definition CityHash32 (s : list Z) (len : Z) : option Z :=
  if len <=? 24 then
    if len <=? 12 then
      if len <=? 4 then Hash32Len0to4 s len else Hash32Len5to12 s len
    else Hash32Len13to24 s len
  else
    let h := u32 len in
    let g := u32 (c1 * len) in
    let f := g in
    r0 ← read32 s (len - 4); let a0 := scramble r0 in
    r1 ← read32 s (len - 8); let a1 := scramble r1 in
    r2 ← read32 s (len - 16); let a2 := scramble r2 in
    r3 ← read32 s (len - 12); let a3 := scramble r3 in
    r4 ← read32 s (len - 20); let a4 := scramble r4 in
    let h := mix_xor h a0 19 in
    let h := mix_xor h a2 19 in
    let g := mix_xor g a1 19 in
    let g := mix_xor g a3 19 in
    let f := u32 (f + a4) in
    let f := ror32 f 19 in
    let f := u32 (f * 5 + 0xe6546b64) in
    hgf ← city_loop s 0 (Z.to_nat ((len - 1) / 20)) (h, g, f);
    Some (city_finish hgf).

(** ** Every read is inside the key *)

Lemma read32_in s p :
  0 <= p -> p + 4 <= Z.of_nat (length s) -> exists v, read32 s p = Some v.
Proof. intros. unfold read32. rewrite rd_n_in by lia. simpl. eauto. Qed.

(** Discharge the next read of the code. *)
Ltac read_step :=
  match goal with
  | |- context [read32 ?s ?p] =>
      let v := fresh "r" in let E := fresh "E" in
      destruct (read32_in s p) as [v E]; [try lia..|]; rewrite E; cbn [mbind option_bind]
  end.

Lemma lxor_fits w a b : 0 <= w -> fits w a -> fits w b -> fits w (Z.lxor a b).
Proof.
  unfold fits. intros Hw [Ha Ha'] [Hb Hb'].
  assert (Hn : 0 <= Z.lxor a b) by (apply Z.lxor_nonneg; tauto). split; [done|].
  destruct (Z.eq_dec (Z.lxor a b) 0) as [->|]; [apply Z.pow_pos_nonneg; lia|].
  apply Z.log2_lt_pow2; [lia|]. eapply Z.le_lt_trans; [by apply Z.log2_lxor|].
  apply Z.max_lub_lt.
  - destruct (Z.eq_dec a 0) as [->|]; [simpl; destruct (Z.eq_dec w 0); [subst|]|].
    + exfalso. simpl in *. assert (b = 0) by lia. subst. done.
    + lia.
    + apply Z.log2_lt_pow2; lia.
  - destruct (Z.eq_dec b 0) as [->|]; [simpl; destruct (Z.eq_dec w 0); [subst|]|].
    + exfalso. simpl in *. assert (a = 0) by lia. subst. done.
    + lia.
    + apply Z.log2_lt_pow2; lia.
Qed.

Lemma shiftr_fits w a n : 0 <= w -> 0 <= n -> fits w a -> fits w (Z.shiftr a n).
Proof.
  unfold fits. intros Hw Hn [Ha Ha']. rewrite Z.shiftr_div_pow2 by lia.
  pose proof (Z.pow_pos_nonneg 2 n). split; [apply Z.div_pos; lia|].
  eapply Z.le_lt_trans; [|exact Ha']. apply Z.div_le_upper_bound; nia.
Qed.

Lemma xorshift_fits a n : 0 <= n -> fits 32 a -> fits 32 (Z.lxor a (Z.shiftr a n)).
Proof. intros. apply lxor_fits; [lia|done|]. by apply shiftr_fits. Qed.

Lemma fmix_fits h : fits 32 (fmix h).
Proof. unfold fmix. apply xorshift_fits; [lia|]. by apply wrap_fits. Qed.

#[export] Hint Resolve fmix_fits wrap_fits : brubeck.

Lemma Hash32Len0to4_loop_total s i n b c :
  0 <= i -> i + Z.of_nat n <= Z.of_nat (length s) ->
  exists r, Hash32Len0to4_loop s i n b c = Some r.
Proof.
  revert i b c. induction n as [|n IH]; intros i b c Hi Hn; simpl; [eauto|].
  destruct (rd_is_Some s i ltac:(lia)) as [x ->]. apply IH; lia.
Qed.

Lemma city_round_total s p hgf :
  0 <= p -> p + 20 <= Z.of_nat (length s) -> exists r, city_round s p hgf = Some r.
Proof.
  intros Hp Hl. destruct hgf as [[h g] f]. unfold city_round. do 5 read_step. eauto.
Qed.

Lemma city_loop_total s p n hgf :
  0 <= p -> p + 20 * Z.of_nat n <= Z.of_nat (length s) ->
  exists r, city_loop s p n hgf = Some r.
Proof.
  revert p hgf. induction n as [|n IH]; intros p hgf Hp Hn; simpl; [eauto|].
  destruct (city_round_total s p hgf ltac:(lia) ltac:(lia)) as [r ->]. apply IH; lia.
Qed.

Lemma CityHash32_total (s : list Z) :
  exists h, CityHash32 s (Z.of_nat (length s)) = Some h /\ fits 32 h.
Proof.
  set (len := Z.of_nat (length s)). unfold CityHash32.
  pose proof (Z.shiftr_div_pow2 len 1 ltac:(lia)) as Hs. change (2 ^ 1) with 2 in Hs.
  destruct (Z.leb_spec len 24); [destruct (Z.leb_spec len 12); [destruct (Z.leb_spec len 4)|]|].
  - unfold Hash32Len0to4.
    destruct (Hash32Len0to4_loop_total s 0 (Z.to_nat len) 0 9) as [[b c] ->]; [lia..|].
    simpl. eauto with brubeck.
  - unfold Hash32Len5to12. assert (Hq : 0 <= Z.land (Z.shiftr len 1) 4 <= 4).
    { assert (2 <= Z.shiftr len 1 <= 6) as Hr by (rewrite Hs; Z.div_mod_to_equations; lia).
      assert (Z.shiftr len 1 ∈ [2; 3; 4; 5; 6]) as Hin
        by (apply list_elem_of_In; simpl; lia).
      apply list_elem_of_In in Hin. simpl in Hin.
      repeat destruct Hin as [<-|Hin]; [vm_compute; split; congruence..|done]. }
    assert (Z.land (Z.shiftr len 1) 4 + 4 <= len).
    { destruct (Z.lt_ge_cases len 8); [|lia].
      assert (Z.shiftr len 1 = 2 \/ Z.shiftr len 1 = 3) as [->| ->]
        by (rewrite Hs; Z.div_mod_to_equations; lia);
        [change (Z.land 2 4) with 0|change (Z.land 3 4) with 0]; lia. }
    do 3 read_step. eauto with brubeck.
  - unfold Hash32Len13to24. rewrite Hs.
    assert (6 <= len / 2 /\ len / 2 + 4 <= len) by (Z.div_mod_to_equations; lia).
    do 6 read_step. eauto with brubeck.
  - do 5 read_step.
    match goal with
    | |- context [city_loop s 0 ?n ?x] =>
        destruct (city_loop_total s 0 n x) as [[[h g] f] E'];
          [lia|rewrite Z2Nat.id; Z.div_mod_to_equations; lia|]
    end.
    rewrite E'. cbn [mbind option_bind]. eexists. split; [done|]. by apply wrap_fits.
Qed.

(** Hashing a key of any length reads only the bytes of the key (the
    overlapping reads of the short cases and the unrolled loop included),
    terminates and gives a 32-bit value. *)
Theorem CityHash32_safe (s : list Z) :
  exists h, CityHash32 s (Z.of_nat (length s)) = Some h /\ fits 32 h.
Proof. apply CityHash32_total. Qed.

(** ** The finaliser is a bijection *)

Definition unfmix (h : Z) : Z :=
  let h := Z.lxor h (Z.shiftr h 16) in
  let h := u32 (h * 2127672349) in
  let h := Z.lxor (Z.lxor h (Z.shiftr h 13)) (Z.shiftr h 26) in
  let h := u32 (h * 2781581891) in
  Z.lxor h (Z.shiftr h 16).

Lemma shiftr_over h n : fits 32 h -> 32 <= n -> Z.shiftr h n = 0.
Proof.
  intros [? ?] ?. rewrite Z.shiftr_div_pow2 by lia. apply Z.div_small.
  pose proof (Z.pow_le_mono_r 2 32 n). lia.
Qed.

Lemma xorshift16_inv h :
  fits 32 h ->
  Z.lxor (Z.lxor h (Z.shiftr h 16)) (Z.shiftr (Z.lxor h (Z.shiftr h 16)) 16) = h.
Proof.
  intros Hh. rewrite Z.shiftr_lxor, Z.shiftr_shiftr, (shiftr_over h (16 + 16)) by (done || lia).
  by rewrite Z.lxor_0_r, Z.lxor_assoc, Z.lxor_nilpotent, Z.lxor_0_r.
Qed.

Lemma xorshift13_inv h :
  fits 32 h ->
  let y := Z.lxor h (Z.shiftr h 13) in
  Z.lxor (Z.lxor y (Z.shiftr y 13)) (Z.shiftr y 26) = h.
Proof.
  intros Hh y. subst y. rewrite !Z.shiftr_lxor, !Z.shiftr_shiftr by lia.
  rewrite (shiftr_over h (13 + 26)), Z.lxor_0_r by (done || lia).
  change (13 + 13) with 26. rewrite !Z.lxor_assoc, Z.lxor_nilpotent, Z.lxor_0_r.
  by rewrite Z.lxor_nilpotent, Z.lxor_0_r.
Qed.

Lemma odd_mul_inv a b h :
  u32 (a * b) = 1 -> fits 32 h -> u32 (u32 (h * a) * b) = h.
Proof.
  intros Hab Hh. rewrite wrap_mul_l, <- Z.mul_assoc, <- wrap_mul_r, Hab, Z.mul_1_r.
  by apply wrap_small.
Qed.

(** The finaliser of every hash case loses nothing: [fmix] is injective on
    32-bit values, with an explicit inverse. *)
Theorem fmix_bijective (h : Z) (Hh : fits 32 h) :
  unfmix (fmix h) = h /\ fits 32 (fmix h).
Proof.
  split; [|apply fmix_fits]. unfold unfmix, fmix.
  rewrite xorshift16_inv by by apply wrap_fits.
  rewrite (odd_mul_inv 0xc2b2ae35) by (done || by apply xorshift_fits, wrap_fits).
  rewrite xorshift13_inv by by apply wrap_fits.
  rewrite (odd_mul_inv 0x85ebca6b) by (done || by apply xorshift_fits).
  by apply xorshift16_inv.
Qed.

Lemma fmix_bijective_witness : unfmix (fmix 3735928559) = 3735928559 /\ fits 32 (fmix 3735928559).
Proof. apply (fmix_bijective 3735928559). vm_compute. split; congruence. Defined.

End City.
