(* ===== verification/Statsd.v ===== *)
(** * StatsD packets ([src/samplers/statsd.c], [src/samplers/statsd.h])

    A packet is parsed in place: the buffer is a list of bytes, the pointers of
    the code are offsets into it, and the parser overwrites separators with
    terminators.  A read or write outside the buffer is [None]; inside, a
    message is either rejected (the C result -1) or parsed. *)

From S2P Require Import Prelude Value Metric.
Import Metric.

Module Statsd.

Definition MAX_PACKET_SIZE : Z := 8192.

Record brubeck_statsd_msg := {
  msg_key : Z;
  msg_key_len : Z;
  msg_type : brubeck_metric_t;
  msg_value : value_t;
  msg_sample_freq : value_t;
  msg_modifiers : Z;
}.

(** The cells from a pointer on. *)
Definition from (m : list Z) (p : Z) : list Z := if p <? 0 then [] else drop (Z.to_nat p) m.

Definition is_digit (b : Z) : bool := (chr "0" <=? b) && (b <=? chr "9").

(** ** Numbers *)

(** The digit loops: [acc = acc * 10.0 + digit] while there is a digit, with
    the number of digits read. *)
Fixpoint digits_loop (l : list Z) (acc : value_t) (n : Z) : option (value_t * Z) :=
  match l with
  | [] => None
  | b :: l' =>
      if is_digit b then digits_loop l' (fadd (fmul acc (F64 10)) (F64 (b - chr "0"))) (n + 1)
      else Some (acc, n)
  end.

(** [pow(10.0, n)], correctly rounded. *)
Definition pow10 (n : Z) : value_t := F64 (10 ^ n).

(** [strtod] in the C locale, on the strings [parse_float] passes to it: an
    optional sign and digits, a point and digits, then an exponent.  (White
    space, hexadecimal numbers, infinities and NaNs do not reach the call.)
    The result is correctly rounded, with the number of characters used. *)
Fixpoint scan_digits (l : list Z) (acc n : Z) : option (Z * Z) :=
  match l with
  | [] => None
  | b :: l' => if is_digit b then scan_digits l' (10 * acc + (b - chr "0")) (n + 1)
               else Some (acc, n)
  end.

Definition strtod_exponent (l : list Z) (p : Z) : option (Z * Z) :=
  c ← rd l p;
  if (c =? chr "e") || (c =? chr "E") then
    c ← rd l (p + 1);
    let '(s, q) := if c =? chr "-" then (true, p + 2)
                   else if c =? chr "+" then (false, p + 2) else (false, p + 1) in
    '(x, n) ← scan_digits (from l q) 0 0;
    if n =? 0 then Some (0, p) else Some (cond_Zopp s x, q + n)
  else Some (0, p).

Definition strtod (l : list Z) : option (value_t * Z) :=
  c ← rd l 0;
  let '(s, p) := if c =? chr "-" then (true, 1) else if c =? chr "+" then (false, 1)
                 else (false, 0) in
  '(ip, n1) ← scan_digits (from l p) 0 0;
  let p := p + n1 in
  c ← rd l p;
  '(M, n2, p) ←
    (if c =? chr "." then '(x, n) ← scan_digits (from l (p + 1)) ip 0; Some (x, n, p + 1 + n)
     else Some (ip, 0, p));
  if n1 + n2 =? 0 then Some (S754_zero false, 0)
  else
    '(e, p) ← strtod_exponent l p;
    Some (decimal s M (e - n2), p).

Definition parse_float (m : list Z) (buffer mods : Z) : option (Z * value_t * Z) :=
  let start := buffer in
  c ← rd m buffer;
  let '(buffer, negative, mods) :=
    if c =? chr "-" then (buffer + 1, true, Z.lor mods BRUBECK_MOD_RELATIVE_VALUE)
    else if c =? chr "+" then (buffer + 1, false, Z.lor mods BRUBECK_MOD_RELATIVE_VALUE)
    else (buffer, false, mods) in
  '(value, n) ← digits_loop (from m buffer) (S754_zero false) 0;
  let buffer := buffer + n in
  c ← rd m buffer;
  '(buffer, value) ←
    (if c =? chr "." then
       '(f, n) ← digits_loop (from m (buffer + 1)) (S754_zero false) 0;
       Some (buffer + 1 + n, fadd value (fdiv f (pow10 n)))
     else Some (buffer, value));
  let value := if (negative : bool) then SFopp value else value in
  c ← rd m buffer;
  '(buffer, value) ←
    (if (c =? chr "e") || (c =? chr "E") then
       '(v, n) ← strtod (from m start);
       Some (start + n, v)
     else Some (buffer, value));
  Some (buffer, value, mods).

(** ** One message *)

(** The key loop: [Some (Some n)] stops at the [':'] after [n] bytes, [Some None]
    is a rejected key (a space, or no [':'] before the terminator). *)
Fixpoint key_loop (l : list Z) (n : Z) : option (option Z) :=
  match l with
  | [] => None
  | b :: l' =>
      if b =? chr ":" then Some (Some n)
      else if b =? 0 then Some None
      else if b =? chr " " then Some None
      else key_loop l' (n + 1)
  end.

(** The type switch: the type and the pointer behind it, or a rejection. *)
Definition type_switch (m : list Z) (buffer : Z) : option (option (brubeck_metric_t * Z)) :=
  c ← rd m buffer;
  if c =? chr "g" then Some (Some (BRUBECK_MT_GAUGE, buffer + 1))
  else if c =? chr "c" then Some (Some (BRUBECK_MT_METER, buffer + 1))
  else if c =? chr "C" then Some (Some (BRUBECK_MT_COUNTER, buffer + 1))
  else if c =? chr "h" then Some (Some (BRUBECK_MT_HISTO, buffer + 1))
  else if c =? chr "m" then
    c ← rd m (buffer + 1);
    if c =? chr "s" then Some (Some (BRUBECK_MT_TIMER, buffer + 2)) else Some None
  else Some None.

(** [buffer[0] == '|' && buffer[1] == '@'] *)
Definition has_rate (m : list Z) (buffer : Z) : option bool :=
  c0 ← rd m buffer;
  if c0 =? chr "|" then c1 ← rd m (buffer + 1); Some (c1 =? chr "@") else Some false.

(** [buffer[0] == '\0' || (buffer[0] == '\n' && buffer[1] == '\0')] *)
Definition at_end (m : list Z) (buffer : Z) : option bool :=
  c0 ← rd m buffer;
  if c0 =? 0 then Some true
  else if c0 =? 10 then c1 ← rd m (buffer + 1); Some (c1 =? 0)
  else Some false.

(** The sample rate trailer: the frequency and the pointer behind it. *)
Definition rate_trailer (m : list Z) (buffer : Z) : option (option (value_t * Z)) :=
  r ← has_rate m buffer;
  if (r : bool) then
    '(buffer, sample_rate, _) ← parse_float m (buffer + 2) 0;
    if SFleb sample_rate (S754_zero false) || SFltb (F64 1) sample_rate then Some None
    else Some (Some (fdiv (F64 1) sample_rate, buffer))
  else Some (Some (F64 1, buffer)).

Definition brubeck_statsd_msg_parse (m : list Z) (buffer end_ : Z)
    : option (list Z * option brubeck_statsd_msg) :=
  m ← wr m end_ 0;
  let key := buffer in
  k ← key_loop (from m buffer) 0;
  match k with
  | None => Some (m, None)
  | Some n =>
      let key_len := u16 n in
      m ← wr m (key + n) 0;
      c ← rd m (key + (key_len - 1));
      if c =? chr "." then Some (m, None)
      else
        '(buffer, value, modifiers) ← parse_float m (key + n + 1) 0;
        c ← rd m buffer;
        if negb (c =? chr "|") then Some (m, None)
        else
          t ← type_switch m (buffer + 1);
          match t with
          | None => Some (m, None)
          | Some (type, buffer) =>
              r ← rate_trailer m buffer;
              match r with
              | None => Some (m, None)
              | Some (sample_freq, buffer) =>
                  e ← at_end m buffer;
                  Some (m, if (e : bool) then
                             Some {| msg_key := key; msg_key_len := key_len; msg_type := type;
                                     msg_value := value; msg_sample_freq := sample_freq;
                                     msg_modifiers := modifiers |}
                           else None)
              end
          end
  end.

(** ** A packet *)

(** What the parser needs of the server: counting an error, and counting a
    metric, finding it and recording the message ([None]: undefined behaviour
    while recording). *)
Class MetricSink (S : Type) := {
  sink_error : S -> S;
  sink_metric : S -> list Z -> brubeck_metric_t -> value_t -> value_t -> Z -> option S;
}.

(** [memchr(buffer, '\n', n)] *)
Fixpoint memchr_newline (l : list Z) (n : nat) (i : Z) : option Z :=
  match n, l with
  | S n', b :: l' => if b =? 10 then Some i else memchr_newline l' n' (i + 1)
  | _, _ => None
  end.

Definition stat_end (m : list Z) (buffer end_ : Z) : Z :=
  match memchr_newline (from m buffer) (Z.to_nat (end_ - buffer)) buffer with
  | Some p => p
  | None => end_
  end.

Section Packet.
Context {S : Type} `{MetricSink S}.

(** The body of the loop: one message, ended at [e]. *)
Definition packet_step (st : S) (m : list Z) (buffer e : Z) : option (S * list Z) :=
  '(m, r) ← brubeck_statsd_msg_parse m buffer e;
  match r with
  | None => Some (sink_error st, m)
  | Some msg =>
      k ← rd_n m (msg_key msg) (Z.to_nat (msg_key_len msg));
      st ← sink_metric st k (msg_type msg) (msg_value msg) (msg_sample_freq msg)
             (msg_modifiers msg);
      Some (st, m)
  end.

Fixpoint packet_loop (fuel : nat) (st : S) (m : list Z) (buffer end_ : Z)
    : option (S * list Z) :=
  if buffer <? end_ then
    match fuel with
    | O => None
    | Datatypes.S fuel =>
        let e := stat_end m buffer end_ in
        '(st, m) ← packet_step st m buffer e;
        packet_loop fuel st m (e + 1) end_
    end
  else Some (st, m).

Definition brubeck_statsd_packet_parse (st : S) (m : list Z) (buffer end_ : Z)
    : option (S * list Z) :=
  packet_loop (Z.to_nat (end_ - buffer)) st m buffer end_.
End Packet.

(** ** Memory safety

    Every loop of the parser stops at the terminator written at the end of the
    message. *)

Lemma from_lookup m p e :
  0 <= p <= e -> from m p !! Z.to_nat (e - p) = rd m e.
Proof.
  intros. unfold from, rd. destruct (Z.ltb_spec p 0), (Z.ltb_spec e 0); try lia.
  rewrite lookup_drop. f_equal. lia.
Qed.

Lemma digits_loop_total l k acc n :
  l !! k = Some 0 ->
  exists v n', digits_loop l acc n = Some (v, n') /\ n <= n' <= n + Z.of_nat k.
Proof.
  revert k acc n. induction l as [|b l IH]; intros k acc n Hk; [done|]. cbn [digits_loop].
  destruct (is_digit b) eqn:E; [|do 2 eexists; split; [done|lia]].
  destruct k as [|k]; [simpl in Hk; injection Hk as ->; done|].
  destruct (IH k (fadd (fmul acc (F64 10)) (F64 (b - chr "0"))) (n + 1) Hk) as (v & n' & -> & ?).
  do 2 eexists. split; [done|lia].
Qed.

Lemma scan_digits_total l k acc n :
  l !! k = Some 0 ->
  exists v n', scan_digits l acc n = Some (v, n') /\ n <= n' <= n + Z.of_nat k.
Proof.
  revert k acc n. induction l as [|b l IH]; intros k acc n Hk; [done|]. cbn [scan_digits].
  destruct (is_digit b) eqn:E; [|do 2 eexists; split; [done|lia]].
  destruct k as [|k]; [simpl in Hk; injection Hk as ->; done|].
  destruct (IH k (10 * acc + (b - chr "0")) (n + 1) Hk) as (v & n' & -> & ?).
  do 2 eexists. split; [done|lia].
Qed.

(** A read up to the terminator succeeds, and a character other than the
    terminator is before it. *)
Lemma rd_le m p e :
  rd m e = Some 0 -> 0 <= p <= e -> exists c, rd m p = Some c /\ (c <> 0 -> p < e).
Proof.
  intros He Hp. pose proof (rd_Some _ _ _ He). destruct (rd_is_Some m p ltac:(lia)) as [c Hc].
  exists c. split; [done|]. intros Hc0. destruct (Z.eq_dec p e); [congruence|lia].
Qed.

Lemma digits_from_total m p e acc :
  rd m e = Some 0 -> 0 <= p <= e ->
  exists v n, digits_loop (from m p) acc 0 = Some (v, n) /\ 0 <= n /\ p + n <= e.
Proof.
  intros He Hp. rewrite <- (from_lookup m p e Hp) in He.
  destruct (digits_loop_total _ _ acc 0 He) as (v & n & -> & ?). do 2 eexists.
  split; [done|lia].
Qed.

Lemma scan_from_total m p e acc :
  rd m e = Some 0 -> 0 <= p <= e ->
  exists v n, scan_digits (from m p) acc 0 = Some (v, n) /\ 0 <= n /\ p + n <= e.
Proof.
  intros He Hp. rewrite <- (from_lookup m p e Hp) in He.
  destruct (scan_digits_total _ _ acc 0 He) as (v & n & -> & ?). do 2 eexists.
  split; [done|lia].
Qed.

(** Take the next read, digit run or character test of the code, all at or
    before the terminator. *)
Ltac parse_step :=
  match goal with
  | He : rd ?m ?e = Some 0 |- context [rd ?m ?p] =>
      let c := fresh "c" in let E := fresh "E" in let H := fresh "Hc" in
      destruct (rd_le m p e He) as (c & E & H); [lia|]; rewrite E; cbn [mbind option_bind]
  | He : rd ?m ?e = Some 0 |- context [digits_loop (from ?m ?p) ?a 0] =>
      let v := fresh "v" in let n := fresh "n" in let E := fresh "E" in
      destruct (digits_from_total m p e a He) as (v & n & E & ? & ?); [lia|];
      rewrite E; cbn [mbind option_bind]
  | He : rd ?m ?e = Some 0 |- context [scan_digits (from ?m ?p) ?a 0] =>
      let v := fresh "v" in let n := fresh "n" in let E := fresh "E" in
      destruct (scan_from_total m p e a He) as (v & n & E & ? & ?); [lia|];
      rewrite E; cbn [mbind option_bind]
  end.

Ltac char_case :=
  match goal with
  | |- context [?c =? ?k] =>
      let E := fresh "Ec" in
      destruct (Z.eqb_spec c k) as [E|E]; cbn [orb negb];
      try (assert (c <> 0) by (rewrite E; done))
  end.

Lemma strtod_exponent_total l p e :
  rd l e = Some 0 -> 0 <= p <= e ->
  exists x p', strtod_exponent l p = Some (x, p') /\ p <= p' <= e.
Proof.
  intros He Hp. unfold strtod_exponent. parse_step.
  assert (Hexp : p < e -> exists x p',
    (c ← rd l (p + 1);
     let '(s, q) := if c =? chr "-" then (true, p + 2)
                    else if c =? chr "+" then (false, p + 2) else (false, p + 1) in
     '(x, n) ← scan_digits (from l q) 0 0;
     if n =? 0 then Some (0, p) else Some (cond_Zopp s x, q + n)) = Some (x, p') /\ p <= p' <= e).
  { intros Hlt. parse_step. repeat char_case; parse_step; repeat char_case;
      do 2 eexists; (split; [reflexivity|lia]). }
  repeat char_case; auto; try (apply Hexp; auto).
  do 2 eexists. split; [done|lia].
Qed.

Lemma strtod_total l e :
  rd l e = Some 0 -> exists v n, strtod l = Some (v, n) /\ 0 <= n <= e.
Proof.
  intros He. pose proof (rd_Some _ _ _ He). unfold strtod. parse_step.
  assert (exists s p, (if c =? chr "-" then (true, 1) else if c =? chr "+" then (false, 1)
                       else (false, 0)) = (s, p) /\ 0 <= p <= e) as (s & p & -> & Hp).
  { repeat char_case; do 2 eexists; (split; [reflexivity|lia]). }
  parse_step. parse_step.
  assert (exists M n2 p', (if c0 =? chr "." then
      '(x, k) ← scan_digits (from l (p + n + 1)) v 0; Some (x, k, p + n + 1 + k)
     else Some (v, 0, p + n)) = Some (M, n2, p') /\ p + n <= p' <= e) as (M & n2 & p' & -> & Hp').
  { char_case; [parse_step|]; do 3 eexists; (split; [reflexivity|lia]). }
  cbn [mbind option_bind]. char_case; [do 2 eexists; split; [done|lia]|].
  destruct (strtod_exponent_total l p' e He ltac:(lia)) as (x & q & -> & Hq).
  cbn [mbind option_bind]. do 2 eexists. split; [done|lia].
Qed.

Lemma parse_float_total m p e mods :
  rd m e = Some 0 -> 0 <= p <= e ->
  exists p' v mods', parse_float m p mods = Some (p', v, mods') /\ p <= p' <= e.
Proof.
  intros He Hp. unfold parse_float. parse_step.
  assert (exists p1 neg mods1,
    (if c =? chr "-" then (p + 1, true, Z.lor mods BRUBECK_MOD_RELATIVE_VALUE)
     else if c =? chr "+" then (p + 1, false, Z.lor mods BRUBECK_MOD_RELATIVE_VALUE)
     else (p, false, mods)) = (p1, neg, mods1) /\ p <= p1 <= e) as (p1 & neg & mods1 & -> & Hp1).
  { repeat char_case; do 3 eexists; (split; [reflexivity|lia]). }
  parse_step. parse_step.
  assert (exists p2 v2, (if c0 =? chr "." then
      '(f, k) ← digits_loop (from m (p1 + n + 1)) (S754_zero false) 0;
      Some (p1 + n + 1 + k, fadd v (fdiv f (pow10 k)))
     else Some (p1 + n, v)) = Some (p2, v2) /\ p1 + n <= p2 <= e) as (p2 & v2 & -> & Hp2).
  { char_case; [parse_step|]; do 2 eexists; (split; [reflexivity|lia]). }
  cbn [mbind option_bind]. parse_step.
  assert (He' : rd (from m p) (e - p) = Some 0).
  { unfold rd. destruct (Z.ltb_spec (e - p) 0); [lia|]. by rewrite from_lookup by lia. }
  destruct (strtod_total (from m p) (e - p) He') as (w & k & -> & Hk). cbn [mbind option_bind].
  destruct ((c1 =? chr "e") || (c1 =? chr "E")); cbn [mbind option_bind];
    do 3 eexists; (split; [reflexivity|lia]).
Qed.

Lemma key_loop_spec l n r :
  key_loop l n = Some (Some r) ->
  exists k, r = n + Z.of_nat k /\ l !! k = Some (chr ":") /\
    Forall (fun b => b <> chr ":" /\ b <> 0 /\ b <> chr " ") (take k l).
Proof.
  revert n. induction l as [|b l IH]; intros n; [done|]. cbn [key_loop].
  repeat char_case; try done.
  - intros [= <-]. exists 0%nat. split_and!; [lia|simpl; congruence|constructor].
  - intros (k & -> & Hk & Hf)%IH. exists (S k). split_and!; [lia|done|].
    simpl. by constructor.
Qed.

Lemma key_loop_total l k n : l !! k = Some 0 -> exists r, key_loop l n = Some r.
Proof.
  revert k n. induction l as [|b l IH]; intros k n Hk; [done|]. cbn [key_loop].
  repeat char_case; eauto. destruct k as [|k]; [simpl in Hk; congruence|]. by eapply IH.
Qed.

(** The key found before the terminator at [e]. *)
Lemma key_loop_bound m p e n :
  rd m e = Some 0 -> 0 <= p <= e -> key_loop (from m p) 0 = Some (Some n) ->
  0 <= n /\ p + n < e /\ rd m (p + n) = Some (chr ":").
Proof.
  intros He Hp (k & -> & Hk & Hf)%key_loop_spec. rewrite <- (from_lookup m p e Hp) in He.
  assert (Hlt : (k < Z.to_nat (e - p))%nat).
  { destruct (Nat.lt_trichotomy k (Z.to_nat (e - p))) as [?|[Heq|Hlt]]; [done|exfalso|exfalso].
    - subst k. rewrite He in Hk. done.
    - rewrite Forall_forall in Hf. destruct (Hf 0) as (_ & H0 & _); [|done].
      apply list_elem_of_In, list_elem_of_lookup. eexists.
      rewrite lookup_take_lt by exact Hlt. exact He. }
  split_and!; [lia|lia|]. rewrite <- (from_lookup m p) by lia. rewrite <- Hk. f_equal. lia.
Qed.

(** The buffer and the terminator of a message that reached its value. *)
Lemma after_key m p e n m' :
  rd m e = Some 0 -> 0 <= p -> 0 <= n -> p + n < e -> wr m (p + n) 0 = Some m' ->
  rd m' e = Some 0.
Proof. intros He Hp Hn Hlt Hw. rewrite (rd_wr_ne _ _ _ _ _ Hw) by lia. done. Qed.

Lemma type_switch_total m p e :
  rd m e = Some 0 -> 0 <= p <= e ->
  exists r, type_switch m p = Some r /\
    forall t p', r = Some (t, p') -> p <= p' <= e /\ t <> BRUBECK_MT_INTERNAL_STATS.
Proof.
  intros He Hp. unfold type_switch. parse_step.
  repeat char_case; try parse_step; repeat char_case;
    eexists; (split; [reflexivity|]); intros ? ? [= <- <-]; (split; [lia|done]).
Qed.

Lemma rate_trailer_total m p e :
  rd m e = Some 0 -> 0 <= p <= e ->
  exists r, rate_trailer m p = Some r /\ forall f p', r = Some (f, p') -> p <= p' <= e.
Proof.
  intros He Hp. unfold rate_trailer, has_rate. parse_step. char_case.
  - parse_step. char_case.
    + destruct (parse_float_total m (p + 2) e 0 He) as (p' & v & mods & -> & Hp'); [lia|].
      cbn [mbind option_bind]. case_match; eexists; (split; [reflexivity|]); [done|].
      intros ? ? [= <- <-]. lia.
    + eexists; (split; [reflexivity|]). intros ? ? [= <- <-]. lia.
  - cbn [mbind option_bind]. eexists; (split; [reflexivity|]). intros ? ? [= <- <-]. lia.
Qed.

Lemma at_end_total m p e : rd m e = Some 0 -> 0 <= p <= e -> exists b, at_end m p = Some b.
Proof.
  intros He Hp. unfold at_end. parse_step. repeat char_case; try parse_step; eauto.
Qed.

(** A message buffer: inside the packet buffer, shorter than the range of
    [key_len]; the byte before an empty key exists. *)
Definition msg_bounds (m : list Z) (b e : Z) : Prop :=
  0 <= b <= e /\ e < Z.of_nat (length m) /\ e - b < 65536 /\
  (0 < b \/ b = e \/ rd m b <> Some (chr ":")).

(** The value, type and trailer of a message, behind the key's terminator. *)
Lemma msg_tail_total m2 b n e key_len :
  rd m2 e = Some 0 -> 0 <= b -> 0 <= n -> b + n < e ->
  exists r,
    ('(buffer, value, modifiers) ← parse_float m2 (b + n + 1) 0;
     c ← rd m2 buffer;
     if negb (c =? chr "|") then Some (m2, None)
     else
       t ← type_switch m2 (buffer + 1);
       match t with
       | None => Some (m2, None)
       | Some (type, buffer) =>
           r ← rate_trailer m2 buffer;
           match r with
           | None => Some (m2, None)
           | Some (sample_freq, buffer) =>
               e ← at_end m2 buffer;
               Some (m2, if (e : bool) then
                          Some {| msg_key := b; msg_key_len := key_len; msg_type := type;
                                  msg_value := value; msg_sample_freq := sample_freq;
                                  msg_modifiers := modifiers |}
                        else None)
           end
       end) = Some (m2, r) /\
    forall msg, r = Some msg ->
      msg_key msg = b /\ msg_key_len msg = key_len /\ msg_type msg <> BRUBECK_MT_INTERNAL_STATS.
Proof.
  intros He Hb Hn Hlt.
  destruct (parse_float_total m2 (b + n + 1) e 0 He) as (p & v & mods & -> & Hp); [lia|].
  cbn [mbind option_bind]. parse_step.
  destruct (Z.eqb_spec c (chr "|")) as [Ec|Ec]; cbn [negb]; [|by eexists].
  assert (c <> 0) by (rewrite Ec; done).
  destruct (type_switch_total m2 (p + 1) e He) as ([[t q]|] & -> & Ht); [lia| |by eexists].
  cbn [mbind option_bind]. destruct (Ht t q eq_refl) as [Hq Hti].
  destruct (rate_trailer_total m2 q e He) as ([[f q']|] & -> & Hr); [lia| |by eexists].
  cbn [mbind option_bind]. specialize (Hr f q' eq_refl).
  destruct (at_end_total m2 q' e He) as [[] ->]; [lia| |];
    cbn [mbind option_bind]; eexists; (split; [reflexivity|]); [|done].
  intros msg [= <-]. done.
Qed.

Lemma msg_parse_run m b e :
  msg_bounds m b e ->
  exists m1, wr m e 0 = Some m1 /\
    (key_loop (from m1 b) 0 = Some None /\
     brubeck_statsd_msg_parse m b e = Some (m1, None) \/
     exists n m2 r, key_loop (from m1 b) 0 = Some (Some n) /\ 0 <= n /\ b + n < e /\
       wr m1 (b + n) 0 = Some m2 /\ brubeck_statsd_msg_parse m b e = Some (m2, r) /\
       forall msg, r = Some msg -> msg_key msg = b /\ msg_key_len msg = n /\
         msg_type msg <> BRUBECK_MT_INTERNAL_STATS).
Proof.
  intros (Hb & He & Hlen & Hk). rewrite (wr_in m e 0) by lia. eexists. split; [done|].
  unfold brubeck_statsd_msg_parse. pose proof (wr_in m e 0 ltac:(lia)) as Hw1. rewrite Hw1.
  cbn [mbind option_bind]. set (m1 := <[Z.to_nat e := 0]> m) in *.
  pose proof (rd_wr_eq _ _ _ _ Hw1) as He1. pose proof (wr_length _ _ _ _ Hw1) as Hl1.
  pose proof He1 as He1'. rewrite <- (from_lookup m1 b e Hb) in He1'.
  destruct (key_loop_total _ _ 0 He1') as [[n|] Ek]; rewrite Ek; cbn [mbind option_bind];
    [right|by left].
  destruct (key_loop_bound m1 b e n He1 Hb Ek) as (Hn & Hlt & Hcol).
  pose proof (wr_in m1 (b + n) 0 ltac:(lia)) as Hw2. rewrite Hw2. cbn [mbind option_bind].
  set (m2 := <[Z.to_nat (b + n) := 0]> m1) in *. exists n, m2.
  pose proof (after_key m1 b e n m2 He1 ltac:(lia) Hn Hlt Hw2) as He2.
  rewrite (wrap_small 16 n) by (unfold fits; lia).
  assert (Hprev : is_Some (rd m2 (b + (n - 1)))).
  { apply rd_is_Some. rewrite (wr_length _ _ _ _ Hw2), Hl1. split; [|lia].
    destruct Hk as [?|[?|Hk]]; [lia..|]. destruct (Z.eq_dec n 0) as [->|]; [|lia].
    exfalso. apply Hk. rewrite Z.add_0_r in Hcol, Hlt. rewrite <- Hcol.
    symmetry. apply (rd_wr_ne _ _ _ _ _ Hw1). lia. }
  destruct Hprev as [c ->]. cbn [mbind option_bind].
  destruct (Z.eqb_spec c (chr ".")).
  - exists None. by split_and!.
  - destruct (msg_tail_total m2 b n e n He2 ltac:(lia) Hn Hlt) as (r & E & Hr).
    exists r. split_and!; try done.
Qed.

(** Parsing one message never accesses memory outside it: the parse always
    returns, keeps the size of the buffer, writes only between the start and
    the end of the message, and an accepted message has a key strictly inside
    it and one of the five client types. *)
Theorem msg_parse_safe (m : list Z) (b e : Z) (Hm : msg_bounds m b e) :
  exists m' r, brubeck_statsd_msg_parse m b e = Some (m', r) /\
    length m' = length m /\
    (forall i, i < b \/ e < i -> rd m' i = rd m i) /\
    (forall msg, r = Some msg -> msg_key msg = b /\ b + msg_key_len msg < e /\
       0 <= msg_key_len msg /\ msg_type msg <> BRUBECK_MT_INTERNAL_STATS).
Proof.
  destruct (msg_parse_run m b e Hm) as (m1 & Hw1 & [[Ek E]|(n & m2 & r & Ek & Hn & Hlt & Hw2 & E & Hr)]).
  - exists m1, None. split_and!; [done|by eapply wr_length| |done].
    intros i Hi. destruct Hm. eapply rd_wr_ne; [done|lia].
  - exists m2, r. split_and!; [done| | |].
    + by rewrite (wr_length _ _ _ _ Hw2), (wr_length _ _ _ _ Hw1).
    + intros i Hi. destruct Hm. rewrite (rd_wr_ne _ _ _ _ _ Hw2) by lia.
      eapply rd_wr_ne; [done|lia].
    + intros msg Hmsg. destruct (Hr msg Hmsg) as (-> & -> & ?). split_and!; done || lia.
Qed.

Lemma msg_parse_safe_witness :
  exists m' r, brubeck_statsd_msg_parse (bytes "gaugor:333|g" ++ [7]) 0 12 = Some (m', r) /\
    length m' = 13%nat /\
    (forall i, i < 0 \/ 12 < i -> rd m' i = rd (bytes "gaugor:333|g" ++ [7]) i) /\
    (forall msg, r = Some msg -> msg_key msg = 0 /\ 0 + msg_key_len msg < 12 /\
       0 <= msg_key_len msg /\ msg_type msg <> BRUBECK_MT_INTERNAL_STATS).
Proof.
  apply (msg_parse_safe (bytes "gaugor:333|g" ++ [7]) 0 12).
  unfold msg_bounds. split_and!; [lia|lia|reflexivity|reflexivity|].
  right. right. vm_compute. congruence.
Defined.

(** The one access outside the message: an empty key at the start of the
    packet buffer makes the parser read the byte before the buffer. *)
Theorem msg_parse_empty_key (m : list Z) (e : Z)
  (He : 0 < e < Z.of_nat (length m)) (Hkey : rd m 0 = Some (chr ":")) :
  brubeck_statsd_msg_parse m 0 e = None.
Proof.
  unfold brubeck_statsd_msg_parse. pose proof (wr_in m e 0 ltac:(lia)) as Hw. rewrite Hw.
  cbn [mbind option_bind]. destruct m as [|c m]; [done|].
  injection Hkey as ->. destruct (Z.to_nat e) eqn:Ee; [lia|]. simpl. done.
Qed.

Lemma msg_parse_empty_key_witness : brubeck_statsd_msg_parse (bytes ":1|c" ++ [0]) 0 4 = None.
Proof. apply (msg_parse_empty_key (bytes ":1|c" ++ [0]) 4); [simpl; lia|reflexivity]. Defined.

(** ** The message grammar

    A message is a key, a decimal number, a type and an optional sample rate:
    [key:[+-]ddd[.ddd]|type[|@ddd[.ddd]]]. *)

Record number := {
  num_sign : option bool;  (* [Some true] is '-', [Some false] is '+' *)
  num_int : list Z;
  num_frac : option (list Z);
}.

Definition render_digits (ds : list Z) : list Z := (fun d => d + chr "0") <$> ds.

Definition render_number (x : number) : list Z :=
  match num_sign x with
  | Some true => [chr "-"]
  | Some false => [chr "+"]
  | None => []
  end ++ render_digits (num_int x) ++
  match num_frac x with
  | Some ds => chr "." :: render_digits ds
  | None => []
  end.

Definition type_text (t : brubeck_metric_t) : list Z :=
  match t with
  | BRUBECK_MT_GAUGE => bytes "g"
  | BRUBECK_MT_METER => bytes "c"
  | BRUBECK_MT_COUNTER => bytes "C"
  | BRUBECK_MT_HISTO => bytes "h"
  | BRUBECK_MT_TIMER => bytes "ms"
  | BRUBECK_MT_INTERNAL_STATS => []
  end.

Definition render_rate (r : option number) : list Z :=
  match r with
  | Some x => [chr "|"; chr "@"] ++ render_number x
  | None => []
  end.

Definition render_tail (x : number) (t : brubeck_metric_t) (r : option number) : list Z :=
  render_number x ++ [chr "|"] ++ type_text t ++ render_rate r.

Definition render_msg (k : list Z) (x : number) (t : brubeck_metric_t) (r : option number)
    : list Z :=
  k ++ [chr ":"] ++ render_tail x t r.

(** The integer a digit string stands for, continued from [a]. *)
Definition digits_value (a : Z) (ds : list Z) : Z := foldl (fun a d => a * 10 + d) a ds.

Definition digits_ok (ds : list Z) : Prop :=
  Forall (fun d => 0 <= d <= 9) ds /\ digits_value 0 ds < 2 ^ 53.

Definition number_ok (x : number) : Prop :=
  digits_ok (num_int x) /\ match num_frac x with Some ds => digits_ok ds | None => True end.

(** The double a number stands for: exact without a fraction, otherwise the
    rounded sum of the integer part and the rounded fraction. *)
Definition number_value (x : number) : value_t :=
  let v := F64 (digits_value 0 (num_int x)) in
  let v := match num_frac x with
           | Some ds => fadd v (fdiv (F64 (digits_value 0 ds)) (pow10 (Z.of_nat (length ds))))
           | None => v
           end in
  match num_sign x with Some true => SFopp v | _ => v end.

Definition number_mods (x : number) : Z :=
  match num_sign x with Some _ => BRUBECK_MOD_RELATIVE_VALUE | None => 0 end.

Definition key_ok (k : list Z) : Prop :=
  k <> [] /\ Forall (fun b => b <> chr ":" /\ b <> 0 /\ b <> chr " ") k /\
  List.last k 0 <> chr "." /\ Z.of_nat (length k) < 65536.

(** A character that ends a number. *)
Definition stops (c : Z) : Prop := c = 0 \/ c = chr "|".

Lemma digits_value_mono a b ds :
  Forall (fun d => 0 <= d <= 9) ds -> 0 <= a <= b -> digits_value a ds <= digits_value b ds.
Proof.
  intros Hd. revert a b. induction Hd as [|d ds Hd _ IH]; intros a b Hab; [simpl; lia|].
  apply IH. lia.
Qed.

Lemma digits_value_ge a ds :
  Forall (fun d => 0 <= d <= 9) ds -> 0 <= a -> a <= digits_value a ds.
Proof.
  intros Hd. revert a. induction Hd as [|d ds Hd _ IH]; intros a Ha; [simpl; lia|].
  specialize (IH (a * 10 + d) ltac:(lia)). simpl in *. lia.
Qed.

Lemma is_digit_render d : 0 <= d <= 9 -> is_digit (d + chr "0") = true.
Proof.
  intros. unfold is_digit. change (chr "0") with 48. change (chr "9") with 57.
  repeat zcase; done || lia.
Qed.

Lemma digits_loop_render ds c rest a n :
  Forall (fun d => 0 <= d <= 9) ds -> 0 <= a -> digits_value a ds < 2 ^ 53 ->
  is_digit c = false ->
  digits_loop (render_digits ds ++ c :: rest) (F64 a) n =
    Some (F64 (digits_value a ds), n + Z.of_nat (length ds)).
Proof.
  intros Hd. revert a n. induction Hd as [|d ds Hd Hds IH]; intros a n Ha Hb Hc.
  - simpl app. cbn [digits_loop]. rewrite Hc. simpl. do 2 f_equal. lia.
  - change (render_digits (d :: ds) ++ c :: rest)
      with ((d + chr "0") :: (render_digits ds ++ c :: rest)).
    cbn [digits_loop]. rewrite is_digit_render by done.
    replace (d + chr "0" - chr "0") with d by lia.
    change (digits_value a (d :: ds)) with (digits_value (a * 10 + d) ds) in *.
    pose proof (digits_value_ge (a * 10 + d) ds Hds ltac:(lia)).
    rewrite F64_mul, F64_add by lia. rewrite IH by (done || lia).
    do 2 f_equal. simpl. lia.
Qed.

(** ** Reading at a position *)

Lemma rd_from m p (k : nat) : 0 <= p -> rd m (p + Z.of_nat k) = from m p !! k.
Proof.
  intros. rewrite <- (from_lookup m p) by lia. f_equal. lia.
Qed.

Lemma from_add m p (k : nat) : 0 <= p -> from m (p + Z.of_nat k) = drop k (from m p).
Proof.
  intros. unfold from. destruct (Z.ltb_spec p 0), (Z.ltb_spec (p + Z.of_nat k) 0); try lia.
  rewrite drop_drop. f_equal. lia.
Qed.

(** [at_ m p l]: the buffer continues with [l] at [p]. *)
Definition at_ (m : list Z) (p : Z) (l : list Z) : Prop := 0 <= p /\ from m p = l.

Lemma at_rd m p c l : at_ m p (c :: l) -> rd m p = Some c.
Proof.
  intros [Hp E]. pose proof (rd_from m p 0 Hp) as H.
  change (Z.of_nat 0) with 0 in H. by rewrite Z.add_0_r, E in H.
Qed.

Lemma at_app m p l1 l2 : at_ m p (l1 ++ l2) -> at_ m (p + Z.of_nat (length l1)) l2.
Proof.
  intros [Hp E]. split; [lia|]. rewrite from_add, E by done.
  by rewrite drop_app_le, drop_ge, app_nil_l by lia.
Qed.

Lemma at_cons m p c l : at_ m p (c :: l) -> at_ m (p + 1) l.
Proof. apply (at_app m p [c] l). Qed.

Lemma at_mid (pre l : list Z) : at_ (pre ++ l) (Z.of_nat (length pre)) l.
Proof.
  split; [lia|]. unfold from. destruct (Z.ltb_spec (Z.of_nat (length pre)) 0); [lia|].
  by rewrite Nat2Z.id, drop_app_le, drop_ge, app_nil_l by lia.
Qed.

Lemma stops_facts c :
  stops c -> is_digit c = false /\ (c =? chr ".") = false /\ (c =? chr "-") = false /\
    (c =? chr "+") = false /\ (c =? chr "e") || (c =? chr "E") = false.
Proof. by intros [->| ->]. Qed.

Lemma render_digits_length ds : length (render_digits ds) = length ds.
Proof. apply length_fmap. Qed.

Lemma digits_at m p ds c rest :
  at_ m p (render_digits ds ++ c :: rest) -> digits_ok ds -> is_digit c = false ->
  digits_loop (from m p) (S754_zero false) 0 =
    Some (F64 (digits_value 0 ds), Z.of_nat (length ds)) /\
  at_ m (p + Z.of_nat (length ds)) (c :: rest).
Proof.
  intros Hat [Hd Hv] Hc. split.
  - destruct Hat as [_ ->]. change (S754_zero false) with (F64 0).
    by rewrite (digits_loop_render ds c rest 0 0 Hd ltac:(lia) Hv Hc).
  - apply at_app in Hat. by rewrite render_digits_length in Hat.
Qed.

(** The unsigned part of a number: the code after the sign test. *)
Lemma parse_unsigned m p ip fp c rest (negative : bool) :
  at_ m p (render_digits ip ++ match fp with Some ds => chr "." :: render_digits ds | None => [] end
           ++ c :: rest) ->
  digits_ok ip -> match fp with Some ds => digits_ok ds | None => True end -> stops c ->
  exists p', at_ m p' (c :: rest) /\
    p' = p + Z.of_nat (length (render_digits ip ++
               match fp with Some ds => chr "." :: render_digits ds | None => [] end)) /\
    ('(value, n) ← digits_loop (from m p) (S754_zero false) 0;
     c ← rd m (p + n);
     (if c =? chr "." then
       '(f, k) ← digits_loop (from m (p + n + 1)) (S754_zero false) 0;
       Some (p + n + 1 + k, fadd value (fdiv f (pow10 k)))
     else Some (p + n, value))) =
    Some (p', match fp with
              | Some ds => fadd (F64 (digits_value 0 ip))
                             (fdiv (F64 (digits_value 0 ds)) (pow10 (Z.of_nat (length ds))))
              | None => F64 (digits_value 0 ip)
              end).
Proof.
  intros Hat Hip Hfp Hc. destruct (stops_facts c Hc) as (Hd & Hdot & _).
  destruct fp as [ds|].
  - destruct (digits_at m p ip (chr ".") (render_digits ds ++ c :: rest) Hat Hip eq_refl)
      as [E1 Hat1].
    rewrite E1. cbn [mbind option_bind]. rewrite (at_rd _ _ _ _ Hat1). cbn [mbind option_bind].
    rewrite Z.eqb_refl. apply at_cons in Hat1.
    destruct (digits_at m _ ds c rest Hat1 Hfp Hd) as [E2 Hat2].
    rewrite E2. cbn [mbind option_bind]. eexists. split; [exact Hat2|]. split; [|reflexivity].
    rewrite length_app, render_digits_length. simpl. rewrite render_digits_length. lia.
  - destruct (digits_at m p ip c rest Hat Hip Hd) as [E1 Hat1].
    rewrite E1. cbn [mbind option_bind]. rewrite (at_rd _ _ _ _ Hat1). cbn [mbind option_bind].
    rewrite Hdot. eexists. split; [exact Hat1|]. split; [|reflexivity].
    rewrite app_nil_r, render_digits_length. done.
Qed.

(** The first character of an unsigned number is not a sign. *)
Lemma unsigned_head ip (fp : option (list Z)) c rest :
  Forall (fun d => 0 <= d <= 9) ip -> stops c ->
  exists c0 l, render_digits ip ++ match fp with Some ds => chr "." :: render_digits ds | None => [] end
           ++ c :: rest = c0 :: l /\ (c0 =? chr "-") = false /\ (c0 =? chr "+") = false.
Proof.
  intros Hip Hc. destruct Hip as [|d ip Hd _].
  - destruct fp as [ds|]; simpl; do 2 eexists; (split; [reflexivity|]); [done|].
    by destruct (stops_facts c Hc) as (_ & _ & ? & ? & _).
  - simpl. do 2 eexists. split; [reflexivity|]. change (chr "0") with 48.
    change (chr "-") with 45. change (chr "+") with 43. split; apply Z.eqb_neq; lia.
Qed.

(** What [parse_float] does behind the sign, at [q]. *)
Lemma parse_float_body m p q ip fp c rest (negative : bool) (mods : Z) :
  digits_ok ip -> match fp with Some ds => digits_ok ds | None => True end -> stops c ->
  at_ m q (render_digits ip ++ match fp with Some ds => chr "." :: render_digits ds | None => [] end ++ c :: rest) ->
  ('(value, n) ← digits_loop (from m q) (S754_zero false) 0;
   c ← rd m (q + n);
   '(buffer, value) ← (if c =? chr "." then
     '(f, k) ← digits_loop (from m (q + n + 1)) (S754_zero false) 0;
     Some (q + n + 1 + k, fadd value (fdiv f (pow10 k)))
   else Some (q + n, value));
   let value := if (negative : bool) then SFopp value else value in
   c ← rd m buffer;
   '(buffer, value) ← (if (c =? chr "e") || (c =? chr "E") then
      '(v, n) ← strtod (from m p); Some (p + n, v)
    else Some (buffer, value));
   Some (buffer, value, mods : Z)) =
  Some (q + Z.of_nat (length (render_digits ip ++
             match fp with Some ds => chr "." :: render_digits ds | None => [] end)),
        (let v := match fp with
            | Some ds => fadd (F64 (digits_value 0 ip))
                           (fdiv (F64 (digits_value 0 ds)) (pow10 (Z.of_nat (length ds))))
            | None => F64 (digits_value 0 ip)
            end in if negative then SFopp v else v), mods).
Proof.
  intros Hip Hfp Hc Hq. destruct (stops_facts c Hc) as (_ & _ & _ & _ & Hexp).
  destruct (parse_unsigned m q ip fp c rest negative Hq Hip Hfp Hc) as (p' & Hp' & Ep' & E).
  destruct (digits_loop (from m q) (S754_zero false) 0) as [[v n]|]; [|done].
  cbn [mbind option_bind] in E |- *. destruct (rd m (q + n)); [|done].
  cbn [mbind option_bind] in E |- *. rewrite E. cbn [mbind option_bind].
  rewrite (at_rd _ _ _ _ Hp'). cbn [mbind option_bind]. rewrite Hexp.
  cbn [mbind option_bind]. by rewrite Ep'.
Qed.

Lemma parse_float_render m p x c rest :
  at_ m p (render_number x ++ c :: rest) -> number_ok x -> stops c ->
  parse_float m p 0 =
    Some (p + Z.of_nat (length (render_number x)), number_value x, number_mods x) /\
  at_ m (p + Z.of_nat (length (render_number x))) (c :: rest).
Proof.
  intros Hat [Hip Hfp] Hc. split; [|by apply at_app].
  unfold parse_float, render_number, number_value, number_mods in *.
  destruct x as [sg ip fp]. cbn [num_sign num_int num_frac] in *.
  rewrite <- !app_assoc in Hat.
  destruct sg as [[]|].
  - rewrite (at_rd _ _ _ _ Hat). cbn [mbind option_bind]. rewrite Z.eqb_refl.
    apply at_cons in Hat. rewrite (parse_float_body m p _ ip fp c rest true _ Hip Hfp Hc Hat).
    rewrite (length_app [chr "-"]), Nat2Z.inj_add, Z.add_assoc. done.
  - rewrite (at_rd _ _ _ _ Hat). cbn [mbind option_bind].
    change (chr "+" =? chr "-") with false. rewrite Z.eqb_refl.
    apply at_cons in Hat. rewrite (parse_float_body m p _ ip fp c rest false _ Hip Hfp Hc Hat).
    rewrite (length_app [chr "+"]), Nat2Z.inj_add, Z.add_assoc. done.
  - destruct (unsigned_head ip fp c rest (proj1 Hip) Hc) as (c0 & l & El & H1 & H2).
    pose proof Hat as Hat'. rewrite app_nil_l, El in Hat'. rewrite (at_rd _ _ _ _ Hat').
    cbn [mbind option_bind]. rewrite H1, H2. exact (parse_float_body m p p ip fp c rest false 0 Hip Hfp Hc Hat).
Qed.

Lemma type_switch_render m p t rest :
  t <> BRUBECK_MT_INTERNAL_STATS -> at_ m p (type_text t ++ rest) ->
  type_switch m p = Some (Some (t, p + Z.of_nat (length (type_text t)))) /\
  at_ m (p + Z.of_nat (length (type_text t))) rest.
Proof.
  intros Ht Hat. split; [|by apply at_app]. unfold type_switch.
  destruct t; try done; rewrite (at_rd _ _ _ _ Hat); cbn [mbind option_bind]; try done.
  apply at_cons in Hat. rewrite (at_rd _ _ _ _ Hat). done.
Qed.

Definition rate_accepted (r : number) : bool :=
  negb (SFleb (number_value r) (S754_zero false) || SFltb (F64 1) (number_value r)).

Lemma rate_trailer_render m p r rest :
  at_ m p (render_rate r ++ 0 :: rest) ->
  match r with Some x => number_ok x | None => True end ->
  match r with
  | Some x =>
      if rate_accepted x then
        rate_trailer m p = Some (Some (fdiv (F64 1) (number_value x),
                                       p + Z.of_nat (length (render_rate r))))
      else rate_trailer m p = Some None
  | None => rate_trailer m p = Some (Some (F64 1, p))
  end /\ at_ m (p + Z.of_nat (length (render_rate r))) (0 :: rest).
Proof.
  intros Hat Hr. split; [|by apply at_app]. unfold rate_trailer, has_rate.
  destruct r as [x|].
  - unfold render_rate in Hat. rewrite <- app_assoc in Hat.
    rewrite (at_rd _ _ _ _ Hat). cbn [mbind option_bind]. rewrite Z.eqb_refl.
    apply at_cons in Hat. rewrite (at_rd _ _ _ _ Hat). cbn [mbind option_bind].
    rewrite Z.eqb_refl. apply at_cons in Hat.
    replace (p + 1 + 1) with (p + 2) in Hat by lia.
    destruct (parse_float_render m (p + 2) x 0 rest Hat Hr) as [-> _]; [by left|].
    cbn [mbind option_bind]. unfold rate_accepted.
    destruct (SFleb _ _ || SFltb _ _); [done|]. cbn [negb].
    unfold render_rate. rewrite (length_app [chr "|"; chr "@"]), Nat2Z.inj_add, Z.add_assoc. done.
  - rewrite (at_rd _ _ _ _ Hat). done.
Qed.

Lemma key_loop_render k rest n :
  Forall (fun b => b <> chr ":" /\ b <> 0 /\ b <> chr " ") k ->
  key_loop (k ++ chr ":" :: rest) n = Some (Some (n + Z.of_nat (length k))).
Proof.
  intros Hk. revert n. induction Hk as [|b k (Hc & Hz & Hs) _ IH]; intros n.
  - simpl. do 2 f_equal. lia.
  - cbn [app key_loop]. repeat (zcase; [done|]). rewrite IH. do 2 f_equal. simpl. lia.
Qed.

Lemma wr_mid (pre post : list Z) x y :
  wr (pre ++ x :: post) (Z.of_nat (length pre)) y = Some (pre ++ y :: post).
Proof.
  rewrite wr_in by (rewrite length_app; simpl; lia). rewrite Nat2Z.id.
  rewrite insert_app_r_alt, Nat.sub_diag by lia. done.
Qed.

Lemma last_lookup (k : list Z) : k <> [] -> k !! (length k - 1)%nat = Some (List.last k 0).
Proof.
  induction k as [|b k IH]; [done|]. intros _. destruct k as [|c k]; [done|].
  change (List.last (b :: c :: k) 0) with (List.last (c :: k) 0).
  rewrite <- (IH ltac:(done)). simpl. by rewrite Nat.sub_0_r.
Qed.

(** C4: a well-formed message is understood as written: whatever surrounds it
    in the buffer, parsing yields its key, its type, its value (exact for an
    integer below 2^53), the inverse of its sample rate, and the relative
    modifier exactly when the value has a sign; a sample rate outside (0, 1]
    rejects the message. *)
Theorem msg_parse_render (pre post k : list Z) (x : number) (t : brubeck_metric_t)
  (r : option number) (b e c : Z)
  (Hb : b = Z.of_nat (length pre)) (He : e = b + Z.of_nat (length (render_msg k x t r)))
  (Hk : key_ok k) (Hx : number_ok x) (Ht : t <> BRUBECK_MT_INTERNAL_STATS)
  (Hr : match r with Some y => number_ok y | None => True end) :
  brubeck_statsd_msg_parse (pre ++ render_msg k x t r ++ c :: post) b e =
    Some (pre ++ k ++ [0] ++ render_tail x t r ++ 0 :: post,
          let msg f := Some {| msg_key := b; msg_key_len := Z.of_nat (length k); msg_type := t;
                               msg_value := number_value x; msg_sample_freq := f;
                               msg_modifiers := number_mods x |} in
          match r with
          | Some y => if rate_accepted y then msg (fdiv (F64 1) (number_value y)) else None
          | None => msg (F64 1)
          end).
Proof.
  destruct Hk as (Hne & Hkey & Hdot & Hlen). subst b e.
  unfold brubeck_statsd_msg_parse.
  rewrite app_assoc, <- Nat2Z.inj_add, <- length_app, wr_mid. cbn [mbind option_bind].
  rewrite <- app_assoc. unfold render_msg. rewrite <- !app_assoc.
  set (tail := render_tail x t r ++ 0 :: post).
  change ([chr ":"] ++ tail) with (chr ":" :: tail).
  destruct (at_mid pre (k ++ chr ":" :: tail)) as [_ ->].
  rewrite key_loop_render by done. cbn [mbind option_bind]. rewrite Z.add_0_l.
  rewrite wrap_small by (unfold fits; lia).
  rewrite app_assoc, <- Nat2Z.inj_add, <- length_app, wr_mid.
  cbn [mbind option_bind]. rewrite <- app_assoc.
  set (m2 := pre ++ k ++ 0 :: tail).
  assert (Hlast : rd m2 (Z.of_nat (length pre) + (Z.of_nat (length k) - 1)) = Some (List.last k 0)).
  { assert (length k <> 0%nat) by by destruct k.
    replace (Z.of_nat (length k) - 1) with (Z.of_nat (length k - 1)) by lia.
    rewrite rd_from by lia. destruct (at_mid pre (k ++ 0 :: tail)) as [_ E].
    unfold m2. rewrite E. rewrite lookup_app_l by lia. by apply last_lookup. }
  rewrite Hlast. cbn [mbind option_bind]. destruct (Z.eqb_spec (List.last k 0) (chr ".")); [done|].
  assert (Hat : at_ m2 (Z.of_nat (length (pre ++ k)) + 1) tail).
  { apply (at_cons _ _ 0). unfold m2. rewrite app_assoc. apply at_mid. }
  unfold tail, render_tail in Hat. rewrite <- !app_assoc in Hat.
  destruct (parse_float_render m2 _ x _ _ Hat Hx (or_intror eq_refl)) as [-> Hat1].
  cbn [mbind option_bind]. rewrite (at_rd _ _ _ _ Hat1). cbn [mbind option_bind].
  rewrite Z.eqb_refl. cbn [negb]. apply at_cons in Hat1.
  destruct (type_switch_render m2 _ t _ Ht Hat1) as [-> Hat2]. cbn [mbind option_bind].
  destruct (rate_trailer_render m2 _ r post Hat2 Hr) as [Er Hat3]. unfold at_end.
  destruct r as [y|]; [destruct (rate_accepted y)|]; rewrite Er; cbn [mbind option_bind];
    try done; rewrite ?Z.add_0_r in Hat3; rewrite (at_rd _ _ _ _ Hat3); done.
Qed.

Definition demo_number : number :=
  {| num_sign := Some true; num_int := [1; 2]; num_frac := None |}.
Definition demo_rate : number :=
  {| num_sign := None; num_int := [0]; num_frac := Some [2; 5] |}.

Lemma key_ok_demo : key_ok (bytes "a.b").
Proof. split_and!; [done|repeat constructor; done|done|done]. Qed.

Lemma number_ok_demo : number_ok demo_number.
Proof. split; [|done]. split; [repeat constructor; lia|reflexivity]. Qed.

Lemma rate_ok_demo : number_ok demo_rate.
Proof. split; (split; [repeat constructor; lia|reflexivity]). Qed.

Lemma msg_parse_render_witness :
  brubeck_statsd_msg_parse
    ([9] ++ render_msg (bytes "a.b") demo_number BRUBECK_MT_TIMER (Some demo_rate) ++ 10 :: [8])
    1 17 =
    Some ([9] ++ bytes "a.b" ++ [0] ++
            render_tail demo_number BRUBECK_MT_TIMER (Some demo_rate) ++ 0 :: [8],
          Some {| msg_key := 1; msg_key_len := 3; msg_type := BRUBECK_MT_TIMER;
                  msg_value := F64 (-12); msg_sample_freq := F64 4; msg_modifiers := 1 |}).
Proof.
  exact (msg_parse_render [9] [8] (bytes "a.b") demo_number BRUBECK_MT_TIMER (Some demo_rate)
           1 17 10 eq_refl eq_refl key_ok_demo number_ok_demo ltac:(done) rate_ok_demo).
Defined.

(** ** Packets of messages *)

Lemma memchr_skip t rest n i :
  Forall (fun b => b <> 10) t -> (length t <= n)%nat ->
  memchr_newline (t ++ rest) n i =
    memchr_newline rest (n - length t) (i + Z.of_nat (length t)).
Proof.
  intros Ht. revert n i. induction Ht as [|b t Hb _ IH]; intros n i Hn.
  - simpl. rewrite Nat.sub_0_r. f_equal. lia.
  - simpl in Hn. destruct n as [|n]; [lia|]. cbn [app memchr_newline length Nat.sub].
    destruct (Z.eqb_spec b 10); [done|]. rewrite IH by lia. f_equal. lia.
Qed.

(** ** The numbers of a message *)

Lemma digits_loop_double l : forall acc n v k,
  is_double acc -> digits_loop l acc n = Some (v, k) -> is_double v.
Proof.
  induction l as [|b l IH]; intros acc n v k Ha; cbn [digits_loop]; [done|].
  destruct (is_digit b); [|by intros [= <- _]]. apply IH. auto with double.
Qed.

Lemma strtod_double l v n : strtod l = Some (v, n) -> is_double v.
Proof.
  unfold strtod. intros (c & _ & E)%bind_Some. case_match.
  apply bind_Some in E as ([ip n1] & _ & E). apply bind_Some in E as (c1 & _ & E).
  apply bind_Some in E as ([[M n2] q] & _ & E). case_match; [by injection E as <- _|].
  apply bind_Some in E as ([e p] & _ & [= <- _]). auto with double.
Qed.

Lemma parse_float_double m b mods b' v mods' :
  parse_float m b mods = Some (b', v, mods') -> is_double v.
Proof.
  unfold parse_float. intros (c & _ & E)%bind_Some.
  destruct (if c =? chr "-" then _ else _) as [[b0 neg] mods0].
  apply bind_Some in E as ([v1 n1] & E1 & E). apply digits_loop_double in E1; [|done].
  apply bind_Some in E as (c1 & _ & E). apply bind_Some in E as ([b2 v2] & E2 & E).
  assert (is_double v2) as Hv2.
  { destruct (c1 =? chr "."); [|by injection E2 as _ <-].
    apply bind_Some in E2 as ([f n2] & E2 & [= _ <-]). apply digits_loop_double in E2; [|done].
    apply fadd_double; [done|]. apply fdiv_double; [done|]. apply F64_double. }
  apply bind_Some in E as (c2 & _ & E). apply bind_Some in E as ([b3 v3] & E3 & [= _ <- _]).
  destruct (_ || _) in E3.
  - apply bind_Some in E3 as ([v4 n4] & E4 & [= _ <-]). by eapply strtod_double.
  - injection E3 as _ <-. destruct neg; [by apply fopp_double|done].
Qed.

(** A frequency of a message: at least one, or not a number. *)
Definition freq_ok (f : value_t) : Prop := is_double f /\ (f = S754_nan \/ SFleb (F64 1) f = true).

Lemma rate_trailer_freq m b f b' : rate_trailer m b = Some (Some (f, b')) -> freq_ok f.
Proof.
  unfold rate_trailer. intros (r & _ & E)%bind_Some. destruct r; [|injection E as <- _; split; [done|by right]].
  apply bind_Some in E as ([[b2 rate] mods] & E2 & E). apply parse_float_double in E2.
  destruct (_ || _) eqn:Er in E; [done|].
  assert (f = fdiv (F64 1) rate) as -> by congruence. clear E. apply orb_false_iff in Er as [H0 H1].
  split; [apply fdiv_double; [apply F64_double|done]|].
  assert (rate = S754_nan \/ not_nan rate) as [->|Hn] by (destruct rate; by (left + right)); [by left|right].
  by apply recip_ge_1.
Qed.

Lemma msg_parse_numbers m m' b e msg :
  brubeck_statsd_msg_parse m b e = Some (m', Some msg) ->
  is_double (msg_value msg) /\ freq_ok (msg_sample_freq msg).
Proof.
  unfold brubeck_statsd_msg_parse. intros (m1 & _ & E)%bind_Some. cbv zeta in E.
  apply bind_Some in E as ([n|] & _ & E); [|done]. apply bind_Some in E as (m2 & _ & E).
  apply bind_Some in E as (c & _ & E). case_match; [done|].
  apply bind_Some in E as ([[b1 v] mods] & Ev & E). apply parse_float_double in Ev.
  apply bind_Some in E as (c2 & _ & E). case_match; [done|].
  apply bind_Some in E as ([[t b2]|] & _ & E); [|done].
  apply bind_Some in E as ([[f b3]|] & Ef & E); [|done]. apply rate_trailer_freq in Ef.
  apply bind_Some in E as ([|] & _ & E); [|done]. injection E as _ <-. done.
Qed.

Lemma msg_parse_length m m' b e r : brubeck_statsd_msg_parse m b e = Some (m', r) -> length m' = length m.
Proof.
  unfold brubeck_statsd_msg_parse. intros (m1 & Hw1 & E)%bind_Some. cbv zeta in E. apply wr_length in Hw1.
  apply bind_Some in E as ([n|] & _ & E); [|congruence].
  apply bind_Some in E as (m2 & Hw2 & E). apply wr_length in Hw2.
  apply bind_Some in E as (c & _ & E). case_match; [congruence|].
  apply bind_Some in E as ([[b1 v] mods] & _ & E). apply bind_Some in E as (c2 & _ & E). case_match; [congruence|].
  apply bind_Some in E as ([[t b2]|] & _ & E); [|congruence].
  apply bind_Some in E as ([[f b3]|] & _ & E); [|congruence].
  apply bind_Some in E as ([|] & _ & E); congruence.
Qed.

Section PacketFacts.
Context {S : Type} `{MetricSink S}.

(** The parser never moves the bytes of its buffer. *)
Lemma packet_parse_length st m b e st' m' :
  brubeck_statsd_packet_parse st m b e = Some (st', m') -> length m' = length m.
Proof.
  unfold brubeck_statsd_packet_parse. generalize (Z.to_nat (e - b)). intros fuel. revert st m b.
  induction fuel as [|fuel IH]; intros st m b; cbn [packet_loop]; case_match; try congruence; try done.
  intros ([st1 m1] & Hs & E)%bind_Some. rewrite (IH _ _ _ E). unfold packet_step in Hs.
  apply bind_Some in Hs as ([m2 r] & Hp & Hs). apply msg_parse_length in Hp. rewrite <- Hp.
  destruct r; [|congruence]. apply bind_Some in Hs as (k & _ & Hs). apply bind_Some in Hs as (st2 & _ & Hs). congruence.
Qed.

(** A message of a packet, and what it does to the sink. *)
Record line := { l_key : list Z; l_num : number; l_type : brubeck_metric_t;
                 l_rate : option number }.

Definition line_text (l : line) : list Z := render_msg (l_key l) (l_num l) (l_type l) (l_rate l).

Definition line_ok (l : line) : Prop :=
  key_ok (l_key l) /\ Forall (fun b => b <> 10) (l_key l) /\ number_ok (l_num l) /\
  l_type l <> BRUBECK_MT_INTERNAL_STATS /\
  match l_rate l with Some y => number_ok y | None => True end.

Definition line_effect (st : S) (l : line) : option S :=
  let go f := sink_metric st (l_key l) (l_type l) (number_value (l_num l)) f
                (number_mods (l_num l)) in
  match l_rate l with
  | Some y => if rate_accepted y then go (fdiv (F64 1) (number_value y))
              else Some (sink_error st)
  | None => go (F64 1)
  end.

Fixpoint lines_effect (st : S) (ls : list line) : option S :=
  match ls with
  | [] => Some st
  | l :: ls => st ← line_effect st l; lines_effect st ls
  end.

(** The packet of [l] and [ls], one message per line. *)
Fixpoint packet_text (l : line) (ls : list line) : list Z :=
  match ls with
  | [] => line_text l
  | l' :: ls' => line_text l ++ 10 :: packet_text l' ls'
  end.

Lemma render_number_no_newline x : number_ok x -> Forall (fun b => b <> 10) (render_number x).
Proof.
  intros [[Hi _] Hf]. unfold render_number.
  assert (Hd : forall ds, Forall (fun d => 0 <= d <= 9) ds ->
                 Forall (fun b => b <> 10) (render_digits ds)).
  { intros ds Hds. apply Forall_fmap. eapply Forall_impl; [|exact Hds].
    intros d Hd'. unfold compose. assert (chr "0" = 48) as -> by done. cbv beta in Hd'. lia. }
  rewrite !Forall_app. split_and!.
  - destruct (num_sign x) as [[]|]; repeat constructor; done.
  - auto.
  - destruct (num_frac x); [|done]. constructor; [done|]. by apply Hd, Hf.
Qed.

Lemma line_text_no_newline l : line_ok l -> Forall (fun b => b <> 10) (line_text l).
Proof.
  intros (Hk & Hn & Hx & Ht & Hr). unfold line_text, render_msg, render_tail.
  rewrite !Forall_app. split_and!; try done; try by apply render_number_no_newline.
  - by constructor.
  - by constructor.
  - destruct (l_type l); repeat constructor; done.
  - destruct (l_rate l); [|done]. unfold render_rate. rewrite Forall_app.
    split; [repeat constructor; done|]. by apply render_number_no_newline.
Qed.

Lemma packet_step_render st pre post l c :
  line_ok l ->
  let b := Z.of_nat (length pre) in
  let e := b + Z.of_nat (length (line_text l)) in
  exists pre', length pre' = length (pre ++ line_text l) /\
    packet_step st (pre ++ line_text l ++ c :: post) b e =
      (st' ← line_effect st l; Some (st', pre' ++ 0 :: post)).
Proof.
  intros (Hk & Hn & Hx & Ht & Hr) b e. unfold packet_step, line_text.
  rewrite (msg_parse_render pre post (l_key l) (l_num l) (l_type l) (l_rate l) b e c
             eq_refl eq_refl Hk Hx Ht Hr).
  exists (pre ++ l_key l ++ [0] ++ render_tail (l_num l) (l_type l) (l_rate l)).
  split; [unfold render_msg; rewrite !length_app; done|].
  cbn [mbind option_bind]. unfold line_effect.
  assert (Hkey : rd_n (pre ++ l_key l ++ [0] ++ render_tail (l_num l) (l_type l) (l_rate l)
                         ++ 0 :: post) b (Z.to_nat (Z.of_nat (length (l_key l))))
                 = Some (l_key l)).
  { rewrite Nat2Z.id, rd_n_in by (unfold b; rewrite ?length_app; lia). unfold b.
    by rewrite Nat2Z.id, drop_app_length, take_app_length. }
  destruct (l_rate l) as [y|]; [destruct (rate_accepted y)|];
    cbn [msg_key msg_key_len msg_type msg_value msg_sample_freq msg_modifiers];
    rewrite ?Hkey; cbn [mbind option_bind]; rewrite <- ?app_assoc; done.
Qed.

Lemma line_text_nonempty l : (0 < length (line_text l))%nat.
Proof.
  unfold line_text, render_msg. rewrite !length_app.
  pose proof (Nat.le_0_l (length (l_key l))). simpl. lia.
Qed.

Lemma stat_end_render pre l rest e :
  line_ok l -> e >= Z.of_nat (length (pre ++ line_text l)) ->
  stat_end (pre ++ line_text l ++ rest) (Z.of_nat (length pre)) e =
    match memchr_newline rest (Z.to_nat (e - Z.of_nat (length (pre ++ line_text l))))
            (Z.of_nat (length (pre ++ line_text l))) with
    | Some p => p
    | None => e
    end.
Proof.
  intros Hl He. rewrite length_app in *. unfold stat_end.
  destruct (at_mid pre (line_text l ++ rest)) as [_ ->].
  rewrite memchr_skip by (try apply line_text_no_newline; try done; lia).
  replace (Z.to_nat (e - Z.of_nat (length pre)) - length (line_text l))%nat
    with (Z.to_nat (e - Z.of_nat (length pre + length (line_text l)))) by lia.
  by rewrite Nat2Z.inj_add.
Qed.

Lemma packet_loop_render ls : forall l st pre post c fuel,
  Forall line_ok (l :: ls) -> (length (packet_text l ls) <= fuel)%nat ->
  fst <$> packet_loop fuel st (pre ++ packet_text l ls ++ c :: post) (Z.of_nat (length pre))
            (Z.of_nat (length (pre ++ packet_text l ls))) = lines_effect st (l :: ls).
Proof.
  induction ls as [|l' ls IH]; intros l st pre post c fuel [Hl Hls]%Forall_cons_iff Hf;
    pose proof (line_text_nonempty l); cbn [packet_text lines_effect] in *.
  - destruct fuel as [|fuel]; [lia|]. cbn [packet_loop].
    destruct (Z.ltb_spec (Z.of_nat (length pre)) (Z.of_nat (length (pre ++ line_text l))))
      as [_|Hlt]; [|rewrite length_app in Hlt; lia].
    rewrite stat_end_render by (done || lia). rewrite Z.sub_diag. change (Z.to_nat 0) with 0%nat. cbn [memchr_newline].
    destruct (packet_step_render st pre post l c Hl) as (pre' & Hlen & E).
    rewrite <- Nat2Z.inj_add, <- length_app in E. rewrite E.
    destruct (line_effect st l) as [st'|]; [|done]. cbn [mbind option_bind].
    destruct fuel; cbn [packet_loop]; destruct (Z.ltb_spec (Z.of_nat (length (pre ++ line_text l)) + 1)
      (Z.of_nat (length (pre ++ line_text l)))); (done || lia).
  - destruct fuel as [|fuel]; [rewrite length_app in Hf; lia|]. cbn [packet_loop].
    rewrite length_app in Hf. cbn [length] in Hf.
    assert (Hend : Z.of_nat (length (pre ++ line_text l ++ 10 :: packet_text l' ls)) =
      Z.of_nat (length (pre ++ line_text l)) + 1 + Z.of_nat (length (packet_text l' ls))).
    { rewrite !length_app. cbn [length]. lia. }
    destruct (Z.ltb_spec (Z.of_nat (length pre))
      (Z.of_nat (length (pre ++ line_text l ++ 10 :: packet_text l' ls)))) as [_|Hlt];
      [|rewrite Hend, length_app in Hlt; lia].
    rewrite <- app_assoc. cbn [app].
    rewrite stat_end_render by (done || lia).
    destruct (Z.to_nat _) as [|n] eqn:En; [lia|]. cbn [memchr_newline]. rewrite Z.eqb_refl.
    destruct (packet_step_render st pre (packet_text l' ls ++ c :: post) l 10 Hl)
      as (pre' & Hlen & E).
    rewrite <- Nat2Z.inj_add, <- length_app in E. rewrite E.
    destruct (line_effect st l) as [st'|]; [|done]. cbn [mbind option_bind].
    rewrite (cons_middle 0), app_assoc.
    replace (Z.of_nat (length (pre ++ line_text l)) + 1) with (Z.of_nat (length (pre' ++ [0])))
      by (rewrite length_app, Hlen; simpl; lia).
    replace (Z.of_nat (length (pre ++ line_text l ++ 10 :: packet_text l' ls)))
      with (Z.of_nat (length ((pre' ++ [0]) ++ packet_text l' ls)))
      by (rewrite Hend, !length_app, Hlen, !length_app; simpl; lia).
    apply IH; [done|lia].
Qed.

(** C3: a packet of well-formed lines separated by newlines reaches the
    metrics line by line and in order: each line's key, type, value,
    frequency and modifiers as written, a line with a sample rate outside
    (0, 1] as one error, and nothing else. *)
Theorem packet_parse_render (st : S) (l : line) (ls : list line) (c : Z) (post : list Z)
  (Hls : Forall line_ok (l :: ls)) :
  fst <$> brubeck_statsd_packet_parse st (packet_text l ls ++ c :: post) 0
            (Z.of_nat (length (packet_text l ls))) = lines_effect st (l :: ls).
Proof.
  unfold brubeck_statsd_packet_parse. rewrite Z.sub_0_r, Nat2Z.id.
  apply (packet_loop_render ls l st [] post c); [done|lia].
Qed.

(** The number of lines of a packet; the last one may lack its newline. *)
Fixpoint lines_in (open : bool) (l : list Z) : Z :=
  match l with
  | [] => if open then 1 else 0
  | b :: l => if b =? 10 then 1 + lines_in false l else lines_in true l
  end.

Definition segment (m : list Z) (b e : Z) : list Z := take (Z.to_nat (e - b)) (from m b).

Lemma memchr_lines l : forall n i o,
  match memchr_newline l n i with
  | Some p => i <= p < i + Z.of_nat n /\ p - i < Z.of_nat (length l) /\
      lines_in o (take n l) =
        1 + lines_in false (take (n - Z.to_nat (p - i + 1)) (drop (Z.to_nat (p - i + 1)) l))
  | None => take n l <> [] \/ o = true -> lines_in o (take n l) = 1
  end.
Proof.
  induction l as [|b l IH]; intros [|n] i o; cbn [memchr_newline take lines_in length].
  1-3: intros [?| ->]; done.
  destruct (Z.eqb_spec b 10).
  - replace (i - i + 1) with 1 by lia. split_and!; [lia..|].
    change (Z.to_nat 1) with 1%nat. cbn [drop Nat.sub]. by rewrite Nat.sub_0_r, drop_0.
  - specialize (IH n (i + 1) true). destruct (memchr_newline l n (i + 1)) as [p|].
    + destruct IH as (Hp & Hl & ->). split_and!; [lia..|]. do 2 f_equal.
      replace (Z.to_nat (p - i + 1)) with (Datatypes.S (Z.to_nat (p - (i + 1) + 1))) by lia. done.
    + intros _. apply IH. by right.
Qed.

Lemma stat_end_lines m b e :
  0 <= b < e -> e < Z.of_nat (length m) ->
  b <= stat_end m b e <= e /\
  lines_in false (segment m b e) = 1 + lines_in false (segment m (stat_end m b e + 1) e).
Proof.
  intros Hb He. unfold stat_end, segment.
  pose proof (memchr_lines (from m b) (Z.to_nat (e - b)) b false) as Hm.
  destruct (memchr_newline (from m b) (Z.to_nat (e - b)) b) as [p|].
  - destruct Hm as (Hp & _ & ->). split; [lia|]. do 3 f_equal; [lia|].
    unfold from. destruct (Z.ltb_spec b 0), (Z.ltb_spec (p + 1) 0); try lia.
    rewrite drop_drop. f_equal. lia.
  - split; [lia|]. rewrite Hm.
    + by replace (Z.to_nat (e - (e + 1))) with 0%nat by lia.
    + left. unfold from. destruct (Z.ltb_spec b 0); [lia|]. intros E%(f_equal length).
      rewrite length_take, length_drop in E. simpl in E. lia.
Qed.

Lemma from_ext m m' p :
  length m' = length m -> 0 <= p -> (forall i, p <= i -> rd m' i = rd m i) -> from m' p = from m p.
Proof.
  intros Hl Hp Hrd. unfold from. destruct (Z.ltb_spec p 0); [lia|]. apply list_eq. intros i.
  rewrite !lookup_drop. specialize (Hrd (p + Z.of_nat i) ltac:(lia)). unfold rd in Hrd.
  destruct (Z.ltb_spec (p + Z.of_nat i) 0); [lia|].
  by replace (Z.to_nat (p + Z.of_nat i)) with (Z.to_nat p + i)%nat in Hrd by lia.
Qed.

End PacketFacts.

(** ** What a packet tells its sink

    The parser reads nothing from its sink: a packet is a list of outcomes,
    whatever the sink does with them, and the parse ends early only where the
    sink has no result. *)

Inductive outcome :=
| Rejected
| Accepted (k : list Z) (t : brubeck_metric_t) (v f : value_t) (mods : Z).

Definition deliver {S : Type} `{MetricSink S} (st : S) (o : outcome) : option S :=
  match o with
  | Rejected => Some (sink_error st)
  | Accepted k t v f mods => sink_metric st k t v f mods
  end.

Fixpoint deliver_all {S : Type} `{MetricSink S} (st : S) (os : list outcome) : option S :=
  match os with
  | [] => Some st
  | o :: os => st ← deliver st o; deliver_all st os
  end.

(** The arguments of a call to the sink. *)
Definition sink_args (size : Z) (k : list Z) (t : brubeck_metric_t) (v f : value_t) : Prop :=
  nul_free k /\ Z.of_nat (length k) < size /\ t <> BRUBECK_MT_INTERNAL_STATS /\ is_double v /\ freq_ok f.

Definition outcome_ok (size : Z) (o : outcome) : Prop :=
  match o with Rejected => True | Accepted k t v f _ => sink_args size k t v f end.

Lemma deliver_all_app {S : Type} `{MetricSink S} os os' : forall st : S,
  deliver_all st (os ++ os') = (st ← deliver_all st os; deliver_all st os').
Proof.
  induction os as [|o os IH]; intros st; cbn [app deliver_all]; [done|].
  destruct (deliver st o); [apply IH|done].
Qed.

(** A list of outcomes is delivered to its end or to the first that fails. *)
Lemma deliver_all_stuck {S : Type} `{MetricSink S} os : forall st : S, deliver_all st os = None ->
  exists pre o rest st1, os = pre ++ o :: rest /\ deliver_all st pre = Some st1 /\ deliver st1 o = None.
Proof.
  induction os as [|o os IH]; intros st E; [done|]. cbn [deliver_all] in E.
  destruct (deliver st o) as [st1|] eqn:Ed; [|by exists [], o, os, st].
  destruct (IH st1 E) as (pre & o' & rest & st2 & -> & Ep & Eo).
  exists (o :: pre), o', rest, st2. cbn [deliver_all]. rewrite Ed. done.
Qed.

(** The sink that keeps the outcomes. *)
#[export] Instance outcome_sink : MetricSink (list outcome) := {|
  sink_error os := os ++ [Rejected];
  sink_metric os k t v f mods := Some (os ++ [Accepted k t v f mods]);
|}.

Lemma deliver_outcomes os : forall l : list outcome, deliver_all l os = Some (l ++ os).
Proof.
  induction os as [|o os IH]; intros l; cbn [deliver_all]; [by rewrite app_nil_r|].
  replace (deliver l o) with (Some (l ++ [o])) by (by destruct o). cbn [mbind option_bind].
  by rewrite IH, <- app_assoc.
Qed.

(** One line is one outcome. *)
Lemma packet_step_outcome m b e :
  msg_bounds m b e ->
  exists o m', outcome_ok (e - b) o /\ length m' = length m /\ (forall i, i < b \/ e < i -> rd m' i = rd m i) /\
    forall (S : Type) (HS : MetricSink S) (st : S),
      packet_step st m b e = (st' ← deliver st o; Some (st', m')).
Proof.
  intros Hm.
  destruct (msg_parse_run m b e Hm)
    as (m1 & Hw1 & [[Ek Ep]|(n & m2 & r & Ek & Hn & Hlt & Hw2 & Ep & Hr)]); destruct Hm as (Hb & He & _).
  - exists Rejected, m1. split_and!; [done|by eapply wr_length| |intros; unfold packet_step; by rewrite Ep].
    intros i Hi. eapply rd_wr_ne; [done|lia].
  - assert (Hl : length m2 = length m) by (by rewrite (wr_length _ _ _ _ Hw2), (wr_length _ _ _ _ Hw1)).
    assert (Hrd : forall i, i < b \/ e < i -> rd m2 i = rd m i).
    { intros i Hi. rewrite (rd_wr_ne _ _ _ _ _ Hw2) by lia. eapply rd_wr_ne; [done|lia]. }
    destruct r as [msg|]; [|exists Rejected, m2; split_and!; [done..|intros; unfold packet_step; by rewrite Ep]].
    destruct (Hr msg eq_refl) as (E1 & E2 & Ht). destruct (msg_parse_numbers _ _ _ _ _ Ep) as [Hv Hfq].
    set (k := take (Z.to_nat n) (drop (Z.to_nat b) m2)).
    exists (Accepted k (msg_type msg) (msg_value msg) (msg_sample_freq msg) (msg_modifiers msg)), m2.
    split_and!; [|done|done|].
    + cbn [outcome_ok]. unfold sink_args. split_and!; try done; [|unfold k; rewrite length_take, length_drop; lia].
      apply key_loop_spec in Ek as (j & -> & _ & Hf). unfold nul_free, k.
      rewrite Z.add_0_l, Nat2Z.id. apply Forall_lookup. intros i c Hi.
      apply lookup_take_Some in Hi as [Hi Hik]. rewrite lookup_drop in Hi.
      assert (Hc : rd m1 (b + Z.of_nat i) = Some c).
      { rewrite <- (rd_wr_ne _ _ _ _ _ Hw2) by lia. unfold rd.
        destruct (Z.ltb_spec (b + Z.of_nat i) 0); [lia|]. rewrite <- Hi. f_equal. lia. }
      rewrite rd_from in Hc by lia. rewrite Forall_forall in Hf. apply (Hf c).
      apply list_elem_of_In, list_elem_of_lookup. exists i. by rewrite lookup_take_lt.
    + intros S HS st. unfold packet_step. rewrite Ep. cbn [mbind option_bind]. rewrite E1, E2.
      by rewrite rd_n_in by lia.
Qed.

Lemma outcome_ok_le s s' o : outcome_ok s o -> s <= s' -> outcome_ok s' o.
Proof. destruct o; [done|]. intros (? & ? & ?) ?. split_and!; [done|lia|tauto..]. Qed.

Lemma packet_loop_outcomes fuel : forall m b e,
  0 <= b -> e < Z.of_nat (length m) -> e - b < 65536 ->
  (0 < b \/ e <= b \/ rd m b <> Some (chr ":") \/ rd m b = Some 10) -> (Z.to_nat (e - b) <= fuel)%nat ->
  exists os m', Forall (outcome_ok (e - b)) os /\ Z.of_nat (length os) = lines_in false (segment m b e) /\
    length m' = length m /\ (forall i, i < b \/ e < i -> rd m' i = rd m i) /\
    forall (S : Type) (HS : MetricSink S) (st : S),
      packet_loop fuel st m b e = (st' ← deliver_all st os; Some (st', m')).
Proof.
  induction fuel as [|fuel IH]; intros m b e Hb He Hlen Hk Hf; cbn [packet_loop];
    destruct (Z.ltb_spec b e) as [Hlt|Hge]; try lia.
  1,3: unfold segment; replace (Z.to_nat (e - b)) with 0%nat by lia; by exists [], m.
  destruct (stat_end_lines m b e ltac:(lia) ltac:(lia)) as [Hse ->].
  set (se := stat_end m b e) in *. cbv zeta.
  destruct (packet_step_outcome m b se) as (o & m1 & Ho & Hl1 & Hrd1 & Estep).
  { unfold msg_bounds. split_and!; try lia. destruct Hk as [?|[?|[?|Hk]]]; try lia; auto.
    right. right. rewrite Hk. by intros [=]. }
  destruct (IH m1 (se + 1) e) as (os & m2 & Hos & Hn & Hl2 & Hrd2 & Eloop); try lia.
  exists (o :: os), m2. split_and!; [| |lia| |].
  - constructor; [apply (outcome_ok_le _ _ _ Ho); lia|]. revert Hos. apply List.Forall_impl.
    intros x Hx. apply (outcome_ok_le _ _ _ Hx). lia.
  - cbn [length]. rewrite Nat2Z.inj_succ, Hn. unfold segment at 1.
    rewrite (from_ext m m1) by (done || lia || (intros; apply Hrd1; lia)). unfold segment. lia.
  - intros i Hi. rewrite Hrd2, Hrd1 by lia. done.
  - intros S HS st. rewrite Estep. cbn [deliver_all]. destruct (deliver st o) as [st'|]; [|done].
    cbn [mbind option_bind]. apply Eloop.
Qed.

Lemma packet_parse_outcomes m b e :
  msg_bounds m b e ->
  exists os m', Forall (outcome_ok (e - b)) os /\ Z.of_nat (length os) = lines_in false (segment m b e) /\
    length m' = length m /\ (forall i, i < b \/ e < i -> rd m' i = rd m i) /\
    forall (S : Type) (HS : MetricSink S) (st : S),
      brubeck_statsd_packet_parse st m b e = (st' ← deliver_all st os; Some (st', m')).
Proof.
  intros (Hb & He & Hlen & Hk). apply packet_loop_outcomes; try lia. destruct Hk as [?|[?|?]]; [lia|lia|tauto].
Qed.

(** C13: parsing a packet terminates within the packet's buffer.  For every
    datagram whose first line does not have an empty key (there the code reads
    the byte before the buffer, see the finding on [statsd.c]), the parse is a
    list of outcomes, one for each line, rejected or accepted with a key that
    holds no NUL and lies in the packet, a type a client may use and numbers
    that are doubles; no byte outside the datagram and the terminator behind it
    is changed; and the parse into any sink is the delivery of those outcomes
    in order, with a result unless the sink itself has none for one of them. *)
Theorem packet_parse_safe (m : list Z) (b e : Z) (Hm : msg_bounds m b e) :
  exists os m', Forall (outcome_ok (e - b)) os /\ Z.of_nat (length os) = lines_in false (segment m b e) /\
    length m' = length m /\ (forall i, i < b \/ e < i -> rd m' i = rd m i) /\
    forall (S : Type) (HS : MetricSink S) (st : S),
      brubeck_statsd_packet_parse st m b e = (st' ← deliver_all st os; Some (st', m')).
Proof. by apply packet_parse_outcomes. Qed.

(** ** Sinks that count *)

Section Counting.
Context {S : Type} `{MetricSink S}.

(** A sink that counts every outcome once, and never fails. *)
Definition counts_outcomes (count : S -> Z) : Prop :=
  (forall st, count (sink_error st) = count st + 1) /\
  (forall st k t v f mods, t <> BRUBECK_MT_INTERNAL_STATS ->
     exists st', sink_metric st k t v f mods = Some st' /\ count st' = count st + 1).

Lemma deliver_all_count count size os :
  counts_outcomes count -> Forall (outcome_ok size) os -> forall st,
  exists st', deliver_all st os = Some st' /\ count st' = count st + Z.of_nat (length os).
Proof.
  intros [Herr Hmet]. induction 1 as [|o os Ho _ IH]; intros st; cbn [deliver_all length].
  - exists st. split; [done|lia].
  - assert (Hone : exists st1, deliver st o = Some st1 /\ count st1 = count st + 1).
    { destruct o as [|k t v f mods]; cbn [deliver]; [by eexists|]. apply Hmet, Ho. }
    destruct Hone as (st1 & -> & Hc). cbn [mbind option_bind]. destruct (IH st1) as (st' & -> & Hc').
    exists st'. split; [done|lia].
Qed.

Lemma packet_step_total count st m b e :
  counts_outcomes count -> msg_bounds m b e ->
  exists st' m', packet_step st m b e = Some (st', m') /\ count st' = count st + 1 /\
    length m' = length m /\ forall i, i < b \/ e < i -> rd m' i = rd m i.
Proof.
  intros Hs Hm. destruct (packet_step_outcome m b e Hm) as (o & m' & Ho & Hl & Hrd & E).
  destruct (deliver_all_count count (e - b) [o] Hs ltac:(by constructor) st) as (st' & Ed & Hc).
  cbn [deliver_all] in Ed. exists st', m'. rewrite E. destruct (deliver st o); [|done].
  injection Ed as ->. done.
Qed.

Lemma packet_loop_total count fuel st m b e :
  counts_outcomes count -> 0 <= b -> e < Z.of_nat (length m) -> e - b < 65536 ->
  (0 < b \/ e <= b \/ rd m b <> Some (chr ":") \/ rd m b = Some 10) -> (Z.to_nat (e - b) <= fuel)%nat ->
  exists st' m', packet_loop fuel st m b e = Some (st', m') /\
    count st' = count st + lines_in false (segment m b e) /\
    length m' = length m /\ forall i, i < b \/ e < i -> rd m' i = rd m i.
Proof.
  intros Hs Hb He Hlen Hk Hf.
  destruct (packet_loop_outcomes fuel m b e Hb He Hlen Hk Hf) as (os & m' & Hos & Hn & Hl & Hrd & E).
  destruct (deliver_all_count count _ os Hs Hos st) as (st' & Ed & Hc).
  exists st', m'. rewrite E, Ed, <- Hn. done.
Qed.

Lemma packet_parse_total count st m b e :
  counts_outcomes count -> msg_bounds m b e ->
  exists st' m', brubeck_statsd_packet_parse st m b e = Some (st', m') /\
    count st' = count st + lines_in false (segment m b e) /\
    length m' = length m /\ forall i, i < b \/ e < i -> rd m' i = rd m i.
Proof.
  intros Hs (Hb & He & Hlen & Hk). apply packet_loop_total; try done; try lia.
  destruct Hk as [?|[?|?]]; [lia|lia|tauto].
Qed.
End Counting.

(** ** A sink that logs what it is told, for the examples *)

Definition log_state : Type :=
  Z * list (list Z * brubeck_metric_t * value_t * value_t * Z).

#[export] Instance log_sink : MetricSink log_state := {|
  sink_error '(e, l) := (e + 1, l);
  sink_metric '(e, l) k t v f mods := Some (e, l ++ [(k, t, v, f, mods)]);
|}.

Definition log_count (st : log_state) : Z := st.1 + Z.of_nat (length st.2).

Lemma log_sink_counts : counts_outcomes log_count.
Proof.
  split.
  - intros [e l]. unfold log_count. simpl. lia.
  - intros [e l] k t v f mods _. eexists. split; [done|]. unfold log_count. simpl.
    rewrite length_app. simpl. lia.
Qed.

Definition demo_line : line :=
  {| l_key := bytes "a.b"; l_num := demo_number; l_type := BRUBECK_MT_TIMER;
     l_rate := Some demo_rate |}.
Definition demo_line' : line :=
  {| l_key := bytes "a.b"; l_num := demo_rate; l_type := BRUBECK_MT_GAUGE; l_rate := None |}.

Lemma demo_lines_ok : Forall line_ok [demo_line; demo_line'; demo_line].
Proof.
  assert (Forall (fun b => b <> 10) (bytes "a.b")) by (repeat constructor; done).
  repeat constructor; try apply key_ok_demo; try apply number_ok_demo; try apply rate_ok_demo; done.
Qed.

Lemma packet_parse_render_witness :
  fst <$> brubeck_statsd_packet_parse (0, [])
            (bytes "a.b:-12|ms|@0.25" ++ [10] ++ bytes "a.b:0.25|g" ++ [10] ++
               bytes "a.b:-12|ms|@0.25" ++ [0]) 0 44 =
    Some (0, [(bytes "a.b", BRUBECK_MT_TIMER, F64 (-12), F64 4, 1);
              (bytes "a.b", BRUBECK_MT_GAUGE, fdiv (F64 1) (F64 4), F64 1, 0);
              (bytes "a.b", BRUBECK_MT_TIMER, F64 (-12), F64 4, 1)]).
Proof.
  exact (packet_parse_render (0, []) demo_line [demo_line'; demo_line] 0 [] demo_lines_ok).
Defined.

(** A packet of three lines, of which two are rejected. *)
Lemma packet_parse_safe_witness :
  let m := bytes "x:1|c" ++ [10; 10] ++ bytes "y" ++ [7] in
  exists os m', Forall (outcome_ok 8) os /\ Z.of_nat (length os) = 3 /\ length m' = 9%nat /\
    (forall i, i < 0 \/ 8 < i -> rd m' i = rd m i) /\
    forall (S : Type) (HS : MetricSink S) (st : S),
      brubeck_statsd_packet_parse st m 0 8 = (st' ← deliver_all st os; Some (st', m')).
Proof.
  apply (packet_parse_safe (bytes "x:1|c" ++ [10; 10] ++ bytes "y" ++ [7]) 0 8).
  unfold msg_bounds. split_and!; [lia..|reflexivity|reflexivity|].
  right. right. vm_compute. congruence.
Defined.

(** ** The receive loops *)

(** The outcome of a receive call: nothing to do ([EAGAIN], [EINTR]), an error,
    or data. *)
Inductive received (A : Type) :=
| RecvAgain
| RecvFailed
| Recv (data : A).
Arguments RecvAgain {A}.
Arguments RecvFailed {A}.
Arguments Recv {A} data.

Section Receive.
Context {S : Type} `{MetricSink S}.

(** A worker: what it reports to, the sampler's [inflow], its buffer. *)
Record recv_worker := { rw_server : S; rw_inflow : Z; rw_buffer : list Z }.

(** One turn of the loop of [statsd_run_recvmsg]. *)
Definition statsd_run_recvmsg (w : recv_worker) (res : received (list Z)) : option recv_worker :=
  match res with
  | RecvAgain => Some w
  | RecvFailed =>
      Some {| rw_server := sink_error (rw_server w); rw_inflow := rw_inflow w;
              rw_buffer := rw_buffer w |}
  | Recv data =>
      m ← wr_n (rw_buffer w) 0 data;
      '(st, m) ← brubeck_statsd_packet_parse (rw_server w) m 0 (Z.of_nat (length data));
      Some {| rw_server := st; rw_inflow := u64 (rw_inflow w + 1); rw_buffer := m |}
  end.

(** An entry of [msgs]: its buffer and [msg_len]. *)
Record mmsghdr := { mm_base : list Z; mm_len : Z }.
Record mmsg_worker := { mw_server : S; mw_inflow : Z; mw_msgs : list mmsghdr }.

(** [recvmmsg] stores the datagrams in the first entries. *)
Fixpoint recvmmsg_fill (msgs : list mmsghdr) (ds : list (list Z)) : option (list mmsghdr) :=
  match msgs, ds with
  | _, [] => Some msgs
  | [], _ :: _ => None
  | h :: msgs, d :: ds =>
      m ← wr_n (mm_base h) 0 d;
      rest ← recvmmsg_fill msgs ds;
      Some ({| mm_base := m; mm_len := Z.of_nat (length d) |} :: rest)
  end.

(** The loop over [SIM_PACKETS] entries. *)
Fixpoint parse_msgs (st : S) (msgs : list mmsghdr) : option (S * list mmsghdr) :=
  match msgs with
  | [] => Some (st, [])
  | h :: msgs =>
      '(st, m) ← brubeck_statsd_packet_parse st (mm_base h) 0 (mm_len h);
      '(st, rest) ← parse_msgs st msgs;
      Some (st, {| mm_base := m; mm_len := mm_len h |} :: rest)
  end.

(** One turn of the loop of [statsd_run_recvmmsg]. *)
Definition statsd_run_recvmmsg (w : mmsg_worker) (res : received (list (list Z)))
    : option mmsg_worker :=
  match res with
  | RecvAgain => Some w
  | RecvFailed =>
      Some {| mw_server := sink_error (mw_server w); mw_inflow := mw_inflow w;
              mw_msgs := mw_msgs w |}
  | Recv ds =>
      msgs ← recvmmsg_fill (mw_msgs w) ds;
      '(st, msgs) ← parse_msgs (mw_server w) msgs;
      Some {| mw_server := st;
              mw_inflow := u64 (mw_inflow w + Z.of_nat (length (mw_msgs w)));
              mw_msgs := msgs |}
  end.

(** A parsed packet: no newline is left in it, and its first line stops the
    key loop before any [':']. *)
Definition spent (m : list Z) (b e : Z) : Prop :=
  (forall i, b <= i < e -> rd m i <> Some 10) /\
  exists j, b <= j <= e /\ (j = e \/ rd m j = Some 0 \/ rd m j = Some (chr " ")) /\
    forall i, b <= i < j -> rd m i <> Some (chr ":").

Lemma memchr_before l : forall n i k,
  (k < match memchr_newline l n i with Some p => Z.to_nat (p - i) | None => n end)%nat ->
  l !! k <> Some 10.
Proof.
  induction l as [|b l IH]; intros [|n] i k; cbn [memchr_newline]; try done; try lia.
  destruct (Z.eqb_spec b 10); [lia|]. intros Hk. destruct k as [|k]; [simpl; congruence|].
  cbn [lookup list_lookup]. apply (IH n (i + 1)).
  pose proof (memchr_lines l n (i + 1) true) as Hm.
  destruct (memchr_newline l n (i + 1)) as [p|]; [destruct Hm|]; lia.
Qed.

Lemma memchr_hit l : forall n i p,
  memchr_newline l n i = Some p -> l !! Z.to_nat (p - i) = Some 10.
Proof.
  induction l as [|b l IH]; intros [|n] i p; cbn [memchr_newline]; try done.
  destruct (Z.eqb_spec b 10) as [->|].
  - intros [= <-]. by rewrite Z.sub_diag.
  - intros Hp. pose proof (memchr_lines l n (i + 1) true) as Hm. rewrite Hp in Hm.
    destruct Hm as [Hm _]. apply IH in Hp.
    by replace (Z.to_nat (p - i)) with (Datatypes.S (Z.to_nat (p - (i + 1)))) by lia.
Qed.

Lemma stat_end_before m b e i :
  0 <= b <= e -> b <= i < stat_end m b e -> rd m i <> Some 10.
Proof.
  intros Hb Hi. replace i with (b + Z.of_nat (Z.to_nat (i - b))) by lia.
  rewrite rd_from by lia. apply (memchr_before _ (Z.to_nat (e - b)) b).
  unfold stat_end in Hi. case_match; lia.
Qed.

Lemma key_loop_reject l : forall n,
  key_loop l n = Some None ->
  exists j c, l !! j = Some c /\ (c = 0 \/ c = chr " ") /\
    forall i, (i < j)%nat -> l !! i <> Some (chr ":") /\ l !! i <> Some 0.
Proof.
  induction l as [|b l IH]; intros n; [done|]. cbn [key_loop]. repeat char_case; try done.
  1,2: intros _; exists 0%nat; eexists; split_and!; [done|auto|lia].
  intros (j & c & Hj & Hc & Hi)%IH. exists (Datatypes.S j), c. split_and!; [done..|].
  intros [|i] Hlt; [simpl; split; congruence|]. apply (Hi i). lia.
Qed.

Lemma key_loop_rejects l : forall j c n,
  l !! j = Some c -> c = 0 \/ c = chr " " ->
  (forall i, (i < j)%nat -> l !! i <> Some (chr ":")) -> key_loop l n = Some None.
Proof.
  induction l as [|b l IH]; intros j c n Hj Hc Hi; [done|]. cbn [key_loop].
  destruct j as [|j].
  - injection Hj as ->. destruct Hc as [->| ->]; done.
  - pose proof (Hi 0%nat ltac:(lia)) as H0. simpl in H0.
    destruct (Z.eqb_spec b (chr ":")); [congruence|]. repeat (case_match; [done|]).
    apply (IH j c); [done..|]. intros i Hlt. apply (Hi (Datatypes.S i)). lia.
Qed.

Lemma packet_step_spent st m b e st' m' :
  msg_bounds m b e -> (forall i, b <= i < e -> rd m i <> Some 10) ->
  packet_step st m b e = Some (st', m') -> spent m' b e /\ rd m' e = Some 0.
Proof.
  intros Hm Hnl. unfold packet_step.
  destruct (msg_parse_run m b e Hm)
    as (m1 & Hw1 & [[Ek ->]|(n & m2 & r & Ek & Hn & Hlt & Hw2 & -> & Hr)]);
    destruct Hm as (Hb & He & _); cbn [mbind option_bind]; pose proof (rd_wr_eq _ _ _ _ Hw1) as H1.
  - intros [= <- <-]. split; [split|done].
    + intros i Hi. rewrite (rd_wr_ne _ _ _ _ _ Hw1) by lia. by apply Hnl.
    + apply key_loop_reject in Ek as (j & c & Hj & Hc & Hi).
      assert (Hje : (j <= Z.to_nat (e - b))%nat).
      { destruct (Nat.le_gt_cases j (Z.to_nat (e - b))) as [|Hgt]; [done|].
        destruct (Hi _ Hgt) as [_ H0]. by rewrite from_lookup in H0 by lia. }
      exists (b + Z.of_nat j). split; [lia|]. rewrite rd_from by lia. split.
      * rewrite Hj. destruct Hc as [->| ->]; auto.
      * intros i Hib. replace i with (b + Z.of_nat (Z.to_nat (i - b))) by lia.
        rewrite rd_from by lia. apply Hi. lia.
  - intros Hres. assert (m' = m2) as ->.
    { destruct r; [|by injection Hres].
      by apply bind_Some in Hres as (? & _ & (? & _ & [= _ <-])%bind_Some). }
    assert (H2 : rd m2 e = Some 0) by (rewrite (rd_wr_ne _ _ _ _ _ Hw2) by lia; done).
    split; [split|done].
    + intros i Hi. destruct (Z.eq_dec i (b + n)) as [->|].
      * rewrite (rd_wr_eq _ _ _ _ Hw2). done.
      * rewrite (rd_wr_ne _ _ _ _ _ Hw2), (rd_wr_ne _ _ _ _ _ Hw1) by lia. by apply Hnl.
    + exists (b + n). split; [lia|]. split; [right; left; by apply (rd_wr_eq _ _ _ _ Hw2)|].
      intros i Hi. rewrite (rd_wr_ne _ _ _ _ _ Hw2) by lia.
      apply key_loop_spec in Ek as (k & -> & _ & Hf).
      replace i with (b + Z.of_nat (Z.to_nat (i - b))) by lia. rewrite rd_from by lia.
      intros Hc. rewrite Forall_forall in Hf. destruct (Hf (chr ":")) as [Hne _]; [|done].
      apply list_elem_of_In, list_elem_of_lookup. exists (Z.to_nat (i - b)).
      by rewrite lookup_take_lt by lia.
Qed.

Lemma packet_loop_spent count fuel : forall st m b e st' m',
  counts_outcomes count -> msg_bounds m b e -> b < e -> (Z.to_nat (e - b) <= fuel)%nat ->
  packet_loop fuel st m b e = Some (st', m') -> spent m' b e.
Proof.
  induction fuel as [|fuel IH]; intros st m b e st' m' Hs Hm Hlt Hf; cbn [packet_loop];
    (destruct (Z.ltb_spec b e); [|lia]); [done|]. cbv zeta. pose proof Hm as (Hbe & He & Hlen & Hk).
  destruct (stat_end_lines m b e ltac:(lia) He) as [Hse _].
  pose proof (stat_end_before m b e) as Hnl. set (se := stat_end m b e) in *.
  assert (Hm1 : msg_bounds m b se).
  { unfold msg_bounds. split_and!; try lia. destruct Hk as [?|[?|?]]; [lia|lia|auto]. }
  destruct (packet_step_total count st m b se Hs Hm1) as (st1 & m1 & E & _ & Hl1 & Hrd1).
  destruct (packet_step_spent st m b se st1 m1 Hm1 ltac:(intros; apply Hnl; lia) E)
    as [[Hs1 (j & Hj & Hj0 & Hji)] Hse0].
  rewrite E. cbn [mbind option_bind]. intros E2.
  destruct (packet_loop_total count fuel st1 m1 (se + 1) e Hs)
    as (st2 & m2 & E3 & _ & _ & Hrd); try lia.
  rewrite E2 in E3. injection E3 as <- <-.
  split.
  - intros i Hi. destruct (Z.lt_trichotomy i se) as [?|[->|Hgt]].
    + rewrite Hrd by lia. apply Hs1. lia.
    + rewrite Hrd, Hse0 by lia. done.
    + assert (Hm2 : msg_bounds m1 (se + 1) e) by (unfold msg_bounds; split_and!; lia).
      destruct (IH st1 m1 (se + 1) e st' m' Hs Hm2 ltac:(lia) ltac:(lia) E2) as [Hs2 _].
      apply Hs2. lia.
  - exists j. split; [lia|]. rewrite (Hrd j) by lia. split.
    + destruct Hj0 as [->|[?|?]]; auto.
    + intros i Hi. rewrite Hrd by lia. by apply Hji.
Qed.

Lemma packet_parse_idle st m e :
  spent m 0 e -> 0 < e < Z.of_nat (length m) ->
  exists m', brubeck_statsd_packet_parse st m 0 e = Some (sink_error st, m') /\
    length m' = length m /\ spent m' 0 e.
Proof.
  intros [Hnl (j & Hj & Hj0 & Hji)] He. unfold brubeck_statsd_packet_parse.
  rewrite Z.sub_0_r. destruct (Z.to_nat e) as [|fuel] eqn:Ef; [lia|]. cbn [packet_loop].
  destruct (Z.ltb_spec 0 e); [|lia].
  assert (stat_end m 0 e = e) as ->.
  { unfold stat_end. destruct (memchr_newline _ _ _) as [p|] eqn:Em; [|done]. exfalso.
    pose proof (memchr_lines (from m 0) (Z.to_nat (e - 0)) 0 false) as Hp.
    rewrite Em in Hp. destruct Hp as (Hp & _). apply (Hnl p); [lia|].
    clear - Em Hp. pose proof (memchr_hit (from m 0) (Z.to_nat (e - 0)) 0 p Em) as Hit.
    rewrite <- Hit. by rewrite from_lookup by lia. }
  pose proof (wr_in m e 0 ltac:(lia)) as Hw. set (m1 := <[Z.to_nat e := 0]> m) in *.
  assert (Hsp : spent m1 0 e).
  { split.
    - intros i Hi. rewrite (rd_wr_ne _ _ _ _ _ Hw) by lia. by apply Hnl.
    - exists j. split; [lia|]. split.
      + destruct (Z.eq_dec j e) as [->|]; [auto|]. by rewrite (rd_wr_ne _ _ _ _ _ Hw) by lia.
      + intros i Hi. rewrite (rd_wr_ne _ _ _ _ _ Hw) by lia. by apply Hji. }
  exists m1. split_and!; [|by apply (wr_length _ _ _ _ Hw)|done].
  unfold packet_step, brubeck_statsd_msg_parse. rewrite Hw. cbn [mbind option_bind].
  assert (Hj1 : exists c, rd m1 j = Some c /\ (c = 0 \/ c = chr " ")).
  { destruct (Z.eq_dec j e) as [->|]; [rewrite (rd_wr_eq _ _ _ _ Hw); eauto|].
    rewrite (rd_wr_ne _ _ _ _ _ Hw) by lia. destruct Hj0 as [?|[-> | ->]]; [done|eauto..]. }
  destruct Hj1 as (c & Hc & Hc0).
  rewrite (key_loop_rejects (from m1 0) (Z.to_nat (j - 0)) c 0); [| |done|].
  - cbn [mbind option_bind]. destruct fuel; cbn [packet_loop];
      (destruct (Z.ltb_spec (e + 1) e); [lia|done]).
  - by rewrite from_lookup by lia.
  - intros i Hi. rewrite <- (rd_from m1 0 i) by lia. rewrite (rd_wr_ne _ _ _ _ _ Hw) by lia.
    apply Hji. lia.
Qed.

(** An entry between two calls: never used, or holding a parsed packet. *)
Definition entry_idle (h : mmsghdr) : Prop :=
  length (mm_base h) = Z.to_nat MAX_PACKET_SIZE /\
  (mm_len h = 0 \/ 0 < mm_len h < MAX_PACKET_SIZE /\ spent (mm_base h) 0 (mm_len h)).

(** The entries that hold an old packet. *)
Definition stale (msgs : list mmsghdr) : nat := length (filter (fun h => mm_len h <> 0) msgs).

(** A datagram as [recvmmsg] delivers it, its first line not an empty key. *)
Definition datagram_ok (d : list Z) : Prop :=
  Z.of_nat (length d) < MAX_PACKET_SIZE /\ head d <> Some (chr ":").

Lemma parse_idle msgs : forall st,
  Forall entry_idle msgs ->
  exists msgs', parse_msgs st msgs = Some (Nat.iter (stale msgs) sink_error st, msgs') /\
    Forall entry_idle msgs' /\ length msgs' = length msgs.
Proof.
  induction msgs as [|h msgs IH]; intros st Hi; [by exists []|].
  apply Forall_cons_iff in Hi as [[Hl Hh] Hi]. cbn [parse_msgs]. unfold stale. rewrite filter_cons.
  destruct Hh as [E0|[Hlen Hsp]].
  - rewrite decide_False by lia. rewrite E0.
    change (brubeck_statsd_packet_parse st (mm_base h) 0 0) with (Some (st, mm_base h)).
    cbn [mbind option_bind].
    destruct (IH st Hi) as (msgs' & -> & Hi' & Hl'). eexists. split; [done|].
    split; [constructor; [|done]; split; [done|by left]|simpl; lia].
  - rewrite decide_True by lia.
    destruct (packet_parse_idle st (mm_base h) (mm_len h) Hsp) as (m' & -> & Hl1 & Hsp').
    { rewrite Hl. unfold MAX_PACKET_SIZE in *. lia. }
    cbn [mbind option_bind]. destruct (IH (sink_error st) Hi) as (msgs' & -> & Hi' & Hl').
    cbn [mbind option_bind length]. eexists. rewrite <- Nat.iter_succ_r. split; [done|].
    split; [|simpl; lia]. constructor; [|done]. split; [simpl; congruence|right; done].
Qed.

Lemma parse_filled count : counts_outcomes count -> forall ds msgs st,
  Forall entry_idle msgs -> Forall datagram_ok ds -> (length ds <= length msgs)%nat ->
  exists filled st' msgs',
    recvmmsg_fill (take (length ds) msgs) ds = Some filled /\
    recvmmsg_fill msgs ds = Some (filled ++ drop (length ds) msgs) /\
    parse_msgs st filled = Some (st', msgs') /\ Forall entry_idle msgs' /\
    length msgs' = length ds.
Proof.
  intros Hs. induction ds as [|d ds IH]; intros msgs st Hi Hd Hlen.
  - exists [], st, []. cbn. rewrite drop_0. destruct msgs; done.
  - destruct msgs as [|h msgs]; [simpl in Hlen; lia|].
    apply Forall_cons_iff in Hi as [[Hl _] Hi]. apply Forall_cons_iff in Hd as [[Hd Hd0] Hds].
    cbn [length take drop recvmmsg_fill] in *.
    destruct (wr_n (mm_base h) 0 d) as [m|] eqn:Ew;
      [|rewrite wr_n_in in Ew by (unfold MAX_PACKET_SIZE in *; lia); done].
    pose proof (wr_n_length _ _ _ _ Ew) as Hlm. cbn [mbind option_bind].
    assert (Hm : msg_bounds m 0 (Z.of_nat (length d))).
    { unfold msg_bounds. unfold MAX_PACKET_SIZE in *. split_and!; try lia.
      right. destruct d as [|c d]; [by left|right].
      apply wr_n_Some in Ew as (_ & _ & ->). simpl in Hd0 |- *. done. }
    destruct (packet_parse_total count st m 0 (Z.of_nat (length d)) Hs Hm)
      as (st1 & m1 & E1 & _ & Hl1 & _).
    destruct (IH msgs st1 Hi Hds ltac:(lia)) as (fl & st' & ms & -> & -> & Ep & Hi' & Hl').
    cbn [mbind option_bind]. do 3 eexists. split_and!; [done|done| | |].
    + cbn [parse_msgs mm_base mm_len]. rewrite E1. cbn [mbind option_bind]. rewrite Ep. done.
    + constructor; [|done]. split; [simpl; congruence|]. cbn [mm_base mm_len].
      destruct (decide (Z.of_nat (length d) = 0)) as [|]; [by left|right].
      split; [unfold MAX_PACKET_SIZE in *; lia|].
      unfold brubeck_statsd_packet_parse in E1.
      by eapply (packet_loop_spent count); [done|exact Hm|lia| |exact E1].
    + simpl. lia.
Qed.

Lemma parse_msgs_app l1 : forall l2 st,
  parse_msgs st (l1 ++ l2) =
    ('(st1, r1) ← parse_msgs st l1; '(st2, r2) ← parse_msgs st1 l2; Some (st2, r1 ++ r2)).
Proof.
  induction l1 as [|h l1 IH]; intros l2 st; cbn [app parse_msgs mbind option_bind].
  - destruct (parse_msgs st l2) as [[? ?]|]; done.
  - destruct (brubeck_statsd_packet_parse _ _ _ _) as [[st1 m1]|]; [|done].
    cbn [mbind option_bind]. rewrite IH. destruct (parse_msgs st1 l1) as [[st2 r2]|]; [|done].
    cbn [mbind option_bind]. destruct (parse_msgs st2 l2) as [[? ?]|]; done.
Qed.

(** A turn of the [recvmmsg] loop counts packets that did not arrive: it
    adds all of [SIM_PACKETS] to the inflow, and after parsing the datagrams
    received it parses every older packet left in the remaining entries
    again.  Each of them gives exactly one error and no metric, because its
    separators have been overwritten; the entries are ready for the next
    turn. *)
Theorem recvmmsg_turn (count : S -> Z) (w : mmsg_worker) (ds : list (list Z))
  (Hsink : counts_outcomes count) (Hidle : Forall entry_idle (mw_msgs w))
  (Hds : Forall datagram_ok ds) (Hlen : (length ds <= length (mw_msgs w))%nat) :
  exists filled st' msgs' w',
    recvmmsg_fill (take (length ds) (mw_msgs w)) ds = Some filled /\
    parse_msgs (mw_server w) filled = Some (st', msgs') /\
    statsd_run_recvmmsg w (Recv ds) = Some w' /\
    mw_server w' = Nat.iter (stale (drop (length ds) (mw_msgs w))) sink_error st' /\
    mw_inflow w' = u64 (mw_inflow w + Z.of_nat (length (mw_msgs w))) /\
    Forall entry_idle (mw_msgs w') /\ length (mw_msgs w') = length (mw_msgs w).
Proof.
  destruct (parse_filled count Hsink ds (mw_msgs w) (mw_server w) Hidle Hds Hlen)
    as (fl & st' & ms & Ef & Ef' & Ep & Hi & Hl).
  destruct (parse_idle (drop (length ds) (mw_msgs w)) st') as (ms2 & Ep2 & Hi2 & Hl2).
  { by apply Forall_drop. }
  exists fl, st', ms. eexists. split_and!; [done|done| |..].
  - cbn [statsd_run_recvmmsg]. rewrite Ef'. cbn [mbind option_bind].
    rewrite parse_msgs_app, Ep. cbn [mbind option_bind]. rewrite Ep2. done.
  - done.
  - done.
  - cbn [mw_msgs]. by apply Forall_app.
  - cbn [mw_msgs]. rewrite length_app, Hl, Hl2, length_drop. lia.
Qed.
End Receive.

Definition demo_worker : mmsg_worker :=
  {| mw_server := ((0, []) : log_state); mw_inflow := 0;
     mw_msgs := replicate 3 {| mm_base := replicate (Z.to_nat 8192) 0; mm_len := 0 |} |}.

Lemma demo_worker_idle : Forall entry_idle (mw_msgs demo_worker).
Proof. repeat constructor. Qed.

Lemma recvmmsg_turn_witness :
  exists filled st' msgs' w',
    recvmmsg_fill (take 2 (mw_msgs demo_worker)) [bytes "a:1|c"; bytes "b:2|c"] = Some filled /\
    parse_msgs (mw_server demo_worker) filled = Some (st', msgs') /\
    statsd_run_recvmmsg demo_worker (Recv [bytes "a:1|c"; bytes "b:2|c"]) = Some w' /\
    mw_server w' = st' /\ mw_inflow w' = 3 /\
    Forall entry_idle (mw_msgs w') /\ length (mw_msgs w') = 3%nat.
Proof.
  apply (recvmmsg_turn log_count demo_worker [bytes "a:1|c"; bytes "b:2|c"] log_sink_counts
           demo_worker_idle).
  - repeat constructor; done.
  - simpl. lia.
Defined.

(** Two datagrams, then one: the second entry is parsed again. *)
Example recvmmsg_two_turns :
  (w ← statsd_run_recvmmsg demo_worker (Recv [bytes "a:1|c"; bytes "b:2|c"]);
   w ← statsd_run_recvmmsg w (Recv [bytes "a:3|c"]);
   Some (mw_server w, mw_inflow w)) =
  Some (1, [(bytes "a", BRUBECK_MT_METER, F64 1, F64 1, 0);
            (bytes "b", BRUBECK_MT_METER, F64 2, F64 1, 0);
            (bytes "a", BRUBECK_MT_METER, F64 3, F64 1, 0)], 6).
Proof. vm_compute. reflexivity. Qed.

(** A sample rate with more than 308 fraction digits is infinity over infinity:
    neither comparison rejects it, and the message's frequency is not a
    number. *)
Definition long_rate : list Z := bytes "k:1|c|@0." ++ replicate 320 (chr "1").

Example msg_parse_nan_rate :
  snd <$> brubeck_statsd_msg_parse (long_rate ++ [0]) 0 (Z.of_nat (length long_rate)) =
    Some (Some {| msg_key := 0; msg_key_len := 1; msg_type := BRUBECK_MT_METER;
                  msg_value := F64 1; msg_sample_freq := S754_nan; msg_modifiers := 0 |}).
Proof. vm_compute. reflexivity. Qed.

(** The numbers of an accepted message are doubles, and its sample
    frequency is never below one (a rate outside (0, 1] is rejected): a client
    cannot shrink a reading.  A frequency may be infinite, or not a number. *)
Theorem msg_parse_freq (m m' : list Z) (b e : Z) (msg : brubeck_statsd_msg)
  (Hparse : brubeck_statsd_msg_parse m b e = Some (m', Some msg)) :
  is_double (msg_value msg) /\ freq_ok (msg_sample_freq msg).
Proof. exact (msg_parse_numbers m m' b e msg Hparse). Qed.

Lemma msg_parse_freq_witness :
  exists m' msg, brubeck_statsd_msg_parse (bytes "rq:12|c|@0.1" ++ [0]) 0 12 = Some (m', Some msg) /\
    is_double (msg_value msg) /\ freq_ok (msg_sample_freq msg).
Proof.
  destruct (brubeck_statsd_msg_parse (bytes "rq:12|c|@0.1" ++ [0]) 0 12) as [[m' [msg|]]|] eqn:E;
    [|vm_compute in E; congruence|vm_compute in E; congruence].
  exists m', msg. split; [reflexivity|]. exact (msg_parse_freq _ m' 0 12 msg E).
Defined.

End Statsd.
