(* ===== verification/Bloom.v ===== *)
(** * The replay filters ([src/bloom.c], [src/bloom.h])

    A [multibloom] is an array of Bloom filters of the same size.  A filter is
    its bytes; the abstract filter is the set of its bits. *)

From S2P Require Import Prelude Value.

Module Bloom.

Record multibloom := {
  bits : Z;
  bytes_ : Z;
  hashes : Z;
  filters : list (list Z);
}.

(** One hash: the index of the bit, as the code computes it on [uint32_t]. *)
Definition bit_index (bits a b i : Z) : option Z :=
  if u32 bits =? 0 then None else Some (u32 (a + u32 (i * b)) mod u32 bits).

(** The loop from hash [i], [n] hashes to go. *)
Fixpoint check_loop (n : nat) (bits a b i : Z) (filter : list Z) (hits : Z)
    : option (list Z * Z) :=
  match n with
  | O => Some (filter, hits)
  | S n =>
      x ← bit_index bits a b i;
      let byte := Z.shiftr x 3 in
      c ← rd filter byte;
      let mask := Z.shiftl 1 (x mod 8) in
      if negb (Z.land c mask =? 0) then check_loop n bits a b (i + 1) filter (hits + 1)
      else
        filter ← wr filter byte (u8 (Z.lor c mask));
        check_loop n bits a b (i + 1) filter hits
  end.

Definition multibloom_check (bloom : multibloom) (f a b : Z) : option (multibloom * Z) :=
  filter ← rd (filters bloom) f;
  '(filter, hits) ← check_loop (Z.to_nat (u32 (hashes bloom))) (bits bloom) a b 0 filter 0;
  fs ← wr (filters bloom) f filter;
  Some ({| bits := bits bloom; bytes_ := bytes_ bloom; hashes := hashes bloom; filters := fs |},
        if hits =? hashes bloom then 1 else 0).

Definition multibloom_reset (bloom : multibloom) (f : Z) : option multibloom :=
  filter ← rd (filters bloom) f;
  filter ← wr_n filter 0 (replicate (Z.to_nat (bytes_ bloom)) 0);
  fs ← wr (filters bloom) f filter;
  Some {| bits := bits bloom; bytes_ := bytes_ bloom; hashes := hashes bloom; filters := fs |}.

Section New.
(** [log] of [math.h]. *)
Context (log : value_t -> value_t).

(** The bits, the bytes and the hashes of a filter, as [multibloom_new] computes
    them; [None] is a conversion out of range.  (The build defines [NDEBUG], and
    nothing checks [entries] and [error].) *)
Definition multibloom_sizes (entries : Z) (error : value_t) : option (Z * Z * Z) :=
  let bpe := SFopp (fdiv (log error) (decimal false 480453013918201 (-15))) in
  nbits ← to_signed 32 (fmul (F64 entries) bpe);
  nhashes ← (z ← fceil (fmul (decimal false 693147180559945 (-15)) bpe); signed_range 32 z);
  Some (nbits, Z.quot nbits 8 + (if Z.rem nbits 8 =? 0 then 0 else 1), nhashes).
End New.

(** ** The set of bits of a filter *)

Definition bit_set (filter : list Z) (x : Z) : Prop :=
  exists c, rd filter (Z.shiftr x 3) = Some c /\ Z.testbit c (x mod 8) = true.

Record filter_wf (bits : Z) (filter : list Z) : Prop := {
  fw_bytes : Forall is_byte filter;
  fw_size : bits <= 8 * Z.of_nat (length filter);
}.

Record wf (bl : multibloom) : Prop := {
  wf_bits : 0 < bits bl < 2 ^ 31;
  wf_hashes : 0 <= hashes bl < 2 ^ 31;
  wf_filters : Forall (filter_wf (bits bl)) (filters bl);
  wf_bytes : Forall (fun f => Z.of_nat (length f) = bytes_ bl) (filters bl);
}.

(** The bits of a token. *)
Definition position (bits a b i : Z) : Z := u32 (a + u32 (i * b)) mod bits.

Definition token_bit (bl : multibloom) (a b x : Z) : Prop :=
  exists i, 0 <= i < hashes bl /\ x = position (bits bl) a b i.

Lemma land_bit c k : 0 <= k -> negb (Z.land c (Z.shiftl 1 k) =? 0) = Z.testbit c k.
Proof.
  intros Hk. rewrite Z.shiftl_1_l.
  destruct (Z.testbit c k) eqn:E.
  - apply negb_true_iff, Z.eqb_neq. intros E0%(f_equal (fun z => Z.testbit z k)).
    rewrite Z.land_spec, Z.pow2_bits_true, E, Z.bits_0 in E0 by done. done.
  - apply negb_false_iff, Z.eqb_eq, Z.bits_inj'. intros n Hn. rewrite Z.land_spec, Z.bits_0.
    destruct (Z.eq_dec n k) as [->|]; [by rewrite E|].
    rewrite Z.pow2_bits_false by lia. apply andb_false_r.
Qed.

Lemma lor_bit_byte c k :
  is_byte c -> 0 <= k < 8 ->
  u8 (Z.lor c (Z.shiftl 1 k)) = Z.lor c (Z.shiftl 1 k) /\
  is_byte (Z.lor c (Z.shiftl 1 k)).
Proof.
  intros Hc Hk. assert (Hf : is_byte (Z.lor c (Z.shiftl 1 k))).
  { unfold is_byte, fits in *. rewrite Z.shiftl_1_l. pose proof (Z.pow_pos_nonneg 2 k).
    pose proof (Z.pow_lt_mono_r 2 k 8). split; [apply Z.lor_nonneg; lia|].
    destruct (Z.eq_dec c 0) as [->|]; [rewrite Z.lor_0_l; lia|].
    apply Z.log2_lt_pow2.
    - assert (0 <= Z.lor c (2 ^ k)) by (apply Z.lor_nonneg; lia).
      destruct (Z.eq_dec (Z.lor c (2 ^ k)) 0) as [E0|]; [|lia]. apply Z.lor_eq_0_l in E0. lia.
    - rewrite Z.log2_lor, Z.log2_pow2 by lia.
      apply Z.max_lub_lt; [apply Z.log2_lt_pow2; lia|lia]. }
  split; [by apply wrap_small|done].
Qed.

Lemma index_split x : x = 8 * Z.shiftr x 3 + x mod 8 /\ 0 <= x mod 8 < 8.
Proof.
  rewrite Z.shiftr_div_pow2 by lia. change (2 ^ 3) with 8.
  pose proof (Z.div_mod x 8). pose proof (Z.mod_pos_bound x 8). lia.
Qed.

Lemma index_in bits filter x :
  filter_wf bits filter -> 0 <= x < bits ->
  exists c, rd filter (Z.shiftr x 3) = Some c /\ is_byte c.
Proof.
  intros [Hb Hs] Hx. destruct (index_split x) as [E ?].
  destruct (rd_is_Some filter (Z.shiftr x 3)) as [c Hc]; [lia|]. exists c. split; [done|].
  unfold rd in Hc. case_match; [done|]. by eapply Forall_lookup_1.
Qed.

Lemma set_bit bits filter x c filter' :
  filter_wf bits filter -> rd filter (Z.shiftr x 3) = Some c -> is_byte c ->
  wr filter (Z.shiftr x 3) (u8 (Z.lor c (Z.shiftl 1 (x mod 8)))) = Some filter' ->
  filter_wf bits filter' /\ length filter' = length filter /\
  forall y, bit_set filter' y <-> bit_set filter y \/ y = x.
Proof.
  intros [Hb Hs] Hc Hby Hw. destruct (index_split x) as [Ex Hx].
  destruct (lor_bit_byte c (x mod 8) Hby Hx) as [Eu Hby']. rewrite Eu in Hw.
  split_and!; [|by eapply wr_length|].
  - apply wr_Some in Hw as [_ ->]. split; [by apply Forall_insert|by rewrite length_insert].
  - intros y. destruct (index_split y) as [Ey Hy]. unfold bit_set.
    destruct (Z.eq_dec (Z.shiftr x 3) (Z.shiftr y 3)) as [Exy|Nxy].
    + rewrite <- Exy, (rd_wr_eq _ _ _ _ Hw), Hc. split.
      * intros (? & [= <-] & Ht). rewrite Z.lor_spec, Z.shiftl_1_l in Ht.
        destruct (Z.eq_dec (y mod 8) (x mod 8)); [right; lia|].
        rewrite Z.pow2_bits_false, orb_false_r in Ht by lia. left. eauto.
      * intros [(? & [= <-] & Ht)| ->]; eexists; (split; [done|]);
          rewrite Z.lor_spec, Z.shiftl_1_l; [by rewrite Ht|].
        rewrite Z.pow2_bits_true, orb_true_r by lia. done.
    + rewrite (rd_wr_ne _ _ _ _ _ Hw) by done. split; [auto|]. intros [?| ->]; done.
Qed.

Lemma bit_index_in bits a b i :
  0 < bits < 2 ^ 31 ->
  bit_index bits a b i = Some (position bits a b i) /\ 0 <= position bits a b i < bits.
Proof.
  intros Hb. unfold bit_index, position. rewrite (wrap_small 32 bits) by (unfold fits; lia).
  destruct (Z.eqb_spec bits 0); [lia|]. split; [done|]. apply Z.mod_pos_bound. lia.
Qed.

(** The loop turns on the bits of its hashes, and counts them all as hits
    exactly when they were all on before. *)
Lemma check_loop_spec bits a b n : 0 < bits < 2 ^ 31 -> forall i filter hits,
  filter_wf bits filter ->
  exists filter' hits',
    check_loop n bits a b i filter hits = Some (filter', hits') /\
    filter_wf bits filter' /\ length filter' = length filter /\
    (forall x, bit_set filter' x <->
       bit_set filter x \/ exists j, i <= j < i + Z.of_nat n /\ x = position bits a b j) /\
    hits <= hits' <= hits + Z.of_nat n /\
    (hits' = hits + Z.of_nat n <->
       forall j, i <= j < i + Z.of_nat n -> bit_set filter (position bits a b j)).
Proof.
  intros Hbits. induction n as [|n IH]; intros i filter hits Hwf; cbn [check_loop].
  - do 2 eexists. split_and!; try done; try lia.
    + intros x. split; [auto|]. intros [?|(j & ? & _)]; [done|lia].
    + split; [lia|lia].
  - destruct (bit_index_in bits a b i Hbits) as [-> Hx]. cbn [mbind option_bind].
    set (x := position bits a b i) in *.
    destruct (index_in bits filter x Hwf Hx) as (c & Hc & Hby). rewrite Hc. cbn [mbind option_bind].
    destruct (index_split x) as [_ Hk]. rewrite land_bit by lia.
    destruct (Z.testbit c (x mod 8)) eqn:Et.
    + assert (Hxs : bit_set filter x) by (exists c; done).
      destruct (IH (i + 1) filter (hits + 1) Hwf) as (f' & h' & -> & Hwf' & Hl & Hbs & Hh & Hiff).
      do 2 eexists. split_and!; try done; try lia.
      * intros y. rewrite Hbs. split; intros [?|(j & Hj & ->)]; auto.
        -- right. exists j. split; [lia|done].
        -- destruct (Z.eq_dec j i) as [->|]; [by left|]. right. exists j. split; [lia|done].
      * split.
        -- intros E j Hj. destruct (Z.eq_dec j i) as [->|]; [done|]. apply Hiff; lia.
        -- intros Hall. enough (h' = hits + 1 + Z.of_nat n) by lia. apply Hiff.
           intros j Hj. apply Hall. lia.
    + pose proof (rd_Some _ _ _ Hc) as Hlt.
      pose proof (wr_in filter (Z.shiftr x 3) (u8 (Z.lor c (Z.shiftl 1 (x mod 8)))) Hlt) as Hw.
      rewrite Hw. cbn [mbind option_bind].
      destruct (set_bit bits filter x c _ Hwf Hc Hby Hw) as (Hwf1 & Hl1 & Hbs1).
      set (f1 := <[_ := _]> filter) in *. clearbody f1.
      destruct (IH (i + 1) f1 hits Hwf1) as (f' & h' & -> & Hwf' & Hl & Hbs & Hh & _).
      do 2 eexists. split_and!; try done; try lia.
      * intros y. rewrite Hbs, Hbs1. split.
        -- intros [[?| ->]|(j & Hj & ->)]; [auto|right|right]; eexists; (split; [|reflexivity]); lia.
        -- intros [?|(j & Hj & ->)]; [auto|]. destruct (Z.eq_dec j i) as [->|]; [auto|].
           right. exists j. split; [lia|done].
      * split; [lia|]. intros Hall. exfalso. destruct (Hall i) as (c' & Hc' & Ht'); [lia|].
        fold x in Hc', Ht'. congruence.
Qed.

(** ** The operations *)

Definition filter_at (bl : multibloom) (f : Z) : list Z := default [] (rd (filters bl) f).

Lemma multibloom_check_run bl f a b :
  wf bl -> 0 <= f < Z.of_nat (length (filters bl)) ->
  exists bl' r, multibloom_check bl f a b = Some (bl', r) /\ wf bl' /\
    bits bl' = bits bl /\ hashes bl' = hashes bl /\
    length (filters bl') = length (filters bl) /\
    (forall x, bit_set (filter_at bl' f) x <-> bit_set (filter_at bl f) x \/ token_bit bl a b x) /\
    (forall g, g <> f -> filter_at bl' g = filter_at bl g) /\
    (r = 1 /\ (forall x, token_bit bl a b x -> bit_set (filter_at bl f) x) \/
     r = 0 /\ ~ (forall x, token_bit bl a b x -> bit_set (filter_at bl f) x)).
Proof.
  intros [Hb Hh Hf Hby] Hi. destruct (rd_is_Some (filters bl) f Hi) as [fl Hfl].
  unfold multibloom_check, filter_at. rewrite Hfl. cbn [mbind option_bind].
  assert (Hfl' : filters bl !! Z.to_nat f = Some fl) by (unfold rd in Hfl; by case_match).
  assert (Hwf : filter_wf (bits bl) fl) by (eapply (Forall_lookup_1 _ _ _ _ Hf); exact Hfl').
  rewrite (wrap_small 32 (hashes bl)) by (unfold fits; lia).
  destruct (check_loop_spec (bits bl) a b (Z.to_nat (hashes bl)) Hb 0 fl 0 Hwf)
    as (fl' & h' & -> & Hwf' & Hl & Hbs & _ & Hiff).
  cbn [mbind option_bind]. rewrite Z.add_0_l, Z2Nat.id in Hiff, Hbs by lia.
  pose proof (wr_in (filters bl) f fl' Hi) as Hw. rewrite Hw. cbn [mbind option_bind].
  do 2 eexists. split; [done|]. split.
  { split; cbn [bits hashes filters bytes_]; try done; apply Forall_insert; try done.
    rewrite Hl. exact (Forall_lookup_1 _ _ _ _ Hby Hfl'). }
  split_and!; try done; cbn [filters].
  - by rewrite length_insert.
  - intros x. rewrite (rd_wr_eq _ _ _ _ Hw). apply Hbs.
  - intros g Hg. by rewrite (rd_wr_ne _ _ _ _ _ Hw) by done.
  - cbn [default]. destruct (Z.eqb_spec h' (hashes bl)) as [E|E]; [left|right]; (split; [done|]).
    + intros x (j & Hj & ->). by apply Hiff.
    + intros Hall. apply E, Hiff. intros j Hj. apply Hall. by exists j.
Qed.

Lemma bit_set_zero n x : ~ bit_set (replicate n 0) x.
Proof.
  intros (c & Hc & Ht). unfold rd in Hc. case_match; [done|].
  apply lookup_replicate in Hc as [-> _]. by rewrite Z.bits_0 in Ht.
Qed.

Lemma multibloom_reset_run bl f :
  wf bl -> 0 <= f < Z.of_nat (length (filters bl)) ->
  exists bl', multibloom_reset bl f = Some bl' /\ wf bl' /\
    bits bl' = bits bl /\ hashes bl' = hashes bl /\
    length (filters bl') = length (filters bl) /\
    (forall x, ~ bit_set (filter_at bl' f) x) /\
    (forall g, g <> f -> filter_at bl' g = filter_at bl g).
Proof.
  intros [Hb Hh Hf Hby] Hi. destruct (rd_is_Some (filters bl) f Hi) as [fl Hfl].
  unfold multibloom_reset, filter_at. rewrite Hfl. cbn [mbind option_bind].
  assert (Hfl' : filters bl !! Z.to_nat f = Some fl) by (unfold rd in Hfl; by case_match).
  pose proof (Forall_lookup_1 _ _ _ _ Hby Hfl') as Hlen. cbn beta in Hlen.
  destruct (Forall_lookup_1 _ _ _ _ Hf Hfl') as [_ Hsz].
  set (z := replicate (Z.to_nat (bytes_ bl)) 0).
  assert (Hz : length z = length fl) by (unfold z; rewrite length_replicate; lia).
  rewrite wr_n_in by lia. change (Z.to_nat 0) with 0%nat. cbn [mbind option_bind].
  rewrite take_0, app_nil_l, Nat.add_0_l, Hz, drop_all, app_nil_r.
  pose proof (wr_in (filters bl) f z Hi) as Hw. rewrite Hw. cbn [mbind option_bind].
  eexists. split; [done|]. split.
  { split; cbn [bits hashes filters bytes_]; try done; apply Forall_insert; try done.
    - split; [|lia]. by apply Forall_replicate.
    - lia. }
  split_and!; try done; cbn [filters].
  - by rewrite length_insert.
  - intros x. rewrite (rd_wr_eq _ _ _ _ Hw). apply bit_set_zero.
  - intros g Hg. by rewrite (rd_wr_ne _ _ _ _ _ Hw) by done.
Qed.

(** Sequences of operations on the filters. *)
Inductive op :=
| OpCheck (f a b : Z)
| OpReset (f : Z).

Definition run_op (bl : multibloom) (o : op) : option multibloom :=
  match o with
  | OpCheck f a b => fst <$> multibloom_check bl f a b
  | OpReset f => multibloom_reset bl f
  end.

Fixpoint run_ops (bl : multibloom) (os : list op) : option multibloom :=
  match os with
  | [] => Some bl
  | o :: os => bl ← run_op bl o; run_ops bl os
  end.

Definition op_filter (o : op) : Z := match o with OpCheck f _ _ => f | OpReset f => f end.
Definition keeps (f : Z) (o : op) : Prop := o <> OpReset f.

Definition same_shape (bl bl' : multibloom) : Prop :=
  bits bl' = bits bl /\ hashes bl' = hashes bl /\ length (filters bl') = length (filters bl).

Lemma run_op_keeps bl o f :
  wf bl -> 0 <= op_filter o < Z.of_nat (length (filters bl)) -> keeps f o ->
  exists bl', run_op bl o = Some bl' /\ wf bl' /\ same_shape bl bl' /\
    forall x, bit_set (filter_at bl f) x -> bit_set (filter_at bl' f) x.
Proof.
  intros Hwf Hi Hk. destruct o as [g a b|g]; cbn [run_op op_filter] in *.
  - destruct (multibloom_check_run bl g a b Hwf Hi)
      as (bl' & r & -> & Hwf' & ? & ? & ? & Hset & Hoth & _).
    exists bl'. split_and!; try done. intros x Hx. destruct (Z.eq_dec f g) as [->|].
    + apply Hset. by left.
    + by rewrite Hoth.
  - destruct (multibloom_reset_run bl g Hwf Hi) as (bl' & -> & Hwf' & ? & ? & ? & _ & Hoth).
    exists bl'. split_and!; try done. intros x Hx. rewrite Hoth; [done|].
    intros ->. by apply Hk.
Qed.

Lemma run_ops_keeps f os : forall bl,
  wf bl -> Forall (fun o => 0 <= op_filter o < Z.of_nat (length (filters bl)) /\ keeps f o) os ->
  exists bl', run_ops bl os = Some bl' /\ wf bl' /\ same_shape bl bl' /\
    forall x, bit_set (filter_at bl f) x -> bit_set (filter_at bl' f) x.
Proof.
  induction os as [|o os IH]; intros bl Hwf Hos; cbn [run_ops].
  - exists bl. split_and!; done.
  - apply Forall_cons_iff in Hos as [[Hi Hk] Hos].
    destruct (run_op_keeps bl o f Hwf Hi Hk) as (bl1 & -> & Hwf1 & (S1 & S2 & S3) & Hb1).
    cbn [mbind option_bind]. rewrite <- S3 in Hos.
    destruct (IH bl1 Hwf1 Hos) as (bl2 & -> & Hwf2 & (T1 & T2 & T3) & Hb2).
    exists bl2. split_and!; try done; [|auto]. split_and!; congruence.
Qed.

(** C22: a check of a token against a filter implements the Bloom filter: it
    adds exactly the token's bits to the set of that filter's bits, leaves the
    other filters alone, and answers 1 exactly when all the token's bits were
    in the set before (although the loop tests each bit after setting the ones
    before it, which may be the same). *)
Theorem multibloom_check_refines (bl : multibloom) (f a b : Z)
  (Hwf : wf bl) (Hf : 0 <= f < Z.of_nat (length (filters bl))) :
  exists bl' r, multibloom_check bl f a b = Some (bl', r) /\ wf bl' /\ same_shape bl bl' /\
    (forall x, bit_set (filter_at bl' f) x <-> bit_set (filter_at bl f) x \/ token_bit bl a b x) /\
    (forall g, g <> f -> filter_at bl' g = filter_at bl g) /\
    (r = 0 \/ r = 1) /\
    (r = 1 <-> forall x, token_bit bl a b x -> bit_set (filter_at bl f) x).
Proof.
  destruct (multibloom_check_run bl f a b Hwf Hf)
    as (bl' & r & E & Hwf' & S1 & S2 & S3 & Hset & Hoth & Hr).
  exists bl', r. split_and!; try done; destruct Hr as [[-> ?]|[-> ?]]; auto; done.
Qed.

(** No token is forgotten: once a token has been checked against a filter,
    and whatever is checked against the filters afterwards, as long as that
    filter is not reset a further check of the token answers 1. *)
Theorem multibloom_no_false_negative (bl : multibloom) (f a b : Z) (os : list op)
  (Hwf : wf bl) (Hf : 0 <= f < Z.of_nat (length (filters bl)))
  (Hos : Forall (fun o => 0 <= op_filter o < Z.of_nat (length (filters bl)) /\ keeps f o) os) :
  exists bl1 r bl2 bl3,
    multibloom_check bl f a b = Some (bl1, r) /\ run_ops bl1 os = Some bl2 /\
    multibloom_check bl2 f a b = Some (bl3, 1).
Proof.
  destruct (multibloom_check_run bl f a b Hwf Hf)
    as (bl1 & r & E & Hwf1 & S1 & S2 & S3 & Hset & _). rewrite <- S3 in Hos, Hf.
  destruct (run_ops_keeps f os bl1 Hwf1 Hos) as (bl2 & E2 & Hwf2 & (T1 & T2 & T3) & Hk).
  rewrite <- T3 in Hf.
  destruct (multibloom_check_run bl2 f a b Hwf2 Hf) as (bl3 & r3 & E3 & _ & _ & _ & _ & _ & _ & Hr).
  exists bl1, r, bl2, bl3. split_and!; [done..|]. destruct Hr as [[-> _]|[_ Hr]]; [done|].
  exfalso. apply Hr. intros x (j & Hj & ->). apply Hk, Hset. right. exists j.
  rewrite T1, S1 in *. rewrite T2, S2 in Hj. done.
Qed.

(** ** An example, with [log 0.001] as [math.h] computes it *)

Definition demo_log (_ : value_t) : value_t := SFopp (decimal false 6907755278982137 (-15)).

Example demo_sizes : multibloom_sizes demo_log 8 (decimal false 1 (-3)) = Some (115, 15, 10).
Proof. vm_compute. reflexivity. Qed.

(** An entry more or less than the assertion asks for: no bits, or a filter of
    two bytes. *)
Example small_sizes :
  multibloom_sizes demo_log 0 (decimal false 1 (-3)) = Some (0, 0, 10) /\
  multibloom_sizes demo_log 1 (decimal false 1 (-3)) = Some (14, 2, 10).
Proof. vm_compute. done. Qed.

Definition demo : multibloom :=
  {| bits := 115; bytes_ := 15; hashes := 10; filters := replicate 2 (replicate 15 0) |}.

Lemma demo_wf : wf demo.
Proof.
  split; [done|done| |repeat constructor].
  repeat constructor; simpl; lia.
Qed.

Lemma multibloom_check_refines_witness :
  exists bl' r, multibloom_check demo 1 7 9 = Some (bl', r) /\ wf bl' /\ same_shape demo bl' /\
    (forall x, bit_set (filter_at bl' 1) x <-> bit_set (filter_at demo 1) x \/ token_bit demo 7 9 x) /\
    (forall g, g <> 1 -> filter_at bl' g = filter_at demo g) /\
    (r = 0 \/ r = 1) /\
    (r = 1 <-> forall x, token_bit demo 7 9 x -> bit_set (filter_at demo 1) x).
Proof. apply (multibloom_check_refines demo 1 7 9 demo_wf). simpl. lia. Defined.

Lemma multibloom_no_false_negative_witness :
  exists bl1 r bl2 bl3,
    multibloom_check demo 1 7 9 = Some (bl1, r) /\
    run_ops bl1 [OpReset 0; OpCheck 1 3 4] = Some bl2 /\
    multibloom_check bl2 1 7 9 = Some (bl3, 1).
Proof.
  apply (multibloom_no_false_negative demo 1 7 9 [OpReset 0; OpCheck 1 3 4] demo_wf).
  - simpl. lia.
  - repeat constructor; simpl; try lia; done.
Defined.

(** The filters that are made with those sizes, all zero, are well formed if
    there are bits: every bit index has its byte, every filter has the size that
    resetting it clears, and no bit is set. *)
Lemma multibloom_new_wf (log : value_t -> value_t) (n : nat) (entries : Z) (error : value_t) (nb nbytes nh : Z) :
  multibloom_sizes log entries error = Some (nb, nbytes, nh) -> 0 < nb -> 0 <= nh ->
  let bl := {| bits := nb; bytes_ := nbytes; hashes := nh;
               filters := replicate n (replicate (Z.to_nat (u64 nbytes)) 0) |} in
  wf bl /\ forall f x, ~ bit_set (filter_at bl f) x.
Proof.
  intros Hnew Hb Hh bl. unfold multibloom_sizes in Hnew.
  apply bind_Some in Hnew as (nb' & Hnb & Hnew). apply bind_Some in Hnew as (nh' & Hnh & [= -> <- ->]).
  unfold to_signed in Hnb. apply bind_Some in Hnb as (z & _ & Hnb).
  apply bind_Some in Hnh as (z' & _ & Hnh). unfold signed_range in *.
  destruct ((_ <=? z) && _) eqn:Ez in Hnb; [|done].
  destruct ((_ <=? z') && _) eqn:Ez' in Hnh; [|done].
  injection Hnb as ->; injection Hnh as ->. zbool.
  set (nbytes := Z.quot nb 8 + (if Z.rem nb 8 =? 0 then 0 else 1)) in *.
  assert (Hnb : 0 <= nbytes /\ nb <= 8 * nbytes).
  { unfold nbytes. pose proof (Z.quot_rem' nb 8). pose proof (Z.rem_bound_pos nb 8).
    zcase; lia. }
  assert (Hu : u64 nbytes = nbytes).
  { apply wrap_small. unfold fits, nbytes. pose proof (Z.quot_rem' nb 8). pose proof (Z.rem_bound_pos nb 8).
    zcase; lia. }
  unfold bl. rewrite Hu. clear bl. set (bl := Build_multibloom _ _ _ _). split.
  - split; cbn [bits bytes_ hashes filters bl]; try lia; apply Forall_replicate; cbn [bits bytes_ bl].
    + split; [apply Forall_replicate; done|rewrite length_replicate; lia].
    + rewrite length_replicate. lia.
  - intros f x Hx. unfold filter_at, rd in Hx. cbn [filters bl] in Hx.
    destruct (f <? 0); [by apply (bit_set_zero 0) in Hx|].
    destruct (replicate _ _ !! _) as [fl|] eqn:E; [|by apply (bit_set_zero 0) in Hx].
    apply lookup_replicate in E as [-> _]. by apply bit_set_zero in Hx.
Qed.

(** The number of bytes is that of an [int]. *)
Lemma multibloom_sizes_range log entries error nb nbytes nh :
  multibloom_sizes log entries error = Some (nb, nbytes, nh) -> nbytes < 2 ^ 31.
Proof.
  intros Hnew. unfold multibloom_sizes in Hnew.
  apply bind_Some in Hnew as (nb' & Hnb & Hnew). apply bind_Some in Hnew as (nh' & _ & [= -> <- ->]).
  unfold to_signed, signed_range in Hnb. apply bind_Some in Hnb as (z & _ & Hnb).
  destruct ((_ <=? z) && _) eqn:Ez in Hnb; [|done]. injection Hnb as ->. zbool.
  pose proof (Z.quot_rem' nb 8). pose proof (Z.rem_bound_abs nb 8 ltac:(done)). zcase; lia.
Qed.

End Bloom.
