(* ===== verification/Internal.v ===== *)
(** * The server's own statistics ([src/internal_sampler.c], [src/server.h])

    Counters that the samplers increment and the sampling of the server's own
    metric takes.  A counter is accessed by atomic operations only, so a step
    of the model is one such operation. *)

From stdpp Require Import sets.
From S2P Require Import Prelude Value Metric.
Import Metric.

Module Internal.

(** The [uint32_t] fields of [live] and [sample]. *)
Inductive stat :=
| metrics | errors | unique_keys
| secure_failed | secure_from_future | secure_delayed | secure_replayed.

#[export] Instance stat_eq_dec : EqDecision stat.
Proof. solve_decision. Defined.

Definition counters : Type := stat -> Z.

Definition upd (c : counters) (f : stat) (v : Z) : counters :=
  fun g => if decide (g = f) then v else c g.

Record brubeck_internal_stats := {
  sample_freq : Z;
  live : counters;
  sample : counters;
}.

(** [brubeck_stats_inc]. *)
Definition brubeck_stats_inc (s : brubeck_internal_stats) (f : stat) : brubeck_internal_stats :=
  {| sample_freq := sample_freq s; live := upd (live s) f (u32 (live s f + 1));
     sample := sample s |}.

(** The body of a [WITH_SUFFIX] block: take the live value ([unique_keys] is
    only read) and keep it in [sample]. *)
Definition take_stat (s : brubeck_internal_stats) (f : stat) : brubeck_internal_stats * Z :=
  let value := live s f in
  ({| sample_freq := sample_freq s;
      live := match f with unique_keys => live s | _ => upd (live s) f 0 end;
      sample := upd (sample s) f value |}, value).

Definition INTERNAL_LONGEST_KEY : string := ".secure.from_future".

Definition internal_blocks : list (string * stat) :=
  [(".metrics", metrics); (".errors", errors); (".unique_keys", unique_keys);
   (".secure.failed", secure_failed); (".secure.from_future", secure_from_future);
   (".secure.delayed", secure_delayed); (".secure.replayed", secure_replayed)]%string.

Fixpoint run_blocks (s : brubeck_internal_stats) (buf : list Z) (klen : Z)
    (l : list (string * stat)) : option (brubeck_internal_stats * list emission) :=
  match l with
  | [] => Some (s, [])
  | (suffix, f) :: l =>
      buf ← with_suffix buf klen suffix;
      let '(s, value) := take_stat s f in
      k ← cstr buf;
      '(s, es) ← run_blocks s buf klen l;
      Some (s, (k, F64 value) :: es)
  end.

(** [metric->as.other] points to the server's statistics once
    [brubeck_internal__init] has set it. *)
Definition brubeck_internal__sample (s : brubeck_internal_stats) (m : brubeck_metric) (junk : Z)
    : option (brubeck_internal_stats * brubeck_metric * list emission) :=
  match as_ m with
  | As_other true =>
      buf ← suffix_buffer m INTERNAL_LONGEST_KEY junk;
      '(s, es) ← run_blocks s buf (key_len m) internal_blocks;
      Some (s, set_expire m BRUBECK_EXPIRE_ACTIVE, es)
  | _ => None
  end.

(** ** One sampling *)

Lemma run_blocks_spec k l : forall s rest,
  nul_free k -> NoDup l.*2 ->
  Forall (fun sf => suffix_ok (length rest) sf.1 = true) l ->
  exists s', run_blocks s (k ++ rest) (Z.of_nat (length k)) l =
      Some (s', (fun sf : string * stat => (k ++ bytes sf.1, F64 (live s sf.2))) <$> l) /\
    sample_freq s' = sample_freq s /\
    (forall f, sample s' f = if decide (f ∈ l.*2) then live s f else sample s f) /\
    (forall f, live s' f =
       if decide (f ∈ l.*2 /\ f <> unique_keys) then 0 else live s f).
Proof.
  induction l as [|[sf f] l IH]; intros s rest Hk Hnd Hl; cbn [run_blocks].
  - exists s. split_and!; try done; intros f; by rewrite decide_False by set_solver.
  - apply Forall_cons_iff in Hl as [Hs Hl]. cbn [fst] in Hs. rewrite fmap_cons in Hnd.
    apply list.NoDup_cons in Hnd as [Hni Hnd]. cbn [snd] in Hni.
    unfold suffix_ok in Hs. apply andb_true_iff in Hs as [Hlen%Nat.ltb_lt Hn%bytes_nul_free].
    unfold with_suffix. rewrite wr_n_app by (rewrite length_app; simpl; lia).
    cbn [mbind option_bind]. destruct (take_stat s f) as [s1 v] eqn:Et.
    rewrite <- app_assoc. cbn [app]. rewrite app_assoc, cstr_app by by apply Forall_app.
    cbn [mbind option_bind]. rewrite <- app_assoc.
    edestruct (IH s1) as (s' & E & Hf & Hsm & Hlv); [done|done| |].
    2: rewrite E; cbn [mbind option_bind].
    { rewrite length_app. cbn [length]. rewrite length_drop, length_app. cbn [length].
      replace (length (bytes sf) + S (length rest - (length (bytes sf) + 1)))%nat
        with (length rest) by lia. done. }
    unfold take_stat in Et. injection Et as <- <-. cbn [live sample sample_freq] in *.
    assert (Hlive : forall g, g <> f ->
      (match f with unique_keys => live s | _ => upd (live s) f 0 end) g = live s g).
    { intros g Hg. unfold upd. destruct f; rewrite ?decide_False by done; done. }
    exists s'. split_and!.
    + do 2 f_equal. rewrite fmap_cons. f_equal. apply list_fmap_ext. intros i [sg g] Hg. cbn [fst snd].
      rewrite Hlive; [done|]. intros ->. apply Hni, list_elem_of_fmap. exists (sg, f).
      split; [done|]. by eapply list_elem_of_lookup_2.
    + done.
    + intros g. rewrite Hsm. unfold upd. rewrite fmap_cons. cbn [snd].
      destruct (decide (g = f)) as [->|Hg].
      * rewrite (decide_False (P := f ∈ l.*2)) by done. rewrite decide_True by set_solver. done.
      * rewrite Hlive by done. apply decide_ext. set_solver.
    + intros g. rewrite Hlv. rewrite fmap_cons. cbn [snd].
      destruct (decide (g = f)) as [->|Hg].
      * rewrite (decide_False (P := f ∈ l.*2 /\ _)) by tauto. unfold upd.
        destruct f; rewrite ?decide_True by (split; [set_solver|done] || done); try done.
      * rewrite Hlive by done. apply decide_ext. set_solver.
Qed.

Lemma all_stats f : f ∈ internal_blocks.*2.
Proof. destruct f; set_solver. Qed.

Lemma internal_sample_run (s : brubeck_internal_stats) (m : brubeck_metric) (junk : Z)
  (Hk : key_wf m) (Has : as_ m = As_other true) :
  exists s', brubeck_internal__sample s m junk =
      Some (s', set_expire m BRUBECK_EXPIRE_ACTIVE,
            (fun sf : string * stat => (key m ++ bytes sf.1, F64 (live s sf.2)))
              <$> internal_blocks) /\
    (forall f, sample s' f = live s f) /\
    (forall f, live s' f = if decide (f = unique_keys) then live s f else 0).
Proof.
  unfold brubeck_internal__sample. rewrite Has, (suffix_buffer_spec m _ junk Hk).
  cbn [mbind option_bind]. rewrite (proj2 Hk).
  edestruct (run_blocks_spec (key m) internal_blocks s
    (replicate (length (bytes INTERNAL_LONGEST_KEY) + 1) junk)) as (s' & -> & _ & Hs & Hl).
  - apply Hk.
  - by apply (bool_decide_eq_true_1 (NoDup internal_blocks.*2)).
  - repeat constructor.
  - cbn [mbind option_bind]. eexists. split; [done|]. split.
    + intros f. by rewrite Hs, decide_True by apply all_stats.
    + intros f. rewrite Hl. pose proof (all_stats f). repeat case_decide; tauto.
Qed.

(** Sampling the server's own metric reports every live counter under the
    server's name, keeps the values reported in [sample], resets every counter
    but the number of unique keys, and keeps the metric from expiring.  The
    stack buffer of the suffixed keys never overflows. *)
Theorem internal_sample_reports (s : brubeck_internal_stats) (m : brubeck_metric) (junk : Z)
  (Hk : key_wf m) (Has : as_ m = As_other true) :
  exists s', brubeck_internal__sample s m junk =
      Some (s', set_expire m BRUBECK_EXPIRE_ACTIVE,
            (fun sf : string * stat => (key m ++ bytes sf.1, F64 (live s sf.2)))
              <$> internal_blocks) /\
    (forall f, sample s' f = live s f) /\
    (forall f, live s' f = if decide (f = unique_keys) then live s f else 0).
Proof. by eapply internal_sample_run. Qed.

Definition demo_stats : brubeck_internal_stats :=
  {| sample_freq := 10; live := upd (upd (fun _ => 0) metrics 1200) unique_keys 7;
     sample := fun _ => 3 |}.

Definition demo_internal : brubeck_metric :=
  set_as (new_metric (bytes "brubeck") BRUBECK_MT_INTERNAL_STATS) (As_other true).

Lemma internal_sample_reports_witness :
  exists s', brubeck_internal__sample demo_stats demo_internal 88 =
      Some (s', demo_internal,
            [(bytes "brubeck.metrics", F64 1200); (bytes "brubeck.errors", F64 0);
             (bytes "brubeck.unique_keys", F64 7); (bytes "brubeck.secure.failed", F64 0);
             (bytes "brubeck.secure.from_future", F64 0); (bytes "brubeck.secure.delayed", F64 0);
             (bytes "brubeck.secure.replayed", F64 0)]) /\
    (forall f, sample s' f = live demo_stats f) /\
    (forall f, live s' f = if decide (f = unique_keys) then live demo_stats f else 0).
Proof.
  apply (internal_sample_reports demo_stats demo_internal 88); [|reflexivity].
  split; [by apply bytes_nul_free|reflexivity].
Defined.

(** ** Interleavings with the samplers

    The worker threads increment the live counters while the backend's thread
    samples: any order of atomic operations. *)

Inductive event :=
| Inc (f : stat)
| Take (f : stat).

(** The events of a sampling are the [Take]s of its blocks. *)
Definition step (s : brubeck_internal_stats) (e : event) : brubeck_internal_stats * list (stat * Z) :=
  match e with
  | Inc f => (brubeck_stats_inc s f, [])
  | Take f => let '(s, v) := take_stat s f in (s, [(f, v)])
  end.

Fixpoint steps (s : brubeck_internal_stats) (es : list event)
    : brubeck_internal_stats * list (stat * Z) :=
  match es with
  | [] => (s, [])
  | e :: es => let '(s, r) := step s e in let '(s, rs) := steps s es in (s, r ++ rs)
  end.

Definition incs (f : stat) (es : list event) : Z :=
  foldr (fun e n => match e with
                    | Inc g => if decide (g = f) then n + 1 else n
                    | Take _ => n
                    end) 0 es.

Definition reported (f : stat) (rs : list (stat * Z)) : Z :=
  foldr (fun r n => if decide (r.1 = f) then r.2 + n else n) 0 rs.

Lemma reported_app f r1 r2 : reported f (r1 ++ r2) = reported f r1 + reported f r2.
Proof.
  induction r1 as [|[g v] r1 IH]; [done|]. cbn [app reported foldr] in *.
  change (foldr _ 0 (r1 ++ r2)) with (reported f (r1 ++ r2)) in *.
  change (foldr _ 0 r1) with (reported f r1) in *. rewrite IH. cbn [fst snd]. case_decide; lia.
Qed.

Lemma upd_eq c f v : upd c f v f = v.
Proof. unfold upd. by rewrite decide_True. Qed.

Lemma upd_ne c f g v : g <> f -> upd c f v g = c g.
Proof. intros. unfold upd. by rewrite decide_False. Qed.

(** One step, as integers: an increment wraps, a take moves the value from the
    counter to the report. *)
Lemma step_live f s e :
  f <> unique_keys ->
  let '(s', r) := step s e in
  live s' f = live s f /\ reported f r = 0 /\ incs f [e] = 0 \/
  live s' f = u32 (live s f + 1) /\ reported f r = 0 /\ incs f [e] = 1 \/
  live s' f = 0 /\ reported f r = live s f /\ incs f [e] = 0.
Proof.
  intros Hf. destruct e as [g|g]; cbn [step].
  - cbn [brubeck_stats_inc live reported foldr incs]. destruct (decide (g = f)) as [->|].
    + right. left. by rewrite upd_eq.
    + left. by rewrite upd_ne.
  - cbn [take_stat live reported foldr fst snd incs]. destruct (decide (g = f)) as [->|].
    + right. right. destruct f; try done; rewrite upd_eq, Z.add_0_r; done.
    + left. destruct g; rewrite ?upd_ne by done; done.
Qed.

Lemma incs_cons f e es : incs f (e :: es) = incs f [e] + incs f es.
Proof. unfold incs. cbn [foldr]. destruct e; [case_decide|]; lia. Qed.

Lemma incs_nonneg f es : 0 <= incs f es.
Proof.
  induction es as [|e es IH]; [done|]. rewrite incs_cons. destruct e; cbn [incs foldr] in *;
    [case_decide|]; lia.
Qed.

Lemma steps_conserve f es : f <> unique_keys -> forall s s' rs,
  fits 32 (live s f) -> steps s es = (s', rs) ->
  wrap 32 (live s' f + reported f rs) = wrap 32 (live s f + incs f es) /\
  (live s f + incs f es < 2 ^ 32 -> live s' f + reported f rs = live s f + incs f es).
Proof.
  intros Hf. induction es as [|e es IH]; intros s s' rs Hfit; cbn [steps].
  - intros [= <- <-]. split; done.
  - pose proof (step_live f s e Hf) as H1. destruct (step s e) as [s1 r1].
    destruct (steps s1 es) as [s2 rs2] eqn:E2. intros [= <- <-].
    assert (Hfit1 : fits 32 (live s1 f)).
    { destruct H1 as [(-> & _)|[(-> & _)|(-> & _)]]; [done|by apply wrap_fits|done]. }
    destruct (IH s1 s2 rs2 Hfit1 E2) as [Hw Hx]. rewrite reported_app, incs_cons.
    pose proof (incs_nonneg f es). unfold fits in Hfit.
    split.
    + rewrite (Z.add_comm (reported f r1)), Z.add_assoc, <- wrap_add_l, Hw, wrap_add_l.
      destruct H1 as [(-> & -> & ->)|[(-> & -> & ->)|(-> & -> & ->)]].
      * f_equal. lia.
      * rewrite Z.add_0_r, wrap_add_l. f_equal. lia.
      * f_equal. lia.
    + intros Hb. destruct H1 as [(E & -> & Ei)|[(E & -> & Ei)|(E & -> & Ei)]];
        rewrite Ei in Hb |- *; rewrite E in Hx; rewrite ?wrap_small in Hx by (unfold fits; lia); lia.
Qed.

(** C30: no event is lost or reported twice, however the increments of the
    worker threads interleave with samplings: what has been reported of a
    counter plus what is still live equals what was live before plus the
    increments; exactly while the total stays below 2^32, and modulo 2^32 in
    any case. *)
Theorem internal_counts_conserved (f : stat) (s s' : brubeck_internal_stats) (es : list event)
  (rs : list (stat * Z))
  (Hf : f <> unique_keys) (Hs : fits 32 (live s f)) (Hrun : steps s es = (s', rs)) :
  wrap 32 (live s' f + reported f rs) = wrap 32 (live s f + incs f es) /\
  (live s f + incs f es < 2 ^ 32 -> live s' f + reported f rs = live s f + incs f es).
Proof. by apply steps_conserve. Qed.

Lemma internal_counts_conserved_witness :
  let es := [Inc metrics; Take metrics; Inc metrics; Inc errors; Inc metrics] in
  let s' := fst (steps demo_stats es) in
  wrap 32 (live s' metrics + 1201) = wrap 32 (live demo_stats metrics + 3) /\
  (live demo_stats metrics + 3 < 2 ^ 32 -> live s' metrics + 1201 = live demo_stats metrics + 3).
Proof.
  apply (internal_counts_conserved metrics demo_stats
           (fst (steps demo_stats [Inc metrics; Take metrics; Inc metrics; Inc errors; Inc metrics]))
           [Inc metrics; Take metrics; Inc metrics; Inc errors; Inc metrics]
           [(metrics, 1201)]); [done|done|reflexivity].
Defined.

End Internal.
