(* ===== verification/StatsdSecure.v ===== *)
(** * Authenticated packets ([src/samplers/statsd-secure.c])

    A packet of this sampler is the HMAC of the rest (32 bytes), a timestamp (8
    bytes), a nonce (4 bytes) and StatsD lines.  Its authenticity, age and
    freshness are checked before the lines are parsed.  OpenSSL's HMAC is a
    parameter. *)

From S2P Require Import Prelude Value Metric Internal Bloom Statsd.
Import Internal Bloom Statsd.

Module StatsdSecure.

Definition SHA_SIZE : Z := 32.
Definition MAX_PACKET_SIZE : Z := 1024.
Definition MIN_PACKET_SIZE : Z := SHA_SIZE + 12.

(** [cmp |= a[i] ^ b[i]], [n] bytes to go. *)
Fixpoint memcmpct_loop (n : nat) (a b : list Z) (i cmp : Z) : option Z :=
  match n with
  | O => Some cmp
  | S n =>
      x ← rd a i;
      y ← rd b i;
      memcmpct_loop n a b (i + 1) (Z.lor cmp (Z.lxor x y))
  end.

Definition memcmpct (a b : list Z) (len : Z) : option Z := memcmpct_loop (Z.to_nat len) a b 0 0.

(** [hex_str], with its terminator. *)
Definition hex_str : list Z := bytes "0123456789abcdef" ++ [0].

(** The loop of [hmactos]: [buffer[i]] is a (signed) [char]. *)
Fixpoint hmactos_loop (n : nat) (buffer : list Z) (i : Z) : option (list Z) :=
  match n with
  | O => Some []
  | S n =>
      c ← rd buffer i;
      hi ← rd hex_str (Z.shiftr (s8 c) 4);
      lo ← rd hex_str (Z.land (s8 c) 15);
      rest ← hmactos_loop n buffer (i + 1);
      Some (hi :: lo :: rest)
  end.

Definition hmactos (buffer : list Z) : option (list Z) :=
  hmactos_loop (Z.to_nat SHA_SIZE) buffer 0.

Record brubeck_statsd_secure := {
  replays : multibloom;
  now : Z;
  drift : Z;
}.

(** What the sampler needs of the server besides the sink of the parser. *)
Class StatSink (S : Type) := {
  sink_stat : S -> stat -> S;
}.

(** The new second: [statsd->now = now.tv_sec] and the reset of its filter. *)
Definition next_second (s : brubeck_statsd_secure) (clock : Z) : option brubeck_statsd_secure :=
  if clock =? now s then Some s
  else if drift s =? 0 then None
  else
    bl ← multibloom_reset (replays s) (s32 (Z.rem clock (drift s)));
    Some {| replays := bl; now := clock; drift := drift s |}.

(** What [verify_token] decides of a token, apart from the counters and the lines
    of the log: the sampler it leaves and the verdict. *)
Inductive verdict := V_accepted | V_from_future | V_delayed | V_replayed.

Definition token_verdict (statsd : brubeck_statsd_secure) (buffer : list Z) (clock : Z)
    : option (brubeck_statsd_secure * verdict) :=
  ts ← rd_n buffer SHA_SIZE 8;
  let timestamp := le_combine ts in
  statsd ← next_second statsd clock;
  if u64 (now statsd) <? timestamp then Some (statsd, V_from_future)
  else if u64 (drift statsd) <? u64 (now statsd - timestamp) then Some (statsd, V_delayed)
  else
    ha ← rd_n buffer 0 4;
    hb ← rd_n buffer 4 4;
    if drift statsd =? 0 then None
    else
      '(bl, hit) ← multibloom_check (replays statsd) (s32 (timestamp mod u64 (drift statsd)))
                     (le_combine ha) (le_combine hb);
      Some ({| replays := bl; now := now statsd; drift := drift statsd |},
            if negb (hit =? 0) then V_replayed else V_accepted).

Section Token.
Context {S : Type} `{MetricSink S, StatSink S}.

(** [clock] is the second [clock_gettime] returns; the last component of the
    result is the code's return value. *)
Definition verify_token (server : S) (statsd : brubeck_statsd_secure) (buffer : list Z) (clock : Z)
    : option (S * brubeck_statsd_secure * Z) :=
  ts ← rd_n buffer SHA_SIZE 8;
  let timestamp := le_combine ts in
  statsd ← next_second statsd clock;
  if u64 (now statsd) <? timestamp then
    Some (sink_stat server secure_from_future, statsd, -1)
  else if u64 (drift statsd) <? u64 (now statsd - timestamp) then
    Some (sink_stat server secure_delayed, statsd, -1)
  else
    ha ← rd_n buffer 0 4;
    hb ← rd_n buffer 4 4;
    if drift statsd =? 0 then None
    else
      '(bl, hit) ← multibloom_check (replays statsd) (s32 (timestamp mod u64 (drift statsd)))
                     (le_combine ha) (le_combine hb);
      let statsd := {| replays := bl; now := now statsd; drift := drift statsd |} in
      if negb (hit =? 0) then
        _ ← hmactos buffer;
        Some (sink_stat server secure_replayed, statsd, -1)
      else Some (server, statsd, 0).

(** The thread's state: the server, the sampler, its [inflow], its buffer. *)
Record secure_worker := {
  sw_server : S;
  sw_statsd : brubeck_statsd_secure;
  sw_inflow : Z;
  sw_buffer : list Z;
}.

(** HMAC-SHA256 under the sampler's key. *)
Context (hmac : list Z -> list Z).

(** One turn of the loop of [statsd_secure__thread]. *)
Definition statsd_secure__thread (w : secure_worker) (clock : Z) (res : received (list Z))
    : option secure_worker :=
  match res with
  | RecvAgain => Some w
  | RecvFailed =>
      Some {| sw_server := sink_error (sw_server w); sw_statsd := sw_statsd w;
              sw_inflow := sw_inflow w; sw_buffer := sw_buffer w |}
  | Recv data =>
      m ← wr_n (sw_buffer w) 0 data;
      let res := Z.of_nat (length data) in
      let done_ st s m := Some {| sw_server := st; sw_statsd := s;
                                  sw_inflow := u64 (sw_inflow w + 1); sw_buffer := m |} in
      if res <? MIN_PACKET_SIZE then
        done_ (sink_stat (sw_server w) secure_failed) (sw_statsd w) m
      else
        signed ← rd_n m SHA_SIZE (Z.to_nat (res - SHA_SIZE));
        cmp ← memcmpct m (hmac signed) SHA_SIZE;
        if negb (cmp =? 0) then
          _ ← hmactos m;
          done_ (sink_stat (sw_server w) secure_failed) (sw_statsd w) m
        else
          '(st, s, r) ← verify_token (sw_server w) (sw_statsd w) m clock;
          if r <? 0 then done_ st s m
          else
            '(st, m) ← brubeck_statsd_packet_parse st m MIN_PACKET_SIZE res;
            done_ st s m
  end.
End Token.

(** ** Comparison and printing of HMACs *)

Lemma memcmpct_loop_spec a b n : forall i cmp,
  0 <= i -> i + Z.of_nat n <= Z.of_nat (length a) -> i + Z.of_nat n <= Z.of_nat (length b) ->
  exists r, memcmpct_loop n a b i cmp = Some r /\
    (r = 0 <-> cmp = 0 /\ take n (drop (Z.to_nat i) a) = take n (drop (Z.to_nat i) b)).
Proof.
  induction n as [|n IH]; intros i cmp Hi Ha Hb; cbn [memcmpct_loop].
  - exists cmp. split; [done|]. rewrite !take_0. tauto.
  - destruct (rd_is_Some a i ltac:(lia)) as [x Hx], (rd_is_Some b i ltac:(lia)) as [y Hy].
    rewrite Hx, Hy. cbn [mbind option_bind].
    destruct (IH (i + 1) (Z.lor cmp (Z.lxor x y)) ltac:(lia) ltac:(lia) ltac:(lia)) as (r & -> & Hr).
    exists r. split; [done|]. rewrite Hr.
    assert (Hd : forall (l : list Z) c, rd l i = Some c ->
      take (Datatypes.S n) (drop (Z.to_nat i) l) = c :: take n (drop (Z.to_nat (i + 1)) l)).
    { intros l c Hc. unfold rd in Hc. case_match; [done|]. rewrite (drop_S _ _ _ Hc).
      replace (Z.to_nat (i + 1)) with (Datatypes.S (Z.to_nat i)) by lia. done. }
    rewrite (Hd a x Hx), (Hd b y Hy), Z.lor_eq_0_iff, Z.lxor_eq_0_iff. split.
    + intros [[-> ->] ->]. done.
    + intros (-> & [= -> ->]). done.
Qed.

(** The constant-time comparison decides equality: it reads exactly [len]
    bytes of both buffers and returns 0 if and only if these are equal. *)
Theorem memcmpct_equal (a b : list Z) (len : Z)
  (Hlen : 0 <= len) (Ha : len <= Z.of_nat (length a)) (Hb : len <= Z.of_nat (length b)) :
  exists r, memcmpct a b len = Some r /\
    (r = 0 <-> take (Z.to_nat len) a = take (Z.to_nat len) b).
Proof.
  destruct (memcmpct_loop_spec a b (Z.to_nat len) 0 0) as (r & E & Hr); try lia.
  exists r. split; [done|]. rewrite Hr. change (Z.to_nat 0) with 0%nat. rewrite !drop_0. tauto.
Qed.

Lemma memcmpct_equal_witness :
  exists r, memcmpct [1; 2; 3] [1; 2; 4] 2 = Some r /\ (r = 0 <-> [1; 2] = [1; 2]).
Proof. apply (memcmpct_equal [1; 2; 3] [1; 2; 4] 2); simpl; lia. Defined.

Definition hex_digits (c : Z) : option (Z * Z) :=
  hi ← rd hex_str (Z.shiftr (s8 c) 4);
  lo ← rd hex_str (Z.land (s8 c) 15);
  Some (hi, lo).

Lemma hex_digits_signed c : is_byte c -> (is_Some (hex_digits c) <-> c < 128).
Proof.
  intros Hc.
  assert (H : forallb (fun c => eqb (bool_decide (is_Some (hex_digits c))) (c <? 128))
                (seqZ 0 256) = true) by (vm_compute; done).
  rewrite forallb_forall in H. specialize (H c).
  rewrite <- list_elem_of_In, elem_of_seqZ in H. unfold is_byte, fits in Hc.
  specialize (H ltac:(lia)). apply eqb_prop in H. destruct (Z.ltb_spec c 128); split; intros Hx; try lia.
  - by apply bool_decide_eq_true_1 in H.
  - by apply bool_decide_eq_false_1 in H.
Qed.

Lemma hmactos_loop_iff buffer n : Forall is_byte buffer -> forall i,
  0 <= i -> i + Z.of_nat n <= Z.of_nat (length buffer) ->
  is_Some (hmactos_loop n buffer i) <-> Forall (fun c => c < 128) (take n (drop (Z.to_nat i) buffer)).
Proof.
  intros Hby. induction n as [|n IH]; intros i Hi Hlen; cbn [hmactos_loop].
  - rewrite take_0. split; [constructor|eauto].
  - destruct (rd_is_Some buffer i ltac:(lia)) as [c Hc]. rewrite Hc. cbn [mbind option_bind].
    assert (Hl : buffer !! Z.to_nat i = Some c) by (unfold rd in Hc; by case_match).
    rewrite (drop_S _ _ _ Hl). cbn [take]. rewrite Forall_cons_iff.
    replace (Datatypes.S (Z.to_nat i)) with (Z.to_nat (i + 1)) by lia.
    rewrite <- (IH (i + 1)) by lia.
    rewrite <- (hex_digits_signed c) by exact (Forall_lookup_1 _ _ _ _ Hby Hl).
    unfold hex_digits.
    destruct (rd hex_str (Z.shiftr (s8 c) 4)); cbn [mbind option_bind];
      [|split; [by intros [? ?]|intros [[? ?] _]; done]].
    destruct (rd hex_str (Z.land (s8 c) 15)); cbn [mbind option_bind];
      [|split; [by intros [? ?]|intros [[? ?] _]; done]].
    destruct (hmactos_loop n buffer (i + 1)); cbn [mbind option_bind]; split; eauto.
    intros [_ [? ?]]. done.
Qed.

(** Printing an HMAC for the log stays inside its table of digits exactly
    when all 32 bytes are below 128: [buffer[i]] is a signed [char], and a byte
    of 128 or more indexes the table below its start. *)
Lemma hmactos_iff (buffer : list Z)
  (Hby : Forall is_byte buffer) (Hlen : SHA_SIZE <= Z.of_nat (length buffer)) :
  is_Some (hmactos buffer) <-> Forall (fun c => c < 128) (take 32 buffer).
Proof.
  unfold hmactos. rewrite (hmactos_loop_iff buffer (Z.to_nat SHA_SIZE) Hby 0) by (unfold SHA_SIZE in *; lia).
  change (Z.to_nat 0) with 0%nat. by rewrite drop_0.
Qed.

(** ** Replays *)

Section Replay.
Context {S : Type} `{MetricSink S, StatSink S}.

(** The sampler as [brubeck_statsd_secure_new] creates it: a filter for every
    second of the drift. *)
Record secure_wf (s : brubeck_statsd_secure) : Prop := {
  sw_bloom : wf (replays s);
  sw_drift : 0 < drift s < 2 ^ 31;
  sw_filters : Z.of_nat (length (filters (replays s))) = drift s;
  sw_now : 0 <= now s < 2 ^ 63;
}.

Definition timestamp_of (buffer : list Z) : Z := le_combine (take 8 (drop 32 buffer)).
Definition ha_of (buffer : list Z) : Z := le_combine (take 4 buffer).
Definition hb_of (buffer : list Z) : Z := le_combine (take 4 (drop 4 buffer)).

Definition second_filter (s : brubeck_statsd_secure) (t : Z) : Z := t mod drift s.

Lemma second_index s t :
  secure_wf s -> 0 <= t -> s32 (t mod drift s) = t mod drift s /\
  0 <= t mod drift s < Z.of_nat (length (filters (replays s))).
Proof.
  intros [_ Hd Hf _] Ht. pose proof (Z.mod_pos_bound t (drift s) ltac:(lia)). split; [|lia].
  unfold swrap. change (32 - 1) with 31. rewrite Z.mod_small by lia. lia.
Qed.

(** The bits of the filter of second [f] are kept from [s] to [s']. *)
Definition keeps_filter (f : Z) (s s' : brubeck_statsd_secure) : Prop :=
  forall x, bit_set (filter_at (replays s) f) x -> bit_set (filter_at (replays s') f) x.

Lemma next_second_run s clock :
  secure_wf s -> 0 <= clock < 2 ^ 63 ->
  exists s', next_second s clock = Some s' /\ secure_wf s' /\ now s' = clock /\
    drift s' = drift s /\ same_shape (replays s) (replays s') /\
    (clock <> now s -> forall x, ~ bit_set (filter_at (replays s') (clock mod drift s)) x) /\
    (forall f, clock = now s \/ f <> clock mod drift s -> keeps_filter f s s').
Proof.
  intros Hwf Hc. unfold next_second. pose proof Hwf as [Hb Hd Hf Hn].
  destruct (Z.eqb_spec clock (now s)) as [->|Hne].
  { exists s. unfold same_shape, keeps_filter. split_and!; auto. }
  destruct (Z.eqb_spec (drift s) 0); [lia|].
  rewrite Z.rem_mod_nonneg by lia. destruct (second_index s clock Hwf ltac:(lia)) as [-> Hi].
  destruct (multibloom_reset_run (replays s) _ Hb Hi) as (bl & -> & Hb' & ? & ? & Hl & Hz & Ho).
  cbn [mbind option_bind]. eexists. split; [done|]. split_and!; try done; cbn [replays].
  - split; cbn [replays drift now]; try done. congruence.
  - intros f Hf' x Hx. cbn [replays]. rewrite Ho; [done|]. destruct Hf'; done.
Qed.

(** The verdict in counters, log and return value: only a replay's HMAC is
    printed. *)
Definition report (server : S) (s : brubeck_statsd_secure) (buffer : list Z) (v : verdict)
    : option (S * brubeck_statsd_secure * Z) :=
  match v with
  | V_accepted => Some (server, s, 0)
  | V_from_future => Some (sink_stat server secure_from_future, s, -1)
  | V_delayed => Some (sink_stat server secure_delayed, s, -1)
  | V_replayed => _ ← hmactos buffer; Some (sink_stat server secure_replayed, s, -1)
  end.

Lemma verify_token_verdict server s buffer clock :
  verify_token server s buffer clock = ('(s', v) ← token_verdict s buffer clock; report server s' buffer v).
Proof.
  unfold verify_token, token_verdict. destruct (rd_n buffer SHA_SIZE 8); [|done]. cbn [mbind option_bind].
  destruct (next_second s clock); [|done]. cbn [mbind option_bind]. case_match; [done|]. case_match; [done|].
  destruct (rd_n buffer 0 4); [|done]. cbn [mbind option_bind]. destruct (rd_n buffer 4 4); [|done].
  cbn [mbind option_bind]. case_match; [done|]. destruct (multibloom_check _ _ _ _) as [[bl hit]|]; [|done].
  cbn [mbind option_bind]. by destruct (negb _).
Qed.

(** A token that gets past the age checks: between its timestamp and [drift]
    seconds later. *)
Lemma token_verdict_run s buffer clock :
  secure_wf s -> 0 <= clock < 2 ^ 63 -> 40 <= Z.of_nat (length buffer) ->
  Forall is_byte buffer ->
  let ts := timestamp_of buffer in
  exists s1, next_second s clock = Some s1 /\ secure_wf s1 /\
  if clock <? ts then token_verdict s buffer clock = Some (s1, V_from_future)
  else if drift s <? clock - ts then token_verdict s buffer clock = Some (s1, V_delayed)
  else
    exists bl hit,
      multibloom_check (replays s1) (ts mod drift s) (ha_of buffer) (hb_of buffer) = Some (bl, hit) /\
      token_verdict s buffer clock =
        Some ({| replays := bl; now := clock; drift := drift s |}, if negb (hit =? 0) then V_replayed else V_accepted).
Proof.
  intros Hwf Hc Hlen Hby ts.
  destruct (next_second_run s clock Hwf Hc) as (s1 & E1 & Hwf1 & Hn & Hd & Hsh & _).
  exists s1. split; [done|]. split; [done|]. unfold token_verdict, SHA_SIZE.
  rewrite (rd_n_in buffer 32 8), (rd_n_in buffer 0 4), (rd_n_in buffer 4 4) by lia.
  cbn [mbind option_bind]. rewrite E1. cbn [mbind option_bind].
  change (le_combine (take 8 (drop (Z.to_nat 32) buffer))) with ts.
  assert (Hts : fits 64 ts).
  { unfold ts, timestamp_of. assert (Hl8 : length (take 8 (drop 32 buffer)) = 8%nat).
    { rewrite length_take, length_drop. lia. }
    pose proof (le_combine_fits (take 8 (drop 32 buffer))) as Hf. rewrite Hl8 in Hf.
    apply Hf. by apply Forall_take, Forall_drop. }
  rewrite Hn, Hd. pose proof (sw_drift s Hwf) as Hdr.
  rewrite (wrap_small 64 clock) by (unfold fits; lia).
  rewrite (wrap_small 64 (drift s)) by (unfold fits; lia).
  destruct (Z.ltb_spec clock ts) as [|Hge]; [done|].
  rewrite (wrap_small 64 (clock - ts)) by (unfold fits in *; lia).
  destruct (Z.ltb_spec (drift s) (clock - ts)); [done|].
  destruct (Z.eqb_spec (drift s) 0); [lia|].
  change (le_combine (take 4 (drop (Z.to_nat 0) buffer))) with (ha_of buffer).
  change (le_combine (take 4 (drop (Z.to_nat 4) buffer))) with (hb_of buffer).
  destruct (second_index s1 ts Hwf1) as [Ei Hi]; [unfold fits in Hts; lia|]. rewrite Hd in Ei, Hi.
  rewrite Ei.
  destruct (multibloom_check_run (replays s1) _ (ha_of buffer) (hb_of buffer) (sw_bloom _ Hwf1) Hi)
    as (bl & hit & E & _).
  exists bl, hit. split; [done|]. rewrite E. done.
Qed.

Lemma verify_token_run server s buffer clock :
  secure_wf s -> 0 <= clock < 2 ^ 63 -> 40 <= Z.of_nat (length buffer) ->
  Forall is_byte buffer ->
  let ts := timestamp_of buffer in
  exists s1, next_second s clock = Some s1 /\ secure_wf s1 /\
  if clock <? ts then
    verify_token server s buffer clock = Some (sink_stat server secure_from_future, s1, -1)
  else if drift s <? clock - ts then
    verify_token server s buffer clock = Some (sink_stat server secure_delayed, s1, -1)
  else
    exists bl hit,
      multibloom_check (replays s1) (ts mod drift s) (ha_of buffer) (hb_of buffer) = Some (bl, hit) /\
      verify_token server s buffer clock =
        let s2 := {| replays := bl; now := clock; drift := drift s |} in
        if negb (hit =? 0) then
          _ ← hmactos buffer; Some (sink_stat server secure_replayed, s2, -1)
        else Some (server, s2, 0).
Proof.
  intros Hwf Hc Hlen Hby ts. rewrite verify_token_verdict.
  destruct (token_verdict_run s buffer clock Hwf Hc Hlen Hby) as (s1 & E1 & Hwf1 & Hv). fold ts in Hv.
  exists s1. split; [done|]. split; [done|]. case_match; [by rewrite Hv|]. case_match; [by rewrite Hv|].
  destruct Hv as (bl & hit & Eb & ->). exists bl, hit. split; [done|]. cbn [mbind option_bind]. by destruct (negb _).
Qed.

Definition token_in (s : brubeck_statsd_secure) (buffer : list Z) : Prop :=
  forall x, token_bit (replays s) (ha_of buffer) (hb_of buffer) x ->
    bit_set (filter_at (replays s) (timestamp_of buffer mod drift s)) x.

(** Any verification has a verdict, keeps the sampler well formed, and keeps the
    filters other than the one of a second that begins. *)
Lemma token_verdict_keeps s buffer clock :
  secure_wf s -> 0 <= clock < 2 ^ 63 -> 40 <= Z.of_nat (length buffer) -> Forall is_byte buffer ->
  exists s' v, token_verdict s buffer clock = Some (s', v) /\
  secure_wf s' /\ now s' = clock /\ drift s' = drift s /\
  same_shape (replays s) (replays s') /\
  (forall f, clock = now s \/ f <> clock mod drift s -> keeps_filter f s s') /\
  (v = V_accepted -> timestamp_of buffer <= clock <= timestamp_of buffer + drift s /\ token_in s' buffer).
Proof.
  intros Hwf Hc Hlen Hby.
  destruct (next_second_run s clock Hwf Hc) as (s1 & E1 & Hwf1 & Hn & Hd & Hsh & _ & Hk).
  destruct (token_verdict_run s buffer clock Hwf Hc Hlen Hby) as (s1' & E1' & _ & H1).
  rewrite E1 in E1'. injection E1' as <-. set (ts := timestamp_of buffer) in *.
  destruct (Z.ltb_spec clock ts) as [|Hge]; [do 2 eexists; split; [exact H1|]; by split_and!|].
  destruct (Z.ltb_spec (drift s) (clock - ts)) as [|Hle]; [do 2 eexists; split; [exact H1|]; by split_and!|].
  destruct H1 as (bl & hit & Eb & Ev). do 2 eexists. split; [exact Ev|].
  assert (Hts : 0 <= ts).
  { unfold ts, timestamp_of. apply (le_combine_fits (take 8 (drop 32 buffer))).
    by apply Forall_take, Forall_drop. }
  destruct (second_index s1 ts Hwf1 Hts) as [_ Hi]. rewrite Hd in Hi.
  destruct (multibloom_check_run (replays s1) _ (ha_of buffer) (hb_of buffer) (sw_bloom _ Hwf1) Hi)
    as (bl' & hit' & Eb' & Hwfb & B1 & B2 & B3 & Hset & Hoth & _).
  rewrite Eb in Eb'. injection Eb' as <- <-.
  set (s2 := {| replays := bl; now := clock; drift := drift s |}) in *.
  destruct Hsh as (T1 & T2 & T3). pose proof Hwf1 as [_ Hd1 Hf1 Hn1].
  split_and!; try done.
  - split; cbn [replays drift now s2]; try done; try lia.
  - split_and!; cbn [replays s2]; congruence.
  - intros f Hf x Hx. cbn [replays s2]. apply (Hk f Hf) in Hx.
    destruct (Z.eq_dec f (ts mod drift s)) as [->|]; [apply Hset; by left|by rewrite Hoth].
  - intros _. split; [lia|]. intros x Hx. cbn [replays drift s2] in Hx |- *. fold ts.
    apply Hset. right. destruct Hx as (j & Hj & ->). exists j. rewrite B1, <- B2. done.
Qed.

(** A run of verifications, each at its second. *)
Fixpoint verdicts (s : brubeck_statsd_secure) (l : list (Z * list Z)) : option brubeck_statsd_secure :=
  match l with
  | [] => Some s
  | (clock, buffer) :: l => '(s, _) ← token_verdict s buffer clock; verdicts s l
  end.

(** The clock does not go back, and the packets have a token. *)
Fixpoint clock_ok (t : Z) (l : list (Z * list Z)) (t' : Z) : Prop :=
  match l with
  | [] => t <= t'
  | (clock, buffer) :: l =>
      t <= clock /\ 40 <= Z.of_nat (length buffer) /\ Forall is_byte buffer /\ clock_ok clock l t'
  end.

Lemma clock_ok_le l : forall t t', clock_ok t l t' -> t <= t'.
Proof.
  induction l as [|[c b] l IH]; intros t t'; cbn [clock_ok]; [done|].
  intros (? & _ & _ & ?%IH). lia.
Qed.

Lemma no_reset_before d ts c :
  0 < d -> ts < c < ts + d -> ts mod d <> c mod d.
Proof.
  intros Hd Hc E. assert (Hm : (c - ts) mod d = 0).
  { rewrite Zminus_mod, E, Z.sub_diag. by apply Z.mod_0_l; lia. }
  rewrite Z.mod_small in Hm by lia. lia.
Qed.

Lemma verdicts_keep buffer t2 l : forall s,
  secure_wf s -> 0 <= now s -> t2 < 2 ^ 63 -> clock_ok (now s) l t2 ->
  timestamp_of buffer <= now s -> t2 < timestamp_of buffer + drift s -> token_in s buffer ->
  exists s', verdicts s l = Some s' /\
    secure_wf s' /\ now s' <= t2 /\ timestamp_of buffer <= now s' /\ drift s' = drift s /\ token_in s' buffer.
Proof.
  induction l as [|[c b] l IH]; intros s Hwf Hn Ht2 Hck Hts Htd Hin; cbn [verdicts clock_ok] in *.
  - exists s. by split_and!.
  - destruct Hck as (Hc & Hlb & Hbb & Hck). pose proof (clock_ok_le _ _ _ Hck).
    destruct (token_verdict_keeps s b c Hwf ltac:(lia) Hlb Hbb)
      as (s1 & v & -> & Hwf1 & Hn1 & Hd1 & (S1 & S2 & S3) & Hk & _). cbn [mbind option_bind].
    pose proof (sw_drift s Hwf).
    assert (Hin1 : token_in s1 buffer).
    { intros x Hx. rewrite Hd1. apply Hk.
      - destruct (Z.eq_dec c (now s)); [by left|right]. apply no_reset_before; lia.
      - apply Hin. destruct Hx as (j & Hj & ->). exists j. rewrite S2 in Hj. by rewrite S1. }
    rewrite <- Hd1. apply (IH s1); try done; try lia. by rewrite Hn1.
Qed.

(** C8: a token is accepted once.  After a token has been accepted, whatever
    tokens are verified in between while the clock does not go back (each has a
    verdict), presenting it again less than [drift] seconds after its timestamp
    has the verdict of a replay and never that of acceptance.  [verify_token]
    then prints the HMAC for the log: if its bytes are all below 128 it counts
    the replay and rejects the packet, and otherwise it reads outside of the
    table of digits and its behaviour is undefined (see the finding on
    [hmactos]). *)
Theorem replay_rejected (s s1 : brubeck_statsd_secure) (token : list Z) (t1 t2 : Z) (l : list (Z * list Z))
  (Hwf : secure_wf s) (Ht1 : 0 <= t1) (Ht2 : t2 < 2 ^ 63)
  (Hlen : 40 <= Z.of_nat (length token)) (Hby : Forall is_byte token)
  (Hacc : token_verdict s token t1 = Some (s1, V_accepted))
  (Hclock : clock_ok t1 l t2) (Hage : t2 < timestamp_of token + drift s) :
  exists s2 s3, verdicts s1 l = Some s2 /\ token_verdict s2 token t2 = Some (s3, V_replayed) /\
    forall server : S,
      if bool_decide (Forall (fun c => c < 128) (take 32 token))
      then verify_token server s2 token t2 = Some (sink_stat server secure_replayed, s3, -1)
      else verify_token server s2 token t2 = None.
Proof.
  pose proof (clock_ok_le _ _ _ Hclock).
  destruct (token_verdict_keeps s token t1 Hwf ltac:(lia) Hlen Hby)
    as (s1' & v & E1 & Hwf1 & Hn1 & Hd1 & _ & _ & Hok). rewrite Hacc in E1. injection E1 as <- <-.
  destruct (Hok eq_refl) as [Hts Hin].
  destruct (verdicts_keep token t2 l s1 Hwf1) as (s2 & E12 & Hwf2 & Hn2 & Hts2 & Hd2 & Hin2);
    try done; rewrite ?Hn1, ?Hd1; try done; try lia.
  destruct (next_second_run s2 t2 Hwf2 ltac:(lia)) as (s2' & E2 & Hwf2' & _ & Hd2' & (S1 & S2 & _) & _ & Hk).
  destruct (token_verdict_run s2 token t2 Hwf2 ltac:(lia) Hlen Hby) as (s2'' & E2' & _ & Hv).
  rewrite E2 in E2'. injection E2' as <-. rewrite Hd2, Hd1 in *. pose proof (sw_drift s Hwf).
  set (ts := timestamp_of token) in *.
  destruct (Z.ltb_spec t2 ts); [lia|]. destruct (Z.ltb_spec (drift s) (t2 - ts)); [lia|].
  destruct Hv as (bl & hit & Eb & Ev).
  assert (0 <= ts).
  { unfold ts, timestamp_of. apply (le_combine_fits (take 8 (drop 32 token))).
    by apply Forall_take, Forall_drop. }
  destruct (second_index s2' ts Hwf2' ltac:(done)) as [_ Hi]. rewrite Hd2' in Hi.
  destruct (multibloom_check_run (replays s2') _ (ha_of token) (hb_of token) (sw_bloom _ Hwf2') Hi)
    as (bl' & hit' & Eb' & _ & _ & _ & _ & _ & _ & [[-> _]|[_ Hno]]).
  - rewrite Eb in Eb'. injection Eb' as <- ->. do 2 eexists. split; [done|]. split; [exact Ev|].
    intros server. rewrite verify_token_verdict, Ev. cbn [negb Z.eqb report mbind option_bind].
    pose proof (hmactos_iff token Hby ltac:(unfold SHA_SIZE; lia)) as Hh.
    case_bool_decide as Hp; [by destruct (proj2 Hh Hp) as [? ->]|].
    destruct (hmactos token); [by destruct Hp; apply Hh|done].
  - exfalso. apply Hno. intros x (j & Hj & ->). apply Hk.
    + destruct (Z.eq_dec t2 (now s2)); [by left|right]. apply no_reset_before; lia.
    + unfold token_in in Hin2. rewrite Hd2 in Hin2. apply Hin2. exists j. by rewrite S1, <- S2.
Qed.

(** C40: a replay exactly [drift] seconds after the timestamp is accepted: the
    age check still admits it, but the first packet of that second has just
    cleared the filter of its timestamp, so the token is taken for a new one
    whatever has been verified before. *)
Theorem replay_accepted_at_drift (server : S) (s : brubeck_statsd_secure) (token : list Z)
  (Hwf : secure_wf s) (Hhash : 0 < hashes (replays s))
  (Hclock : timestamp_of token + drift s < 2 ^ 63)
  (Hlen : 40 <= Z.of_nat (length token)) (Hby : Forall is_byte token)
  (Hnow : now s <> timestamp_of token + drift s) :
  exists s', verify_token server s token (timestamp_of token + drift s) = Some (server, s', 0).
Proof.
  set (ts := timestamp_of token) in *. pose proof (sw_drift s Hwf) as Hd.
  assert (0 <= ts).
  { unfold ts, timestamp_of. apply (le_combine_fits (take 8 (drop 32 token))).
    by apply Forall_take, Forall_drop. }
  destruct (next_second_run s (ts + drift s) Hwf ltac:(lia))
    as (s1 & E1 & Hwf1 & _ & Hd1 & (S1 & S2 & _) & Hz & _).
  destruct (verify_token_run server s token (ts + drift s) Hwf ltac:(lia) Hlen Hby)
    as (s1' & E1' & _ & Hv).
  rewrite E1 in E1'. injection E1' as <-. fold ts in Hv.
  destruct (Z.ltb_spec (ts + drift s) ts); [lia|].
  destruct (Z.ltb_spec (drift s) (ts + drift s - ts)); [lia|].
  destruct Hv as (bl & hit & Eb & ->).
  destruct (second_index s1 ts Hwf1 ltac:(done)) as [_ Hi]. rewrite Hd1 in Hi.
  destruct (multibloom_check_run (replays s1) _ (ha_of token) (hb_of token) (sw_bloom _ Hwf1) Hi)
    as (bl' & hit' & Eb' & _ & _ & _ & _ & _ & _ & [[_ Hall]|[-> _]]).
  - exfalso. apply (Hz ltac:(done) (position (bits (replays s1)) (ha_of token) (hb_of token) 0)).
    replace ((ts + drift s) mod drift s) with (ts mod drift s)
      by (rewrite <- Zplus_mod_idemp_r, Z_mod_same_full, Z.add_0_r; done).
    apply Hall. exists 0. split; [rewrite S2; lia|done].
  - rewrite Eb in Eb'. injection Eb' as <- ->. by eexists.
Qed.
End Replay.

(** ** The thread *)

Section Thread.
Context {S : Type} `{MetricSink S, StatSink S} (hmac : list Z -> list Z).
(** SHA-256 digests have 32 bytes. *)
Context (hmac_size : forall x, length (hmac x) = 32%nat).

(** The server only counts a rejected packet. *)
Definition only_counted (st st' : S) : Prop :=
  exists f, (f = secure_failed \/ f = secure_from_future \/ f = secure_delayed \/
             f = secure_replayed) /\ st' = sink_stat st f.

Lemma received_bytes (buf data m : list Z) :
  wr_n buf 0 data = Some m -> take (length data) m = data /\ length m = length buf.
Proof.
  intros E. pose proof (wr_n_length _ _ _ _ E). apply wr_n_take in E.
  change (Z.to_nat 0) with 0%nat in E. rewrite Nat.add_0_l, take_0 in E. done.
Qed.

Lemma verify_token_outcome server s m clock server' s' r :
  verify_token server s m clock = Some (server', s', r) ->
  r = 0 /\ server' = server \/ r = -1 /\ only_counted server server'.
Proof.
  unfold verify_token. intros (ts & _ & E)%bind_Some. apply bind_Some in E as (s1 & _ & E).
  case_match; [injection E as <- <- <-; right; split; [done|]; eexists; split; [|done]; auto|].
  case_match; [injection E as <- <- <-; right; split; [done|]; eexists; split; [|done]; auto|].
  apply bind_Some in E as (ha & _ & E). apply bind_Some in E as (hb & _ & E).
  case_match; [done|]. apply bind_Some in E as ([bl hit] & _ & E).
  case_match; [|injection E as <- <- <-; by left].
  apply bind_Some in E as (? & _ & [= <- <- <-]).
  right. split; [done|]. eexists. split; [|done]. auto.
Qed.

(** C19: only authenticated packets reach the metrics: whatever arrives,
    either its first 32 bytes are the HMAC of the rest, its token is accepted
    and its lines are parsed, all of them behind the 44 bytes of the header,
    or the only effect on the server is one of the four rejection
    counters. *)
Theorem secure_only_authentic (w w' : secure_worker) (clock : Z) (data : list Z)
  (Hrun : statsd_secure__thread hmac w clock (Recv data) = Some w') :
  sw_inflow w' = u64 (sw_inflow w + 1) /\
  (only_counted (sw_server w) (sw_server w') \/
   take 32 data = hmac (drop 32 data) /\ 44 <= Z.of_nat (length data) /\
   exists m m' s,
     take (length data) m = data /\
     verify_token (sw_server w) (sw_statsd w) m clock = Some (sw_server w, s, 0) /\
     brubeck_statsd_packet_parse (sw_server w) m 44 (Z.of_nat (length data)) =
       Some (sw_server w', m') /\ sw_statsd w' = s).
Proof.
  cbn [statsd_secure__thread] in Hrun. apply bind_Some in Hrun as (m & Em & Hrun). cbv zeta in Hrun.
  destruct (received_bytes _ _ _ Em) as [Hm Hl]. apply wr_n_Some in Em as (_ & Hfit & _).
  unfold MIN_PACKET_SIZE, SHA_SIZE in Hrun.
  destruct (Z.ltb_spec (Z.of_nat (length data)) (32 + 12)) as [Hshort|Hlong].
  { injection Hrun as <-. split; [done|]. left. eexists. split; [|done]. auto. }
  apply bind_Some in Hrun as (sg & Esg & Hrun). apply bind_Some in Hrun as (cmp & Ecmp & Hrun).
  rewrite rd_n_in in Esg by lia. injection Esg as <-.
  assert (Hsg : take (Z.to_nat (Z.of_nat (length data) - 32)) (drop (Z.to_nat 32) m) = drop 32 data).
  { rewrite <- Hm at 2. rewrite skipn_firstn_comm. f_equal. lia. }
  rewrite Hsg in Ecmp. clear Hsg.
  destruct (memcmpct_loop_spec m (hmac (drop 32 data)) 32 0 0) as (r & Er & Hr);
    [lia|lia|rewrite hmac_size; lia|].
  unfold memcmpct in Ecmp. change (Z.to_nat 32) with 32%nat in Ecmp. rewrite Er in Ecmp.
  injection Ecmp as ->. destruct (Z.eqb_spec cmp 0) as [Hz|Hnz]; cbn [negb] in Hrun.
  - apply bind_Some in Hrun as ([[st s] rv] & Ev & Hrun).
    destruct (proj1 Hr Hz) as [_ Heq]. change (Z.to_nat 0) with 0%nat in Heq.
    rewrite !drop_0, (take_ge (hmac _)) in Heq by (rewrite hmac_size; lia).
    destruct (verify_token_outcome _ _ _ _ _ _ _ Ev) as [[-> ->]|[-> Hc]]; cbn [Z.ltb Z.compare] in Hrun.
    + apply bind_Some in Hrun as ([st' m'] & Ep & [= <-]). split; [done|]. right.
      split; [rewrite <- Heq, <- Hm, take_take; f_equal; lia|]. split; [lia|].
      exists m, m', s. done.
    + injection Hrun as <-. split; [done|]. by left.
  - apply bind_Some in Hrun as (? & _ & [= <-]). split; [done|]. left. eexists. split; [|done]. auto.
Qed.
End Thread.

(** ** Examples *)

#[export] Instance log_stat_sink : StatSink log_state := {|
  sink_stat '(e, l) _ := (e + 1, l);
|}.

Definition demo_secure : brubeck_statsd_secure := {| replays := demo; now := 99; drift := 2 |}.

Lemma demo_secure_wf : secure_wf demo_secure.
Proof. split; [apply demo_wf|done..]. Qed.

(** A token of second 100. *)
Definition demo_token : list Z := replicate 32 17 ++ le_bytes 8 100 ++ [1; 2; 3; 4].

Lemma demo_token_bytes : Forall is_byte demo_token.
Proof.
  unfold demo_token. rewrite !Forall_app. split_and!; [by apply Forall_replicate|by apply le_bytes_is_byte|].
  repeat constructor; done.
Qed.

(** Another token of that second, with bytes above 127 in its HMAC. *)
Definition demo_token' : list Z := replicate 32 200 ++ le_bytes 8 100 ++ [1; 2; 3; 4].

Lemma demo_token_bytes' : Forall is_byte demo_token'.
Proof.
  unfold demo_token'. rewrite !Forall_app. split_and!; [by apply Forall_replicate|by apply le_bytes_is_byte|].
  repeat constructor; done.
Qed.

(** Both tokens are verified, and then the first again. *)
Lemma replay_rejected_witness :
  exists s1 s2 s3,
    token_verdict demo_secure demo_token 100 = Some (s1, V_accepted) /\
    verdicts s1 [(100, demo_token'); (101, demo_token')] = Some s2 /\
    token_verdict s2 demo_token 101 = Some (s3, V_replayed) /\
    verify_token ((0, []) : log_state) s2 demo_token 101 = Some (sink_stat (0, []) secure_replayed, s3, -1).
Proof.
  destruct (token_verdict demo_secure demo_token 100) as [[s1 v]|] eqn:E; [|vm_compute in E; congruence].
  assert (v = V_accepted) as -> by (vm_compute in E; congruence).
  destruct (replay_rejected (S := log_state) demo_secure s1 demo_token 100 101
              [(100, demo_token'); (101, demo_token')] demo_secure_wf ltac:(lia) ltac:(lia)
              ltac:(vm_compute; congruence) demo_token_bytes E) as (s2 & s3 & E2 & E3 & Ev).
  - cbn [clock_ok]. split_and!; (vm_compute; congruence) || apply demo_token_bytes'.
  - vm_compute. reflexivity.
  - exists s1, s2, s3. split; [reflexivity|]. split; [exact E2|]. split; [exact E3|]. exact (Ev (0, [])).
Defined.

Lemma replay_accepted_at_drift_witness :
  exists s', verify_token ((0, []) : log_state) demo_secure demo_token 102 = Some ((0, []), s', 0).
Proof.
  apply (replay_accepted_at_drift (0, []) demo_secure demo_token demo_secure_wf);
    [reflexivity|reflexivity|vm_compute; congruence|apply demo_token_bytes|vm_compute; congruence].
Defined.

(** The token above is accepted at second 100, rejected at 101 and accepted
    again at 102. *)
Example replay_window :
  ('(st, s, r1) ← verify_token ((0, []) : log_state) demo_secure demo_token 100;
   '(st, s, r2) ← verify_token st s demo_token 101;
   '(st, s, r3) ← verify_token st s demo_token 102;
   Some (r1, r2, r3)) = Some (0, -1, 0).
Proof. vm_compute. reflexivity. Qed.

Definition demo_secure_worker : secure_worker :=
  {| sw_server := ((0, []) : log_state); sw_statsd := demo_secure; sw_inflow := 5;
     sw_buffer := replicate 1024 0 |}.

Lemma secure_only_authentic_witness :
  exists w', statsd_secure__thread (fun _ => replicate 32 17) demo_secure_worker 100
               (Recv (demo_token ++ bytes "a:1|c")) = Some w' /\
    sw_inflow w' = 6 /\
    (only_counted (0, []) (sw_server w') \/
     take 32 (demo_token ++ bytes "a:1|c") = replicate 32 17 /\
     44 <= Z.of_nat (length (demo_token ++ bytes "a:1|c")) /\
     exists m m' s,
       take (length (demo_token ++ bytes "a:1|c")) m = demo_token ++ bytes "a:1|c" /\
       verify_token ((0, []) : log_state) demo_secure m 100 = Some ((0, []), s, 0) /\
       brubeck_statsd_packet_parse ((0, []) : log_state) m 44 49 = Some (sw_server w', m') /\
       sw_statsd w' = s).
Proof.
  destruct (statsd_secure__thread (fun _ => replicate 32 17) demo_secure_worker 100
              (Recv (demo_token ++ bytes "a:1|c"))) as [w'|] eqn:E; [|vm_compute in E; congruence].
  exists w'. split; [reflexivity|].
  apply (secure_only_authentic (fun _ => replicate 32 17) (fun _ => eq_refl) demo_secure_worker w' 100
           (demo_token ++ bytes "a:1|c") E).
Defined.

End StatsdSecure.
