(* ===== verification/Utils.v ===== *)
(** * Printing numbers and writing to a socket ([src/utils.c], [src/utils.h]) *)

From S2P Require Import Prelude.

Module Utils.

(** ** Integers *)

(** The [do ... while] loop of [brubeck_itoa]: the digits, lowest first. *)
Fixpoint itoa_digits (fuel : nat) (number : Z) : list Z :=
  match fuel with
  | O => []
  | S fuel =>
      (chr "0" + number mod 10) ::
      (if number / 10 =? 0 then [] else itoa_digits fuel (number / 10))
  end.

(** The loop that reverses the digits in place; [origin] and [ptr] are offsets. *)
Fixpoint swap_loop (fuel : nat) (buf : list Z) (origin ptr : Z) : option (list Z) :=
  if origin <? ptr then
    match fuel with
    | O => None
    | S fuel =>
        t ← rd buf ptr;
        o ← rd buf origin;
        buf ← wr buf ptr o;
        buf ← wr buf origin t;
        swap_loop fuel buf (origin + 1) (ptr - 1)
    end
  else Some buf.

(** A 32-bit number has at most ten digits. *)
Definition brubeck_itoa (number : Z) : option (list Z) :=
  let digits := itoa_digits 10 number in
  swap_loop (length digits) digits 0 (Z.of_nat (length digits) - 1).

(** ** Floating-point numbers

    [L] is the bit pattern of the argument. *)

Definition FLOAT_PRECISION : nat := 4.

(** The digit loop behind the point; [sh] is [24 + safe_shift]. *)
Fixpoint frac_loop (n : nat) (frac sh : Z) : list Z :=
  match n with
  | O => []
  | S n =>
      let frac := u64 (u64 (Z.shiftl frac 3) + u64 (Z.shiftl frac 1)) in
      u8 (Z.shiftr frac sh + chr "0") :: frac_loop n (Z.land frac (Z.shiftr (2 ^ 64 - 1) (64 - sh))) sh
  end.

(** The characters left when trailing zeros, and then a trailing point, are
    dropped. *)
Fixpoint trim_rev (l : list Z) : list Z :=
  match l with
  | c :: l' => if c =? chr "0" then trim_rev l'
               else if c =? chr "." then l' else l
  | [] => []
  end.

Definition trim (l : list Z) : list Z := rev (trim_rev (rev l)).

(** [x >> n] of 64 bits, undefined where the amount is not below the width. *)
Definition shr64 (x n : Z) : option Z := if (0 <=? n) && (n <? 64) then Some (Z.shiftr x n) else None.

(** The text before the final trimming, and the text returned.  For [exp2] of
    23 and more the shift that computes [safe_mask] is undefined, although the
    mask is not used there. *)
Definition ftoa_parts (L : Z) : option (list Z * list Z * list Z) :=
  let exp2 := Z.land (Z.shiftr L 23) 255 - 127 in
  let mantissa := Z.lor (Z.land L 16777215) 8388608 in
  let sign := if 2 ^ 31 <=? L then [chr "-"] else [] in
  if exp2 <? -36 then Some (sign, [chr "0"], [])
  else
    let safe_shift := - (exp2 + 1) in
    safe_mask ← shr64 (2 ^ 64 - 1) (64 - 24 - safe_shift);
    let '(int_part, frac_part) :=
      if 64 <=? exp2 then (2 ^ 64 - 1, 0)
      else if 23 <=? exp2 then (u64 (Z.shiftl mantissa (exp2 - 23)), 0)
      else if 0 <=? exp2 then (Z.shiftr mantissa (23 - exp2), Z.land mantissa safe_mask)
      else (0, Z.land mantissa 16777215) in
    int ← (if int_part =? 0 then Some [chr "0"] else brubeck_itoa (u32 int_part));
    Some (sign, int,
          if frac_part =? 0 then [] else chr "." :: frac_loop FLOAT_PRECISION frac_part (24 + safe_shift)).

Definition brubeck_ftoa (L : Z) : option (list Z) :=
  '(sign, int, frac) ← ftoa_parts L;
  Some (if (match frac with [] => true | _ => false end) then sign ++ int
        else trim (sign ++ int ++ frac)).

(** ** Writing *)

(** What a [write] can do: take up to [n] bytes, or fail. *)
Inductive wres := WOk (n : nat) | WAgain | WError.

(** [xwrite] and [write_in_full]: the socket's answers are an input; the result
    is the return value, the bytes sent and the answers left ([None]: the
    answers ran out, the call is blocked). *)
Fixpoint xwrite (count : nat) (rs : list wres) : option (Z * list wres) :=
  match rs with
  | [] => None
  | WAgain :: rs => xwrite count rs
  | WError :: rs => Some (-1, rs)
  | WOk n :: rs => Some (Z.of_nat (Nat.min n count), rs)
  end.

Fixpoint write_loop (fuel : nat) (buf : list Z) (total : Z) (sent : list Z) (rs : list wres)
    : option (Z * list Z * list wres) :=
  match buf with
  | [] => Some (total, sent, rs)
  | _ =>
      match fuel with
      | O => None
      | S fuel =>
          '(written, rs) ← xwrite (length buf) rs;
          if written <? 0 then Some (-1, sent, rs)
          else if written =? 0 then Some (-1, sent, rs)
          else write_loop fuel (drop (Z.to_nat written) buf) (total + written)
                 (sent ++ take (Z.to_nat written) buf) rs
      end
  end.

(** Every turn that goes on sends at least one byte. *)
Definition write_in_full (buf : list Z) (rs : list wres) : option (Z * list Z * list wres) :=
  write_loop (length buf) buf 0 [] rs.

(** ** Strings *)

(** [starts_with] on C strings (with their terminators). *)
Fixpoint starts_with (str prefix : list Z) : option bool :=
  match prefix with
  | [] => None
  | p :: prefix =>
      if p =? 0 then Some true
      else match str with
           | [] => None
           | c :: str => if negb (c =? p) then Some false else starts_with str prefix
           end
  end.

(** [strncmp]: the difference of the first bytes that differ, among the first
    [n] and up to a terminator.  [None]: a read outside the memory. *)
Fixpoint strncmp (s1 s2 : list Z) (n : nat) {struct n} : option Z :=
  match n with
  | O => Some 0
  | S n =>
      match s1, s2 with
      | a :: s1, b :: s2 => if negb (a =? b) then Some (a - b) else if a =? 0 then Some 0 else strncmp s1 s2 n
      | _, _ => None
      end
  end.

(** The loops of [find_substr]: [c] is the first byte sought and [find] the rest,
    with its terminator, of length [len]; [s] is the memory from the current
    byte on, [pos] its offset.  The result is the offset of the occurrence. *)
Fixpoint find_loop (c : Z) (find : list Z) (len : Z) (s : list Z) (slen pos : Z) : option (option Z) :=
  match s with
  | [] => None
  | sc :: s =>
      if (sc =? 0) || (slen <? 1) then Some None
      else
        let slen := slen - 1 in
        if negb (sc =? c) then find_loop c find len s slen (pos + 1)
        else if slen <? len then Some None
        else
          r ← strncmp s find (Z.to_nat len);
          if negb (r =? 0) then find_loop c find len s slen (pos + 1) else Some (Some pos)
  end.

Definition find_substr (s find : list Z) (slen : Z) : option (option Z) :=
  match find with
  | [] => None
  | c :: find =>
      if negb (c =? 0) then
        len ← Z.of_nat ∘ length <$> cstr find;
        find_loop c find len s slen 0
      else Some (Some 0)
  end.

(** [sprintf] of [%d], for an [int] that is not negative. *)
Definition sprintf_d (z : Z) : list Z := rev (itoa_digits 10 z).

(** [atoi]: white space, a sign, digits; [None] when the number is not an
    [int], which C leaves undefined. *)
Definition is_space (c : Z) : bool := (c =? 32) || (9 <=? c) && (c <=? 13).

Fixpoint skip_space (s : list Z) : list Z :=
  match s with
  | c :: s' => if is_space c then skip_space s' else s
  | [] => []
  end.

Fixpoint atoi_digits (s : list Z) (acc : Z) : Z :=
  match s with
  | c :: s' => if (chr "0" <=? c) && (c <=? chr "9") then atoi_digits s' (10 * acc + (c - chr "0")) else acc
  | [] => acc
  end.

Definition atoi (s : list Z) : option Z :=
  let s := skip_space s in
  let '(neg, s) := match s with
                   | c :: s' => if c =? chr "-" then (true, s') else if c =? chr "+" then (false, s') else (false, s)
                   | [] => (false, [])
                   end in
  let z := atoi_digits s 0 in
  let z := if (neg : bool) then - z else z in
  if (- 2 ^ 31 <=? z) && (z <? 2 ^ 31) then Some z else None.

(** ** Correctness of [brubeck_itoa] *)

(** The number that decimal digits denote. *)
Definition denotes (l : list Z) : Z := foldl (fun acc c => 10 * acc + (c - chr "0")) 0 l.

Definition digit (c : Z) : Prop := chr "0" <= c <= chr "9".

Lemma chr_digits : chr "0" = 48 /\ chr "9" = 57.
Proof. done. Qed.

Lemma denotes_snoc l c : denotes (l ++ [c]) = 10 * denotes l + (c - chr "0").
Proof. unfold denotes. by rewrite foldl_app. Qed.

Lemma itoa_digits_spec fuel : forall n,
  0 <= n < 10 ^ Z.of_nat fuel -> (0 < fuel)%nat ->
  let l := itoa_digits fuel n in
  denotes (rev l) = n /\ Forall digit l /\ (1 <= length l <= fuel)%nat /\
  (10 <= n -> List.last l 0 <> chr "0").
Proof.
  induction fuel as [|fuel IH]; intros n Hn Hf; [lia|]. cbn [itoa_digits].
  pose proof (Z.div_mod n 10 ltac:(lia)) as Hdm. pose proof (Z.mod_pos_bound n 10 ltac:(lia)) as Hm.
  pose proof chr_digits as [E0 E9].
  assert (Hd : digit (chr "0" + n mod 10)) by (unfold digit; lia).
  destruct (Z.eqb_spec (n / 10) 0) as [Ez|Ez].
  - cbn [rev app length]. split_and!; [|by constructor|lia|lia|lia].
    unfold denotes. cbn [foldl]. lia.
  - rewrite Nat2Z.inj_succ, Z.pow_succ_r in Hn by lia.
    assert (Hq : 0 <= n / 10 < 10 ^ Z.of_nat fuel).
    { split; [apply Z.div_pos; lia|apply Z.div_lt_upper_bound; lia]. }
    assert (Hf' : (0 < fuel)%nat).
    { destruct fuel; [|lia]. rewrite Z.pow_0_r in Hq. lia. }
    destruct (IH (n / 10) Hq Hf') as (IHd & IHf & IHl & IHt). cbn [rev length].
    rewrite denotes_snoc, IHd. split_and!; [lia|by constructor|lia|lia|].
    intros _. destruct (itoa_digits fuel (n / 10)) as [|c l] eqn:El; [simpl in IHl; lia|].
    cbn [List.last] in *. destruct (Z.le_gt_cases 10 (n / 10)); [by apply IHt|].
    destruct fuel as [|fuel]; [lia|]. cbn [itoa_digits] in El.
    rewrite (Z.div_small (n / 10) 10), Z.eqb_refl in El by lia. injection El as <- <-.
    rewrite Z.mod_small by lia. simpl. lia.
Qed.

(** The reversal in place is [rev]. *)
Lemma swap_loop_rev fuel : forall pre l post,
  (length l <= 2 * fuel + 1)%nat ->
  swap_loop fuel (pre ++ l ++ post) (Z.of_nat (length pre))
    (Z.of_nat (length pre + length l) - 1) = Some (pre ++ rev l ++ post).
Proof.
  induction fuel as [|fuel IH]; intros pre l post Hf; cbn [swap_loop].
  all: destruct (Z.ltb_spec (Z.of_nat (length pre)) (Z.of_nat (length pre + length l) - 1)) as [Hlt|Hge];
    [|destruct l as [|x [|y l]]; [done|done|simpl in Hge; lia]].
  - lia.
  - destruct l as [|x l]; [simpl in Hlt; lia|].
    destruct (exists_last (l := l)) as (mid & y & ->); [by intros ->; simpl in Hlt; lia|].
    set (b := pre ++ (x :: mid ++ [y]) ++ post).
    set (p := Z.of_nat (length pre + length (x :: mid ++ [y])) - 1).
    assert (Hp : p = Z.of_nat (length (pre ++ x :: mid))).
    { unfold p. rewrite !length_app. simpl. rewrite length_app. simpl. lia. }
    assert (Eb : b = (pre ++ x :: mid) ++ y :: post).
    { unfold b. rewrite <- app_assoc. simpl. rewrite <- app_assoc. done. }
    assert (Ry : rd b p = Some y).
    { rewrite Hp, Eb, rd_nat, lookup_app_r, Nat.sub_diag by lia. done. }
    assert (Rx : rd b (Z.of_nat (length pre)) = Some x).
    { unfold b. rewrite rd_nat, lookup_app_r, Nat.sub_diag by lia. done. }
    rewrite Ry, Rx. cbn [mbind option_bind].
    assert (W1 : wr b p x = Some ((pre ++ x :: mid) ++ x :: post)).
    { rewrite Eb, Hp, wr_in by (rewrite (length_app _ (y :: post)); simpl; lia).
      rewrite Nat2Z.id, insert_app_r_alt, Nat.sub_diag by lia. done. }
    rewrite W1. cbn [mbind option_bind].
    assert (W2 : wr ((pre ++ x :: mid) ++ x :: post) (Z.of_nat (length pre)) y =
                   Some ((pre ++ [y]) ++ mid ++ x :: post)).
    { rewrite <- app_assoc. cbn [app]. rewrite wr_in by (rewrite length_app; simpl; lia).
      rewrite Nat2Z.id, insert_app_r_alt, Nat.sub_diag by lia. cbn [insert list_insert].
      rewrite <- app_assoc. done. }
    rewrite W2. cbn [mbind option_bind].
    replace (Z.of_nat (length pre) + 1) with (Z.of_nat (length (pre ++ [y])))
      by (rewrite length_app; simpl; lia).
    replace (p - 1) with (Z.of_nat (length (pre ++ [y]) + length mid) - 1)
      by (rewrite Hp, !length_app; simpl; lia).
    rewrite IH by (simpl in Hf; rewrite length_app in Hf; simpl in Hf; lia).
    cbn [rev]. rewrite rev_app_distr. cbn [rev app]. rewrite <- !app_assoc. done.
Qed.

(** The decimal text of a number: its digits, without leading zeros. *)
Definition decimal_text (n : Z) (l : list Z) : Prop :=
  denotes l = n /\ Forall digit l /\ (1 <= length l)%nat /\ (10 <= n -> head l <> Some (chr "0")).

Lemma itoa_run n :
  fits 32 n -> exists l, brubeck_itoa n = Some l /\ decimal_text n l /\ (length l <= 10)%nat.
Proof.
  intros Hn. unfold brubeck_itoa. unfold fits in Hn.
  destruct (itoa_digits_spec 10 n) as (Hd & Hf & Hl & Ht); [lia|lia|].
  set (l := itoa_digits 10 n) in *.
  pose proof (swap_loop_rev (length l) [] l [] ltac:(lia)) as E. cbn [app length Nat.add] in E.
  change (Z.of_nat 0) with 0 in E. rewrite !app_nil_r in E. rewrite E. exists (rev l).
  split; [done|]. split; [|rewrite length_rev; lia].
  split_and!; [done|by apply Forall_rev|rewrite length_rev; lia|].
  intros H10 Hh. apply (Ht H10). destruct (exists_last (l := l)) as (m & y & El).
  { intros E0. rewrite E0 in Hl. simpl in Hl. lia. }
  rewrite El in Hh |- *. rewrite rev_app_distr in Hh. simpl in Hh. rewrite last_last. congruence.
Qed.

(** Printing a 32-bit number gives its decimal representation: at most ten
    digits that denote the number, without leading zeros. *)
Theorem itoa_decimal (n : Z) (Hn : fits 32 n) :
  exists l, brubeck_itoa n = Some l /\ decimal_text n l /\ (length l <= 10)%nat.
Proof. by apply itoa_run. Qed.

Lemma itoa_decimal_witness :
  exists l, brubeck_itoa 4294967295 = Some l /\ decimal_text 4294967295 l /\ (length l <= 10)%nat.
Proof. apply (itoa_decimal 4294967295). unfold fits. lia. Defined.

Example itoa_1490 : brubeck_itoa 1490 = Some (bytes "1490").
Proof. reflexivity. Qed.

(** ** Correctness of [brubeck_ftoa] *)

(** Sign, mantissa and exponent of the float with bit pattern [L]. *)
Definition float_exp (L : Z) : Z := Z.land (Z.shiftr L 23) 255.
Definition float_man (L : Z) : Z := L mod 2 ^ 23 + (if float_exp L =? 0 then 0 else 2 ^ 23).
Definition float_e (L : Z) : Z := if float_exp L =? 0 then -149 else float_exp L - 150.

(** The magnitude of the float in units of 10^-4, truncated. *)
Definition ten_thousandths (L : Z) : Z :=
  float_man L * 10 ^ 4 * 2 ^ Z.max (float_e L) 0 / 2 ^ Z.max (- float_e L) 0.

Lemma lor_add a b : Z.land a b = 0 -> Z.lor a b = a + b.
Proof. intros E. rewrite <- Z.lxor_lor by done. symmetry. by apply Z.add_nocarry_lxor. Qed.

Lemma ftoa_mantissa L :
  Z.lor (Z.land L 16777215) 8388608 = L mod 2 ^ 23 + 2 ^ 23.
Proof.
  rewrite <- (lor_add (L mod 2 ^ 23)).
  - change 16777215 with (Z.ones 24). change 8388608 with (2 ^ 23).
    rewrite <- Z.land_ones by lia. apply Z.bits_inj'. intros n Hn.
    rewrite !Z.lor_spec, !Z.land_spec, !Z.testbit_ones_nonneg by lia.
    destruct (Z.eq_dec n 23) as [->|]; [by rewrite Z.pow2_bits_true, !orb_true_r by lia|].
    rewrite Z.pow2_bits_false, !orb_false_r by lia. f_equal.
    destruct (Z.ltb_spec n 24), (Z.ltb_spec n 23); done || lia.
  - rewrite <- Z.land_ones by lia. apply Z.bits_inj'. intros n Hn.
    rewrite !Z.land_spec, Z.testbit_ones_nonneg, Z.bits_0 by lia.
    destruct (Z.eq_dec n 23) as [->|]; [by rewrite andb_false_r|].
    rewrite Z.pow2_bits_false, andb_false_r by lia. done.
Qed.

Lemma mask_ones sh : 0 <= sh <= 64 -> Z.shiftr (2 ^ 64 - 1) (64 - sh) = Z.ones sh.
Proof.
  intros Hs. change (2 ^ 64 - 1) with (Z.ones 64). apply Z.bits_inj'. intros n Hn.
  rewrite Z.shiftr_spec, !Z.testbit_ones_nonneg by lia.
  destruct (Z.ltb_spec (n + (64 - sh)) 64), (Z.ltb_spec n sh); done || lia.
Qed.

Lemma denotes_cons c l :
  denotes (c :: l) = (c - chr "0") * 10 ^ Z.of_nat (length l) + denotes l.
Proof.
  induction l as [|d l IH] using rev_ind.
  - unfold denotes. simpl. lia.
  - rewrite app_comm_cons, !denotes_snoc, IH, length_app. cbn [length].
    rewrite Nat2Z.inj_add, Z.pow_add_r by lia. change (10 ^ Z.of_nat 1) with 10. ring.
Qed.

(** The digits behind the point are the fraction in units of 10^-n. *)
Lemma frac_loop_spec n sh : 1 <= sh <= 59 -> forall frac,
  0 <= frac < 2 ^ sh ->
  let l := frac_loop n frac sh in
  length l = n /\ Forall digit l /\ denotes l = frac * 10 ^ Z.of_nat n / 2 ^ sh.
Proof.
  intros Hsh. pose proof (Z.pow_le_mono_r 2 sh 59 ltac:(lia) ltac:(lia)) as H59.
  pose proof (Z.pow_pos_nonneg 2 sh ltac:(lia) ltac:(lia)) as HD.
  change (2 ^ 59) with 576460752303423488 in H59.
  induction n as [|n IH]; intros frac Hf; cbn [frac_loop].
  - split_and!; [done|done|]. rewrite Z.mul_1_r, Z.div_small by done. done.
  - rewrite !Z.shiftl_mul_pow2 by lia. change (2 ^ 3) with 8. change (2 ^ 1) with 2.
    rewrite (wrap_small 64 (frac * 8)), (wrap_small 64 (frac * 2)) by (unfold fits; lia).
    rewrite (wrap_small 64) by (unfold fits; lia).
    replace (frac * 8 + frac * 2) with (10 * frac) by lia.
    rewrite mask_ones, Z.land_ones, Z.shiftr_div_pow2 by lia.
    set (q := 10 * frac / 2 ^ sh). set (r := (10 * frac) mod 2 ^ sh).
    assert (Hq : 0 <= q < 10).
    { unfold q. split; [apply Z.div_pos; lia|apply Z.div_lt_upper_bound; lia]. }
    assert (Hr : 0 <= r < 2 ^ sh) by (apply Z.mod_pos_bound; lia).
    pose proof chr_digits as [E0 E9]. rewrite (wrap_small 8) by (unfold fits; lia).
    destruct (IH r Hr) as (Hl & Hd & Hv). cbn [length]. split_and!.
    + by rewrite Hl.
    + constructor; [unfold digit; lia|done].
    + rewrite denotes_cons, Hl, Hv. rewrite Nat2Z.inj_succ, Z.pow_succ_r by lia.
      replace (frac * (10 * 10 ^ Z.of_nat n)) with ((q * 10 ^ Z.of_nat n) * 2 ^ sh + r * 10 ^ Z.of_nat n).
      * rewrite Z.div_add_l by lia. lia.
      * pose proof (Z.div_mod (10 * frac) (2 ^ sh) ltac:(lia)) as Hdm. fold q r in Hdm.
        replace (frac * (10 * 10 ^ Z.of_nat n)) with (10 * frac * 10 ^ Z.of_nat n) by ring.
        rewrite Hdm. ring.
Qed.

(** A fraction printed with trailing zeros dropped: [r] in units of 10^-4. *)
Definition fraction_text (r : Z) (l : list Z) : Prop :=
  l = [] /\ r = 0 \/
  exists ds k, l = chr "." :: ds /\ Forall digit ds /\ List.last ds 0 <> chr "0" /\
    ds <> [] /\ (length ds + k = 4)%nat /\ denotes (ds ++ replicate k (chr "0")) = r.

Lemma trim_frac x ds :
  Forall digit ds ->
  exists ds' k, ds = ds' ++ replicate k (chr "0") /\
    (ds' = [] /\ trim (x ++ chr "." :: ds) = x \/
     ds' <> [] /\ List.last ds' 0 <> chr "0" /\ trim (x ++ chr "." :: ds) = x ++ chr "." :: ds').
Proof.
  unfold trim. induction ds as [|c ds IH] using rev_ind; intros Hd.
  - exists [], 0%nat. split; [done|]. left. split; [done|].
    rewrite rev_app_distr. cbn [rev app trim_rev]. change (chr "." =? chr "0") with false.
    rewrite Z.eqb_refl. by rewrite rev_involutive.
  - apply Forall_app in Hd as [Hds Hc]. apply Forall_cons_iff in Hc as [Hc _].
    rewrite app_comm_cons, app_assoc, (rev_app_distr _ [c]). cbn [rev app trim_rev].
    destruct (Z.eqb_spec c (chr "0")) as [->|Hne].
    + destruct (IH Hds) as (ds' & k & -> & Hcase). exists ds', (S k).
      split; [by rewrite <- app_assoc, <- replicate_S_end|]. done.
    + exists (ds ++ [c]), 0%nat. split; [by rewrite app_nil_r|]. right.
      split; [by destruct ds|]. split; [by rewrite last_last|].
      destruct (Z.eqb_spec c (chr ".")) as [->|]; [unfold digit in Hc; change (chr ".") with 46 in Hc; change (chr "0") with 48 in Hc; lia|].
      cbn [rev]. rewrite rev_involutive, <- app_assoc. done.
Qed.

(** The integer part and the fraction of the text, for a magnitude of [n] and
    [frac / 2^sh]. *)
Lemma ftoa_text sign n frac sh :
  0 <= n < 2 ^ 32 -> 1 <= sh <= 59 -> 0 <= frac < 2 ^ sh ->
  exists int ftext,
    (int ← (if n =? 0 then Some [chr "0"] else brubeck_itoa (u32 n));
     let f := if frac =? 0 then [] else chr "." :: frac_loop FLOAT_PRECISION frac sh in
     Some (if (match f with [] => true | _ => false end) then sign ++ int
           else trim (sign ++ int ++ f))) = Some (sign ++ int ++ ftext) /\
    decimal_text n int /\ fraction_text (frac * 10 ^ 4 / 2 ^ sh) ftext.
Proof.
  intros Hn Hsh Hf.
  assert (Hi : exists int, (if n =? 0 then Some [chr "0"] else brubeck_itoa (u32 n)) = Some int /\
                 decimal_text n int).
  { destruct (Z.eqb_spec n 0) as [->|].
    - exists [chr "0"]. split; [done|]. split_and!; [done| |simpl; lia|lia].
      repeat constructor; done.
    - rewrite wrap_small by done. destruct (itoa_run n Hn) as (l & E & Hd & _). eauto. }
  destruct Hi as (int & -> & Hint). cbn [mbind option_bind]. exists int.
  destruct (Z.eqb_spec frac 0) as [->|Hne].
  - exists []. rewrite app_nil_r. split_and!; [done|done|]. left. split; [done|].
    by rewrite Z.mul_0_l, Z.div_0_l by lia.
  - destruct (frac_loop_spec FLOAT_PRECISION sh Hsh frac Hf) as (Hl & Hd & Hv).
    cbv zeta. rewrite app_assoc.
    destruct (trim_frac (sign ++ int) _ Hd) as (ds & k & Eds & [[-> E]|(Hds & Hlast & E)]).
    + exists []. rewrite E, app_nil_r. split_and!; [done|done|]. left. split; [done|].
      change 4 with (Z.of_nat FLOAT_PRECISION). rewrite <- Hv, Eds. cbn [app].
      clear. induction k as [|k IH]; [done|]. by rewrite replicate_S_end, denotes_snoc, IH.
    + exists (chr "." :: ds). rewrite E, <- app_assoc. split_and!; [done|done|]. right.
      exists ds, k. split_and!; try done.
      * rewrite Eds in Hd. by apply Forall_app in Hd as [? _].
      * rewrite <- (length_replicate k (chr "0")), <- length_app, <- Eds. exact Hl.
      * by rewrite <- Eds.
Qed.

Lemma float_exp_range L : 0 <= float_exp L < 256.
Proof.
  unfold float_exp. change 255 with (Z.ones 8). rewrite Z.land_ones by lia.
  by apply Z.mod_pos_bound.
Qed.

Lemma ftoa_small L :
  float_exp L < 91 -> ten_thousandths L = 0.
Proof.
  intros Hs. pose proof (float_exp_range L). unfold ten_thousandths, float_man, float_e.
  pose proof (Z.mod_pos_bound L (2 ^ 23) ltac:(lia)).
  assert (He : float_exp L - 150 <= -60) by lia.
  destruct (Z.eqb_spec (float_exp L) 0).
  - rewrite (Z.max_r (-149) 0), (Z.max_l (- -149) 0) by lia.
    apply Z.div_small. change (2 ^ (- -149)) with (2 ^ 149).
    pose proof (Z.pow_le_mono_r 2 60 149). lia.
  - rewrite Z.max_r, Z.max_l by lia. apply Z.div_small.
    pose proof (Z.pow_le_mono_r 2 60 (- (float_exp L - 150)) ltac:(lia) ltac:(lia)). lia.
Qed.

(** The text for an integer part [n] and a fraction [r] of 10^-4. *)
Definition ftoa_result (L : Z) : Prop :=
  exists int ftext,
    brubeck_ftoa L = Some ((if 2 ^ 31 <=? L then [chr "-"] else []) ++ int ++ ftext) /\
    decimal_text (ten_thousandths L / 10 ^ 4) int /\
    fraction_text (ten_thousandths L mod 10 ^ 4) ftext.

(** The result for an exponent that is not small, with the mantissa [M] and the
    value in ten thousandths in terms of it. *)
Ltac ftoa_start L :=
  unfold ftoa_result, brubeck_ftoa, ftoa_parts; rewrite ftoa_mantissa;
  change (Z.land (Z.shiftr L 23) 255) with (float_exp L);
  set (sign := if 2 ^ 31 <=? L then [chr "-"] else []); cbv zeta;
  pose proof (Z.mod_pos_bound L (2 ^ 23) ltac:(lia)) as HF;
  set (M := L mod 2 ^ 23 + 2 ^ 23);
  destruct (Z.ltb_spec (float_exp L - 127) (-36)); [lia|];
  unfold shr64; destruct (Z.leb_spec 0 (64 - 24 - - (float_exp L - 127 + 1))); [|lia];
  destruct (Z.ltb_spec (64 - 24 - - (float_exp L - 127 + 1)) 64); [|lia]; cbn [andb mbind option_bind];
  destruct (Z.leb_spec 64 (float_exp L - 127)); [lia|];
  assert (HT : ten_thousandths L =
            M * 10 ^ 4 * 2 ^ Z.max (float_exp L - 150) 0 / 2 ^ Z.max (150 - float_exp L) 0)
    by (unfold ten_thousandths, float_man, float_e; destruct (Z.eqb_spec (float_exp L) 0); [lia|];
        fold M; do 2 f_equal; lia);
  rewrite HT; clear HT;
  destruct (Z.leb_spec 23 (float_exp L - 127)) as [H23|H23]; try lia;
  try (destruct (Z.leb_spec 0 (float_exp L - 127)) as [Hge0|Hlt0]; try lia).

Lemma ftoa_mixed L : fits 32 L -> 0 <= float_exp L - 127 < 23 -> ftoa_result L.
Proof.
  intros HL Hexp. ftoa_start L.
  rewrite (Z.max_l (150 - float_exp L) 0), (Z.max_r (float_exp L - 150) 0), Z.mul_1_r by lia.
  replace (23 - (float_exp L - 127)) with (150 - float_exp L) by lia.
  replace (24 + - (float_exp L - 127 + 1)) with (150 - float_exp L) by lia.
  replace (64 - 24 - - (float_exp L - 127 + 1)) with (64 - (150 - float_exp L)) by lia.
  set (sh := 150 - float_exp L) in *. assert (Hsh : 1 <= sh <= 23) by lia.
  rewrite mask_ones, Z.land_ones, Z.shiftr_div_pow2 by lia.
  pose proof (Z.pow_pos_nonneg 2 sh ltac:(lia) ltac:(lia)) as HD.
  pose proof (Z.mod_pos_bound M (2 ^ sh) HD). pose proof (Z.div_mod M (2 ^ sh) ltac:(lia)) as Hdm.
  assert (Hq : 0 <= M / 2 ^ sh < 2 ^ 32).
  { split; [apply Z.div_pos; lia|]. apply Z.div_lt_upper_bound; [lia|]. nia. }
  destruct (ftoa_text sign (M / 2 ^ sh) (M mod 2 ^ sh) sh) as (int & ftext & E & Hi & Hf);
    [done|lia|lia|].
  assert (HM : M * 10 ^ 4 / 2 ^ sh = M / 2 ^ sh * 10 ^ 4 + M mod 2 ^ sh * 10 ^ 4 / 2 ^ sh).
  { rewrite Hdm at 1. rewrite <- Z.div_add_l by lia. f_equal. ring. }
  assert (Hfr : 0 <= M mod 2 ^ sh * 10 ^ 4 / 2 ^ sh < 10 ^ 4).
  { split; [apply Z.div_pos; lia|apply Z.div_lt_upper_bound; lia]. }
  exists int, ftext. rewrite <- E. split_and!.
  - destruct (if M / 2 ^ sh =? 0 then _ else _); done.
  - rewrite HM, Z.div_add_l, (Z.div_small _ (10 ^ 4)), Z.add_0_r by lia. done.
  - rewrite HM, Z.add_comm, Z_mod_plus_full, Z.mod_small by lia. done.
Qed.

Lemma ftoa_fraction L : fits 32 L -> -36 <= float_exp L - 127 < 0 -> ftoa_result L.
Proof.
  intros HL Hexp. ftoa_start L.
  rewrite (Z.max_l (150 - float_exp L) 0), (Z.max_r (float_exp L - 150) 0), Z.mul_1_r by lia.
  replace (24 + - (float_exp L - 127 + 1)) with (150 - float_exp L) by lia.
  set (sh := 150 - float_exp L) in *. assert (Hsh : 24 <= sh <= 59) by lia.
  change 16777215 with (Z.ones 24). rewrite Z.land_ones, Z.mod_small by lia.
  pose proof (Z.pow_le_mono_r 2 24 sh ltac:(lia) ltac:(lia)).
  destruct (ftoa_text sign 0 M sh) as (int & ftext & E & Hi & Hf); [lia|lia|lia|].
  assert (Hfr : 0 <= M * 10 ^ 4 / 2 ^ sh < 10 ^ 4).
  { split; [apply Z.div_pos; lia|apply Z.div_lt_upper_bound; lia]. }
  exists int, ftext. rewrite <- E. split_and!; [done| |].
  - by rewrite (Z.div_small _ (10 ^ 4)).
  - by rewrite Z.mod_small.
Qed.

Lemma ftoa_tiny L : fits 32 L -> float_exp L - 127 < -36 -> ftoa_result L.
Proof.
  intros HL Hexp. unfold ftoa_result, brubeck_ftoa, ftoa_parts. rewrite ftoa_mantissa.
  change (Z.land (Z.shiftr L 23) 255) with (float_exp L). cbv zeta.
  destruct (Z.ltb_spec (float_exp L - 127) (-36)); [|lia].
  rewrite (ftoa_small L) by lia. exists [chr "0"], []. cbn [mbind option_bind app].
  split_and!; [done| |by left].
  split_and!; [done| |simpl; lia|done]. repeat constructor; done.
Qed.

Lemma ftoa_run L : fits 32 L -> float_exp L < 127 + 23 -> ftoa_result L.
Proof.
  intros HL Hexp. destruct (Z.lt_ge_cases (float_exp L - 127) (-36)); [by apply ftoa_tiny|].
  destruct (Z.lt_ge_cases (float_exp L - 127) 0); [apply ftoa_fraction|apply ftoa_mixed]; lia || done.
Qed.

(** From 2^23 on the mask is made by a shift of 64 or more. *)
Lemma ftoa_parts_large L : 127 + 23 <= float_exp L -> ftoa_parts L = None.
Proof.
  intros Hexp. unfold ftoa_parts. change (Z.land (Z.shiftr L 23) 255) with (float_exp L). cbv zeta.
  destruct (Z.ltb_spec (float_exp L - 127) (-36)); [lia|]. unfold shr64.
  destruct (Z.ltb_spec (64 - 24 - - (float_exp L - 127 + 1)) 64); [lia|]. by rewrite andb_false_r.
Qed.

Lemma ftoa_large L : 127 + 23 <= float_exp L -> brubeck_ftoa L = None.
Proof. intros Hexp. unfold brubeck_ftoa. by rewrite ftoa_parts_large. Qed.

(** The sizes of the text: [brubeck_ftoa] writes at most 16 characters, and
    keeps a prefix of them. *)
Lemma trim_rev_suffix l : exists k, trim_rev l = drop k l.
Proof.
  induction l as [|c l [k IH]]; cbn [trim_rev]; [by exists 0%nat|].
  destruct (c =? chr "0"); [by exists (S k)|]. destruct (c =? chr "."); [by exists 1%nat|by exists 0%nat].
Qed.

Lemma trim_prefix l : exists k, l = trim l ++ k.
Proof.
  unfold trim. destruct (trim_rev_suffix (rev l)) as [k ->]. exists (rev (take k (rev l))).
  by rewrite <- rev_app_distr, take_drop, rev_involutive.
Qed.

Lemma frac_loop_length n f sh : length (frac_loop n f sh) = n.
Proof. revert f. induction n as [|n IH]; intros f; cbn [frac_loop length]; [done|]. by rewrite IH. Qed.

Lemma ftoa_sizes L :
  float_exp L < 127 + 23 -> exists sign int frac text rest,
    ftoa_parts L = Some (sign, int, frac) /\ brubeck_ftoa L = Some text /\
    sign ++ int ++ frac = text ++ rest /\ (length (sign ++ int ++ frac) <= 16)%nat.
Proof.
  intros Hexp.
  assert (Hparts : exists sign int frac, ftoa_parts L = Some (sign, int, frac) /\
            (length (sign ++ int ++ frac) <= 16)%nat).
  { unfold ftoa_parts. change (Z.land (Z.shiftr L 23) 255) with (float_exp L). cbv zeta.
    assert (Hs : (length (if (2 ^ 31 <=? L)%Z then [chr "-"] else []) <= 1)%nat) by (case_match; simpl; lia).
    destruct (Z.ltb_spec (float_exp L - 127) (-36)); [do 3 eexists; split; [done|]; rewrite !length_app; simpl; lia|].
    unfold shr64. destruct (Z.leb_spec 0 (64 - 24 - - (float_exp L - 127 + 1))); [|lia].
    destruct (Z.ltb_spec (64 - 24 - - (float_exp L - 127 + 1)) 64); [|lia]. cbn [andb mbind option_bind].
    match goal with |- context [let '(_, _) := ?t in _] => destruct t as [ip fp] end.
    assert (Hi : exists int, (if ip =? 0 then Some [chr "0"] else brubeck_itoa (u32 ip)) = Some int /\
              (length int <= 10)%nat).
    { destruct (ip =? 0); [eexists; split; [done|simpl; lia]|].
      destruct (itoa_run (u32 ip)) as (l & -> & _ & Hl); [by apply wrap_fits|eauto]. }
    destruct Hi as (int & -> & Hi). cbn [mbind option_bind]. do 3 eexists. split; [done|].
    rewrite !length_app. destruct (fp =? 0); cbn [length]; [lia|]. rewrite frac_loop_length.
    unfold FLOAT_PRECISION. lia. }
  destruct Hparts as (sign & int & frac & E & Hl). unfold brubeck_ftoa. rewrite E.
  cbn [mbind option_bind]. exists sign, int, frac. destruct frac as [|d frac].
  - do 2 eexists. split_and!; [done|done| |done]. by rewrite !app_nil_r.
  - destruct (trim_prefix (sign ++ int ++ d :: frac)) as [rest Hr]. do 2 eexists. by split_and!.
Qed.

(** C31: printing a float of magnitude below 2^23 gives its sign and its
    magnitude truncated to four decimals: the integer part in decimal, then,
    unless all four are zero, a point and the decimals without trailing
    zeros.  From 2^23 on, infinities and NaN included, the code shifts a 64-bit
    number by 64 or more bits, which C does not define. *)
Theorem ftoa_truncates (L : Z) (HL : fits 32 L) :
  (float_exp L < 127 + 23 -> exists int ftext,
    brubeck_ftoa L = Some ((if 2 ^ 31 <=? L then [chr "-"] else []) ++ int ++ ftext) /\
    decimal_text (ten_thousandths L / 10 ^ 4) int /\
    fraction_text (ten_thousandths L mod 10 ^ 4) ftext) /\
  (127 + 23 <= float_exp L -> brubeck_ftoa L = None).
Proof. split; [by apply ftoa_run|apply ftoa_large]. Qed.

(** 1234.567 as a float. *)
Lemma ftoa_truncates_witness :
  exists int ftext,
    brubeck_ftoa 1150964261 = Some ([] ++ int ++ ftext) /\
    decimal_text 1234 int /\ fraction_text 5670 ftext.
Proof. apply (proj1 (ftoa_truncates 1150964261 ltac:(unfold fits; lia))). reflexivity. Defined.

(** ** Correctness of [write_in_full] *)

(** The answers that leave the call waiting for more. *)
Definition pending (r : wres) : Prop := r = WAgain \/ exists n, r = WOk (S n).

Lemma xwrite_spec count rs :
  match xwrite count rs with
  | None => Forall pending rs
  | Some (w, rs') =>
      exists skipped r, rs = skipped ++ r :: rs' /\ Forall pending skipped /\
        match r with
        | WOk n => w = Z.of_nat (Nat.min n count)
        | WAgain => False
        | WError => w = -1
        end
  end.
Proof.
  induction rs as [|r rs IH]; cbn [xwrite]; [done|]. destruct r as [n| |].
  - exists [], (WOk n). done.
  - destruct (xwrite count rs) as [[w rs']|].
    + destruct IH as (sk & r & -> & Hsk & Hr). exists (WAgain :: sk), r. split_and!; [done| |done].
      constructor; [by left|done].
    + constructor; [by left|done].
  - exists [], WError. done.
Qed.

Lemma write_loop_spec fuel : forall buf total sent rs,
  (length buf <= fuel)%nat ->
  match write_loop fuel buf total sent rs with
  | None => Forall pending rs
  | Some (r, sent', _) =>
      r = total + Z.of_nat (length buf) /\ sent' = sent ++ buf \/
      r = -1 /\ exists pre rest, buf = pre ++ rest /\ rest <> [] /\ sent' = sent ++ pre
  end.
Proof.
  induction fuel as [|fuel IH]; intros buf total sent rs Hf;
    (destruct buf as [|c buf]; [left; simpl; split; [lia|by rewrite app_nil_r]|]);
    [simpl in Hf; lia|].
  cbn [write_loop]. pose proof (xwrite_spec (length (c :: buf)) rs) as Hx.
  destruct (xwrite (length (c :: buf)) rs) as [[w rs']|]; cbn [mbind option_bind]; [|done].
  destruct Hx as (sk & r & Ers & Hsk & Hw).
  assert (Hstop : forall w', w' = -1 \/ w' = 0 -> w = w' ->
    (if w <? 0 then Some (-1, sent, rs') else if w =? 0 then Some (-1, sent, rs')
     else write_loop fuel (drop (Z.to_nat w) (c :: buf)) (total + w)
            (sent ++ take (Z.to_nat w) (c :: buf)) rs') = Some (-1, sent, rs')).
  { intros w' [-> | ->] ->; done. }
  destruct (Z.le_gt_cases w 0) as [Hle|Hgt].
  - rewrite (Hstop w); [| |done].
    + right. split; [done|]. exists [], (c :: buf). by rewrite app_nil_r.
    + destruct r; lia.
  - destruct (Z.ltb_spec w 0), (Z.eqb_spec w 0); try lia.
    destruct r as [take_n| |]; [|done|lia]. set (k := Nat.min take_n (length (c :: buf))) in *.
    assert (Ek : Z.to_nat w = k) by lia. rewrite Ek.
    assert (Hk : (1 <= k <= length (c :: buf))%nat) by lia.
    specialize (IH (drop k (c :: buf)) (total + w) (sent ++ take k (c :: buf)) rs').
    rewrite length_drop in IH. specialize (IH ltac:(lia)).
    destruct (write_loop fuel _ _ _ _) as [[[r' sent'] rs'']|].
    + destruct IH as [[-> ->]|[-> (pre & rest & Eb & Hr & ->)]].
      * left. split; [lia|]. by rewrite <- app_assoc, take_drop.
      * right. split; [done|]. exists (take k (c :: buf) ++ pre), rest.
        split_and!; [|done|by rewrite app_assoc]. by rewrite <- app_assoc, <- Eb, take_drop.
    + rewrite Ers. apply Forall_app. split; [done|]. constructor; [|done]. right.
      exists (pred take_n). f_equal. lia.
Qed.

Lemma write_in_full_cases buf rs :
  match write_in_full buf rs with
  | None => Forall pending rs
  | Some (r, sent, _) =>
      r = Z.of_nat (length buf) /\ sent = buf \/
      r = -1 /\ exists rest, rest <> [] /\ buf = sent ++ rest
  end.
Proof.
  pose proof (write_loop_spec (length buf) buf 0 [] rs ltac:(lia)) as H. unfold write_in_full.
  destruct (write_loop _ _ _ _ _) as [[[r sent] rs']|]; [|done].
  destruct H as [[-> ->]|[-> (pre & rest & E & Hr & ->)]]; [by left|].
  right. split; [done|]. by exists rest.
Qed.

(** [write_in_full] sends the whole buffer, in order and once, however the
    socket splits the writes and however often it asks to try again, and
    returns its length; or it returns -1 after an error or an empty write,
    having sent a proper prefix.  It waits only while the socket has neither
    failed nor taken everything. *)
Theorem write_in_full_complete (buf : list Z) (rs : list wres) :
  match write_in_full buf rs with
  | None => Forall pending rs
  | Some (r, sent, _) =>
      r = Z.of_nat (length buf) /\ sent = buf \/
      r = -1 /\ exists rest, rest <> [] /\ buf = sent ++ rest
  end.
Proof. apply write_in_full_cases. Qed.

Example write_in_full_split :
  write_in_full (bytes "abcde") [WOk 2; WAgain; WOk 1; WOk 9; WError] = Some (5, bytes "abcde", [WError]).
Proof. reflexivity. Qed.

(** ** Prefixes *)

(** On C strings, [starts_with] reads no byte behind a terminator and decides
    the prefix relation. *)
Lemma starts_with_prefix (prefix s : list Z) :
  Forall (fun b => b <> 0) prefix ->
  starts_with (s ++ [0]) (prefix ++ [0]) = Some (bool_decide (prefix `prefix_of` s)).
Proof.
  intros Hp. revert s. induction Hp as [|p prefix Hp0 Hp IH]; intros [|c s]; cbn [starts_with app];
    try (rewrite bool_decide_eq_true_2 by apply prefix_nil; done);
    (destruct (Z.eqb_spec p 0); [done|]).
  - rewrite bool_decide_eq_false_2 by apply prefix_nil_not. destruct (Z.eqb_spec 0 p); [lia|done].
  - destruct (Z.eqb_spec c p) as [->|Hne]; cbn [negb].
    + rewrite IH. f_equal. apply bool_decide_ext. split; [apply prefix_cons|apply prefix_cons_inv_2].
    + rewrite bool_decide_eq_false_2; [done|]. intros E%prefix_cons_inv_1. congruence.
Qed.

(** ** Substrings *)

(** The least offset at which [f] occurs in [t]. *)
Fixpoint search (f t : list Z) (pos : Z) : option Z :=
  if bool_decide (f `prefix_of` t) then Some pos
  else match t with [] => None | _ :: t => search f t (pos + 1) end.

Lemma strncmp_prefix f s r1 r2 :
  nul_free f -> nul_free s ->
  exists d, strncmp (s ++ 0 :: r1) (f ++ 0 :: r2) (length f) = Some d /\ (d = 0 <-> f `prefix_of` s).
Proof.
  intros Hf. revert s. induction Hf as [|b f Hb Hf IH]; intros s Hs; cbn [length app strncmp].
  - exists 0. split; [done|]. split; [intros _; apply prefix_nil|done].
  - destruct s as [|a s]; cbn [app].
    + destruct (Z.eqb_spec 0 b); [congruence|]. cbn [negb]. exists (0 - b). split; [done|].
      split; [lia|by intros ?%prefix_nil_not].
    + inversion Hs as [|? ? Ha Hs']; subst. destruct (Z.eqb_spec a b) as [->|Hne]; cbn [negb].
      * destruct (Z.eqb_spec b 0); [done|]. destruct (IH s Hs') as (d & E & Hd). exists d. split; [done|].
        rewrite Hd. split; [apply prefix_cons|apply prefix_cons_inv_2].
      * exists (a - b). split; [done|]. split; [lia|]. intros Hp%prefix_cons_inv_1. congruence.
Qed.

Lemma search_long f t pos : (length t < length f)%nat -> search f t pos = None.
Proof.
  revert pos. induction t as [|a t IH]; intros pos Hl; cbn [search].
  - rewrite bool_decide_eq_false_2; [done|]. intros Hp%prefix_length. simpl in *. lia.
  - rewrite bool_decide_eq_false_2; [apply IH; simpl in *; lia|]. intros Hp%prefix_length. simpl in *. lia.
Qed.

Lemma prefix_window (f s : list Z) n :
  f `prefix_of` take n s <-> f `prefix_of` s /\ (length f <= n)%nat.
Proof.
  split.
  - intros Hp. split; [etrans; [done|apply prefix_take]|].
    apply prefix_length in Hp. rewrite length_take in Hp. lia.
  - intros [[k ->] Hl]. rewrite take_app_ge by done. by apply prefix_app_r.
Qed.

Lemma find_loop_search c f r1 r2 (Hc : c <> 0) (Hf : nul_free f) s : forall slen pos,
  nul_free s -> 0 <= slen ->
  find_loop c (f ++ 0 :: r2) (Z.of_nat (length f)) (s ++ 0 :: r1) slen pos =
    Some (search (c :: f) (take (Z.to_nat slen) s) pos).
Proof.
  induction s as [|sc s IH]; intros slen pos Hs Hl; cbn [app find_loop].
  - rewrite take_nil. cbn [Z.eqb orb search]. by rewrite bool_decide_eq_false_2 by apply prefix_nil_not.
  - inversion Hs as [|? ? Hsc Hs']; subst. destruct (Z.eqb_spec sc 0); [done|]. cbn [orb].
    destruct (Z.ltb_spec slen 1) as [H1|H1].
    { replace (Z.to_nat slen) with 0%nat by lia. cbn [take search].
      by rewrite bool_decide_eq_false_2 by apply prefix_nil_not. }
    replace (Z.to_nat slen) with (S (Z.to_nat (slen - 1))) by lia. cbn [take search].
    destruct (Z.eqb_spec sc c) as [->|Hne]; cbn [negb].
    2: { rewrite bool_decide_eq_false_2 by (intros Hp%prefix_cons_inv_1; congruence). apply IH; [done|lia]. }
    destruct (Z.ltb_spec (slen - 1) (Z.of_nat (length f))) as [Hlen|Hlen].
    { pose proof (search_long (c :: f) (c :: take (Z.to_nat (slen - 1)) s) pos) as Hn. cbn [search] in Hn.
      rewrite Hn; [done|]. cbn [length]. rewrite length_take. lia. }
    destruct (strncmp_prefix f s r1 r2 Hf Hs') as (d & E & Hd). rewrite Nat2Z.id, E. cbn [mbind option_bind].
    assert (Hp : c :: f `prefix_of` c :: take (Z.to_nat (slen - 1)) s <-> d = 0).
    { rewrite Hd. split.
      - intros Hp%prefix_cons_inv_2. by apply prefix_window in Hp as [? _].
      - intros Hp. apply prefix_cons, prefix_window. split; [done|lia]. }
    destruct (Z.eqb_spec d 0) as [->|Hne]; cbn [negb].
    + by rewrite bool_decide_eq_true_2 by tauto.
    + rewrite bool_decide_eq_false_2 by tauto. apply IH; [done|lia].
Qed.

(** C28: [find_substr] is substring search: on C strings it returns, reads
    nothing outside them, and finds the first occurrence of [f] among the first
    [slen] bytes of [s], or none if there is none. *)
Theorem find_substr_search (s f r1 r2 : list Z) (slen : Z)
  (Hs : nul_free s) (Hf : nul_free f) (Hl : 0 <= slen) :
  find_substr (s ++ 0 :: r1) (f ++ 0 :: r2) slen = Some (search f (take (Z.to_nat slen) s) 0).
Proof.
  destruct Hf as [|c f Hc Hf]; cbn [app find_substr].
  - cbn [Z.eqb negb]. destruct (take _ s); cbn [search]; by rewrite bool_decide_eq_true_2 by apply prefix_nil.
  - destruct (Z.eqb_spec c 0); [done|]. cbn [negb]. rewrite cstr_app by done.
    cbn [fmap option_fmap option_map compose mbind option_bind]. by apply find_loop_search.
Qed.

Lemma find_substr_search_witness :
  find_substr (bytes "a.b.cab" ++ 0 :: []) (bytes "ab" ++ 0 :: []) 7 = Some (Some 5).
Proof.
  rewrite find_substr_search; [reflexivity| | |lia]; by apply (bool_decide_unpack (nul_free _)).
Defined.

End Utils.
