(* ===== verification/Net.v ===== *)
(** * Addresses and sockets ([src/utils.c], [src/sampler.c])

    Starting the daemon is a sequence of system calls, any of which may fail.
    A program of this part is a function of the calls made so far that returns
    a value, ends the process, or does what C leaves undefined; the answers of
    the kernel are a parameter, a function of the calls made and of the call. *)

From stdpp Require Import sets.
From S2P Require Import Prelude Utils.
Import Utils.

Module Net.

(** ** Addresses *)

Definition AF_INET : Z := 2.

(** [struct sockaddr_in]: the port is the 16-bit field, in network order; the
    address is its four bytes. *)
Record sockaddr_in := { sin_family : Z; sin_port : Z; sin_addr : list Z }.

#[export] Instance sockaddr_in_eq_dec : EqDecision sockaddr_in.
Proof. solve_decision. Defined.

(** Both directions swap the bytes of a 16-bit number. *)
Definition htons (x : Z) : Z := le_combine (reverse (le_bytes 2 x)).
Definition ntohs (x : Z) : Z := htons x.

Lemma le_bytes_combine l : Forall is_byte l -> le_bytes (length l) (le_combine l) = l.
Proof.
  induction 1 as [|b l Hb Hl IH]; cbn [length le_bytes le_combine]; [done|].
  unfold is_byte, fits in Hb. f_equal.
  - unfold wrap. rewrite Z.mul_comm, Z_mod_plus_full, Z.mod_small; lia.
  - rewrite Z.shiftr_div_pow2 by lia. change (2 ^ 8) with 256 in *.
    rewrite Z.mul_comm, Z.div_add, Z.div_small by lia. exact IH.
Qed.

(** The port that is read back from an address is the configured one, as a
    16-bit number. *)
Lemma ntohs_htons x : ntohs (htons x) = u16 x.
Proof.
  unfold ntohs, htons.
  pose proof (le_bytes_combine (reverse (le_bytes 2 x))) as Hb.
  rewrite length_reverse, le_bytes_length in Hb.
  rewrite Hb by (apply Forall_reverse, le_bytes_is_byte).
  by rewrite reverse_involutive, le_combine_bytes.
Qed.

(** ** Programs *)

Inductive brubeck_thread :=
| t_backend (shard_n : Z)
| t_statsd
| t_statsd_secure
(* of the clients in [test-bin/] *)
| t_report
| t_spam
| t_balancer.

Inductive call :=
| c_socket
| c_setsockopt (fd : Z) (option_ : string) (value : Z)
| c_bind (fd : Z) (addr : sockaddr_in)
| c_fcntl (fd : Z) (flags : option Z)
| c_pthread_create (t : brubeck_thread)
| c_signal_ignore (signo : Z)
| c_sigprocmask (mask : list Z)
| c_signalfd (mask : list Z)
| c_timerfd_create
| c_timerfd_settime (fd interval : Z)
| c_mhd_start (port : Z)
| c_malloc (what : string)
| c_calloc (what : string)
| c_malloc_bytes (size : Z)
| c_calloc_bytes (size : Z)
| c_free (ptr : Z)
| c_sendto (fd : Z) (data : list Z) (addr : sockaddr_in)
| c_close (fd : Z).

(** An entry of the list that [getaddrinfo] returns. *)
Record addrinfo := { ai_family : Z; ai_addrlen : Z; ai_addr : sockaddr_in }.

Definition sizeof_sockaddr_in : Z := 16.

Class Kernel := {
  answer : list call -> call -> Z;
  getaddrinfo : list Z -> option (list addrinfo);
}.

Inductive result (A : Type) :=
| Ret (a : A)
| Exit (message : string)
| Undefined.
Arguments Ret {A}. Arguments Exit {A}. Arguments Undefined {A}.

Definition program (A : Type) : Type := list call -> result A * list call.

#[export] Instance program_ret : MRet program := fun A a tr => (Ret a, tr).

#[export] Instance program_bind : MBind program := fun A B k m tr =>
  match m tr with
  | (Ret a, tr) => k a tr
  | (Exit msg, tr) => (Exit msg, tr)
  | (Undefined, tr) => (Undefined, tr)
  end.

Definition die {A} (msg : string) : program A := fun tr => (Exit msg, tr).
Definition undefined {A} : program A := fun tr => (Undefined, tr).

(** A step of the model that is undefined when it has no value. *)
Definition defined {A} (o : option A) : program A :=
  match o with Some a => mret a | None => undefined end.

Section Net.
Context `{Kernel}.

Definition sys (c : call) : program Z := fun tr => (Ret (answer tr c), tr ++ [c]).

(** ** [src/utils.h] *)

(** The allocation of a structure or an array; the pointer is not null. *)
Definition xmalloc (what : string) : program Z :=
  ptr ← sys (c_malloc what);
  if ptr =? 0 then die "oom" else mret ptr.

Definition xcalloc (what : string) : program Z :=
  ptr ← sys (c_calloc what);
  if ptr =? 0 then die "oom" else mret ptr.

(** The same for a size that the caller computes. *)
Definition xmalloc_bytes (size : Z) : program Z :=
  ptr ← sys (c_malloc_bytes size);
  if ptr =? 0 then die "oom" else mret ptr.

Definition xcalloc_bytes (size : Z) : program Z :=
  ptr ← sys (c_calloc_bytes size);
  if ptr =? 0 then die "oom" else mret ptr.

(** ** [src/utils.c] *)

Definition LARGE_SOCK_SIZE : Z := 33554431.
Definition O_NONBLOCK : Z := 2048.

Definition sock_setnonblock (fd : Z) : program unit :=
  flags ← sys (c_fcntl fd None);
  r ← sys (c_fcntl fd (Some (Z.lor flags O_NONBLOCK)));
  if r <? 0 then die "Failed to set O_NONBLOCK" else mret tt.

Definition sock_setreuse (fd reuse : Z) : program unit :=
  r ← sys (c_setsockopt fd "SO_REUSEADDR" reuse);
  if r =? -1 then die "Failed to set SO_REUSEADDR" else mret tt.

Definition sock_enlarge_in (fd : Z) : program unit :=
  r ← sys (c_setsockopt fd "SO_RCVBUF" LARGE_SOCK_SIZE);
  if r =? -1 then die "Failed to set SO_RCVBUF" else mret tt.

Definition sock_enlarge_out (fd : Z) : program unit :=
  r ← sys (c_setsockopt fd "SO_SNDBUF" LARGE_SOCK_SIZE);
  if r =? -1 then die "Failed to set SO_SNDBUF" else mret tt.

Definition sock_setreuse_port (fd reuse : Z) : program unit :=
  r ← sys (c_setsockopt fd "SO_REUSEPORT" reuse);
  if r =? -1 then die "failed to set SO_REUSEPORT" else mret tt.

(** The loop that looks for an IPv4 address: its condition reads [result], the
    head of the list, and not the entry [rp] that the loop is at. *)
Fixpoint find_inet (result : addrinfo) (rp : list addrinfo) : option addrinfo :=
  match rp with
  | [] => None
  | r :: rp =>
      if (ai_family result =? AF_INET) && (ai_addrlen result =? sizeof_sockaddr_in) then Some r
      else find_inet result rp
  end.

Definition url_to_inaddr2 (url : option (list Z)) (port : Z) : program sockaddr_in :=
  match url with
  | Some url =>
      match getaddrinfo url with
      | None => die "failed to resolve address"
      | Some result =>
          match (r ← head result; find_inet r result) with
          | None => die "address format not supported"
          | Some rp => mret {| sin_family := sin_family (ai_addr rp); sin_port := htons port;
                               sin_addr := sin_addr (ai_addr rp) |}
          end
      end
  | None => mret {| sin_family := AF_INET; sin_port := htons port; sin_addr := replicate 4 0 |}
  end.

(** ** [src/sampler.c] *)

Inductive brubeck_sampler_t := BRUBECK_SAMPLER_STATSD | BRUBECK_SAMPLER_STATSD_SECURE.

Record brubeck_sampler := {
  sampler_type : brubeck_sampler_t;
  in_sock : Z;
  addr : sockaddr_in;
  inflow : Z;
  current_flow : Z;
}.

Definition brubeck_sampler_init_inet (sampler : brubeck_sampler) (url : list Z) (port : Z)
    : program brubeck_sampler :=
  a ← url_to_inaddr2 (Some url) port;
  mret {| sampler_type := sampler_type sampler; in_sock := in_sock sampler; addr := a;
          inflow := inflow sampler; current_flow := current_flow sampler |}.

(** (The assertion that [sock] is not negative is not compiled in.) *)
Definition brubeck_sampler_socket (sampler : brubeck_sampler) (multisock : bool) : program Z :=
  sock ← sys c_socket;
  _ ← sock_enlarge_in sock;
  _ ← sock_setreuse sock 1;
  _ ← (if multisock then sock_setreuse_port sock 1 else mret tt);
  r ← sys (c_bind sock (addr sampler));
  if r <? 0 then die "failed to bind socket" else mret sock.

Definition set_in_sock (s : brubeck_sampler) (fd : Z) : brubeck_sampler :=
  {| sampler_type := sampler_type s; in_sock := fd; addr := addr s;
     inflow := inflow s; current_flow := current_flow s |}.

(** ** Reasoning

    [post m C Q]: whatever calls came before, the program ends the process, or
    returns a value with [Q], or is undefined for one of the causes [C], which
    may speak of the calls made. *)
Definition post {A} (m : program A) (C : list call -> Prop) (Q : A -> Prop) : Prop :=
  forall tr, match m tr with (Ret a, _) => Q a | (Exit _, _) => True | (Undefined, tr') => C tr' end.

Lemma post_ret {A} (a : A) C (Q : A -> Prop) : Q a -> post (mret a) C Q.
Proof. by intros Hq tr. Qed.

Lemma post_bind {A B} (m : program A) (k : A -> program B) C Q R :
  post m C R -> (forall a, R a -> post (k a) C Q) -> post (mbind k m) C Q.
Proof.
  intros Hm Hk tr. specialize (Hm tr). unfold mbind, program_bind.
  destruct (m tr) as [[a|msg|] tr']; [by apply Hk|done|done].
Qed.

Lemma post_die {A} msg C (Q : A -> Prop) : post (die msg) C Q.
Proof. by intros tr. Qed.

Lemma post_undefined {A} (C : list call -> Prop) (Q : A -> Prop) : (forall tr, C tr) -> post undefined C Q.
Proof. intros HC tr. apply HC. Qed.

Lemma post_sys c C Q : (forall r, Q r) -> post (sys c) C Q.
Proof. intros Hq tr. apply Hq. Qed.

Lemma post_defined {A} (o : option A) (C : list call -> Prop) (Q : A -> Prop) :
  (forall a, o = Some a -> Q a) -> (o = None -> forall tr, C tr) -> post (defined o) C Q.
Proof. intros HQ HC tr. destruct o; [by apply HQ|by apply HC]. Qed.

Lemma post_weaken {A} (m : program A) (C C' : list call -> Prop) (Q Q' : A -> Prop) :
  post m C Q -> (forall tr, C tr -> C' tr) -> (forall a, Q a -> Q' a) -> post m C' Q'.
Proof.
  intros Hm HC HQ tr. specialize (Hm tr). destruct (m tr) as [[a|msg|] tr']; [by apply HQ|done|by apply HC].
Qed.
End Net.

(** The common cases of a [post] goal. *)
Create HintDb net.
#[export] Hint Resolve post_die post_sys post_ret : net.

Ltac post_step :=
  match goal with
  | |- post (mret _) _ _ => apply post_ret
  | |- post (die _) _ _ => apply post_die
  | |- post (sys _) _ _ => apply post_sys; intros
  | |- post (mbind _ (sys _)) _ _ => eapply (post_bind _ _ _ _ (fun _ => True)); [by apply post_sys|intros ? _]
  | |- post (if ?b then _ else _) _ _ => let E := fresh "E" in destruct b eqn:E
  end.

Section NetFacts.
Context `{Kernel}.

Lemma post_xmalloc what C : post (xmalloc what) C (fun ptr => ptr <> 0).
Proof. unfold xmalloc. repeat post_step. by apply Z.eqb_neq. Qed.

Lemma post_xcalloc what C : post (xcalloc what) C (fun ptr => ptr <> 0).
Proof. unfold xcalloc. repeat post_step. by apply Z.eqb_neq. Qed.

Lemma post_xmalloc_bytes size C : post (xmalloc_bytes size) C (fun ptr => ptr <> 0).
Proof. unfold xmalloc_bytes. repeat post_step. by apply Z.eqb_neq. Qed.

Lemma post_xcalloc_bytes size C : post (xcalloc_bytes size) C (fun ptr => ptr <> 0).
Proof. unfold xcalloc_bytes. repeat post_step. by apply Z.eqb_neq. Qed.

Lemma post_setreuse fd r C : post (sock_setreuse fd r) C (fun _ => True).
Proof. unfold sock_setreuse. repeat post_step; done. Qed.

Lemma post_setreuse_port fd r C : post (sock_setreuse_port fd r) C (fun _ => True).
Proof. unfold sock_setreuse_port. repeat post_step; done. Qed.

(** A returned address carries the configured port. *)
Lemma post_url url port C : post (url_to_inaddr2 url port) C (fun a => ntohs (sin_port a) = u16 port).
Proof.
  unfold url_to_inaddr2. destruct url as [url|]; [|apply post_ret, ntohs_htons].
  destruct (getaddrinfo url) as [l|]; [|apply post_die]. destruct (head l ≫= _); [|apply post_die].
  apply post_ret, ntohs_htons.
Qed.

(** What [setsockopt] documents for a descriptor that is not open. *)
Class KernelLaws := {
  kl_badfd tr fd o v : fd < 0 -> answer tr (c_setsockopt fd o v) = -1;
}.

(** A negative descriptor does not get past the first option. *)
Lemma post_enlarge_in_fd `{!KernelLaws} fd C : post (sock_enlarge_in fd) C (fun _ => 0 <= fd).
Proof.
  intros tr. unfold sock_enlarge_in, mbind, program_bind, sys. cbn [fst].
  destruct (Z.ltb_spec fd 0) as [Hfd|Hfd]; [by rewrite kl_badfd|]. by destruct (_ =? -1).
Qed.

Lemma post_socket `{!KernelLaws} s multisock C : post (brubeck_sampler_socket s multisock) C (fun fd => 0 <= fd).
Proof.
  unfold brubeck_sampler_socket. post_step.
  eapply post_bind; [apply post_enlarge_in_fd|intros u Hfd; cbv beta in Hfd]. eapply post_bind; [apply post_setreuse|intros _ _].
  apply (post_bind _ _ _ _ (fun _ => True)); [destruct multisock; [apply post_setreuse_port|by apply post_ret]|].
  intros _ _. repeat post_step. done.
Qed.

(** The calls of a successful [brubeck_sampler_socket]: the socket is bound last,
    to the sampler's address, with every option set before. *)
Definition socket_calls (fd : Z) (a : sockaddr_in) (multisock : bool) : list call :=
  [c_socket; c_setsockopt fd "SO_RCVBUF" LARGE_SOCK_SIZE; c_setsockopt fd "SO_REUSEADDR" 1] ++
  (if multisock then [c_setsockopt fd "SO_REUSEPORT" 1] else []) ++ [c_bind fd a].

Lemma socket_trace s multisock tr fd tr' :
  brubeck_sampler_socket s multisock tr = (Ret fd, tr') -> tr' = tr ++ socket_calls fd (addr s) multisock.
Proof.
  unfold brubeck_sampler_socket, sock_enlarge_in, sock_setreuse, sock_setreuse_port, mbind, program_bind, sys,
    socket_calls.
  destruct multisock; repeat (cbn [mret program_ret die];
    match goal with |- context [if ?b then _ else _] => destruct b end; try done);
    cbn [mret program_ret]; intros [= <- <-]; by rewrite <- !app_assoc.
Qed.

(** What [getaddrinfo] documents for the hint [ai_family = AF_INET]: a list that
    is not empty, of IPv4 addresses. *)
Definition inet_list (l : list addrinfo) : Prop :=
  l <> [] /\ Forall (fun r => ai_family r = AF_INET /\ ai_addrlen r = sizeof_sockaddr_in) l.

Lemma find_inet_first r l :
  inet_list (r :: l) -> find_inet r (r :: l) = Some r.
Proof.
  intros [_ Hl]. inversion Hl as [|? ? [Hf Ha] _]; subst. cbn [find_inet]. by rewrite Hf, Ha.
Qed.
End NetFacts.

(** ** Successful runs

    [runs m Q]: whatever calls came before, the program returns a value with [Q]. *)
Definition runs {A} (m : program A) (Q : A -> Prop) : Prop :=
  forall tr, exists a tr', m tr = (Ret a, tr') /\ Q a.

(** An environment in which no call fails and every name resolves; an allocation
    of more than [PTRDIFF_MAX] bytes always fails. *)
Class Obliging `{Kernel} := {
  ob_socket tr : 0 <= answer tr c_socket;
  ob_setsockopt tr fd o v : 0 <= fd -> answer tr (c_setsockopt fd o v) = 0;
  ob_bind tr fd a : answer tr (c_bind fd a) = 0;
  ob_thread tr t : answer tr (c_pthread_create t) = 0;
  ob_mask tr l : answer tr (c_sigprocmask l) = 0;
  ob_timer tr : 0 <= answer tr c_timerfd_create;
  ob_settime tr fd i : answer tr (c_timerfd_settime fd i) = 0;
  ob_mhd tr p : answer tr (c_mhd_start p) <> 0;
  ob_malloc tr what : answer tr (c_malloc what) <> 0;
  ob_calloc tr what : answer tr (c_calloc what) <> 0;
  ob_malloc_bytes tr n : 0 <= n < 2 ^ 63 -> answer tr (c_malloc_bytes n) <> 0;
  ob_calloc_bytes tr n : 0 <= n < 2 ^ 63 -> answer tr (c_calloc_bytes n) <> 0;
  ob_resolve url : exists l, getaddrinfo url = Some l /\ inet_list l;
}.

Section Runs.
Context `{Kernel}.

Lemma runs_ret {A} (a : A) (Q : A -> Prop) : Q a -> runs (mret a) Q.
Proof. intros Hq tr. by exists a, tr. Qed.

Lemma runs_bind {A B} (m : program A) (k : A -> program B) R Q :
  runs m R -> (forall a, R a -> runs (k a) Q) -> runs (mbind k m) Q.
Proof.
  intros Hm Hk tr. destruct (Hm tr) as (a & tr1 & E & Ha). unfold mbind, program_bind. rewrite E.
  by apply Hk.
Qed.

Lemma runs_sys c (Q : Z -> Prop) : (forall tr, Q (answer tr c)) -> runs (sys c) Q.
Proof. intros Hq tr. by do 2 eexists. Qed.

Lemma runs_weaken {A} (m : program A) (Q Q' : A -> Prop) : runs m Q -> (forall a, Q a -> Q' a) -> runs m Q'.
Proof. intros Hm HQ tr. destruct (Hm tr) as (a & tr' & E & Ha). exists a, tr'. auto. Qed.

Context `{!Obliging}.

Lemma runs_option fd o v msg :
  0 <= fd -> runs (r ← sys (c_setsockopt fd o v); if r =? -1 then die msg else mret tt) (fun _ => True).
Proof.
  intros Hfd. apply (runs_bind _ _ (fun r => r = 0)); [apply runs_sys; intros; by apply ob_setsockopt|].
  intros r ->. by apply runs_ret.
Qed.

Lemma runs_xmalloc what : runs (xmalloc what) (fun _ => True).
Proof.
  apply (runs_bind _ _ (fun r => r <> 0)); [apply runs_sys; intros; apply ob_malloc|].
  intros r Hr. destruct (Z.eqb_spec r 0); [done|]. by apply runs_ret.
Qed.

Lemma runs_xcalloc what : runs (xcalloc what) (fun _ => True).
Proof.
  apply (runs_bind _ _ (fun r => r <> 0)); [apply runs_sys; intros; apply ob_calloc|].
  intros r Hr. destruct (Z.eqb_spec r 0); [done|]. by apply runs_ret.
Qed.

Lemma runs_xmalloc_bytes n : 0 <= n < 2 ^ 63 -> runs (xmalloc_bytes n) (fun _ => True).
Proof.
  intros Hn. apply (runs_bind _ _ (fun r => r <> 0)); [apply runs_sys; intros; by apply ob_malloc_bytes|].
  intros r Hr. destruct (Z.eqb_spec r 0); [done|]. by apply runs_ret.
Qed.

Lemma runs_xcalloc_bytes n : 0 <= n < 2 ^ 63 -> runs (xcalloc_bytes n) (fun _ => True).
Proof.
  intros Hn. apply (runs_bind _ _ (fun r => r <> 0)); [apply runs_sys; intros; by apply ob_calloc_bytes|].
  intros r Hr. destruct (Z.eqb_spec r 0); [done|]. by apply runs_ret.
Qed.

Lemma runs_socket s multisock : runs (brubeck_sampler_socket s multisock) (fun fd => 0 <= fd).
Proof.
  unfold brubeck_sampler_socket. eapply runs_bind; [apply runs_sys, ob_socket|intros fd Hfd].
  eapply runs_bind; [by apply runs_option|intros _ _].
  eapply runs_bind; [by apply runs_option|intros _ _].
  apply (runs_bind _ _ (fun _ => True)); [destruct multisock; [by apply runs_option|by apply runs_ret]|intros _ _].
  apply (runs_bind _ _ (fun r => r = 0)); [apply runs_sys; intros; apply ob_bind|].
  intros r ->. by apply runs_ret.
Qed.

(** A resolved name gives the first address of its list, with the port. *)
Definition resolves (url : list Z) (port : Z) (a : sockaddr_in) : Prop :=
  exists r l, getaddrinfo url = Some (r :: l) /\
    a = {| sin_family := sin_family (ai_addr r); sin_port := htons port; sin_addr := sin_addr (ai_addr r) |}.

Lemma runs_url url port : runs (url_to_inaddr2 (Some url) port) (resolves url port).
Proof.
  unfold url_to_inaddr2. destruct (ob_resolve url) as (l & E & Hl). rewrite E.
  destruct l as [|r l]; [by destruct Hl|]. cbn [head mbind option_bind]. rewrite (find_inet_first r l Hl).
  apply runs_ret. by exists r, l.
Qed.
End Runs.

(** The comment says that the loop looks for the first IPv4 address; it takes
    only the head of the list. *)
Example find_inet_second :
  let a := {| sin_family := AF_INET; sin_port := 0; sin_addr := [10; 0; 0; 1] |} in
  let v6 := {| ai_family := 10; ai_addrlen := 28; ai_addr := a |} in
  let v4 := {| ai_family := AF_INET; ai_addrlen := 16; ai_addr := a |} in
  find_inet v6 [v6; v4] = None /\ find_inet v4 [v4; v6] = Some v4.
Proof. done. Qed.
End Net.
