(* ===== verification/Json.v ===== *)
(** * JSON documents, as jansson gives them

    The configuration is read and the answers of the HTTP endpoint are built
    with jansson, a library outside the repository.  A document is a value of
    [json]; what the library decides by itself (which strings are UTF-8) is a
    class with the laws the code relies on. *)

From stdpp Require Import strings.
From S2P Require Import Prelude Value Net.
Import Net.

Module Json.

Inductive json :=
| JString (s : list Z)
| JInteger (i : Z)
| JReal (x : value_t)
| JBool (b : bool)
| JArray (l : list json)
| JObject (fields : list (string * json)).

(** ** Building *)

(** What jansson accepts: strings in UTF-8 and finite reals.  For any other
    value [json_pack] returns a null pointer, and so does [json_dumps], whose
    result the code passes to [strlen]: the value [None]. *)
Class Jansson := { utf8 : list Z -> bool }.

Class JanssonLaws `{Jansson} := {
  utf8_ascii s : Forall (fun b => 0 < b < 128) s -> utf8 s = true;
}.

Section Pack.
Context `{Jansson}.

Definition js_string (s : list Z) : option json := if utf8 s then Some (JString s) else None.
Definition js_real (x : value_t) : option json := if is_finite x then Some (JReal x) else None.

(** The conversion [s:i] takes an [int]. *)
Definition js_int (z : Z) : option json := Some (JInteger (s32 z)).

Fixpoint json_pack (fields : list (string * option json)) : option (list (string * json)) :=
  match fields with
  | [] => Some []
  | (k, v) :: fields => v ← v; fields ← json_pack fields; Some ((k, v) :: fields)
  end.

Definition js_object (fields : list (string * option json)) : option json :=
  JObject <$> json_pack fields.
End Pack.

(** ** Reading *)

Fixpoint assoc (k : string) (fields : list (string * json)) : option json :=
  match fields with
  | [] => None
  | (k', v) :: fields => if decide (k = k') then Some v else assoc k fields
  end.

Definition json_object_get (j : json) (k : string) : option json :=
  match j with JObject fields => assoc k fields | _ => None end.

Definition json_string_value (j : option json) : option (list Z) :=
  match j with Some (JString s) => Some s | _ => None end.

(** The elements that [json_array_foreach] visits: none when the value is not an
    array. *)
Definition json_array (j : json) : list json :=
  match j with JArray l => l | _ => [] end.

(** [json_unpack_or_die]: the conversions [s:s], [s:i], [s:o], and [s?:s],
    [s?:i], [s?:b], whose variable keeps its value when the key is missing.  A
    missing key and a value of another type end the process; a value that is
    not an object has no keys to find. *)
Definition config_error {A} : program A := die "config error".

Definition the_object (j : json) : program (list (string * json)) :=
  match j with JObject fields => mret fields | _ => config_error end.

Definition need {A} (conv : json -> option A) (fields : list (string * json)) (k : string) : program A :=
  match assoc k fields with
  | Some v => match conv v with Some a => mret a | None => config_error end
  | None => config_error
  end.

Definition optional {A} (conv : json -> option A) (fields : list (string * json)) (k : string) (a : A)
    : program A :=
  match assoc k fields with
  | Some v => match conv v with Some a => mret a | None => config_error end
  | None => mret a
  end.

Definition as_string (j : json) : option (list Z) := match j with JString s => Some s | _ => None end.
Definition as_int (j : json) : option Z := match j with JInteger i => Some (s32 i) | _ => None end.
Definition as_bool (j : json) : option bool := match j with JBool b => Some b | _ => None end.
Definition as_object (j : json) : option json := Some j.

Lemma post_need {A} (conv : json -> option A) fields k C :
  post (need conv fields k) C (fun a => exists v, assoc k fields = Some v /\ conv v = Some a).
Proof.
  unfold need. destruct (assoc k fields) as [v|]; [|apply post_die].
  destruct (conv v) eqn:E; [apply post_ret; eauto|apply post_die].
Qed.

Lemma post_optional {A} (conv : json -> option A) fields k a C :
  post (optional conv fields k a) C
    (fun a' => a' = a \/ exists v, assoc k fields = Some v /\ conv v = Some a').
Proof.
  unfold optional. destruct (assoc k fields) as [v|]; [|apply post_ret; by left].
  destruct (conv v) eqn:E; [apply post_ret; eauto|apply post_die].
Qed.

Lemma post_object j C : post (the_object j) C (fun fields => j = JObject fields).
Proof. destruct j; solve [apply post_die|by apply post_ret]. Qed.

Lemma runs_object fields : runs (the_object (JObject fields)) (fun f => f = fields).
Proof. by apply runs_ret. Qed.

Lemma runs_need {A} (conv : json -> option A) fields k a v :
  assoc k fields = Some v -> conv v = Some a -> runs (need conv fields k) (fun a' => a' = a).
Proof. intros E Ec. unfold need. rewrite E, Ec. by apply runs_ret. Qed.

(** The rendering of an optional field, and what reading it gives. *)
Definition maybe {A} (k : string) (f : A -> json) (o : option A) : list (string * json) :=
  match o with Some a => [(k, f a)] | None => [] end.

Lemma runs_optional {A} (conv : json -> option A) fields k d a :
  match assoc k fields with Some v => conv v | None => Some d end = Some a ->
  runs (optional conv fields k d) (fun a' => a' = a).
Proof.
  unfold optional. destruct (assoc k fields) as [v|]; [intros E; rewrite E|intros [= <-]]; by apply runs_ret.
Qed.
End Json.
