(* ===== verification/Carbon.v ===== *)
(** * The Carbon backend ([src/backends/carbon.c], [src/backends/carbon.h])

    Samples reach Carbon over TCP, as lines of text or as pickled lists.  A
    sample callback works on the backend's state and on the socket; the
    socket's answers are an input, the bytes it took are an output. *)

From S2P Require Import Prelude Value Utils.
Import Utils.

Module Carbon.

(** ** Bit patterns of floating-point numbers *)

(** The IEEE 754 encoding of a number of format [(prec, emax)] in [w] bits. *)
Definition to_bits (prec emax w : Z) (x : spec_float) : Z :=
  let sign (s : bool) := if s then 2 ^ (w - 1) else 0 in
  match x with
  | S754_zero s => sign s
  | S754_infinity s => sign s + (2 * emax - 1) * 2 ^ (prec - 1)
  | S754_nan => (2 * emax - 1) * 2 ^ (prec - 1) + 2 ^ (prec - 2)
  | S754_finite s m e =>
      if Z.pos m <? 2 ^ (prec - 1) then sign s + Z.pos m
      else sign s + (e + emax + prec - 2) * 2 ^ (prec - 1) + (Z.pos m - 2 ^ (prec - 1))
  end.

Definition of_bits (prec emax w : Z) (z : Z) : spec_float :=
  let s := 2 ^ (w - 1) <=? z in
  let E := (z mod 2 ^ (w - 1)) / 2 ^ (prec - 1) in
  let F := z mod 2 ^ (prec - 1) in
  if E =? 0 then
    match F with Z.pos m => S754_finite s m (3 - emax - prec) | _ => S754_zero s end
  else if E =? 2 * emax - 1 then
    if F =? 0 then S754_infinity s else S754_nan
  else match F + 2 ^ (prec - 1) with
       | Z.pos m => S754_finite s m (E - emax - prec + 2)
       | _ => S754_nan
       end.

Abbreviation bits64 := (to_bits prec64 emax64 64).
Abbreviation bits32 := (to_bits prec32 emax32 32).
Abbreviation double_of_bits := (of_bits prec64 emax64 64).

(** ** State *)

Definition PICKLE_BUFFER_SIZE : Z := 4096.
Definition PICKLE1_SIZE (key_len : Z) : Z := 32 + key_len.

Record pickler := { p_ptr : list Z; p_pos : Z; p_pt : Z }.

Record brubeck_carbon := {
  tick_time : Z;
  out_sock : Z;
  pickler_ : pickler;
  sent : Z;
}.

Definition set_sock (c : brubeck_carbon) (fd : Z) : brubeck_carbon :=
  {| tick_time := tick_time c; out_sock := fd; pickler_ := pickler_ c; sent := sent c |}.
Definition set_pickler (c : brubeck_carbon) (p : pickler) : brubeck_carbon :=
  {| tick_time := tick_time c; out_sock := out_sock c; pickler_ := p; sent := sent c |}.
Definition add_sent (c : brubeck_carbon) (n : Z) : brubeck_carbon :=
  {| tick_time := tick_time c; out_sock := out_sock c; pickler_ := pickler_ c;
     sent := u64 (sent c + n) |}.

(** ** The connection *)

Definition carbon_is_connected (c : brubeck_carbon) : bool := 0 <=? out_sock c.

(** [fd] is what [socket] returns, [rc] what [connect] returns and [so] what
    [setsockopt] returns in [sock_enlarge_out], which ends the process on -1:
    [None]. *)
Definition carbon_connect (c : brubeck_carbon) (fd rc so : Z) : option (brubeck_carbon * Z) :=
  if carbon_is_connected c then Some (c, 0)
  else
    let c := set_sock c fd in
    if 0 <=? out_sock c then
      if rc =? 0 then if so =? -1 then None else Some (c, 0)
      else Some (set_sock c (-1), -1)
    else Some (c, -1).

Definition carbon_disconnect (c : brubeck_carbon) : brubeck_carbon := set_sock c (-1).

(** The end of both callbacks: write, then disconnect or count. *)
Definition carbon_write (c : brubeck_carbon) (data : list Z) (rs : list wres)
    : option (brubeck_carbon * list Z * list wres) :=
  '(wr, out, rs) ← write_in_full data rs;
  Some (if wr <? 0 then carbon_disconnect c else add_sent c wr, out, rs).

(** ** Text *)

(** [*ptr++ = ...] for a run of bytes. *)
Definition put (m : list Z) (p : Z) (l : list Z) : option (list Z * Z) :=
  m ← wr_n m p l; Some (m, p + Z.of_nat (length l)).

(** [ptr += brubeck_ftoa(ptr, value)]: the text before trimming is written, then
    the terminator behind the text kept. *)
Definition put_ftoa (m : list Z) (p : Z) (value : value_t) : option (list Z * Z) :=
  let L := bits32 (to_float value) in
  '(sign, int, frac) ← ftoa_parts L;
  text ← brubeck_ftoa L;
  m ← wr_n m p (sign ++ int ++ frac);
  m ← wr m (p + Z.of_nat (length text)) 0;
  Some (m, p + Z.of_nat (length text)).

Definition put_itoa (m : list Z) (p number : Z) : option (list Z * Z) :=
  l ← brubeck_itoa number; put m p l.

(** [key] is the C string passed by the caller, without its terminator; [junk]
    the bytes of the uninitialised stack buffer. *)
Definition plaintext_each (c : brubeck_carbon) (key : list Z) (value : value_t) (junk : Z)
    (rs : list wres) : option (brubeck_carbon * list Z * list wres) :=
  if negb (carbon_is_connected c) then Some (c, [], rs)
  else
    '(m, p) ← put (replicate 1024 junk) 0 key;
    '(m, p) ← put m p [chr " "];
    '(m, p) ← put_ftoa m p value;
    '(m, p) ← put m p [chr " "];
    '(m, p) ← put_itoa m p (tick_time c);
    '(m, p) ← put m p [10];
    data ← rd_n m 0 (Z.to_nat p);
    carbon_write c data rs.

(** ** Pickles *)

Definition pickle1_int32 (m : list Z) (p x : Z) : option (list Z * Z) :=
  '(m, p) ← put m p [chr "J"]; put m p (le_bytes 4 x).

Definition pickle1_double (m : list Z) (p : Z) (x : value_t) : option (list Z * Z) :=
  '(m, p) ← put m p [chr "G"]; put m p (rev (le_bytes 8 (bits64 x))).

(** [key] with its terminator. *)
Definition pickle1_push (buf : pickler) (key : list Z) (key_len timestamp : Z) (value : value_t)
    : option pickler :=
  let pt := p_pt buf in
  '(m, p) ← put (p_ptr buf) (p_pos buf) [chr "("];
  '(m, p) ← put m p [chr "U"];
  '(m, p) ← put m p [key_len];
  k ← rd_n key 0 (Z.to_nat key_len);
  '(m, p) ← put m p k;
  '(m, p) ← put m p [chr "q"];
  '(m, p) ← put m p [u8 pt];
  let pt := u16 (pt + 1) in
  '(m, p) ← put m p [chr "("];
  '(m, p) ← pickle1_int32 m p timestamp;
  '(m, p) ← pickle1_double m p value;
  '(m, p) ← put m p [chr "t"];
  '(m, p) ← put m p [chr "q"];
  '(m, p) ← put m p [u8 pt];
  let pt := u16 (pt + 1) in
  '(m, p) ← put m p [chr "t"];
  '(m, p) ← put m p [chr "q"];
  '(m, p) ← put m p [u8 pt];
  let pt := u16 (pt + 1) in
  Some {| p_ptr := m; p_pos := u16 p; p_pt := pt |}.

Definition lead : list Z := [chr "]"; chr "q"; 0; chr "("].
Definition trail : list Z := [chr "e"; chr "."].

Definition pickle1_init (buf : pickler) : option pickler :=
  m ← wr_n (p_ptr buf) 4 lead;
  Some {| p_ptr := m; p_pos := 4 + Z.of_nat (length lead); p_pt := 1 |}.

(** [htonl], as the bytes stored. *)
Definition htonl_bytes (x : Z) : list Z := rev (le_bytes 4 x).

Definition pickle1_flush (c : brubeck_carbon) (rs : list wres)
    : option (brubeck_carbon * list Z * list wres) :=
  let buf := pickler_ c in
  if (p_pt buf =? 1) || negb (carbon_is_connected c) then Some (c, [], rs)
  else
    m ← wr_n (p_ptr buf) (p_pos buf) trail;
    let pos := u16 (p_pos buf + Z.of_nat (length trail)) in
    m ← wr_n m 0 (htonl_bytes (u32 (pos - 4)));
    data ← rd_n m 0 (Z.to_nat pos);
    '(wr, out, rs) ← write_in_full data rs;
    buf ← pickle1_init {| p_ptr := m; p_pos := pos; p_pt := p_pt buf |};
    let c := set_pickler c buf in
    Some (if wr <? 0 then carbon_disconnect c else add_sent c wr, out, rs).

(** [key] is the C string passed by the caller, without its terminator. *)
Definition pickle1_each (c : brubeck_carbon) (key : list Z) (value : value_t) (rs : list wres)
    : option (brubeck_carbon * list Z * list wres) :=
  let key_len := u8 (Z.of_nat (length key)) in
  '(c, out, rs) ←
    (if PICKLE_BUFFER_SIZE <=? p_pos (pickler_ c) + PICKLE1_SIZE key_len
     then pickle1_flush c rs else Some (c, [], rs));
  if negb (carbon_is_connected c) then Some (c, out, rs)
  else
    buf ← pickle1_push (pickler_ c) (key ++ [0]) key_len (tick_time c) value;
    Some (set_pickler c buf, out, rs).

(** ** The bit patterns are faithful *)

Section Bits.
Context (prec emax w : Z) (Hprec : 1 < prec) (Hemax : 0 < emax)
  (Hw : 2 * emax * 2 ^ (prec - 1) = 2 ^ (w - 1)).

Definition pack (s : bool) (E F : Z) : Z :=
  (if s then 2 ^ (w - 1) else 0) + E * 2 ^ (prec - 1) + F.

Lemma pack_fields s E F :
  0 <= E < 2 * emax -> 0 <= F < 2 ^ (prec - 1) ->
  (2 ^ (w - 1) <=? pack s E F) = s /\
  (pack s E F mod 2 ^ (w - 1)) / 2 ^ (prec - 1) = E /\
  pack s E F mod 2 ^ (prec - 1) = F /\ 0 <= pack s E F < 2 * 2 ^ (w - 1).
Proof.
  intros HE HF. unfold pack. rewrite <- Hw. set (D := 2 ^ (prec - 1)) in *.
  assert (Hlow : 0 <= E * D + F < 2 * emax * D) by nia.
  split_and!.
  - destruct s; [apply Z.leb_le; lia|apply Z.leb_gt; lia].
  - assert (Hm : ((if s then 2 * emax * D else 0) + E * D + F) mod (2 * emax * D) = E * D + F).
    { destruct s.
      - replace (2 * emax * D + E * D + F) with (E * D + F + 1 * (2 * emax * D)) by lia.
        rewrite Z_mod_plus_full. by apply Z.mod_small.
      - apply Z.mod_small. lia. }
    rewrite Hm, Z.div_add_l, Z.div_small by lia. lia.
  - replace ((if s then 2 * emax * D else 0) + E * D + F)
      with (F + ((if s then 2 * emax else 0) + E) * D) by (destruct s; lia).
    rewrite Z_mod_plus_full. by apply Z.mod_small.
  - destruct s; lia.
  - destruct s; lia.
Qed.

(** The fields of a number. *)
Definition exp_field (x : spec_float) : Z :=
  match x with
  | S754_zero _ => 0
  | S754_infinity _ | S754_nan => 2 * emax - 1
  | S754_finite _ m e => if Z.pos m <? 2 ^ (prec - 1) then 0 else e + emax + prec - 2
  end.
Definition man_field (x : spec_float) : Z :=
  match x with
  | S754_zero _ | S754_infinity _ => 0
  | S754_nan => 2 ^ (prec - 2)
  | S754_finite _ m e => if Z.pos m <? 2 ^ (prec - 1) then Z.pos m else Z.pos m - 2 ^ (prec - 1)
  end.
Definition sign_field (x : spec_float) : bool :=
  match x with
  | S754_zero s | S754_infinity s | S754_finite s _ _ => s
  | S754_nan => false
  end.

Lemma to_bits_pack x : to_bits prec emax w x = pack (sign_field x) (exp_field x) (man_field x).
Proof. unfold to_bits, pack. destruct x; simpl; try lia. case_match; lia. Qed.

Lemma fields_ok x :
  valid_binary prec emax x = true ->
  0 <= exp_field x < 2 * emax /\ 0 <= man_field x < 2 ^ (prec - 1) /\
  forall s m e, x = S754_finite s m e -> exp_field x < 2 * emax - 1.
Proof.
  pose proof (Z.pow_pos_nonneg 2 (prec - 1) ltac:(lia) ltac:(lia)).
  assert (0 < 2 ^ (prec - 2) < 2 ^ (prec - 1)).
  { split; [apply Z.pow_pos_nonneg; lia|apply Z.pow_lt_mono_r; lia]. }
  destruct x as [s|s| |s m e]; cbn [exp_field man_field valid_binary]; intros Hb;
    try (split_and!; (done || lia)).
  pose proof (bounded_fcanon prec emax Hprec m e Hb) as (Hm & He & Hc).
  unfold bounded in Hb. zbool. unfold SpecFloat.emin in *.
  assert (Hp : 2 ^ prec = 2 * 2 ^ (prec - 1)).
  { rewrite <- Z.pow_succ_r by lia. f_equal. lia. }
  destruct (Z.ltb_spec (Z.pos m) (2 ^ (prec - 1))); split_and!; try lia; intros; lia.
Qed.

Lemma of_to_bits x :
  valid_binary prec emax x = true -> of_bits prec emax w (to_bits prec emax w x) = x.
Proof.
  intros Hv. destruct (fields_ok x Hv) as (HE & HF & Hfin). rewrite to_bits_pack. unfold of_bits.
  destruct (pack_fields (sign_field x) _ _ HE HF) as (-> & -> & -> & _).
  pose proof (Z.pow_pos_nonneg 2 (prec - 2) ltac:(lia) ltac:(lia)).
  destruct x as [s|s| |s m e]; cbn [exp_field man_field sign_field] in *.
  - done.
  - repeat zcase; done || lia.
  - repeat zcase; done || lia.
  - specialize (Hfin _ _ _ eq_refl).
    pose proof (bounded_fcanon prec emax Hprec m e Hv) as (_ & He & Hc). unfold SpecFloat.emin in *.
    destruct (Z.ltb_spec (Z.pos m) (2 ^ (prec - 1))).
    + cbn [Z.eqb]. f_equal. destruct Hc; lia.
    + repeat zcase; try lia. replace (Z.pos m - 2 ^ (prec - 1) + 2 ^ (prec - 1)) with (Z.pos m) by lia.
      f_equal. lia.
Qed.
End Bits.

Lemma bits64_range x : valid_binary prec64 emax64 x = true -> fits 64 (bits64 x).
Proof.
  intros Hv. rewrite to_bits_pack.
  destruct (fields_ok prec64 emax64 64 ltac:(done) ltac:(done) x Hv) as (HE & HF & _).
  destruct (pack_fields prec64 emax64 64 ltac:(done) ltac:(done) eq_refl (sign_field x) _ _ HE HF) as (_ & _ & _ & ?).
  unfold fits. change (2 ^ 64) with (2 * 2 ^ (64 - 1)). done.
Qed.

Lemma double_bits_inverse x :
  valid_binary prec64 emax64 x = true -> double_of_bits (bits64 x) = x.
Proof. by apply of_to_bits. Qed.

(** ** The pickler's buffer *)

Lemma put_spec m p l :
  0 <= p -> p + Z.of_nat (length l) <= Z.of_nat (length m) ->
  exists m' p', put m p l = Some (m', p') /\ p' = p + Z.of_nat (length l) /\
    length m' = length m /\ take (Z.to_nat p') m' = take (Z.to_nat p) m ++ l.
Proof.
  intros Hp Hl. unfold put. destruct (wr_n m p l) as [m'|] eqn:E.
  - cbn [mbind option_bind]. exists m', (p + Z.of_nat (length l)). split_and!; try done.
    + by eapply wr_n_length.
    + rewrite Z2Nat.inj_add, Nat2Z.id by lia. by apply wr_n_take.
  - rewrite wr_n_in in E by lia. done.
Qed.

(** Run the next [put] of a chain. *)
Ltac put_step :=
  match goal with
  | |- context [put ?m ?p ?l] =>
      let m' := fresh "m" in let p' := fresh "p" in
      let E := fresh "E" in let Hp := fresh "Hp" in let Hl := fresh "Hl" in let Ht := fresh "Ht" in
      destruct (put_spec m p l) as (m' & p' & E & Hp & Hl & Ht);
      [try lia|rewrite ?length_rev, ?le_bytes_length; cbn [length]; try lia|];
      rewrite E; cbn [mbind option_bind];
      rewrite ?length_rev, ?le_bytes_length in Hp; cbn [length] in Hp
  end.

Lemma pickle1_int32_spec m p x :
  0 <= p -> p + 5 <= Z.of_nat (length m) ->
  exists m' p', pickle1_int32 m p x = Some (m', p') /\ p' = p + 5 /\ length m' = length m /\
    take (Z.to_nat p') m' = take (Z.to_nat p) m ++ chr "J" :: le_bytes 4 x.
Proof.
  intros Hp Hl. unfold pickle1_int32. put_step. put_step. do 2 eexists.
  split_and!; [done|lia|congruence|]. rewrite Ht0, Ht, <- app_assoc. done.
Qed.

Lemma pickle1_double_spec m p x :
  0 <= p -> p + 9 <= Z.of_nat (length m) ->
  exists m' p', pickle1_double m p x = Some (m', p') /\ p' = p + 9 /\ length m' = length m /\
    take (Z.to_nat p') m' = take (Z.to_nat p) m ++ chr "G" :: rev (le_bytes 8 (bits64 x)).
Proof.
  intros Hp Hl. unfold pickle1_double. put_step. put_step. do 2 eexists.
  split_and!; [done|lia|congruence|]. rewrite Ht0, Ht, <- app_assoc. done.
Qed.

(** A sample as [pickle1_push] writes it, with memo index [pt]. *)
Record sample := { sm_key : list Z; sm_time : Z; sm_value : value_t }.

Definition item_tail (sm : sample) (pt : Z) : list Z :=
  [chr "q"; u8 pt; chr "("; chr "J"] ++ le_bytes 4 (sm_time sm) ++
  [chr "G"] ++ rev (le_bytes 8 (bits64 (sm_value sm))) ++
  [chr "t"; chr "q"; u8 (pt + 1); chr "t"; chr "q"; u8 (pt + 2)].

Definition item (sm : sample) (pt : Z) : list Z :=
  [chr "("; chr "U"; Z.of_nat (length (sm_key sm))] ++ sm_key sm ++ item_tail sm pt.

Lemma item_length sm pt : length (item sm pt) = (26 + length (sm_key sm))%nat.
Proof.
  unfold item, item_tail. rewrite !length_app, length_rev, !le_bytes_length. simpl. lia.
Qed.

Lemma pickle1_push_spec buf sm src key_len :
  key_len = Z.of_nat (length (sm_key sm)) ->
  rd_n src 0 (length (sm_key sm)) = Some (sm_key sm) -> 0 <= p_pos buf ->
  p_pos buf + 26 + key_len <= Z.of_nat (length (p_ptr buf)) -> p_pos buf + 26 + key_len < 65536 ->
  0 <= p_pt buf < 65000 ->
  exists m, pickle1_push buf src key_len (sm_time sm) (sm_value sm) =
      Some {| p_ptr := m; p_pos := p_pos buf + 26 + key_len; p_pt := p_pt buf + 3 |} /\
    length m = length (p_ptr buf) /\
    take (Z.to_nat (p_pos buf + 26 + key_len)) m =
      take (Z.to_nat (p_pos buf)) (p_ptr buf) ++ item sm (p_pt buf).
Proof.
  intros -> Hsrc Hp Hl H16 Hpt. unfold pickle1_push. cbv zeta.
  rewrite (wrap_small 16 (p_pt buf + 1)), (wrap_small 16 (p_pt buf + 1 + 1)),
    (wrap_small 16 (p_pt buf + 1 + 1 + 1)) by (unfold fits; lia).
  do 3 put_step.
  rewrite Nat2Z.id, Hsrc. cbn [mbind option_bind]. do 4 put_step.
  destruct (pickle1_int32_spec m5 p5 (sm_time sm)) as (mi & pi & Ei & Hpi & Hli & Hti); [lia|lia|].
  rewrite Ei. cbn [mbind option_bind].
  destruct (pickle1_double_spec mi pi (sm_value sm)) as (md & pd & Ed & Hpd & Hld & Htd); [lia|lia|].
  rewrite Ed. cbn [mbind option_bind]. do 6 put_step.
  rewrite (wrap_small 16) by (unfold fits; lia).
  exists m11. split; [do 2 f_equal; lia|]. split; [congruence|].
  replace (p_pos buf + 26 + Z.of_nat (length (sm_key sm))) with p11 by lia.
  repeat match goal with H : take _ _ = _ ++ _ |- _ => rewrite H; clear H end.
  unfold item, item_tail. rewrite <- !app_assoc. cbn [app].
  rewrite <- !Z.add_assoc. done.
Qed.

(** ** Reading the pickles back

    The opcodes of Python's pickle protocol 1 that the backend uses, as a stack
    machine. *)

Inductive pval :=
| PMark
| PStr (s : list Z)
| PInt (z : Z)
| PFloat (x : value_t)
| PTuple (l : list pval)
| PList (l : list pval).

(** The values above the topmost mark, bottom first, and the stack below it. *)
Fixpoint pop_mark (stack acc : list pval) : option (list pval * list pval) :=
  match stack with
  | [] => None
  | PMark :: stack => Some (acc, stack)
  | v :: stack => pop_mark stack (v :: acc)
  end.

Fixpoint unpickle (fuel : nat) (l : list Z) (stack : list pval) : option pval :=
  match fuel, l with
  | S fuel, op :: l =>
      if op =? chr "]" then unpickle fuel l (PList [] :: stack)
      else if op =? chr "(" then unpickle fuel l (PMark :: stack)
      else if op =? chr "q" then unpickle fuel (drop 1 l) stack
      else if op =? chr "U" then
        n ← rd l 0;
        k ← rd_n l 1 (Z.to_nat n);
        unpickle fuel (drop (1 + Z.to_nat n) l) (PStr k :: stack)
      else if op =? chr "J" then
        b ← rd_n l 0 4;
        unpickle fuel (drop 4 l) (PInt (s32 (le_combine b)) :: stack)
      else if op =? chr "G" then
        b ← rd_n l 0 8;
        unpickle fuel (drop 8 l) (PFloat (double_of_bits (le_combine (rev b))) :: stack)
      else if op =? chr "t" then
        '(vs, stack) ← pop_mark stack [];
        unpickle fuel l (PTuple vs :: stack)
      else if op =? chr "e" then
        '(vs, stack) ← pop_mark stack [];
        match stack with
        | PList l0 :: stack => unpickle fuel l (PList (l0 ++ vs) :: stack)
        | _ => None
        end
      else if op =? chr "." then head stack
      else None
  | _, _ => None
  end.

(** The value Carbon expects for a sample: [(path, (timestamp, value))]. *)
Definition sample_pval (sm : sample) : pval :=
  PTuple [PStr (sm_key sm); PTuple [PInt (sm_time sm); PFloat (sm_value sm)]].

(** A sample the format can carry: a key of at most 255 bytes, a timestamp that
    is not negative as a 32-bit integer. *)
Definition sample_ok (sm : sample) : Prop :=
  Z.of_nat (length (sm_key sm)) < 256 /\ 0 <= sm_time sm < 2 ^ 31 /\
  valid_binary prec64 emax64 (sm_value sm) = true.

Lemma rd_n_app (l rest : list Z) n : length l = n -> rd_n (l ++ rest) 0 n = Some l.
Proof.
  intros <-. rewrite rd_n_in by (rewrite ?length_app; lia). change (Z.to_nat 0) with 0%nat.
  by rewrite drop_0, take_app_length.
Qed.

Lemma unpickle_mark n l st :
  unpickle (S n) (chr "(" :: l) st = unpickle n l (PMark :: st).
Proof. reflexivity. Qed.

Lemma unpickle_put n x l st : unpickle (S n) (chr "q" :: x :: l) st = unpickle n l st.
Proof. change (unpickle n (drop 0 l) st = unpickle n l st). by rewrite drop_0. Qed.

Lemma unpickle_str n k l st :
  unpickle (S n) (chr "U" :: Z.of_nat (length k) :: k ++ l) st = unpickle n l (PStr k :: st).
Proof.
  change ((k' ← rd_n (Z.of_nat (length k) :: k ++ l) 1 (Z.to_nat (Z.of_nat (length k)));
          unpickle n (drop (Z.to_nat (Z.of_nat (length k))) (k ++ l)) (PStr k' :: st))
          = unpickle n l (PStr k :: st)).
  rewrite Nat2Z.id, rd_n_in by (simpl; rewrite ?length_app; lia). cbn [mbind option_bind].
  change (Z.to_nat 1) with 1%nat. cbn [drop]. by rewrite drop_0, take_app_length, drop_app_length.
Qed.

Lemma unpickle_int n x l st :
  0 <= x < 2 ^ 31 ->
  unpickle (S n) (chr "J" :: le_bytes 4 x ++ l) st = unpickle n l (PInt x :: st).
Proof.
  intros Hx.
  change ((b ← rd_n (le_bytes 4 x ++ l) 0 4;
          unpickle n (drop 4 (le_bytes 4 x ++ l)) (PInt (s32 (le_combine b)) :: st))
          = unpickle n l (PInt x :: st)).
  rewrite rd_n_app by apply le_bytes_length. cbn [mbind option_bind].
  rewrite le_combine_bytes, drop_app_length', wrap_small by (apply le_bytes_length || (unfold fits; simpl; lia)).
  do 3 f_equal. unfold swrap. change (32 - 1) with 31. rewrite Z.mod_small by lia. lia.
Qed.

Lemma unpickle_float n x l st :
  valid_binary prec64 emax64 x = true ->
  unpickle (S n) (chr "G" :: rev (le_bytes 8 (bits64 x)) ++ l) st = unpickle n l (PFloat x :: st).
Proof.
  intros Hx. set (be := rev (le_bytes 8 (bits64 x))).
  change ((b ← rd_n (be ++ l) 0 8;
          unpickle n (drop 8 (be ++ l)) (PFloat (double_of_bits (le_combine (rev b))) :: st))
          = unpickle n l (PFloat x :: st)).
  assert (Hbe : length be = 8%nat) by (unfold be; by rewrite length_rev, le_bytes_length).
  rewrite rd_n_app by done. cbn [mbind option_bind]. rewrite drop_app_length' by done.
  unfold be. rewrite rev_involutive, le_combine_bytes, wrap_small by by apply bits64_range.
  by rewrite double_bits_inverse.
Qed.

Lemma unpickle_tuple n l a b st :
  a <> PMark -> b <> PMark ->
  unpickle (S n) (chr "t" :: l) (b :: a :: PMark :: st) = unpickle n l (PTuple [a; b] :: st).
Proof. intros. destruct a, b; done. Qed.

Lemma unpickle_item sm pt rest stack n :
  sample_ok sm ->
  unpickle (10 + n) (item sm pt ++ rest) stack = unpickle n rest (sample_pval sm :: stack).
Proof.
  intros (Hk & Ht & Hv). unfold item, item_tail. rewrite <- !app_assoc. cbn [app].
  change (10 + n)%nat with (S (S (S (S (S (S (S (S (S (S n)))))))))).
  rewrite unpickle_mark, unpickle_str, unpickle_put, unpickle_mark, unpickle_int by done.
  rewrite unpickle_float by done. rewrite unpickle_tuple, unpickle_put, unpickle_tuple, unpickle_put by done.
  done.
Qed.

(** The samples of a frame, the first with index [n]. *)
Fixpoint body (n : Z) (l : list sample) : list Z :=
  match l with
  | [] => []
  | sm :: l => item sm (1 + 3 * n) ++ body (n + 1) l
  end.

Definition payload (l : list sample) : list Z := lead ++ body 0 l ++ trail.

(** A message of Carbon's pickle receiver: the length, then the pickle. *)
Definition frame (l : list sample) : list Z :=
  htonl_bytes (Z.of_nat (length (payload l))) ++ payload l.

Lemma body_snoc l : forall n sm,
  body n (l ++ [sm]) = body n l ++ item sm (1 + 3 * (n + Z.of_nat (length l))).
Proof.
  induction l as [|x l IH]; intros n sm; cbn [app body length].
  - by rewrite app_nil_r, Z.add_0_r.
  - rewrite IH, app_assoc. do 2 f_equal. lia.
Qed.

Lemma body_length l : forall n, (26 * length l <= length (body n l))%nat.
Proof.
  induction l as [|x l IH]; intros n; cbn [body length]; [lia|].
  rewrite length_app, item_length. specialize (IH (n + 1)). lia.
Qed.

Lemma unpickle_body l : forall k n rest st,
  Forall sample_ok l ->
  unpickle (10 * length l + n) (body k l ++ rest) st =
    unpickle n rest (rev (sample_pval <$> l) ++ st).
Proof.
  induction l as [|sm l IH]; intros k n rest st Hl; [done|].
  apply Forall_cons_iff in Hl as [Hs Hl]. cbn [length body].
  replace (10 * S (length l) + n)%nat with (10 + (10 * length l + n))%nat by lia.
  rewrite <- app_assoc, unpickle_item by done. rewrite IH by done.
  rewrite fmap_cons. cbn [rev]. by rewrite <- app_assoc.
Qed.

Lemma pop_mark_rev vs : forall acc st,
  Forall (fun v => v <> PMark) vs -> pop_mark (rev vs ++ PMark :: st) acc = Some (vs ++ acc, st).
Proof.
  induction vs as [|v vs IH] using rev_ind; intros acc st Hv; [done|].
  apply Forall_app in Hv as [Hvs Hv]. apply Forall_cons_iff in Hv as [Hv _].
  rewrite rev_app_distr. cbn [rev app pop_mark]. destruct v; try done; rewrite IH by done;
    by rewrite <- app_assoc.
Qed.

Lemma unpickle_payload l :
  Forall sample_ok l ->
  unpickle (length (payload l)) (payload l) [] = Some (PList (sample_pval <$> l)).
Proof.
  intros Hl. unfold payload, lead, trail. cbn [app].
  assert (Hlen : exists n, length (chr "]" :: chr "q" :: 0 :: chr "(" :: body 0 l ++ [chr "e"; chr "."]) =
                   S (S (S (10 * length l + S (S n))))).
  { pose proof (body_length l 0). exists (length (body 0 l) - 10 * length l + 1)%nat.
    cbn [length]. rewrite length_app. cbn [length]. lia. }
  destruct Hlen as [n ->].
  change (unpickle (S (S (10 * length l + S (S n))))
            (chr "q" :: 0 :: chr "(" :: body 0 l ++ [chr "e"; chr "."]) [PList []] =
          Some (PList (sample_pval <$> l))).
  rewrite unpickle_put, unpickle_mark, unpickle_body by done.
  change (('(vs, stack) ← pop_mark (rev (sample_pval <$> l) ++ [PMark; PList []]) [];
          match stack with
          | PList l0 :: stack => unpickle (S n) [chr "."] (PList (l0 ++ vs) :: stack)
          | _ => None
          end) = Some (PList (sample_pval <$> l))).
  rewrite pop_mark_rev, app_nil_r; [done|]. apply Forall_fmap, Forall_true. done.
Qed.

(** The stream of messages. *)
Fixpoint decode_stream (fuel : nat) (l : list Z) : option (list pval) :=
  match l with
  | [] => Some []
  | _ =>
      match fuel with
      | O => None
      | S fuel =>
          b ← rd_n l 0 4;
          let n := Z.to_nat (le_combine (rev b)) in
          p ← rd_n l 4 n;
          v ← unpickle (length p) p [];
          match v with
          | PList vs => rest ← decode_stream fuel (drop (4 + n) l); Some (vs ++ rest)
          | _ => None
          end
      end
  end.

Definition group_ok (l : list sample) : Prop :=
  Forall sample_ok l /\ Z.of_nat (length (payload l)) < 2 ^ 32.

Lemma decode_frame l rest fuel :
  group_ok l ->
  decode_stream (S fuel) (frame l ++ rest) =
    (vs ← decode_stream fuel rest; Some ((sample_pval <$> l) ++ vs)).
Proof.
  intros [Hl Hsz]. unfold frame. rewrite <- app_assoc.
  set (h := htonl_bytes (Z.of_nat (length (payload l)))).
  assert (Hh : length h = 4%nat) by (unfold h, htonl_bytes; by rewrite length_rev, le_bytes_length).
  assert (Hn : Z.to_nat (le_combine (rev h)) = length (payload l)).
  { unfold h, htonl_bytes. rewrite rev_involutive, le_combine_bytes.
    change (8 * Z.of_nat 4) with 32. rewrite wrap_small by (unfold fits; lia). apply Nat2Z.id. }
  destruct (h ++ payload l ++ rest) as [|c r] eqn:E; [by destruct h|]. cbn [decode_stream]. rewrite <- E.
  rewrite rd_n_app by done. cbn [mbind option_bind]. rewrite Hn.
  rewrite rd_n_in by (rewrite ?length_app; lia). cbn [mbind option_bind].
  change (Z.to_nat 4) with 4%nat. rewrite <- drop_drop.
  replace (drop 4 (h ++ payload l ++ rest)) with (payload l ++ rest) by (by rewrite drop_app_length').
  rewrite take_app_length, unpickle_payload by done. cbn [mbind option_bind].
  by rewrite drop_app_length.
Qed.

Lemma decode_frames gs : forall fuel,
  Forall group_ok gs -> (length gs <= fuel)%nat ->
  decode_stream fuel (concat (frame <$> gs)) = Some (sample_pval <$> concat gs).
Proof.
  induction gs as [|g gs IH]; intros fuel Hg Hf; [by destruct fuel|].
  apply Forall_cons_iff in Hg as [Hg Hgs]. destruct fuel as [|fuel]; [simpl in Hf; lia|].
  rewrite fmap_cons. cbn [concat]. rewrite decode_frame by done. rewrite IH by (done || simpl in Hf; lia).
  cbn [mbind option_bind]. by rewrite fmap_app.
Qed.

(** ** The invariant of the pickler *)

(** The buffer holds the header and the samples pushed since the last flush. *)
Record pickler_inv (p : pickler) (l : list sample) : Prop := {
  pi_size : length (p_ptr p) = Z.to_nat PICKLE_BUFFER_SIZE;
  pi_pos : p_pos p = 8 + Z.of_nat (length (body 0 l));
  pi_room : p_pos p <= PICKLE_BUFFER_SIZE - 7;
  pi_pt : p_pt p = 1 + 3 * Z.of_nat (length l);
  pi_data : drop 4 (take (Z.to_nat (p_pos p)) (p_ptr p)) = lead ++ body 0 l;
  pi_ok : Forall sample_ok l;
}.

Lemma pickle1_init_spec p :
  length (p_ptr p) = Z.to_nat PICKLE_BUFFER_SIZE ->
  exists p', pickle1_init p = Some p' /\ pickler_inv p' [].
Proof.
  unfold PICKLE_BUFFER_SIZE. intros Hl. unfold pickle1_init.
  destruct (wr_n (p_ptr p) 4 lead) as [m|] eqn:E;
    [|rewrite wr_n_in in E by (simpl; lia); done].
  cbn [mbind option_bind]. eexists. split; [done|].
  pose proof (wr_n_length _ _ _ _ E) as Hm. apply wr_n_take in E.
  split; cbn [p_ptr p_pos p_pt body length]; try done.
  - unfold PICKLE_BUFFER_SIZE. congruence.
  - change (Z.to_nat (4 + Z.of_nat (length lead))) with (Z.to_nat 4 + length lead)%nat. rewrite E.
    rewrite drop_app_length'; [by rewrite app_nil_r|]. rewrite length_take. lia.
Qed.

Lemma pickler_count p l : pickler_inv p l -> Z.of_nat (length l) < 200.
Proof.
  intros [_ Hp Hr _ _ _]. pose proof (body_length l 0). unfold PICKLE_BUFFER_SIZE in *. lia.
Qed.

Lemma pickle1_push_inv p l sm src :
  pickler_inv p l -> sample_ok sm -> rd_n src 0 (length (sm_key sm)) = Some (sm_key sm) ->
  p_pos p + PICKLE1_SIZE (Z.of_nat (length (sm_key sm))) < PICKLE_BUFFER_SIZE ->
  exists p', pickle1_push p src (Z.of_nat (length (sm_key sm))) (sm_time sm) (sm_value sm) = Some p' /\ pickler_inv p' (l ++ [sm]).
Proof.
  intros Hi Hs Hsrc Hroom. pose proof (pickler_count p l Hi). destruct Hi as [Hsz Hp Hr Hpt Hd Hok].
  unfold PICKLE_BUFFER_SIZE, PICKLE1_SIZE in *.
  destruct (pickle1_push_spec p sm src _ eq_refl Hsrc) as (m & -> & Hl & Ht); try lia.
  eexists. split; [done|]. pose proof (body_snoc l 0 sm) as Hb. rewrite Z.add_0_l, <- Hpt in Hb.
  split; unfold PICKLE_BUFFER_SIZE; cbn [p_ptr p_pos p_pt]; rewrite ?Hb, ?length_app, ?item_length.
  - lia.
  - lia.
  - lia.
  - cbn [length]. lia.
  - rewrite Ht. rewrite drop_app_le by (rewrite length_take; lia). by rewrite Hd, <- app_assoc.
  - apply Forall_app. by split; [|constructor].
Qed.

(** The sample that a callback with [key] and [value] pushes: the length of the
    key is kept in eight bits, so a longer key is cut. *)
Definition tick_sample (c : brubeck_carbon) (kv : list Z * value_t) : sample :=
  {| sm_key := take (Z.to_nat (u8 (Z.of_nat (length kv.1)))) kv.1;
     sm_time := tick_time c; sm_value := kv.2 |}.

Lemma flush_data p l :
  pickler_inv p l ->
  exists m1 m2 pos, wr_n (p_ptr p) (p_pos p) trail = Some m1 /\
    pos = u16 (p_pos p + Z.of_nat (length trail)) /\
    wr_n m1 0 (htonl_bytes (u32 (pos - 4))) = Some m2 /\ length m2 = length (p_ptr p) /\
    rd_n m2 0 (Z.to_nat pos) = Some (frame l).
Proof.
  intros [Hsz Hp Hr Hpt Hd Hok]. unfold PICKLE_BUFFER_SIZE in *.
  destruct (wr_n (p_ptr p) (p_pos p) trail) as [m1|] eqn:E1;
    [|rewrite wr_n_in in E1 by (simpl; lia); done].
  pose proof (wr_n_length _ _ _ _ E1) as Hl1. apply wr_n_take in E1.
  set (pos := u16 (p_pos p + Z.of_nat (length trail))).
  assert (Hpos : pos = p_pos p + 2) by (apply wrap_small; unfold fits; simpl; lia).
  set (h := htonl_bytes (u32 (pos - 4))).
  assert (Hh : length h = 4%nat) by (unfold h, htonl_bytes; by rewrite length_rev, le_bytes_length).
  destruct (wr_n m1 0 h) as [m2|] eqn:E2; [|rewrite wr_n_in in E2 by lia; done].
  exists m1, m2, pos. pose proof (wr_n_length _ _ _ _ E2) as Hl2. split_and!; try done; [congruence|].
  apply wr_n_Some in E2 as (_ & _ & ->).
  rewrite rd_n_in by (rewrite ?Hl2; lia). f_equal. change (Z.to_nat 0) with 0%nat.
  rewrite drop_0, take_0, app_nil_l, Nat.add_0_l, Hh.
  assert (Hpay : take (Z.to_nat pos - 4) (drop 4 m1) = payload l).
  { rewrite <- skipn_firstn_comm. replace (Z.to_nat pos) with (Z.to_nat (p_pos p) + length trail)%nat
      by (simpl; lia).
    rewrite E1, drop_app_le by (rewrite length_take; lia). rewrite Hd, <- app_assoc. done. }
  rewrite take_app_ge by lia. rewrite Hh, Hpay. unfold frame. f_equal. unfold h. f_equal.
  rewrite <- Hpay, length_take, length_drop. rewrite wrap_small by (unfold fits; lia). lia.
Qed.

Lemma tick_sample_key c kv :
  Z.of_nat (length (sm_key (tick_sample c kv))) = u8 (Z.of_nat (length kv.1)) /\
  rd_n (kv.1 ++ [0]) 0 (length (sm_key (tick_sample c kv))) = Some (sm_key (tick_sample c kv)).
Proof.
  cbn [tick_sample sm_key]. set (k := Z.to_nat (u8 (Z.of_nat (length kv.1)))).
  pose proof (Z.mod_le (Z.of_nat (length kv.1)) (2 ^ 8) ltac:(lia) ltac:(lia)).
  pose proof (wrap_fits 8 (Z.of_nat (length kv.1)) ltac:(lia)) as [? _].
  assert (Hk : (k <= length kv.1)%nat) by (unfold k, wrap in *; lia).
  rewrite length_take, Nat.min_l by done. split; [unfold k; lia|].
  rewrite rd_n_in by (rewrite ?length_app; simpl; lia). change (Z.to_nat 0) with 0%nat.
  by rewrite drop_0, take_app_le.
Qed.

(** The state after the write of a flush. *)
Definition flushed (c : brubeck_carbon) (wr : Z) : brubeck_carbon :=
  if wr <? 0 then carbon_disconnect c else add_sent c wr.

Lemma pickle1_flush_spec c l rs :
  pickler_inv (pickler_ c) l ->
  l = [] /\ pickle1_flush c rs = Some (c, [], rs) \/
  carbon_is_connected c = false /\ pickle1_flush c rs = Some (c, [], rs) \/
  carbon_is_connected c = true /\ l <> [] /\
  match write_in_full (frame l) rs with
  | None => pickle1_flush c rs = None
  | Some (wr, out, rs') =>
      exists p, pickler_inv p [] /\
        pickle1_flush c rs = Some (flushed (set_pickler c p) wr, out, rs')
  end.
Proof.
  intros Hi. unfold pickle1_flush. pose proof (pi_pt _ _ Hi) as Hpt.
  destruct (Z.eqb_spec (p_pt (pickler_ c)) 1) as [E1|E1].
  { left. split; [|done]. destruct l; [done|simpl in Hpt; lia]. }
  destruct (carbon_is_connected c) eqn:Ec; cbn [negb orb]; [|right; left; done].
  right. right. split; [done|]. split; [by intros ->|].
  destruct (flush_data _ _ Hi) as (m1 & m2 & pos & -> & Epos & E2 & Hl & E3).
  cbn [mbind option_bind]. cbv zeta. rewrite <- Epos, E2. cbn [mbind option_bind]. rewrite E3.
  cbn [mbind option_bind]. destruct (write_in_full (frame l) rs) as [[[wr out] rs']|]; [|done].
  cbn [mbind option_bind].
  destruct (pickle1_init_spec {| p_ptr := m2; p_pos := pos; p_pt := p_pt (pickler_ c) |}) as (p & -> & Hp).
  { cbn [p_ptr]. rewrite Hl. apply Hi. }
  cbn [mbind option_bind]. exists p. split; done.
Qed.

Lemma flushed_pickler c wr : pickler_ (flushed c wr) = pickler_ c.
Proof. unfold flushed. by case_match. Qed.
Lemma flushed_tick c wr : tick_time (flushed c wr) = tick_time c.
Proof. unfold flushed. by case_match. Qed.

(** What one callback does, whatever the socket answers. *)
Lemma pickle1_each_spec c l kv rs :
  pickler_inv (pickler_ c) l -> sample_ok (tick_sample c kv) ->
  match pickle1_each c kv.1 kv.2 rs with
  | None => l <> [] /\ write_in_full (frame l) rs = None
  | Some (c', out, rs') =>
      tick_time c' = tick_time c /\
      ((* pushed *)
       carbon_is_connected c' = true /\ out = [] /\ rs' = rs /\
         pickler_inv (pickler_ c') (l ++ [tick_sample c kv]) \/
       (* flushed, then pushed *)
       carbon_is_connected c' = true /\ l <> [] /\ out = frame l /\
         write_in_full (frame l) rs = Some (Z.of_nat (length (frame l)), out, rs') /\
         pickler_inv (pickler_ c') [tick_sample c kv] \/
       (* not connected *)
       carbon_is_connected c = false /\ c' = c /\ out = [] /\ rs' = rs \/
       (* the connection failed *)
       carbon_is_connected c' = false /\ l <> [] /\
         write_in_full (frame l) rs = Some (-1, out, rs') /\ pickler_inv (pickler_ c') [])
  end.
Proof.
  intros Hi Hs. destruct (tick_sample_key c kv) as [Hk Hsrc]. unfold pickle1_each.
  rewrite <- Hk. set (sm := tick_sample c kv) in *.
  assert (Hpush : forall c1 l1, pickler_inv (pickler_ c1) l1 -> tick_time c1 = tick_time c ->
    p_pos (pickler_ c1) + PICKLE1_SIZE (Z.of_nat (length (sm_key sm))) < PICKLE_BUFFER_SIZE ->
    exists p, pickle1_push (pickler_ c1) (kv.1 ++ [0]) (Z.of_nat (length (sm_key sm)))
                (tick_time c1) kv.2 = Some p /\ pickler_inv p (l1 ++ [sm])).
  { intros c1 l1 Hi1 Ht Hr. rewrite Ht. apply (pickle1_push_inv _ _ sm); done. }
  assert (Hfit : 8 + PICKLE1_SIZE (Z.of_nat (length (sm_key sm))) < PICKLE_BUFFER_SIZE).
  { destruct Hs as [Hs _]. unfold PICKLE1_SIZE, PICKLE_BUFFER_SIZE. lia. }
  destruct (Z.leb_spec PICKLE_BUFFER_SIZE
    (p_pos (pickler_ c) + PICKLE1_SIZE (Z.of_nat (length (sm_key sm))))) as [Hfull|Hroom].
  - destruct (pickle1_flush_spec c l rs Hi) as [[-> _]|[[Hc ->]|(Hc & Hl & Hw)]].
    + rewrite (pi_pos _ _ Hi) in Hfull. change (8 + Z.of_nat (length (body 0 []))) with 8 in Hfull. lia.
    + cbn [mbind option_bind]. rewrite Hc. cbn [negb].
      split; [done|]. right. right. left. auto.
    + pose proof (write_in_full_cases (frame l) rs) as Hcase.
      destruct (write_in_full (frame l) rs) as [[[wr out] rs']|]; [|by rewrite Hw].
      destruct Hw as (p & Hp & ->). cbn [mbind option_bind].
      destruct Hcase as [[-> ->]|[-> _]].
      * unfold flushed. destruct (Z.ltb_spec (Z.of_nat (length (frame l))) 0); [lia|].
        unfold carbon_is_connected in *. cbn [add_sent set_pickler out_sock] in *. rewrite Hc.
        cbn [negb].
        destruct (Hpush (add_sent (set_pickler c p) (Z.of_nat (length (frame l)))) []) as (p' & E & Hp');
          [done|done| |].
        { cbn [add_sent set_pickler pickler_]. rewrite (pi_pos _ _ Hp). done. }
        cbn [add_sent set_pickler tick_time pickler_] in *. rewrite E. cbn [mbind option_bind].
        split; [done|]. right. left. cbn [set_pickler out_sock pickler_]. auto.
      * cbn [flushed Z.ltb Z.compare carbon_disconnect carbon_is_connected set_sock out_sock negb
             Z.leb tick_time set_pickler pickler_].
        split; [done|]. right. right. right. auto.
  - cbn [mbind option_bind]. destruct (carbon_is_connected c) eqn:Hc; cbn [negb];
      [|split; [done|]; right; right; left; auto].
    destruct (Hpush c l Hi eq_refl Hroom) as (p & -> & Hp). cbn [mbind option_bind].
    split; [done|]. left. unfold carbon_is_connected in *. cbn [set_pickler out_sock pickler_]. auto.
Qed.

(** C33: the pickler never writes outside its 4096-byte buffer: from any state
    that the backend reaches, and whatever the socket answers, a sample
    callback returns with the buffer well formed again, or waits for the
    socket to take a full frame. *)
Theorem pickle1_each_safe (c : brubeck_carbon) (l : list sample) (key : list Z) (value : value_t)
  (rs : list wres)
  (Hi : pickler_inv (pickler_ c) l) (Hs : sample_ok (tick_sample c (key, value))) :
  match pickle1_each c key value rs with
  | None => write_in_full (frame l) rs = None
  | Some (c', out, rs') =>
      (out = [] \/ exists rest, frame l = out ++ rest) /\
      exists l', pickler_inv (pickler_ c') l'
  end.
Proof.
  pose proof (pickle1_each_spec c l (key, value) rs Hi Hs) as H. cbn [fst snd] in H.
  destruct (pickle1_each c key value rs) as [[[c' out] rs']|]; [|apply H].
  destruct H as [_ [(_ & -> & _ & Hp)|[(_ & _ & -> & _ & Hp)|[(_ & -> & -> & _)|(_ & _ & Hw & Hp)]]]].
  - split; [by left|by eexists].
  - split; [right; exists []; by rewrite app_nil_r|by eexists].
  - split; [by left|by eexists].
  - split; [|by eexists]. right. pose proof (write_in_full_cases (frame l) rs) as Hc. rewrite Hw in Hc.
    destruct Hc as [[? _]|[_ (rest & _ & E)]]; [lia|by exists rest].
Qed.

(** ** The stream that Carbon receives *)

(** A socket that takes whatever it is given. *)
Definition accepting (r : wres) : Prop := exists n, r = WOk n /\ (4096 <= n)%nat.

Lemma write_accepted data r rs :
  accepting r -> data <> [] -> (length data <= 4096)%nat ->
  write_in_full data (r :: rs) = Some (Z.of_nat (length data), data, rs).
Proof.
  intros (n & -> & Hn) Hd Hl. unfold write_in_full. destruct data as [|b data]; [done|].
  remember (b :: data) as d eqn:Ed. assert (Hpos : (0 < length d)%nat) by (rewrite Ed; simpl; lia).
  destruct (length d) as [|k] eqn:Ek; [lia|]. rewrite Ed at 1. cbn [write_loop].
  rewrite <- Ed, Ek. cbn [xwrite mbind option_bind]. rewrite Nat.min_r by lia.
  destruct (Z.ltb_spec (Z.of_nat (S k)) 0), (Z.eqb_spec (Z.of_nat (S k)) 0); try lia.
  rewrite Nat2Z.id, drop_ge, take_ge by lia. by destruct k.
Qed.

Lemma frame_fits p l :
  pickler_inv p l -> frame l <> [] /\ (length (frame l) <= 4096)%nat /\ group_ok l.
Proof.
  intros [Hsz Hp Hr _ _ Hok]. unfold group_ok, frame, payload, htonl_bytes, PICKLE_BUFFER_SIZE in *.
  rewrite !length_app, length_rev, le_bytes_length. cbn [length lead trail].
  split_and!; [|lia|done|lia].
  intros E%(f_equal length). rewrite !length_app, length_rev, le_bytes_length in E. simpl in E. lia.
Qed.

Lemma frames_count (gs : list (list sample)) : (length gs <= length (concat (frame <$> gs)))%nat.
Proof.
  induction gs as [|g gs IH]; [simpl; lia|]. rewrite fmap_cons. cbn [concat length].
  assert (4 <= length (frame g))%nat.
  { unfold frame, htonl_bytes. rewrite length_app, length_rev, le_bytes_length. lia. }
  rewrite length_app. lia.
Qed.

Fixpoint sample_all (c : brubeck_carbon) (kvs : list (list Z * value_t)) (rs : list wres)
    : option (brubeck_carbon * list Z * list wres) :=
  match kvs with
  | [] => Some (c, [], rs)
  | (k, v) :: kvs =>
      '(c, out, rs) ← pickle1_each c k v rs;
      '(c, out', rs) ← sample_all c kvs rs;
      Some (c, out ++ out', rs)
  end.

(** A period of the backend: the samples of all its metrics, then the flush. *)
Definition pickle_tick (c : brubeck_carbon) (kvs : list (list Z * value_t)) (rs : list wres)
    : option (brubeck_carbon * list Z * list wres) :=
  '(c, out, rs) ← sample_all c kvs rs;
  '(c, out', rs) ← pickle1_flush c rs;
  Some (c, out ++ out', rs).

Lemma sample_all_spec kvs : forall c l rs,
  pickler_inv (pickler_ c) l -> carbon_is_connected c = true ->
  Forall (fun kv => sample_ok (tick_sample c kv)) kvs ->
  Forall accepting rs -> (length kvs < length rs)%nat ->
  exists c' gs l' rs',
    sample_all c kvs rs = Some (c', concat (frame <$> gs), rs') /\
    carbon_is_connected c' = true /\ pickler_inv (pickler_ c') l' /\
    Forall group_ok gs /\ concat gs ++ l' = l ++ (tick_sample c <$> kvs) /\
    Forall accepting rs' /\ (0 < length rs')%nat.
Proof.
  induction kvs as [|[k v] kvs IH]; intros c l rs Hi Hc Hkv Hrs Hlen; cbn [sample_all].
  - exists c, [], l, rs. rewrite app_nil_r. split_and!; try done.
  - apply Forall_cons_iff in Hkv as [Hk Hkv]. cbn [length] in Hlen.
    destruct rs as [|r rs]; [simpl in Hlen; lia|]. pose proof Hrs as [Hr Hrs']%Forall_cons_iff.
    destruct (frame_fits _ _ Hi) as (Hf & Hf4 & Hg).
    pose proof (write_accepted (frame l) r rs Hr Hf Hf4) as Hw.
    pose proof (pickle1_each_spec c l (k, v) (r :: rs) Hi Hk) as H. cbn [fst snd] in H.
    destruct (pickle1_each c k v (r :: rs)) as [[[c1 out] rs1]|]; [|rewrite Hw in H; by destruct H].
    destruct H as [Ht H].
    assert (Hsame : (fun kv => tick_sample c1 kv) = (fun kv => tick_sample c kv))
      by (unfold tick_sample; by rewrite Ht).
    assert (Hkv1 : Forall (fun kv => sample_ok (tick_sample c1 kv)) kvs)
      by (eapply Forall_impl; [|exact Hkv]; intros kv; unfold tick_sample; by rewrite Ht).
    assert (Hfm : tick_sample c1 <$> kvs = tick_sample c <$> kvs)
      by (unfold tick_sample; by rewrite Ht).
    rewrite fmap_cons. cbn [mbind option_bind].
    destruct H as [(Hc1 & -> & -> & Hp)|[(Hc1 & Hl & -> & Hw1 & Hp)|[(Hc1 & _)|(_ & _ & Hw1 & _)]]].
    + destruct (IH c1 _ (r :: rs) Hp Hc1 Hkv1 Hrs ltac:(lia))
        as (c' & gs & l' & rs' & -> & Hc' & Hp' & Hgs & E & Hrs2 & Hl2).
      exists c', gs, l', rs'. split_and!; try done.
      by rewrite E, Hfm, <- app_assoc.
    + rewrite Hw in Hw1. injection Hw1 as <-.
      destruct (IH c1 _ rs Hp Hc1 Hkv1 Hrs' ltac:(simpl in Hlen; lia))
        as (c' & gs & l' & rs' & -> & Hc' & Hp' & Hgs & E & Hrs2 & Hl2).
      exists c', (l :: gs), l', rs'. split_and!; try done; [by constructor|].
      cbn [concat]. by rewrite <- app_assoc, E, Hfm.
    + congruence.
    + rewrite Hw in Hw1. injection Hw1. lia.
Qed.

Lemma pickle_tick_decodes (c : brubeck_carbon) (kvs : list (list Z * value_t)) (rs : list wres)
  (Hi : pickler_inv (pickler_ c) []) (Hc : carbon_is_connected c = true)
  (Hkv : Forall (fun kv => sample_ok (tick_sample c kv)) kvs)
  (Hrs : Forall accepting rs) (Hlen : (length kvs < length rs)%nat) :
  exists c' out rs',
    pickle_tick c kvs rs = Some (c', out, rs') /\
    carbon_is_connected c' = true /\ pickler_inv (pickler_ c') [] /\
    decode_stream (length out) out = Some (sample_pval <$> (tick_sample c <$> kvs)).
Proof.
  destruct (sample_all_spec kvs c [] rs Hi Hc Hkv Hrs Hlen)
    as (c1 & gs & l & rs1 & E1 & Hc1 & Hp1 & Hgs & Eg & Hrs1 & Hl1).
  destruct rs1 as [|r rs1]; [simpl in Hl1; lia|]. apply Forall_cons_iff in Hrs1 as [Hr _].
  destruct (frame_fits _ _ Hp1) as (Hf & Hf4 & Hg).
  pose proof (write_accepted (frame l) r rs1 Hr Hf Hf4) as Hw.
  unfold pickle_tick. rewrite E1. cbn [mbind option_bind].
  destruct (pickle1_flush_spec c1 l (r :: rs1) Hp1) as [[-> ->]|[[? _]|(_ & Hl & Hfl)]].
  - cbn [mbind option_bind]. rewrite app_nil_r in *. do 3 eexists. split; [done|]. split_and!; [done..|].
    rewrite decode_frames by auto using frames_count. by rewrite Eg.
  - congruence.
  - rewrite Hw in Hfl. destruct Hfl as (p & Hp & ->). cbn [mbind option_bind].
    do 3 eexists. split; [done|]. unfold flushed.
    destruct (Z.ltb_spec (Z.of_nat (length (frame l))) 0); [lia|].
    split_and!; [done|done|].
    replace (concat (frame <$> gs) ++ frame l) with (concat (frame <$> (gs ++ [l])))
      by (rewrite fmap_app, concat_app; simpl; by rewrite app_nil_r).
    assert (Hgl : Forall group_ok (gs ++ [l])) by (apply Forall_app; split; [done|by constructor]).
    rewrite decode_frames by auto using frames_count. rewrite concat_app. cbn [concat]. by rewrite app_nil_r, Eg.
Qed.

(** C7: Carbon reads back what was sampled: over a connection that takes the
    data, the bytes sent in a period are messages of Carbon's pickle format,
    and decoding them gives exactly the period's samples, in order: each key
    (cut to its length modulo 256), the period's timestamp and the value.
    Nothing is left in the buffer. *)
Theorem pickle_stream_roundtrip (c : brubeck_carbon) (kvs : list (list Z * value_t)) (rs : list wres)
  (Hi : pickler_inv (pickler_ c) []) (Hc : carbon_is_connected c = true)
  (Hkv : Forall (fun kv => sample_ok (tick_sample c kv)) kvs)
  (Hrs : Forall accepting rs) (Hlen : (length kvs < length rs)%nat) :
  exists c' out rs',
    pickle_tick c kvs rs = Some (c', out, rs') /\
    carbon_is_connected c' = true /\ pickler_inv (pickler_ c') [] /\
    decode_stream (length out) out = Some (sample_pval <$> (tick_sample c <$> kvs)).
Proof. by apply pickle_tick_decodes. Qed.

(** ** Lines of text *)

Lemma put_ftoa_spec m p value :
  float_exp (bits32 (to_float value)) < 127 + 23 -> 0 <= p -> p + 17 <= Z.of_nat (length m) ->
  exists m' p' text, put_ftoa m p value = Some (m', p') /\
    brubeck_ftoa (bits32 (to_float value)) = Some text /\ (length text <= 16)%nat /\
    p' = p + Z.of_nat (length text) /\ length m' = length m /\
    take (Z.to_nat p') m' = take (Z.to_nat p) m ++ text.
Proof.
  intros Hexp Hp Hl. unfold put_ftoa.
  destruct (ftoa_sizes (bits32 (to_float value)) Hexp) as (sign & int & frac & text & rest & -> & Et & Er & H16).
  cbv zeta. cbn [mbind option_bind]. rewrite Et. cbn [mbind option_bind]. rewrite Er in *.
  rewrite length_app in H16.
  destruct (wr_n m p (text ++ rest)) as [m1|] eqn:E1;
    [|rewrite wr_n_in in E1 by (rewrite ?length_app; lia); done].
  pose proof (wr_n_length _ _ _ _ E1) as Hl1. apply wr_n_take in E1. cbn [mbind option_bind].
  pose proof (wr_in m1 (p + Z.of_nat (length text)) 0 ltac:(lia)) as E2. rewrite E2. cbn [mbind option_bind].
  do 3 eexists. split_and!; try done; [lia|by rewrite length_insert|].
  rewrite take_insert_ge by lia.
  replace (Z.to_nat (p + Z.of_nat (length text))) with (Z.to_nat p + length text)%nat by lia.
  apply (f_equal (take (Z.to_nat p + length text))) in E1. rewrite take_take in E1.
  rewrite length_app, Nat.min_l in E1 by lia. rewrite E1, app_assoc.
  rewrite take_app_le, take_ge; [done| |]; rewrite length_app, length_take; lia.
Qed.

Definition line_text (key text tick : list Z) : list Z := key ++ [chr " "] ++ text ++ [chr " "] ++ tick ++ [10].

(** C32: a sample in the text protocol is one line of Carbon's plaintext format:
    the key, the value as [brubeck_ftoa] prints it, the timestamp in decimal
    and a newline, handed to the socket as a whole; a key of up to 990 bytes
    stays inside the stack buffer.  The one value without a line is a float of
    magnitude 2^23 or more, whose printing C does not define. *)
Theorem plaintext_each_line (c : brubeck_carbon) (key : list Z) (value : value_t) (junk : Z)
  (rs : list wres)
  (Hc : carbon_is_connected c = true) (Hkey : (length key <= 990)%nat) (Htick : fits 32 (tick_time c)) :
  exists tick, decimal_text (tick_time c) tick /\
    plaintext_each c key value junk rs =
      (text ← brubeck_ftoa (bits32 (to_float value));
       '(wr, out, rs) ← write_in_full (line_text key text tick) rs;
       Some (if wr <? 0 then carbon_disconnect c else add_sent c wr, out, rs)) /\
    (brubeck_ftoa (bits32 (to_float value)) = None <-> 127 + 23 <= float_exp (bits32 (to_float value))).
Proof.
  unfold plaintext_each. rewrite Hc. cbn [negb].
  destruct (itoa_run (tick_time c) Htick) as (tick & Ei & Hdec & H10). exists tick. split; [done|].
  assert (H1024 : length (replicate 1024 junk) = 1024%nat) by apply length_replicate.
  set (m0' := replicate 1024 junk) in *. clearbody m0'.
  put_step. put_step.
  destruct (Z.lt_ge_cases (float_exp (bits32 (to_float value))) (127 + 23)) as [Hexp|Hexp].
  2: { unfold put_ftoa. by rewrite ftoa_parts_large, ftoa_large by done. }
  destruct (put_ftoa_spec m0 p0 value) as (mf & pf & text & Ef & Etext & H16 & Hpf & Hlf & Htf); [done|lia|lia|].
  rewrite Ef, Etext. cbn [mbind option_bind]. put_step.
  unfold put_itoa. rewrite Ei. cbn [mbind option_bind]. put_step. put_step.
  split; [|split; [done|lia]].
  rewrite rd_n_in by lia. cbn [mbind option_bind]. change (Z.to_nat 0) with 0%nat. rewrite drop_0.
  repeat match goal with H : take _ _ = _ ++ _ |- _ => rewrite H; clear H end.
  rewrite take_0. unfold line_text. rewrite <- !app_assoc. done.
Qed.

(** A longer key overruns the 1024-byte stack buffer: from 1024 bytes on,
    the first write behind the key is already outside it. *)
Theorem plaintext_each_overrun (c : brubeck_carbon) (key : list Z) (value : value_t) (junk : Z)
  (rs : list wres)
  (Hc : carbon_is_connected c = true) (Hkey : (1024 <= length key)%nat) :
  plaintext_each c key value junk rs = None.
Proof.
  unfold plaintext_each. rewrite Hc. cbn [negb].
  assert (H1024 : length (replicate 1024 junk) = 1024%nat) by apply length_replicate.
  set (m0' := replicate 1024 junk) in *. clearbody m0'.
  destruct (put m0' 0 key) as [[m p]|] eqn:E; [|done]. cbn [mbind option_bind].
  unfold put in E. apply bind_Some in E as (m' & E & [= <- <-]). pose proof (wr_n_length _ _ _ _ E).
  destruct (put m' (0 + Z.of_nat (length key)) [chr " "]) as [[? ?]|] eqn:E2; [|done]. exfalso.
  unfold put in E2. apply bind_Some in E2 as (? & (_ & Hr & _)%wr_n_Some & _). simpl in Hr. lia.
Qed.

Definition demo_carbon : brubeck_carbon :=
  {| tick_time := 1000; out_sock := 4;
     pickler_ := {| p_ptr := replicate 4 0 ++ lead ++ replicate (Z.to_nat 4088) 0; p_pos := 8; p_pt := 1 |};
     sent := 0 |}.

Lemma demo_pickler_inv : pickler_inv (pickler_ demo_carbon) [].
Proof. split; try done; vm_compute; reflexivity. Qed.

Lemma demo_sample_ok : sample_ok (tick_sample demo_carbon (bytes "a.b", F64 3)).
Proof. split_and!; [reflexivity|simpl; lia|reflexivity|reflexivity]. Qed.

Lemma pickle1_each_safe_witness :
  match pickle1_each demo_carbon (bytes "a.b") (F64 3) [] with
  | None => write_in_full (frame []) [] = None
  | Some (c', out, rs') =>
      (out = [] \/ exists rest, frame [] = out ++ rest) /\
      exists l', pickler_inv (pickler_ c') l'
  end.
Proof.
  apply (pickle1_each_safe demo_carbon [] (bytes "a.b") (F64 3) [] demo_pickler_inv demo_sample_ok).
Defined.

Lemma pickle_stream_roundtrip_witness :
  exists c' out rs',
    pickle_tick demo_carbon [(bytes "a.b", F64 3); (bytes "a.b", F64 3)]
      (replicate 3 (WOk (Z.to_nat 4096))) = Some (c', out, rs') /\
    carbon_is_connected c' = true /\ pickler_inv (pickler_ c') [] /\
    decode_stream (length out) out =
      Some [PTuple [PStr (bytes "a.b"); PTuple [PInt 1000; PFloat (F64 3)]];
            PTuple [PStr (bytes "a.b"); PTuple [PInt 1000; PFloat (F64 3)]]].
Proof.
  apply (pickle_stream_roundtrip demo_carbon [(bytes "a.b", F64 3); (bytes "a.b", F64 3)]
           (replicate 3 (WOk (Z.to_nat 4096))) demo_pickler_inv eq_refl).
  - repeat constructor; apply demo_sample_ok.
  - apply Forall_replicate. exists (Z.to_nat 4096). split; [reflexivity|lia].
  - simpl. lia.
Defined.

Lemma plaintext_each_line_witness :
  exists tick, decimal_text 1000 tick /\
    plaintext_each demo_carbon (bytes "a.b") (F64 15) 0 [WOk 100] =
      ('(wr, out, rs) ← write_in_full (line_text (bytes "a.b") (bytes "15") tick) [WOk 100];
       Some (if wr <? 0 then carbon_disconnect demo_carbon else add_sent demo_carbon wr, out, rs)).
Proof.
  destruct (plaintext_each_line demo_carbon (bytes "a.b") (F64 15) 0 [WOk 100] eq_refl) as (tick & Ht & E & _).
  - simpl. lia.
  - unfold fits. simpl. lia.
  - exists tick. split; [exact Ht|]. rewrite E.
    replace (brubeck_ftoa (bits32 (to_float (F64 15)))) with (Some (bytes "15")) by (vm_compute; reflexivity). reflexivity.
Defined.

Example plaintext_line :
  (fun r => snd (fst r)) <$> plaintext_each demo_carbon (bytes "a.b") (F64 15) 0 [WOk 100] =
    Some (bytes "a.b 15 1000" ++ [10]).
Proof. vm_compute. reflexivity. Qed.

Lemma plaintext_each_overrun_witness :
  plaintext_each demo_carbon (replicate 1024 97) (F64 15) 0 [] = None.
Proof.
  apply (plaintext_each_overrun demo_carbon (replicate 1024 97) (F64 15) 0 [] eq_refl).
  rewrite length_replicate. lia.
Defined.

End Carbon.
