(* ===== verification/Store.v ===== *)
(** * The metrics of the server ([src/metric.c], [src/ht.c], [src/server.h])

    Metrics live in memory of the slab allocator and are never freed; a pointer
    to a metric is its index in the list of all metrics allocated.  The
    hash table maps keys to pointers, and every backend has the list of the
    metrics it samples.  The hash table itself ([ck_ht], a submodule) is a
    parameter: an instance of [HashTable]. *)

From stdpp Require Import gmap sets.
From S2P Require Import Prelude Value Histogram Slab Metric City Internal Statsd StatsdSecure.
Import Histogram Slab Metric City Internal Statsd StatsdSecure.

Module Store.

(** ** The hash table's promise *)

(** [ck_ht_get_spmc], [ck_ht_put_spmc] (false: the key is in the table) and the
    entries in the order of [ck_ht_next]. *)
Class HashTable (T : Type) := {
  ht_find : T -> list Z -> option nat;
  ht_insert : T -> list Z -> nat -> T * bool;
  ht_entries : T -> list (list Z * nat);
  ht_count : T -> Z;
}.

Class HashTableLaws (T : Type) `{HashTable T} := {
  ht_insert_old t k v v' : ht_find t k = Some v -> ht_insert t k v' = (t, false);
  ht_insert_new t k v :
    ht_find t k = None ->
    exists t', ht_insert t k v = (t', true) /\ ht_find t' k = Some v /\
      forall k', k' <> k -> ht_find t' k' = ht_find t k';
  ht_entries_find t k v : (k, v) ∈ ht_entries t <-> ht_find t k = Some v;
  ht_entries_once t : NoDup (ht_entries t);
  ht_count_entries t : ht_count t = Z.of_nat (length (ht_entries t));
}.

(** A map with keys in any order is one. *)
#[export] Instance gmap_table : HashTable (gmap (list Z) nat) := {|
  ht_find t k := t !! k;
  ht_insert t k v := match t !! k with Some _ => (t, false) | None => (<[k := v]> t, true) end;
  ht_entries t := map_to_list t;
  ht_count t := Z.of_nat (length (map_to_list t));
|}.

#[export] Instance gmap_table_laws : HashTableLaws (gmap (list Z) nat).
Proof.
  split; cbn [ht_find ht_insert ht_entries gmap_table].
  - intros t k v v' ->. done.
  - intros t k v ->. eexists. split; [done|]. split; [by rewrite lookup_insert_eq|].
    intros k' Hk. by rewrite lookup_insert_ne.
  - intros t k v. apply elem_of_map_to_list.
  - intros t. apply NoDup_map_to_list.
  - done.
Qed.

(** ** Dispatch on the type of a metric *)

(** [_prototypes[metric->type].record]: the pointer of the internal metric is
    null ([None]). *)
Definition brubeck_metric_record (m : brubeck_metric) (value sample_freq : value_t) (modifiers : Z)
    : option brubeck_metric :=
  match type m with
  | BRUBECK_MT_GAUGE => gauge__record m value sample_freq modifiers
  | BRUBECK_MT_METER => meter__record m value sample_freq modifiers
  | BRUBECK_MT_COUNTER => counter__record m value sample_freq modifiers
  | BRUBECK_MT_HISTO | BRUBECK_MT_TIMER => histogram__record m value sample_freq modifiers
  | BRUBECK_MT_INTERNAL_STATS => None
  end.

(** [freq] is the sampling period of the backend that calls. *)
Definition brubeck_metric_sample (s : brubeck_internal_stats) (m : brubeck_metric) (freq junk : Z)
    : option (brubeck_internal_stats * brubeck_metric * list emission) :=
  let plain r := '(m, es) ← r; Some (s, m, es) in
  match type m with
  | BRUBECK_MT_GAUGE => plain (gauge__sample m)
  | BRUBECK_MT_METER => plain (meter__sample m)
  | BRUBECK_MT_COUNTER => plain (counter__sample m)
  | BRUBECK_MT_HISTO | BRUBECK_MT_TIMER => plain (histogram__sample m freq junk)
  | BRUBECK_MT_INTERNAL_STATS => brubeck_internal__sample s m junk
  end.

(** ** The hash table's operations

    [key_len] is the [uint16_t] of the parameter; [brubeck_hashtable_insert]
    runs under the table's mutex. *)
Section Table.
Context {T : Type} `{HashTable T}.

Definition brubeck_hashtable_find (ht : T) (key : list Z) (key_len : Z) : option nat :=
  ht_find ht (take (Z.to_nat key_len) key).

Definition brubeck_hashtable_insert (ht : T) (key : list Z) (key_len : Z) (val : nat) : T * bool :=
  ht_insert ht (take (Z.to_nat key_len) key) val.
End Table.

(** ** The server *)

(** What the metrics need of a backend: its period and the metrics it samples,
    the latest first. *)
Record brubeck_backend := { b_sample_freq : Z; b_queue : list nat }.

Section Store.
Context {T : Type} `{HashTable T}.

Record brubeck_server := {
  name : list Z;
  slab : brubeck_slab;
  heap : list brubeck_metric;
  table : T;
  at_capacity : bool;
  active_backends : Z;
  backends : list brubeck_backend;
  internal_stats : brubeck_internal_stats;
}.

Definition set_heap (sv : brubeck_server) (h : list brubeck_metric) : brubeck_server :=
  {| name := name sv; slab := slab sv; heap := h; table := table sv;
     at_capacity := at_capacity sv; active_backends := active_backends sv;
     backends := backends sv; internal_stats := internal_stats sv |}.

Definition stats_inc (sv : brubeck_server) (f : stat) : brubeck_server :=
  {| name := name sv; slab := slab sv; heap := heap sv; table := table sv;
     at_capacity := at_capacity sv; active_backends := active_backends sv;
     backends := backends sv; internal_stats := brubeck_stats_inc (internal_stats sv) f |}.

(** The index of the backend. *)
Definition brubeck_metric_shard (sv : brubeck_server) (m : brubeck_metric) : option Z :=
  if 1 <? active_backends sv then
    h ← CityHash32 (key m) (key_len m);
    Some (h mod u32 (active_backends sv))
  else Some 0.

(** [brubeck_backend_register_metric], once its compare-and-swap succeeds. *)
Definition register_metric (bs : list brubeck_backend) (shard : Z) (id : nat)
    : option (list brubeck_backend) :=
  b ← rd bs shard;
  wr bs shard {| b_sample_freq := b_sample_freq b; b_queue := id :: b_queue b |}.

(** The allocation and initialisation of [new_metric]: its writes have to stay
    inside the node of the block. *)
Definition alloc_metric (sv : brubeck_server) (k : list Z) (t : brubeck_metric_t)
    : option (brubeck_server * nat * brubeck_metric) :=
  let need := sizeof_metric + Z.of_nat (length k) + 1 in
  '(sl, p) ← brubeck_slab_alloc (slab sv) need;
  if p_off p + need <=? node_bytes then
    let m := new_metric k t in
    Some ({| name := name sv; slab := sl; heap := heap sv ++ [m]; table := table sv;
             at_capacity := at_capacity sv; active_backends := active_backends sv;
             backends := backends sv; internal_stats := internal_stats sv |},
          length (heap sv), m)
  else None.

Definition brubeck_metric_new (sv : brubeck_server) (k : list Z) (t : brubeck_metric_t)
    : option (brubeck_server * option nat) :=
  '(sv, id, m) ← alloc_metric sv k t;
  let '(tb, ok) := brubeck_hashtable_insert (table sv) (key m) (key_len m) id in
  if negb ok then
    Some ({| name := name sv; slab := slab sv; heap := heap sv; table := tb;
             at_capacity := at_capacity sv; active_backends := active_backends sv;
             backends := backends sv; internal_stats := internal_stats sv |},
          brubeck_hashtable_find tb k (u16 (Z.of_nat (length k))))
  else
    shard ← brubeck_metric_shard sv m;
    bs ← register_metric (backends sv) shard id;
    Some (stats_inc {| name := name sv; slab := slab sv; heap := heap sv; table := tb;
                       at_capacity := at_capacity sv; active_backends := active_backends sv;
                       backends := bs; internal_stats := internal_stats sv |} unique_keys,
          Some id).

Definition brubeck_metric_find (sv : brubeck_server) (k : list Z) (t : brubeck_metric_t)
    : option (brubeck_server * option nat) :=
  match brubeck_hashtable_find (table sv) k (u16 (Z.of_nat (length k))) with
  | None => if at_capacity sv then Some (sv, None) else brubeck_metric_new sv k t
  | Some id =>
      m ← heap sv !! id;
      Some (set_heap sv (<[id := set_expire m BRUBECK_EXPIRE_ACTIVE]> (heap sv)), Some id)
  end.

(** Recording through a pointer. *)
Definition record_at (sv : brubeck_server) (id : nat) (value sample_freq : value_t) (modifiers : Z)
    : option brubeck_server :=
  m ← heap sv !! id;
  m ← brubeck_metric_record m value sample_freq modifiers;
  Some (set_heap sv (<[id := m]> (heap sv))).

(** The server as the parser's sink: the accepted branch of
    [brubeck_statsd_packet_parse]. *)
#[export] Instance server_sink : MetricSink brubeck_server := {|
  sink_error sv := stats_inc sv errors;
  sink_metric sv k t v f mods :=
    '(sv, id) ← brubeck_metric_find (stats_inc sv metrics) k t;
    match id with
    | Some id => record_at sv id v f mods
    | None => Some sv
    end;
|}.

#[export] Instance server_stat_sink : StatSink brubeck_server := {| sink_stat := stats_inc |}.

(** [expire_metric], run over the table by the server's expiry timer. *)
Definition expire_metric (m : brubeck_metric) : brubeck_metric :=
  if BRUBECK_EXPIRE_DISABLED <? expire m then set_expire m (u8 (expire m - 1)) else m.

(** [brubeck_hashtable_foreach]. *)
Fixpoint foreach (f : brubeck_metric -> brubeck_metric) (es : list (list Z * nat))
    (h : list brubeck_metric) : option (list brubeck_metric) :=
  match es with
  | [] => Some h
  | (_, id) :: es => m ← h !! id; foreach f es (<[id := f m]> h)
  end.

(** [brubeck_hashtable_size] and [brubeck_hashtable_to_a]: the array has the
    size that the table reports; [None] is a write behind it, and an element that
    is not written stays [None].  (The assertion that it is full is not compiled
    in.) *)
Definition brubeck_hashtable_size (t : T) : Z := ht_count t.

Fixpoint fill_array (es : list (list Z * nat)) (array : list (option nat)) (i : Z)
    : option (list (option nat) * Z) :=
  match es with
  | [] => Some (array, i)
  | (_, id) :: es => array ← wr array i (Some id); fill_array es array (i + 1)
  end.

Definition brubeck_hashtable_to_a (t : T) : option (list (option nat) * Z) :=
  let len := ht_count t in
  '(array, i) ← fill_array (ht_entries t) (replicate (Z.to_nat len) None) 0;
  Some (array, len).

Definition expire_all (sv : brubeck_server) : option brubeck_server :=
  h ← foreach expire_metric (ht_entries (table sv)) (heap sv);
  Some (set_heap sv h).

(** The loop of [backend__thread] over the backend's metrics: the calls of
    the sample callback, in order. *)
Fixpoint sample_queue (s : brubeck_internal_stats) (h : list brubeck_metric) (q : list nat)
    (freq junk : Z) : option (brubeck_internal_stats * list brubeck_metric * list emission) :=
  match q with
  | [] => Some (s, h, [])
  | id :: q =>
      m ← h !! id;
      if BRUBECK_EXPIRE_DISABLED <? expire m then
        '(s, m, es) ← brubeck_metric_sample s m freq junk;
        '(s, h, es') ← sample_queue s (<[id := m]> h) q freq junk;
        Some (s, h, es ++ es')
      else sample_queue s h q freq junk
  end.

(** ** Invariant *)

(** The variant of the union is the one of the type, and its numbers are
    doubles. *)
Definition typed (m : brubeck_metric) : Prop :=
  match type m, as_ m with
  | BRUBECK_MT_GAUGE, As_gauge v | BRUBECK_MT_METER, As_meter v => is_double v
  | BRUBECK_MT_COUNTER, As_counter v previous => is_double v /\ is_double previous
  | BRUBECK_MT_HISTO, As_histogram h | BRUBECK_MT_TIMER, As_histogram h => histo_ok h
  | BRUBECK_MT_INTERNAL_STATS, As_other _ => True
  | _, _ => False
  end.

Definition metric_ok (m : brubeck_metric) : Prop :=
  key_wf m /\ typed m /\ Z.of_nat (length (key m)) < 65536 /\
  BRUBECK_EXPIRE_DISABLED <= expire m <= BRUBECK_EXPIRE_ACTIVE.

(** The backend of a key. *)
Definition shard_key (n : Z) (k : list Z) : nat :=
  if 1 <? n then Z.to_nat (default 0 (CityHash32 k (Z.of_nat (length k))) mod u32 n) else 0%nat.

Record server_wf (sv : brubeck_server) : Prop := {
  sv_slab : slab_wf (slab sv);
  sv_active : 1 <= active_backends sv <= Z.of_nat (length (backends sv));
  sv_slots : Z.of_nat (length (backends sv)) <= 8;
  sv_heap : Forall metric_ok (heap sv);
  sv_find k id : ht_find (table sv) k = Some id -> exists m, heap sv !! id = Some m /\ key m = k;
  sv_queue i b id :
    backends sv !! i = Some b -> id ∈ b_queue b ->
    exists m, heap sv !! id = Some m /\ ht_find (table sv) (key m) = Some id /\
      i = shard_key (active_backends sv) (key m);
  sv_registered k id :
    ht_find (table sv) k = Some id ->
    exists b, backends sv !! shard_key (active_backends sv) k = Some b /\ id ∈ b_queue b;
  sv_once : Forall (fun b => NoDup (b_queue b)) (backends sv);
}.

Lemma shard_key_lt n k : 1 <= n <= 8 -> Z.of_nat (shard_key n k) < n.
Proof.
  intros Hn. unfold shard_key. destruct (Z.ltb_spec 1 n); [|lia].
  rewrite (wrap_small 32 n) by (unfold fits; lia).
  pose proof (Z.mod_pos_bound (default 0 (CityHash32 k (Z.of_nat (length k)))) n). lia.
Qed.

Lemma metric_shard_key sv m :
  key_len m = Z.of_nat (length (key m)) -> 1 <= active_backends sv <= 8 ->
  brubeck_metric_shard sv m = Some (Z.of_nat (shard_key (active_backends sv) (key m))).
Proof.
  intros Hk Hn. unfold brubeck_metric_shard, shard_key. destruct (Z.ltb_spec 1 (active_backends sv)); [|done].
  rewrite Hk. destruct (CityHash32_total (key m)) as (h & -> & Hh). cbn [mbind option_bind]. change (default 0 (Some h)) with h.
  rewrite (wrap_small 32 (active_backends sv)) by (unfold fits; lia).
  pose proof (Z.mod_pos_bound h (active_backends sv) ltac:(lia)). by rewrite Z2Nat.id by lia.
Qed.

(** A key always goes to the same backend, and that backend exists. *)
Theorem shard_in_range (sv : brubeck_server) (m : brubeck_metric)
  (Hwf : server_wf sv) (Hm : key_wf m) :
  exists i b, brubeck_metric_shard sv m = Some i /\ 0 <= i < active_backends sv /\
    rd (backends sv) i = Some b /\
    forall m', key_wf m' -> key m' = key m -> brubeck_metric_shard sv m' = Some i.
Proof.
  pose proof (sv_active _ Hwf) as Ha. pose proof (sv_slots _ Hwf) as Hs.
  pose proof (shard_key_lt (active_backends sv) (key m) ltac:(lia)) as Hlt.
  destruct (rd_is_Some (backends sv) (Z.of_nat (shard_key (active_backends sv) (key m)))) as [b Hb]; [lia|].
  do 2 eexists. split; [apply metric_shard_key; [apply Hm|lia]|]. split; [lia|]. split; [exact Hb|].
  intros m' Hm' <-. apply metric_shard_key; [apply Hm'|lia].
Qed.

(** ** Finding and creating metrics *)

Context `{!HashTableLaws T}.

(** A key the slab allocator has room for. *)
Definition key_fits (k : list Z) : Prop := nul_free k /\ Z.of_nat (length k) <= 4000.

Lemma key_fits_take k : key_fits k -> take (Z.to_nat (u16 (Z.of_nat (length k)))) k = k.
Proof.
  intros [_ Hk]. rewrite wrap_small by (unfold fits; lia). rewrite Nat2Z.id. by apply take_ge.
Qed.

Lemma find_fits (tb : T) k : key_fits k -> brubeck_hashtable_find tb k (u16 (Z.of_nat (length k))) = ht_find tb k.
Proof. intros Hk. unfold brubeck_hashtable_find. by rewrite key_fits_take. Qed.

Lemma insert_fits m (tb : T) id :
  key_fits (key m) -> key_len m = u16 (Z.of_nat (length (key m))) ->
  brubeck_hashtable_insert tb (key m) (key_len m) id = ht_insert tb (key m) id.
Proof. intros Hk Hl. unfold brubeck_hashtable_insert. rewrite Hl. by rewrite key_fits_take. Qed.

Lemma new_metric_ok k t : key_fits k -> metric_ok (new_metric k t).
Proof.
  intros [Hn Hk]. unfold metric_ok. split_and!; [apply new_metric_key_wf; [done|lia]| | |done|done].
  { destruct t; try done; apply histo_zero_ok. }
  simpl. lia.
Qed.

Lemma alloc_metric_run sv k t :
  slab_wf (slab sv) -> key_fits k ->
  exists sl, slab_wf sl /\
    alloc_metric sv k t =
      Some ({| name := name sv; slab := sl; heap := heap sv ++ [new_metric k t]; table := table sv;
               at_capacity := at_capacity sv; active_backends := active_backends sv;
               backends := backends sv; internal_stats := internal_stats sv |},
            length (heap sv), new_metric k t).
Proof.
  intros Hsl [Hn Hk]. unfold alloc_metric.
  destruct (slab_alloc_step (slab sv) (sizeof_metric + Z.of_nat (length k) + 1)) as (sl & p & -> & Hsl' & Hp & _).
  { done. }
  { unfold sizeof_metric, NODE_SIZE, SLAB_SIZE, SLABS_PER_NODE. lia. }
  exists sl. split; [done|]. cbn [mbind option_bind].
  destruct Hp as (Hp0 & _ & x & Hx & Hxo).
  assert (Hxn : x <= NODE_SIZE).
  { destruct Hsl' as [_ Hall]. apply list_elem_of_lookup_2 in Hx.
    rewrite elem_of_reverse, list_elem_of_In in Hx. rewrite Forall_forall in Hall.
    destruct (Hall x Hx). lia. }
  unfold node_bytes, node_header, NODE_SIZE, SLAB_SIZE, SLABS_PER_NODE in *.
  destruct (Z.leb_spec (p_off p + (sizeof_metric + Z.of_nat (length k) + 1)) (32 * 128)); [done|lia].
Qed.

(** The server after the creation of a metric. *)
Record created (sv sv' : brubeck_server) (k : list Z) (t : brubeck_metric_t) (id : nat) : Prop := {
  cr_id : id = length (heap sv);
  cr_heap : heap sv' = heap sv ++ [new_metric k t];
  cr_found : ht_find (table sv') k = Some id;
  cr_others k' : k' <> k -> ht_find (table sv') k' = ht_find (table sv) k';
  cr_active : active_backends sv' = active_backends sv;
  cr_backends i b :
    backends sv !! i = Some b ->
    backends sv' !! i =
      Some (if decide (i = shard_key (active_backends sv) k)
            then {| b_sample_freq := b_sample_freq b; b_queue := id :: b_queue b |} else b);
  cr_slots : length (backends sv') = length (backends sv);
  cr_unique : live (internal_stats sv') unique_keys = u32 (live (internal_stats sv) unique_keys + 1);
  cr_sample : sample (internal_stats sv') = sample (internal_stats sv);
  cr_capacity : at_capacity sv' = at_capacity sv;
}.

Lemma metric_new_run sv k t :
  server_wf sv -> key_fits k -> ht_find (table sv) k = None ->
  exists sv', brubeck_metric_new sv k t = Some (sv', Some (length (heap sv))) /\
    slab_wf (slab sv') /\ created sv sv' k t (length (heap sv)) /\ name sv' = name sv.
Proof.
  intros Hwf Hk Hf. unfold brubeck_metric_new. pose proof (sv_active _ Hwf) as Ha.
  pose proof (sv_slots _ Hwf) as H8.
  destruct (alloc_metric_run sv k t (sv_slab _ Hwf) Hk) as (sl & Hsl & ->). cbn [mbind option_bind table].
  rewrite (insert_fits (new_metric k t)) by done. change (key (new_metric k t)) with k. destruct (ht_insert_new (table sv) k (length (heap sv)) Hf) as (tb & -> & Hnew & Hold).
  cbn [negb]. rewrite metric_shard_key; cbn [active_backends]; [|apply (new_metric_ok k t Hk)|lia].
  change (key (new_metric k t)) with k. cbn [mbind option_bind backends].
  pose proof (shard_key_lt (active_backends sv) k ltac:(lia)) as Hlt.
  set (i := shard_key (active_backends sv) k) in *.
  unfold register_metric. rewrite rd_nat.
  destruct (lookup_lt_is_Some_2 (backends sv) i ltac:(lia)) as [b Hb]. rewrite Hb.
  cbn [mbind option_bind]. rewrite wr_in by lia. cbn [mbind option_bind]. rewrite Nat2Z.id.
  eexists. split; [done|]. split; [done|]. split; [|done].
  split; cbn [stats_inc heap table active_backends backends internal_stats]; try done.
  - intros j b' Hb'. fold i. case_decide as Hd.
    + subst j. rewrite Hb in Hb'. injection Hb' as <-. apply list_lookup_insert_eq. lia.
    + by rewrite list_lookup_insert_ne.
  - by rewrite length_insert.
Qed.

Lemma created_wf sv sv' k t :
  server_wf sv -> key_fits k -> ht_find (table sv) k = None -> slab_wf (slab sv') ->
  created sv sv' k t (length (heap sv)) -> server_wf sv'.
Proof.
  intros Hwf Hk Hf Hsl [_ Eh Hfound Hoth Ea Hbs Hlen _]. pose proof Hwf as [_ Ha H8 Hh Hfind Hq Hr Ho].
  assert (Hold : forall id m, heap sv !! id = Some m -> heap sv' !! id = Some m).
  { intros id m Hm. rewrite Eh. by apply lookup_app_l_Some. }
  assert (Hinv : forall i b', backends sv' !! i = Some b' -> exists b, backends sv !! i = Some b /\
            b' = if decide (i = shard_key (active_backends sv) k)
                 then {| b_sample_freq := b_sample_freq b; b_queue := length (heap sv) :: b_queue b |} else b).
  { intros i b' Hb'. pose proof (lookup_lt_Some _ _ _ Hb') as Hlt. rewrite Hlen in Hlt.
    destruct (lookup_lt_is_Some_2 _ _ Hlt) as [b Hb]. exists b. split; [done|].
    rewrite (Hbs i b Hb) in Hb'. by injection Hb'. }
  assert (Hnk : forall m id, heap sv !! id = Some m -> ht_find (table sv) (key m) = Some id -> key m <> k)
    by congruence.
  split.
  - done.
  - by rewrite Ea, Hlen.
  - by rewrite Hlen.
  - rewrite Eh. apply Forall_app. split; [done|]. constructor; [by apply new_metric_ok|done].
  - intros k' id Hk'. destruct (decide (k' = k)) as [->|Hne].
    + rewrite Hfound in Hk'. injection Hk' as <-. exists (new_metric k t). split; [|done].
      rewrite Eh. by rewrite lookup_app_r, Nat.sub_diag.
    + rewrite Hoth in Hk' by done. destruct (Hfind _ _ Hk') as (m & Hm & ?). eauto.
  - intros i b' id Hb' Hid. destruct (Hinv i b' Hb') as (b & Hb & ->). rewrite Ea. revert Hid. case_decide as Hd; cbn [b_queue].
    + rewrite elem_of_cons. intros [->|Hid].
      * exists (new_metric k t). split; [rewrite Eh; by rewrite lookup_app_r, Nat.sub_diag|done].
      * destruct (Hq i b id Hb Hid) as (m & Hm & Hfm & Hi). exists m.
        split; [auto|]. split; [|done]. rewrite Hoth; [done|]. by eapply Hnk.
    + intros Hid. destruct (Hq i b id Hb Hid) as (m & Hm & Hfm & Hi). exists m.
      split; [auto|]. split; [|done]. rewrite Hoth; [done|]. by eapply Hnk.
  - intros k' id Hk'. rewrite Ea. destruct (decide (k' = k)) as [->|Hne].
    + rewrite Hfound in Hk'. injection Hk' as <-.
      pose proof (shard_key_lt (active_backends sv) k ltac:(lia)).
      destruct (lookup_lt_is_Some_2 (backends sv) (shard_key (active_backends sv) k)) as [b Hb]; [lia|].
      eexists. split; [apply Hbs, Hb|]. rewrite decide_True by done. cbn [b_queue]. left.
    + rewrite Hoth in Hk' by done. destruct (Hr _ _ Hk') as (b & Hb & Hid).
      eexists. split; [apply Hbs, Hb|]. case_decide; [right|]; done.
  - apply Forall_lookup. intros i b' Hb'. destruct (Hinv i b' Hb') as (b & Hb & ->).
    pose proof (proj1 (Forall_lookup _ _) Ho i b Hb) as Hnd. case_decide; [|done]. cbn [b_queue].
    apply list.NoDup_cons. split; [|done]. intros Hid.
    destruct (Hq i b _ Hb Hid) as (m & Hm & _). apply lookup_lt_Some in Hm. lia.
Qed.

Lemma update_wf sv id m m' :
  server_wf sv -> heap sv !! id = Some m -> metric_ok m' -> key m' = key m ->
  server_wf (set_heap sv (<[id := m']> (heap sv))).
Proof.
  intros [Hsl Ha H8 Hh Hfind Hq Hr Ho] Hm Hok Hkey.
  assert (Hkeep : forall j x, heap sv !! j = Some x ->
            exists x', <[id := m']> (heap sv) !! j = Some x' /\ key x' = key x).
  { intros j x Hx. destruct (decide (j = id)) as [->|].
    - exists m'. rewrite list_lookup_insert_eq by by eapply lookup_lt_Some. split; [done|congruence].
    - exists x. by rewrite list_lookup_insert_ne. }
  split; cbn [set_heap slab heap table active_backends backends]; try done.
  - by apply Forall_insert.
  - intros k j Hj. destruct (Hfind k j Hj) as (x & Hx & <-). by apply Hkeep.
  - intros i b j Hb Hj. destruct (Hq i b j Hb Hj) as (x & Hx & Hf & Hi).
    destruct (Hkeep j x Hx) as (x' & Hx' & E). exists x'. by rewrite E.
Qed.

Lemma stats_inc_wf sv f : server_wf sv -> server_wf (stats_inc sv f).
Proof. intros []. by split. Qed.

Lemma set_expire_ok m e :
  metric_ok m -> BRUBECK_EXPIRE_DISABLED <= e <= BRUBECK_EXPIRE_ACTIVE -> metric_ok (set_expire m e).
Proof. by intros (? & ? & ? & _) He. Qed.

(** What looking up a key for a client does. *)
Lemma metric_find_run sv k t :
  server_wf sv -> key_fits k ->
  exists sv' r, brubeck_metric_find sv k t = Some (sv', r) /\ server_wf sv' /\
    match ht_find (table sv) k with
    | Some id => exists m, heap sv !! id = Some m /\ r = Some id /\
        sv' = set_heap sv (<[id := set_expire m BRUBECK_EXPIRE_ACTIVE]> (heap sv))
    | None =>
        if at_capacity sv then sv' = sv /\ r = None
        else r = Some (length (heap sv)) /\ created sv sv' k t (length (heap sv))
    end.
Proof.
  intros Hwf Hk. unfold brubeck_metric_find. rewrite find_fits by done.
  destruct (ht_find (table sv) k) as [id|] eqn:Hf.
  - destruct (sv_find _ Hwf _ _ Hf) as (m & Hm & Ek). rewrite Hm. cbn [mbind option_bind].
    do 2 eexists. split; [done|]. split; [|eauto].
    eapply update_wf; [done|done| |done]. apply set_expire_ok; [|done].
    exact (proj1 (Forall_lookup _ _) (sv_heap _ Hwf) _ _ Hm).
  - destruct (at_capacity sv); [by do 2 eexists|].
    destruct (metric_new_run sv k t Hwf Hk Hf) as (sv' & -> & Hsl & Hc & _).
    do 2 eexists. split; [done|]. split; [by eapply created_wf|done].
Qed.

(** C5: looking up a key for a client finds its metric or creates it once: a
    key that is in the table keeps its metric, which becomes active again; a
    new key gets a fresh metric of the requested type, found under that key
    only, put on the queue of its backend only, and counted as one more
    unique key; at capacity nothing changes.  The store stays consistent:
    the metrics of the table are exactly the ones on the queues, each on one
    queue and once. *)
Theorem metric_find_spec (sv : brubeck_server) (k : list Z) (t : brubeck_metric_t)
  (Hwf : server_wf sv) (Hk : key_fits k) :
  exists sv' r, brubeck_metric_find sv k t = Some (sv', r) /\ server_wf sv' /\
    match ht_find (table sv) k with
    | Some id => exists m, heap sv !! id = Some m /\ r = Some id /\
        sv' = set_heap sv (<[id := set_expire m BRUBECK_EXPIRE_ACTIVE]> (heap sv))
    | None =>
        if at_capacity sv then sv' = sv /\ r = None
        else r = Some (length (heap sv)) /\ created sv sv' k t (length (heap sv))
    end.
Proof. by apply metric_find_run. Qed.

(** ** Recording *)

(** The readings that no metric takes: any reading of the internal metric,
    whose record function is a null pointer, and one that takes the count of a
    histogram out of [uint32_t]. *)
Definition record_fails (m : brubeck_metric) (f : value_t) : bool :=
  match type m, as_ m with
  | BRUBECK_MT_INTERNAL_STATS, _ => true
  | _, As_histogram h =>
      match to_unsigned 32 (fadd (F64 (count h)) f) with Some _ => false | None => true end
  | _, _ => false
  end.

Lemma metric_record_run m v f mods :
  metric_ok m -> is_double v -> is_double f ->
  if record_fails m f then brubeck_metric_record m v f mods = None
  else exists m', brubeck_metric_record m v f mods = Some m' /\ metric_ok m' /\ key m' = key m.
Proof.
  intros (Hk & Ht & Hl & He) Hv Hf.
  assert (Hset : forall a, typed (set_as m a) -> metric_ok (set_as m a) /\ key (set_as m a) = key m) by done.
  unfold record_fails, brubeck_metric_record, gauge__record, meter__record, counter__record, histogram__record.
  unfold typed in Ht, Hset. cbn [set_as type as_] in Hset.
  destruct (type m) eqn:Et; [| | | | |done]; destruct (as_ m) as [x|x|x y|h|] eqn:Ea; try done.
  - eexists. split; [done|]. apply Hset. case_match; auto with double.
  - eexists. split; [done|]. apply Hset. auto with double.
  - destruct Ht as [Hx Hy]. eexists. split; [done|]. apply Hset. split; [|auto with double].
    repeat case_match; auto with double.
  - pose proof (histo_push_ok h v f Ht Hv) as Hp. case_match; [|by rewrite Hp].
    destruct Hp as (h' & -> & Hh'). eexists. split; [done|]. by apply Hset.
  - pose proof (histo_push_ok h v f Ht Hv) as Hp. case_match; [|by rewrite Hp].
    destruct Hp as (h' & -> & Hh'). eexists. split; [done|]. by apply Hset.
Qed.

Lemma record_at_run sv id m v f mods :
  server_wf sv -> heap sv !! id = Some m -> is_double v -> is_double f ->
  if record_fails m f then record_at sv id v f mods = None
  else exists m', brubeck_metric_record m v f mods = Some m' /\
    record_at sv id v f mods = Some (set_heap sv (<[id := m']> (heap sv))) /\
    server_wf (set_heap sv (<[id := m']> (heap sv))).
Proof.
  intros Hwf Hm Hv Hf. unfold record_at. rewrite Hm. cbn [mbind option_bind].
  pose proof (proj1 (Forall_lookup _ _) (sv_heap _ Hwf) _ _ Hm) as Hok.
  pose proof (metric_record_run m v f mods Hok Hv Hf) as Hr. case_match; [by rewrite Hr|].
  destruct Hr as (m' & -> & Hok' & Hk). exists m'. split_and!; [done|done|]. by eapply update_wf.
Qed.

(** The metric that a message for [k] of type [t] is recorded in. *)
Definition reaches (sv : brubeck_server) (k : list Z) (t : brubeck_metric_t) (m : brubeck_metric) : Prop :=
  match ht_find (table sv) k with
  | Some id => heap sv !! id = Some m
  | None => at_capacity sv = false /\ m = new_metric k t
  end.

(** The effect of a message that is recorded: the metric of the key is the
    reached one, made active, with the reading recorded in it; no other metric
    and no other key has changed. *)
Definition recorded (sv sv' : brubeck_server) (k : list Z) (t : brubeck_metric_t) (v f : value_t) (mods : Z)
    : Prop :=
  exists id m m', reaches sv k t m /\
    brubeck_metric_record (set_expire m BRUBECK_EXPIRE_ACTIVE) v f mods = Some m' /\
    ht_find (table sv') k = Some id /\ heap sv' !! id = Some m' /\
    (forall id', id' <> id -> heap sv' !! id' = heap sv !! id') /\
    (forall k', k' <> k -> ht_find (table sv') k' = ht_find (table sv) k') /\
    active_backends sv' = active_backends sv.

Lemma sink_metric_run sv k t v f mods :
  server_wf sv -> key_fits k -> is_double v -> is_double f ->
  (exists sv', sink_metric sv k t v f mods = Some sv' /\ server_wf sv' /\ recorded sv sv' k t v f mods /\
     forall m, reaches sv k t m -> record_fails m f = false) \/
  (sink_metric sv k t v f mods = Some (stats_inc sv metrics) /\
     ht_find (table sv) k = None /\ at_capacity sv = true) \/
  sink_metric sv k t v f mods = None /\ exists m, reaches sv k t m /\ record_fails m f = true.
Proof.
  intros Hwf Hk Hv Hf. cbn [sink_metric server_sink]. unfold recorded, reaches.
  destruct (metric_find_run (stats_inc sv metrics) k t (stats_inc_wf _ _ Hwf) Hk) as (sv1 & r & -> & Hwf1 & Hr).
  cbn [mbind option_bind]. cbn [stats_inc table at_capacity heap] in Hr.
  destruct (ht_find (table sv) k) as [id|] eqn:Ef.
  - destruct Hr as (m & Hm & -> & Esv). rewrite Hm.
    assert (Hm1 : heap sv1 !! id = Some (set_expire m BRUBECK_EXPIRE_ACTIVE)).
    { rewrite Esv. apply list_lookup_insert_eq. by eapply lookup_lt_Some. }
    pose proof (record_at_run sv1 id _ v f mods Hwf1 Hm1 Hv Hf) as Hrec.
    change (record_fails (set_expire m BRUBECK_EXPIRE_ACTIVE) f) with (record_fails m f) in Hrec.
    destruct (record_fails m f) eqn:Hfail; [right; right; eauto|left].
    destruct Hrec as (m' & Em & -> & Hwf'). eexists. split; [done|]. split; [done|]. split; [|by intros ? [= <-]].
    pose proof (lookup_lt_Some _ _ _ Hm1) as Hlt.
    exists id, m, m'. rewrite Esv. cbn [set_heap table heap active_backends stats_inc].
    split_and!; try done; rewrite ?list_insert_insert_eq.
    + apply list_lookup_insert_eq. by eapply lookup_lt_Some.
    + intros id' Hid. by apply list_lookup_insert_ne.
  - destruct (at_capacity sv) eqn:Ec; [destruct Hr as [-> ->]; right; left; done|].
    destruct Hr as [-> Hc]. pose proof (cr_heap _ _ _ _ _ Hc) as Eh. cbn [stats_inc heap] in Eh.
    assert (Hm1 : heap sv1 !! length (heap sv) = Some (new_metric k t)).
    { rewrite Eh. by rewrite lookup_app_r, Nat.sub_diag. }
    pose proof (record_at_run sv1 _ _ v f mods Hwf1 Hm1 Hv Hf) as Hrec.
    destruct (record_fails (new_metric k t) f) eqn:Hfail; [right; right; eauto|left].
    destruct Hrec as (m' & Em & -> & Hwf'). eexists. split; [done|]. split; [done|]. split; [|by intros m [_ ->]].
    exists (length (heap sv)), (new_metric k t), m'. cbn [set_heap table heap active_backends].
    split_and!; try done.
    + apply (cr_found _ _ _ _ _ Hc).
    + apply list_lookup_insert_eq. by eapply lookup_lt_Some.
    + intros id' Hid. rewrite list_lookup_insert_ne by done. rewrite Eh.
      destruct (decide (id' < length (heap sv))%nat); [by apply lookup_app_l|].
      rewrite lookup_app_r, lookup_ge_None_2 by (cbn [length]; lia). rewrite (lookup_ge_None_2 (heap sv)) by lia. done.
    + intros k' Hk'. by rewrite (cr_others _ _ _ _ _ Hc).
    + apply (cr_active _ _ _ _ _ Hc).
Qed.

(** C39: a message whose key fits a slab node (at most 4000 bytes; a longer one
    overruns it, see the finding on [slab.c]) has one of three outcomes.  It is
    recorded: the metric of its key, created if need be, is made active and takes
    the reading with the record function of its type, every other metric and key
    is as before, and the store is consistent.  Or the server is at capacity and
    the key unknown, and the message only counts.  Or the behaviour is undefined,
    and then the key is that of the server's own metric, whose record function
    is a null pointer, or the sample frequency takes the count of a histogram out
    of 32 bits. *)
Theorem record_outcome (sv : brubeck_server) (k : list Z) (t : brubeck_metric_t)
  (v f : value_t) (mods : Z)
  (Hwf : server_wf sv) (Hk : key_fits k) (Hv : is_double v) (Hf : is_double f) :
  (exists sv', sink_metric sv k t v f mods = Some sv' /\ server_wf sv' /\ recorded sv sv' k t v f mods /\
     forall m, reaches sv k t m -> record_fails m f = false) \/
  (sink_metric sv k t v f mods = Some (stats_inc sv metrics) /\
     ht_find (table sv) k = None /\ at_capacity sv = true) \/
  sink_metric sv k t v f mods = None /\ exists m, reaches sv k t m /\ record_fails m f = true.
Proof. by apply sink_metric_run. Qed.

(** An outcome of the parser leaves a consistent store. *)
Lemma deliver_wf sv sv' o :
  server_wf sv -> outcome_ok 4000 o -> deliver sv o = Some sv' ->
  server_wf sv' /\ active_backends sv' = active_backends sv.
Proof.
  intros Hwf Ho. destruct o as [|k t v f mods]; cbn [deliver outcome_ok] in *.
  - intros [= <-]. split; [by apply stats_inc_wf|done].
  - destruct Ho as (Hn & Hl & Ht & Hv & Hf & _). intros E.
    destruct (sink_metric_run sv k t v f mods) as [(sv1 & E1 & Hw & Hr & _)|[[E1 _]|[E1 _]]];
      try done; [split; [done|lia]|..]; rewrite E in E1.
    + injection E1 as ->. split; [done|]. by destruct Hr as (? & ? & ? & Hr); apply Hr.
    + injection E1 as ->. split; [by apply stats_inc_wf|done].
    + done.
Qed.

Lemma deliver_all_wf os : forall sv sv',
  server_wf sv -> Forall (outcome_ok 4000) os -> deliver_all sv os = Some sv' ->
  server_wf sv' /\ active_backends sv' = active_backends sv.
Proof.
  induction os as [|o os IH]; intros sv sv' Hwf Hos; cbn [deliver_all]; [by intros [= <-]|].
  apply Forall_cons_iff in Hos as [Ho Hos]. intros (sv1 & E1 & E)%bind_Some.
  destruct (deliver_wf sv sv1 o Hwf Ho E1) as [Hwf1 <-]. by apply IH.
Qed.

(** C18: the store survives every packet: a datagram of at most 4000 bytes whose
    first line does not have an empty key is a list of outcomes, the same as for
    a sink that only keeps them, and they are delivered to the store in order.
    If all of them have a result the parse returns the last store, and it is
    consistent; otherwise it fails at the first message without a result, which
    is a message of this packet to the consistent store that the messages
    before it have left, and a reading that its metric does not take. *)
Theorem packet_parse_store (sv : brubeck_server) (m : list Z) (b e : Z)
  (Hwf : server_wf sv) (Hm : msg_bounds m b e) (Hsize : e - b <= 4000) :
  exists os m', brubeck_statsd_packet_parse ([] : list outcome) m b e = Some (os, m') /\
    Z.of_nat (length os) = lines_in false (segment m b e) /\
    brubeck_statsd_packet_parse sv m b e = (sv' ← deliver_all sv os; Some (sv', m')) /\
    match deliver_all sv os with
    | Some sv' => server_wf sv'
    | None =>
        exists pre k t v f mods rest sv1 m1, os = pre ++ Accepted k t v f mods :: rest /\
          deliver_all sv pre = Some sv1 /\ server_wf sv1 /\ reaches sv1 k t m1 /\ record_fails m1 f = true
    end.
Proof.
  destruct (packet_parse_outcomes m b e Hm) as (os & m' & Hos & Hn & _ & _ & E).
  assert (Hos' : Forall (outcome_ok 4000) os).
  { revert Hos. apply List.Forall_impl. intros o Ho. by apply (outcome_ok_le _ _ _ Ho). }
  exists os, m'. split_and!; [rewrite E, deliver_outcomes; done|done|apply E|].
  destruct (deliver_all sv os) as [sv'|] eqn:Ed; [by apply (deliver_all_wf os sv sv')|].
  destruct (deliver_all_stuck os sv Ed) as (pre & o & rest & sv1 & -> & Ep & Eo).
  apply Forall_app in Hos' as [Hpre [Ho _]%Forall_cons_iff].
  destruct (deliver_all_wf pre sv sv1 Hwf Hpre Ep) as [Hwf1 _].
  destruct o as [|k t v f mods]; [done|]. destruct Ho as (Hk & Hl & Ht & Hv & Hf & _). cbn [deliver] in Eo.
  destruct (sink_metric_run sv1 k t v f mods) as [(sv2 & E2 & _)|[[E2 _]|[_ (m1 & Hr & Hfail)]]];
    try done; [split; [done|lia]|congruence|congruence|].
  by exists pre, k, t, v, f, mods, rest, sv1, m1.
Qed.

(** ** Expiry *)

Lemma foreach_spec f es : forall h,
  NoDup es.*2 -> (forall k id, (k, id) ∈ es -> is_Some (h !! id)) ->
  exists h', foreach f es h = Some h' /\ length h' = length h /\
    forall id, h' !! id = if decide (id ∈ es.*2) then f <$> h !! id else h !! id.
Proof.
  induction es as [|[k id] es IH]; intros h Hnd Hin; cbn [foreach].
  - exists h. split_and!; [done|done|]. intros id. rewrite decide_False; [done|set_solver].
  - rewrite fmap_cons in Hnd. apply list.NoDup_cons in Hnd as [Hni Hnd]. cbn [snd] in Hni.
    destruct (Hin k id) as [m Hm]; [left|]. rewrite Hm. cbn [mbind option_bind].
    destruct (IH (<[id := f m]> h) Hnd) as (h' & -> & Hl & Hlook).
    { intros k' id' Hin'. destruct (decide (id' = id)) as [->|].
      - rewrite list_lookup_insert_eq by by eapply lookup_lt_Some. done.
      - rewrite list_lookup_insert_ne by done. apply (Hin k'). by right. }
    exists h'. split; [done|]. split; [by rewrite Hl, length_insert|]. intros j. rewrite Hlook.
    rewrite fmap_cons. cbn [snd]. destruct (decide (j = id)) as [->|Hne].
    + rewrite decide_False by done. rewrite decide_True by left.
      rewrite list_lookup_insert_eq by by eapply lookup_lt_Some. by rewrite Hm.
    + rewrite list_lookup_insert_ne by done. apply decide_ext. rewrite elem_of_cons. tauto.
Qed.

Lemma entries_ids sv : server_wf sv -> NoDup (ht_entries (table sv)).*2.
Proof.
  intros Hwf. apply NoDup_fmap_2_strong; [|apply ht_entries_once].
  intros [k1 i1] [k2 i2] H1 H2 E. cbn [snd] in E. subst i2.
  apply ht_entries_find in H1, H2.
  destruct (sv_find _ Hwf _ _ H1) as (m1 & Hm1 & <-), (sv_find _ Hwf _ _ H2) as (m2 & Hm2 & <-). congruence.
Qed.

(** The array holds every metric of the table, and the assertion would not fail. *)
Lemma fill_array_run es : forall pre,
  fill_array es (pre ++ replicate (length es) None) (Z.of_nat (length pre)) =
    Some (pre ++ ((fun e => Some (snd e)) <$> es), Z.of_nat (length pre + length es)).
Proof.
  induction es as [|[k id] es IH]; intros pre; cbn [fill_array length replicate fmap list_fmap].
  - by rewrite Nat.add_0_r.
  - rewrite wr_in by (rewrite length_app; cbn [length]; lia). cbn [mbind option_bind].
    rewrite Nat2Z.id, insert_app_r_alt, Nat.sub_diag by lia. cbn [insert list_insert].
    specialize (IH (pre ++ [Some id])). rewrite <- !app_assoc in IH. cbn [app] in IH.
    rewrite length_app in IH. cbn [length] in IH.
    replace (Z.of_nat (length pre + 1)) with (Z.of_nat (length pre) + 1) in IH by lia. rewrite IH.
    do 2 f_equal. lia.
Qed.

Lemma hashtable_to_a_run t :
  brubeck_hashtable_to_a t = Some ((fun e => Some (snd e)) <$> ht_entries t, brubeck_hashtable_size t).
Proof.
  unfold brubeck_hashtable_to_a, brubeck_hashtable_size. rewrite ht_count_entries, Nat2Z.id.
  pose proof (fill_array_run (ht_entries t) []) as E. cbn [app length Nat.add] in E.
  change (Z.of_nat 0) with 0 in E. by rewrite E.
Qed.

Lemma expire_all_run sv :
  server_wf sv ->
  exists sv', expire_all sv = Some sv' /\ server_wf sv' /\ table sv' = table sv /\
    backends sv' = backends sv /\
    forall k id m, ht_find (table sv) k = Some id -> heap sv !! id = Some m ->
      heap sv' !! id = Some (expire_metric m).
Proof.
  intros Hwf. unfold expire_all.
  destruct (foreach_spec expire_metric (ht_entries (table sv)) (heap sv) (entries_ids sv Hwf))
    as (h' & -> & Hl & Hlook).
  { intros k id Hin. apply ht_entries_find in Hin. destruct (sv_find _ Hwf _ _ Hin) as (m & -> & _). done. }
  cbn [mbind option_bind]. eexists. split; [done|].
  assert (Hexp : forall m, metric_ok m -> metric_ok (expire_metric m) /\ key (expire_metric m) = key m).
  { intros m Hm. unfold expire_metric. destruct (Z.ltb_spec BRUBECK_EXPIRE_DISABLED (expire m)); [|done].
    split; [|done]. apply set_expire_ok; [done|]. destruct Hm as (_ & _ & _ & He).
    unfold BRUBECK_EXPIRE_DISABLED, BRUBECK_EXPIRE_ACTIVE in *.
    rewrite wrap_small by (unfold fits; lia). lia. }
  assert (Hkeep : forall id m, heap sv !! id = Some m ->
            exists m', h' !! id = Some m' /\ key m' = key m).
  { intros id m Hm. rewrite Hlook, Hm. case_decide; [|eauto]. eexists. split; [done|].
    apply Hexp. exact (proj1 (Forall_lookup _ _) (sv_heap _ Hwf) _ _ Hm). }
  split_and!; try done; cbn [set_heap heap].
  - destruct Hwf as [Hsl Ha H8 Hh Hfind Hq Hr Ho].
    split; cbn [set_heap slab heap table active_backends backends]; try done.
    + apply Forall_lookup. intros id m' Hm'. rewrite Hlook in Hm'. case_decide.
      * apply fmap_Some in Hm' as (m & Hm & ->). apply Hexp. exact (proj1 (Forall_lookup _ _) Hh _ _ Hm).
      * exact (proj1 (Forall_lookup _ _) Hh _ _ Hm').
    + intros k id Hid. destruct (Hfind k id Hid) as (m & Hm & <-). by apply Hkeep.
    + intros i b id Hb Hid. destruct (Hq i b id Hb Hid) as (m & Hm & Hf & Hi).
      destruct (Hkeep id m Hm) as (m' & Hm' & E). exists m'. by rewrite E.
  - intros k id m Hf Hm. rewrite Hlook, Hm, decide_True; [done|].
    apply list_elem_of_fmap. exists (k, id). split; [done|]. by apply ht_entries_find.
Qed.

(** C26: a metric that no client touches is disabled by the second turn of the
    expiry timer and not before: the first turn makes an active metric
    inactive, the second disables it, further turns keep it disabled. *)
Theorem expire_two_turns (sv : brubeck_server) (k : list Z) (id : nat) (m : brubeck_metric)
  (Hwf : server_wf sv) (Hfind : ht_find (table sv) k = Some id) (Hm : heap sv !! id = Some m)
  (Hactive : expire m = BRUBECK_EXPIRE_ACTIVE) :
  exists sv1 sv2 sv3,
    expire_all sv = Some sv1 /\ expire_all sv1 = Some sv2 /\ expire_all sv2 = Some sv3 /\
    heap sv1 !! id = Some (set_expire m BRUBECK_EXPIRE_INACTIVE) /\
    heap sv2 !! id = Some (set_expire m BRUBECK_EXPIRE_DISABLED) /\
    heap sv3 !! id = Some (set_expire m BRUBECK_EXPIRE_DISABLED) /\ server_wf sv3.
Proof.
  destruct (expire_all_run sv Hwf) as (sv1 & E1 & Hwf1 & T1 & _ & H1).
  destruct (expire_all_run sv1 Hwf1) as (sv2 & E2 & Hwf2 & T2 & _ & H2).
  destruct (expire_all_run sv2 Hwf2) as (sv3 & E3 & Hwf3 & _ & _ & H3).
  assert (Hm1 : heap sv1 !! id = Some (set_expire m BRUBECK_EXPIRE_INACTIVE)).
  { rewrite (H1 k id m Hfind Hm). unfold expire_metric. by rewrite Hactive. }
  assert (Hm2 : heap sv2 !! id = Some (set_expire m BRUBECK_EXPIRE_DISABLED)).
  { rewrite (H2 k id _ ltac:(by rewrite T1) Hm1). done. }
  exists sv1, sv2, sv3. split_and!; try done. rewrite (H3 k id _ ltac:(by rewrite T2, T1) Hm2). done.
Qed.

(** ** Sampling a queue *)

(** One metric of a sampled queue: what it emitted and what became of it. *)
Definition sampled (h h' : list brubeck_metric) (freq junk : Z) (id : nat) (es : list emission)
    : Prop :=
  exists m, h !! id = Some m /\
    if BRUBECK_EXPIRE_DISABLED <? expire m
    then exists s1 s2 m', brubeck_metric_sample s1 m freq junk = Some (s2, m', es) /\
           h' !! id = Some m'
    else es = [] /\ h' !! id = Some m.

Lemma sampled_ext h1 h h' freq junk q ess :
  (forall id, id ∈ q -> h1 !! id = h !! id) ->
  Forall2 (sampled h1 h' freq junk) q ess -> Forall2 (sampled h h' freq junk) q ess.
Proof.
  intros Heq Hall. induction Hall as [|id e q ess (m & Hm & Hs) _ IH]; constructor.
  - exists m. rewrite <- Heq by left. done.
  - apply IH. intros j Hj. apply Heq. by right.
Qed.

Lemma sample_queue_run freq junk q : forall s h s' h' es,
  NoDup q -> sample_queue s h q freq junk = Some (s', h', es) ->
  (forall id, id ∉ q -> h' !! id = h !! id) /\
  exists ess, es = concat ess /\ Forall2 (sampled h h' freq junk) q ess.
Proof.
  induction q as [|id q IH]; intros s h s' h' es Hnd; cbn [sample_queue].
  - intros [= <- <- <-]. split; [done|]. exists []. split; [done|constructor].
  - apply list.NoDup_cons in Hnd as [Hni Hnd]. intros (m & Hm & E)%bind_Some.
    destruct (BRUBECK_EXPIRE_DISABLED <? expire m) eqn:Hen.
    + apply bind_Some in E as ([[s1 m1] es1] & E1 & E).
      apply bind_Some in E as ([[s2 h2] es2] & E2 & [= <- <- <-]).
      destruct (IH _ _ _ _ _ Hnd E2) as (Hout & ess & -> & Hall). split.
      * intros j [Hj Hjq]%not_elem_of_cons. rewrite Hout by done. by apply list_lookup_insert_ne.
      * exists (es1 :: ess). split; [done|]. constructor.
        -- exists m. rewrite Hen. split; [done|]. exists s, s1, m1. split; [done|]. rewrite Hout by done.
           apply list_lookup_insert_eq. by eapply lookup_lt_Some.
        -- eapply sampled_ext; [|exact Hall]. intros j Hj. apply list_lookup_insert_ne. by intros ->.
    + destruct (IH _ _ _ _ _ Hnd E) as (Hout & ess & -> & Hall). split.
      * intros j [Hj Hjq]%not_elem_of_cons. by apply Hout.
      * exists ([] :: ess). split; [done|]. constructor; [|done].
        exists m. rewrite Hen. split; [done|]. split; [done|]. by rewrite Hout.
Qed.

(** A metric whose [as.other] is set, if it is the internal one. *)
Definition sampleable (m : brubeck_metric) : Prop := metric_ok m /\ as_ m <> As_other false.

(** A sample of [m]: a double, under the metric's key and a suffix. *)
Definition emission_ok (m : brubeck_metric) (kv : emission) : Prop :=
  is_double kv.2 /\ Z.of_nat (length kv.1) <= Z.of_nat (length (key m)) + 19.

Lemma metric_sample_run s m freq junk :
  sampleable m ->
  exists s' m' es, brubeck_metric_sample s m freq junk = Some (s', m', es) /\ sampleable m' /\
    key m' = key m /\ Forall (emission_ok m) es /\ (length es <= 12)%nat.
Proof.
  intros [(Hk & Ht & Hl & He) Ho].
  assert (Hset : forall a, typed (set_as m a) -> a <> As_other false -> sampleable (set_as m a)) by done.
  assert (Hone : forall x, is_double x -> Forall (emission_ok m) [(key m, x)])
    by (intros x Hx; constructor; [split; [done|simpl; lia]|constructor]).
  assert (Hhist : forall h, as_ m = As_histogram h -> histo_ok h ->
            exists m' es, histogram__sample m freq junk = Some (m', es) /\
              (exists h', m' = set_as m (As_histogram h') /\ histo_ok h') /\ Forall (emission_ok m) es /\
              (length es <= 12)%nat).
  { intros h Ea Hh. destruct (histo_sample_ok h Hh) as (smp & h' & Es & Hh' & Hd).
    destruct (histogram_sample_run m h h' smp freq junk Hk Ea Es) as (es & -> & -> & Hlen).
    do 2 eexists. split; [done|]. split; [eauto|]. split; [|rewrite Hlen; case_match; lia]. apply Forall_fmap.
    destruct Hd as (? & ? & ? & ? & ? & ? & Hp).
    assert (Hnth : forall i, is_double (nth i (s_percentile smp) (S754_zero false))).
    { intros i. destruct (nth_in_or_default i (s_percentile smp) (S754_zero false)) as [Hi| ->]; [|done].
      rewrite Forall_forall in Hp. by apply Hp. }
    unfold histogram_blocks. apply Forall_app. split; [|case_match; [constructor|]];
      repeat (constructor; [split; [cbn [compose snd]; auto using fdiv_double, F64_double
                                   |cbn [compose fst]; rewrite length_app; simpl; lia]|]); constructor. }
  unfold typed in Ht, Hset. cbn [set_as type as_] in Hset. unfold brubeck_metric_sample.
  destruct (type m) eqn:Et; destruct (as_ m) as [x|x|x y|h|b] eqn:Ea; try done.
  - unfold gauge__sample. rewrite Ea. do 3 eexists. split; [done|]. split_and!; [|done|by apply Hone|simpl; lia].
    split; [|by rewrite Ea]. unfold metric_ok, typed. by rewrite Et, Ea.
  - unfold meter__sample. rewrite Ea. do 3 eexists. split; [done|].
    split_and!; [by apply Hset|done|by apply Hone|simpl; lia].
  - unfold counter__sample. rewrite Ea. destruct Ht. do 3 eexists. split; [done|].
    split_and!; [by apply Hset|done|by apply Hone|simpl; lia].
  - destruct (Hhist h eq_refl Ht) as (m' & es & -> & (h' & -> & Hh') & Hes & Hn). do 3 eexists. split; [done|].
    by split_and!; [apply Hset|..].
  - destruct (Hhist h eq_refl Ht) as (m' & es & -> & (h' & -> & Hh') & Hes & Hn). do 3 eexists. split; [done|].
    by split_and!; [apply Hset|..].
  - destruct b; [|done]. destruct (internal_sample_run s m junk Hk Ea) as (s' & -> & _).
    do 3 eexists. split; [done|]. split_and!; [|done| |simpl; lia].
    + split; [|cbn [set_expire as_]; by rewrite Ea]. apply set_expire_ok; [|done].
      unfold metric_ok, typed. by rewrite Et, Ea.
    + repeat (constructor; [split; [apply F64_double|cbn [fst]; rewrite length_app; simpl; lia]|]).
      constructor.
Qed.

(** The metrics of a queue that a turn samples. *)
Definition queue_ok (h : list brubeck_metric) (q : list nat) : Prop :=
  Forall (fun id => exists m, h !! id = Some m /\ sampleable m) q.

Lemma sample_queue_total freq junk q : forall s h,
  NoDup q -> queue_ok h q ->
  exists s' h' es, sample_queue s h q freq junk = Some (s', h', es) /\
    Forall (fun kv => exists id m, id ∈ q /\ h !! id = Some m /\ emission_ok m kv) es /\
    (length es <= 12 * length q)%nat /\ length h' = length h /\
    forall id m, h !! id = Some m ->
      exists m', h' !! id = Some m' /\ key m' = key m /\ (metric_ok m -> metric_ok m') /\
        (as_ m <> As_other false -> as_ m' <> As_other false).
Proof.
  induction q as [|id q IH]; intros s h Hnd Hq; cbn [sample_queue].
  { do 3 eexists. split; [done|]. split; [constructor|]. split; [simpl; lia|]. split; [done|]. eauto. }
  apply list.NoDup_cons in Hnd as [Hni Hnd]. inversion_clear Hq as [|?? (m & Hm & Hs) Hq'].
  rewrite Hm. cbn [mbind option_bind].
  assert (Hmono : forall l : list emission,
            Forall (fun kv => exists id m, id ∈ q /\ h !! id = Some m /\ emission_ok m kv) l ->
            Forall (fun kv => exists id' m, id' ∈ id :: q /\ h !! id' = Some m /\ emission_ok m kv) l).
  { intros es Hes. eapply Forall_impl; [|exact Hes]. intros kv (j & mj & Hj & ? & ?). exists j, mj. split; [by right|done]. }
  destruct (BRUBECK_EXPIRE_DISABLED <? expire m).
  - destruct (metric_sample_run s m freq junk Hs) as (s1 & m1 & es1 & -> & Hs1 & Hk1 & Hes1 & Hn1).
    cbn [mbind option_bind].
    assert (Hother : forall j, j ∈ q -> <[id := m1]> h !! j = h !! j).
    { intros j Hj. apply list_lookup_insert_ne. by intros ->. }
    destruct (IH s1 (<[id := m1]> h) Hnd) as (s2 & h2 & es2 & -> & Hes2 & Hn2 & Hl2 & Hh2).
    { apply Forall_forall. intros j Hj%list_elem_of_In. rewrite Forall_forall in Hq'.
      destruct (Hq' j) as (mj & Hmj & ?); [by apply list_elem_of_In|]. exists mj. by rewrite Hother. }
    cbn [mbind option_bind]. do 3 eexists. split; [done|]. split_and!.
    + apply Forall_app. split.
      * eapply Forall_impl; [|exact Hes1]. intros kv Hkv. exists id, m. split; [left|done].
      * apply Hmono. eapply Forall_impl; [|exact Hes2]. intros kv (j & mj & Hj & Hmj & Hkv).
        exists j, mj. by rewrite <- Hother.
    + rewrite length_app. cbn [length]. lia.
    + by rewrite Hl2, length_insert.
    + intros j mj Hmj. destruct (decide (j = id)) as [->|Hne].
      * destruct (Hh2 id m1) as (m2 & Hm2 & Hk2 & Hok2 & Ho2).
        { apply list_lookup_insert_eq. by eapply lookup_lt_Some. }
        assert (mj = m) as -> by congruence. exists m2. destruct Hs1.
        split_and!; [done|congruence|auto|auto].
      * apply Hh2. by rewrite list_lookup_insert_ne.
  - destruct (IH s h Hnd Hq') as (s2 & h2 & es2 & -> & Hes2 & Hn2 & Hl2 & Hh2).
    do 3 eexists. split; [done|]. split_and!; [by apply Hmono|cbn [length]; lia|done|done].
Qed.

(** The server with its heap and statistics after a turn of a backend. *)
Definition after_turn (sv : brubeck_server) (s : brubeck_internal_stats) (h : list brubeck_metric)
    : brubeck_server :=
  {| name := name sv; slab := slab sv; heap := h; table := table sv; at_capacity := at_capacity sv;
     active_backends := active_backends sv; backends := backends sv; internal_stats := s |}.

Lemma heap_keep_wf sv s h' :
  server_wf sv -> length h' = length (heap sv) ->
  (forall id m, heap sv !! id = Some m ->
     exists m', h' !! id = Some m' /\ key m' = key m /\ (metric_ok m -> metric_ok m')) ->
  server_wf (after_turn sv s h').
Proof.
  intros [Hsl Ha H8 Hh Hfind Hq Hr Ho] Hl Hkeep.
  split; cbn [after_turn slab heap table active_backends backends]; try done.
  - apply Forall_lookup. intros id m' Hm'.
    destruct (lookup_lt_is_Some_2 (heap sv) id) as [m Hm]; [rewrite <- Hl; by eapply lookup_lt_Some|].
    destruct (Hkeep id m Hm) as (m2 & Hm2 & _ & Hok). assert (m' = m2) as -> by congruence.
    apply Hok. exact (proj1 (Forall_lookup _ _) Hh _ _ Hm).
  - intros k id Hid. destruct (Hfind k id Hid) as (m & Hm & <-). destruct (Hkeep id m Hm) as (m' & ? & ? & _). eauto.
  - intros i b id Hb Hid. destruct (Hq i b id Hb Hid) as (m & Hm & Hf & Hi).
    destruct (Hkeep id m Hm) as (m' & Hm' & E & _). exists m'. by rewrite E.
Qed.

(** Every metric can be sampled once the internal one is initialised. *)
Definition initialised (sv : brubeck_server) : Prop :=
  Forall (fun m => as_ m <> As_other false) (heap sv).

Lemma queue_ok_wf sv i b :
  server_wf sv -> initialised sv -> backends sv !! i = Some b -> queue_ok (heap sv) (b_queue b).
Proof.
  intros Hwf Hi Hb. apply Forall_forall. intros id Hid%list_elem_of_In.
  destruct (sv_queue _ Hwf _ _ _ Hb Hid) as (m & Hm & _). exists m. split; [done|]. split.
  - exact (proj1 (Forall_lookup _ _) (sv_heap _ Hwf) _ _ Hm).
  - exact (proj1 (Forall_lookup _ _) Hi _ _ Hm).
Qed.

Lemma sample_queue_wf sv i b junk :
  server_wf sv -> initialised sv -> backends sv !! i = Some b ->
  exists s' h' es,
    sample_queue (internal_stats sv) (heap sv) (b_queue b) (b_sample_freq b) junk = Some (s', h', es) /\
    server_wf (after_turn sv s' h') /\ initialised (after_turn sv s' h') /\
    Forall (fun kv => exists id m, id ∈ b_queue b /\ heap sv !! id = Some m /\ emission_ok m kv) es /\
    (length es <= 12 * length (b_queue b))%nat.
Proof.
  intros Hwf Hi Hb. pose proof (proj1 (Forall_lookup _ _) (sv_once _ Hwf) _ _ Hb) as Hnd.
  destruct (sample_queue_total (b_sample_freq b) junk (b_queue b) (internal_stats sv) (heap sv) Hnd)
    as (s' & h' & es & E & Hes & Hn & Hl & Hh); [by eapply queue_ok_wf|].
  exists s', h', es. split; [done|]. split_and!; [| |done|done].
  - apply heap_keep_wf; [done|done|]. intros id m Hm. destruct (Hh id m Hm) as (m' & ? & ? & ? & _). eauto.
  - apply Forall_lookup. cbn [after_turn heap]. intros id m' Hm'.
    destruct (lookup_lt_is_Some_2 (heap sv) id) as [m Hm]; [rewrite <- Hl; by eapply lookup_lt_Some|].
    destruct (Hh id m Hm) as (m2 & Hm2 & _ & _ & Ho). assert (m' = m2) as -> by congruence.
    apply Ho. exact (proj1 (Forall_lookup _ _) Hi _ _ Hm).
Qed.

(** A turn of a backend samples each of its metrics exactly once: it
    returns, the store stays consistent, and the samples sent are, in the order
    of the queue, those of every metric that is not disabled, each taken from
    the metric's state before the turn; a disabled metric sends nothing and
    keeps its data; metrics of other backends are not touched. *)
Theorem sample_queue_once (sv : brubeck_server) (i : nat) (b : brubeck_backend) (junk : Z)
  (Hwf : server_wf sv) (Hinit : initialised sv) (Hb : backends sv !! i = Some b) :
  exists s' h' ess,
    sample_queue (internal_stats sv) (heap sv) (b_queue b) (b_sample_freq b) junk
      = Some (s', h', concat ess) /\
    Forall2 (sampled (heap sv) h' (b_sample_freq b) junk) (b_queue b) ess /\
    server_wf (after_turn sv s' h') /\ initialised (after_turn sv s' h') /\
    forall id m, heap sv !! id = Some m -> shard_key (active_backends sv) (key m) <> i ->
      h' !! id = Some m.
Proof.
  pose proof (proj1 (Forall_lookup _ _) (sv_once _ Hwf) _ _ Hb) as Hnd.
  destruct (sample_queue_wf sv i b junk Hwf Hinit Hb) as (s' & h' & es & E & Hwf' & Hi' & _).
  destruct (sample_queue_run _ _ _ _ _ _ _ _ Hnd E) as (Hout & ess & -> & Hess).
  exists s', h', ess. split_and!; try done.
  intros id m Hm Hsh. rewrite <- Hm. apply Hout. intros Hid.
  destruct (sv_queue _ Hwf _ _ _ Hb Hid) as (m' & Hm' & _ & Hi). congruence.
Qed.

(** ** The server after initialisation *)

(** [brubeck_server_init], before the internal metric: the backends of the
    configuration with empty queues, an empty table. *)
Definition fresh_server (nm : list Z) (tb : T) (freqs : list Z) : brubeck_server :=
  {| name := nm; slab := brubeck_slab_init; heap := []; table := tb; at_capacity := false;
     active_backends := Z.of_nat (length freqs);
     backends := (fun f => {| b_sample_freq := f; b_queue := [] |}) <$> freqs;
     internal_stats := {| sample_freq := 0; live := fun _ => 0; sample := fun _ => 0 |} |}.

Definition brubeck_internal__init (sv : brubeck_server) : option brubeck_server :=
  '(sv, internal) ← brubeck_metric_new sv (name sv) BRUBECK_MT_INTERNAL_STATS;
  id ← internal;
  m ← heap sv !! id;
  let m := set_as m (As_other true) in
  let sv := set_heap sv (<[id := m]> (heap sv)) in
  shard ← brubeck_metric_shard sv m;
  b ← rd (backends sv) shard;
  Some {| name := name sv; slab := slab sv; heap := heap sv; table := table sv;
          at_capacity := at_capacity sv; active_backends := active_backends sv;
          backends := backends sv;
          internal_stats := {| sample_freq := b_sample_freq b;
                               live := live (internal_stats sv);
                               sample := sample (internal_stats sv) |} |}.

Lemma fresh_server_wf nm tb freqs :
  (forall k, ht_find tb k = None) -> (1 <= length freqs <= 8)%nat ->
  server_wf (fresh_server nm tb freqs).
Proof.
  intros Ht Hf. split; cbn [fresh_server slab heap table active_backends backends];
    rewrite ?length_fmap; try lia.
  - apply slab_init_wf.
  - done.
  - intros k id. by rewrite Ht.
  - intros i b id Hb Hid. apply list_lookup_fmap_Some in Hb as (f & -> & _). by apply elem_of_nil in Hid.
  - intros k id. by rewrite Ht.
  - apply Forall_fmap, Forall_true. intros f. apply base.NoDup_nil_2.
Qed.

(** What else the initialisation of the internal metric leaves behind. *)
Record internal_inited (sv sv' : brubeck_server) : Prop := {
  ii_active : active_backends sv' = active_backends sv;
  ii_freq : exists b, b ∈ backends sv /\ sample_freq (internal_stats sv') = b_sample_freq b;
  ii_sample : sample (internal_stats sv') = sample (internal_stats sv);
  ii_keys : key <$> heap sv' = (key <$> heap sv) ++ [name sv];
  ii_expire : expire <$> heap sv' = (expire <$> heap sv) ++ [BRUBECK_EXPIRE_ACTIVE];
  ii_capacity : at_capacity sv' = at_capacity sv;
}.

Lemma internal_init_run sv :
  server_wf sv -> key_fits (name sv) -> ht_find (table sv) (name sv) = None ->
  exists sv' id m, brubeck_internal__init sv = Some sv' /\ server_wf sv' /\ name sv' = name sv /\
    ht_find (table sv') (name sv) = Some id /\ heap sv' !! id = Some m /\
    key m = name sv /\ type m = BRUBECK_MT_INTERNAL_STATS /\ as_ m = As_other true /\
    internal_inited sv sv'.
Proof.
  intros Hwf Hk Hf. unfold brubeck_internal__init.
  destruct (metric_new_run sv (name sv) BRUBECK_MT_INTERNAL_STATS Hwf Hk Hf) as (sv1 & -> & Hsl & Hc & Hn).
  pose proof (created_wf _ _ _ _ Hwf Hk Hf Hsl Hc) as Hwf1. cbn [mbind option_bind].
  set (id := length (heap sv)) in *. set (m0 := new_metric (name sv) BRUBECK_MT_INTERNAL_STATS) in *.
  assert (Hm : heap sv1 !! id = Some m0).
  { rewrite (cr_heap _ _ _ _ _ Hc). by rewrite lookup_app_r, Nat.sub_diag. }
  rewrite Hm. cbn [mbind option_bind]. cbv zeta.
  pose proof (new_metric_ok (name sv) BRUBECK_MT_INTERNAL_STATS Hk) as Hok0.
  assert (Hok : metric_ok (set_as m0 (As_other true))) by (destruct Hok0 as (? & ? & ? & ?); by split_and!).
  pose proof (update_wf sv1 id m0 (set_as m0 (As_other true)) Hwf1 Hm Hok eq_refl) as Hwf2.
  set (sv2 := set_heap sv1 _) in *. pose proof (sv_active _ Hwf2). pose proof (sv_slots _ Hwf2).
  rewrite metric_shard_key; [|apply Hok|lia]. cbn [mbind option_bind]. rewrite rd_nat.
  pose proof (shard_key_lt (active_backends sv2) (key (set_as m0 (As_other true))) ltac:(lia)).
  destruct (lookup_lt_is_Some_2 (backends sv2) (shard_key (active_backends sv2) (key (set_as m0 (As_other true)))))
    as [b Hb]; [lia|]. rewrite Hb. cbn [mbind option_bind].
  do 3 eexists. split; [done|]. split; [by destruct Hwf2; split|].
  split; [done|]. split; [apply Hc|]. split; [apply list_lookup_insert_eq; by eapply lookup_lt_Some|].
  split_and!; [done..|]. split; cbn [active_backends internal_stats sample_freq sample heap sv2 set_heap at_capacity].
  - apply Hc.
  - change (backends sv2) with (backends sv1) in Hb.
    destruct (lookup_lt_is_Some_2 (backends sv) (shard_key (active_backends sv2) (key (set_as m0 (As_other true)))))
      as [b0 Hb0]; [rewrite <- (cr_slots _ _ _ _ _ Hc); by eapply lookup_lt_Some|].
    exists b0. split; [by eapply list_elem_of_lookup_2|].
    rewrite (cr_backends _ _ _ _ _ Hc _ _ Hb0) in Hb. by case_decide; injection Hb as <-.
  - apply Hc.
  - rewrite list_fmap_insert, (cr_heap _ _ _ _ _ Hc), fmap_app. cbn [fmap list_fmap].
    rewrite insert_app_r_alt by (by rewrite length_fmap). by rewrite length_fmap, Nat.sub_diag.
  - rewrite list_fmap_insert, (cr_heap _ _ _ _ _ Hc), fmap_app. cbn [fmap list_fmap].
    rewrite insert_app_r_alt by (by rewrite length_fmap). by rewrite length_fmap, Nat.sub_diag.
  - apply Hc.
Qed.

(** Initialisation gives a consistent store whose only metric is the
    server's own, under the server's name and ready to be sampled. *)
Theorem server_init_wf (nm : list Z) (tb : T) (freqs : list Z)
  (Hempty : forall k, ht_find tb k = None) (Hfreqs : (1 <= length freqs <= 8)%nat)
  (Hname : key_fits nm) :
  exists sv id m, brubeck_internal__init (fresh_server nm tb freqs) = Some sv /\ server_wf sv /\
    name sv = nm /\ ht_find (table sv) nm = Some id /\ heap sv !! id = Some m /\
    key m = nm /\ type m = BRUBECK_MT_INTERNAL_STATS /\ as_ m = As_other true.
Proof.
  destruct (internal_init_run (fresh_server nm tb freqs))
    as (sv & id & m & ? & ? & ? & ? & ? & ? & ? & ? & _); [by apply fresh_server_wf|done|apply Hempty|].
  by exists sv, id, m.
Qed.
End Store.

(** ** Examples *)

Definition demo_fresh : brubeck_server := fresh_server (bytes "brubeck") (∅ : gmap (list Z) nat) [10; 10; 30].

Lemma demo_key_fits s :
  forallb (fun b => negb (b =? 0)) (bytes s) = true -> Z.of_nat (length (bytes s)) <= 4000 -> key_fits (bytes s).
Proof. intros Hn Hl. split; [by apply bytes_nul_free|done]. Qed.

Lemma server_init_wf_witness :
  exists sv id m, brubeck_internal__init demo_fresh = Some sv /\ server_wf sv /\
    name sv = bytes "brubeck" /\ ht_find (table sv) (bytes "brubeck") = Some id /\ heap sv !! id = Some m /\
    key m = bytes "brubeck" /\ type m = BRUBECK_MT_INTERNAL_STATS /\ as_ m = As_other true.
Proof.
  apply (server_init_wf (bytes "brubeck") (∅ : gmap (list Z) nat) [10; 10; 30]).
  - intros k. apply lookup_empty.
  - simpl. lia.
  - apply demo_key_fits; [reflexivity|simpl; lia].
Defined.

(** The server of the example, initialised. *)
Definition demo_server : brubeck_server :=
  Eval vm_compute in default demo_fresh (brubeck_internal__init demo_fresh).

Lemma demo_fresh_wf : server_wf demo_fresh.
Proof. apply fresh_server_wf; [intros k; apply lookup_empty|simpl; lia]. Qed.

Lemma demo_server_wf : server_wf demo_server.
Proof.
  destruct (internal_init_run demo_fresh demo_fresh_wf) as (sv & id & m & E & Hwf & _).
  - apply demo_key_fits; [reflexivity|simpl; lia].
  - reflexivity.
  - assert (Some sv = Some demo_server) as [= ->]; [|done]. rewrite <- E. vm_compute. reflexivity.
Qed.

Lemma shard_in_range_witness :
  exists i b, brubeck_metric_shard demo_server (new_metric (bytes "a.b") BRUBECK_MT_GAUGE) = Some i /\
    0 <= i < 3 /\ rd (backends demo_server) i = Some b /\
    forall m', key_wf m' -> key m' = bytes "a.b" -> brubeck_metric_shard demo_server m' = Some i.
Proof.
  apply (shard_in_range demo_server (new_metric (bytes "a.b") BRUBECK_MT_GAUGE) demo_server_wf).
  apply new_metric_key_wf; [by apply bytes_nul_free|reflexivity].
Defined.

Lemma metric_find_spec_witness :
  exists sv' r, brubeck_metric_find demo_server (bytes "a.b") BRUBECK_MT_GAUGE = Some (sv', r) /\
    server_wf sv' /\ r = Some 1%nat /\ created demo_server sv' (bytes "a.b") BRUBECK_MT_GAUGE 1.
Proof.
  exact (metric_find_spec demo_server (bytes "a.b") BRUBECK_MT_GAUGE demo_server_wf
           (demo_key_fits "a.b" eq_refl ltac:(simpl; lia))).
Defined.

(** A meter that is new, and takes the reading. *)
Lemma record_outcome_witness :
  let k := bytes "a.b" in
  (exists sv', sink_metric demo_server k BRUBECK_MT_METER (F64 3) (F64 1) 0 = Some sv' /\
     server_wf sv' /\ recorded demo_server sv' k BRUBECK_MT_METER (F64 3) (F64 1) 0 /\
     forall m, reaches demo_server k BRUBECK_MT_METER m -> record_fails m (F64 1) = false).
Proof.
  destruct (record_outcome demo_server (bytes "a.b") BRUBECK_MT_METER (F64 3) (F64 1) 0 demo_server_wf)
    as [H|[[_ [_ H]]|[H _]]]; [|reflexivity|reflexivity|exact H|..].
  - exact (demo_key_fits "a.b" eq_refl ltac:(simpl; lia)).
  - vm_compute in H. discriminate H.
  - vm_compute in H. discriminate H.
Defined.

(** A client that uses the server's name reaches the null pointer. *)
Example record_server_name :
  sink_metric demo_server (bytes "brubeck") BRUBECK_MT_METER (F64 1) (F64 1) 0 = None.
Proof. reflexivity. Qed.

Definition demo_packet : list Z := bytes "a.b:1|c" ++ [10] ++ bytes "x:2|g" ++ [0].

Lemma packet_parse_store_witness :
  exists os m', brubeck_statsd_packet_parse ([] : list outcome) demo_packet 0 13 = Some (os, m') /\
    Z.of_nat (length os) = 2 /\
    brubeck_statsd_packet_parse demo_server demo_packet 0 13 = (sv' ← deliver_all demo_server os; Some (sv', m')) /\
    match deliver_all demo_server os with
    | Some sv' => server_wf sv'
    | None =>
        exists pre k t v f mods rest sv1 m1, os = pre ++ Accepted k t v f mods :: rest /\
          deliver_all demo_server pre = Some sv1 /\ server_wf sv1 /\ reaches sv1 k t m1 /\ record_fails m1 f = true
    end.
Proof.
  apply (packet_parse_store demo_server demo_packet 0 13 demo_server_wf); [|lia].
  unfold msg_bounds. split_and!; [lia|lia|reflexivity|reflexivity|].
  right. right. vm_compute. congruence.
Defined.

Example packet_parse_demo :
  is_Some (brubeck_statsd_packet_parse demo_server demo_packet 0 13).
Proof. vm_compute. eauto. Qed.

Lemma expire_two_turns_witness :
  let m := set_as (new_metric (bytes "brubeck") BRUBECK_MT_INTERNAL_STATS) (As_other true) in
  exists sv1 sv2 sv3,
    expire_all demo_server = Some sv1 /\ expire_all sv1 = Some sv2 /\ expire_all sv2 = Some sv3 /\
    heap sv1 !! 0%nat = Some (set_expire m BRUBECK_EXPIRE_INACTIVE) /\
    heap sv2 !! 0%nat = Some (set_expire m BRUBECK_EXPIRE_DISABLED) /\
    heap sv3 !! 0%nat = Some (set_expire m BRUBECK_EXPIRE_DISABLED) /\ server_wf sv3.
Proof.
  apply (expire_two_turns demo_server (bytes "brubeck") 0
           (set_as (new_metric (bytes "brubeck") BRUBECK_MT_INTERNAL_STATS) (As_other true)) demo_server_wf);
    reflexivity.
Defined.

Lemma demo_initialised : initialised demo_server.
Proof. repeat constructor. discriminate. Qed.

Lemma sample_queue_once_witness :
  exists i b s' h' ess,
    backends demo_server !! i = Some b /\
    sample_queue (internal_stats demo_server) (heap demo_server) (b_queue b) (b_sample_freq b) 7
      = Some (s', h', concat ess) /\
    Forall2 (sampled (heap demo_server) h' (b_sample_freq b) 7) (b_queue b) ess /\
    server_wf (after_turn demo_server s' h') /\ initialised (after_turn demo_server s' h') /\
    forall id m, heap demo_server !! id = Some m ->
      shard_key (active_backends demo_server) (key m) <> i -> h' !! id = Some m.
Proof.
  set (i := shard_key 3 (bytes "brubeck")).
  destruct (backends demo_server !! i) as [b|] eqn:Hb; [|vm_compute in Hb; congruence].
  destruct (sample_queue_once demo_server i b 7 demo_server_wf demo_initialised Hb) as (s' & h' & ess & Hw).
  exists i, b, s', h', ess. split; [exact Hb|exact Hw].
Defined.
End Store.
