(* ===== verification/Workers.v ===== *)
(** * The threads of the daemon ([src/metric.c], [src/ht.c], [src/backend.c], [src/server.c])

    Any number of threads share the server's metrics: the workers of the
    samplers record readings, the threads of the backends sample, the main
    thread expires.  A step of a thread is one access to shared memory, or one
    critical section of a lock that its holder never nests; the metric's
    spinlock is taken, held over the read and the write of the metric's data,
    and released in steps of their own.  Every interleaving of the steps is a
    run. *)

From stdpp Require Import gmap sets.
From S2P Require Import Prelude Value Histogram Slab Metric City Internal Statsd Store.
Import Histogram Slab Metric City Internal Store.

Module Workers.

(** ** The threads *)

(** A message of the parser: the arguments of [brubeck_metric_find] and
    [brubeck_metric_record]. *)
Record reading := {
  r_key : list Z;
  r_type : brubeck_metric_t;
  r_value : value_t;
  r_freq : value_t;
  r_mods : Z;
}.

(** Where a worker is in [brubeck_metric_find], [brubeck_metric_new],
    [brubeck_backend_register_metric] and [brubeck_metric_record]. *)
Inductive worker_pc :=
| W_start                                   (* brubeck_stats_inc(server, metrics) *)
| W_find                                    (* brubeck_hashtable_find *)
| W_touch (id : nat)                        (* metric->expire = BRUBECK_EXPIRE_ACTIVE *)
| W_capacity                                (* if (server->at_capacity) *)
| W_alloc                                   (* new_metric *)
| W_insert (id : nat)                       (* brubeck_hashtable_insert *)
| W_refind                                  (* the insertion failed: brubeck_hashtable_find *)
| W_register (id : nat)                     (* next = self->queue; metric->next = next *)
| W_cas (id : nat) (next : option nat)      (* __sync_bool_compare_and_swap *)
| W_count (id : nat)                        (* brubeck_stats_inc(server, unique_keys) *)
| W_lock (id : nat)                         (* pthread_spin_lock *)
| W_load (id : nat)                         (* the data of the metric are read *)
| W_store (id : nat) (a : metric_as)        (* and written *)
| W_unlock (id : nat).                      (* pthread_spin_unlock *)

(** The thread of a backend in the walk of its queue: [mt] and the metrics
    behind it.  The [next] of a registered metric does not change, so that the
    metrics behind [mt] are known once the head is read. *)
Inductive sampler_pc :=
| S_turn                                    (* mt = self->queue *)
| S_walk (mt : list nat)
| S_lock (id : nat) (mt : list nat)
| S_load (id : nat) (mt : list nat)
| S_store (id : nat) (a : metric_as) (mt : list nat)
| S_unlock (id : nat) (mt : list nat)
| S_stat (id : nat) (blocks : list (string * stat)) (mt : list nat).

(** The expiry of the main thread, under the mutex of the table: the entries
    that are left; the value of [expire] is tested, read and written. *)
Inductive timer_pc :=
| X_idle
| X_walk (mts : list nat)
| X_load (id : nat) (mts : list nat)
| X_store (id : nat) (e : Z) (mts : list nat).

Inductive thread :=
| Worker (pc : worker_pc) (todo : list reading)
| Sampler (backend : nat) (pc : sampler_pc)
| Timer (pc : timer_pc).

(** What a step does for the outside: a reading recorded, a metric sampled, a
    counter of the server taken, a key created, the key counted, a message
    dropped. *)
Inductive event :=
| Recorded (i id : nat) (r : reading)
| Sampled (i id : nat) (freq : Z) (es : list emission)
| Reported (f : stat) (value : Z)
| Created (id : nat) (k : list Z) (t : brubeck_metric_t)
| Counted (id : nat)
| Dropped (i : nat) (r : reading).

(** A step can be done, waits for a lock, or is undefined behaviour. *)
Inductive outcome (A : Type) :=
| Next (a : A)
| Blocked
| Fault.
Arguments Next {A}.
Arguments Blocked {A}.
Arguments Fault {A}.

Definition need {A B} (o : option A) (f : A -> outcome B) : outcome B :=
  match o with Some a => f a | None => Fault end.

Section Threads.
Context {T : Type} `{HashTable T} (junk : Z).

Local Notation server := (brubeck_server (T := T)).

(** The server, the holders of the metrics' spinlocks, the holder of the
    table's mutex. *)
Record shared := {
  sh_sv : server;
  spin : nat -> option nat;
  write_mutex : option nat;
}.

Definition with_sv (s : shared) (sv : server) : shared :=
  {| sh_sv := sv; spin := spin s; write_mutex := write_mutex s |}.

Definition with_spin (s : shared) (id : nat) (o : option nat) : shared :=
  {| sh_sv := sh_sv s; spin := fun j => if decide (j = id) then o else spin s j;
     write_mutex := write_mutex s |}.

Definition with_mutex (s : shared) (o : option nat) : shared :=
  {| sh_sv := sh_sv s; spin := spin s; write_mutex := o |}.

Definition set_table (sv : server) (tb : T) : server :=
  {| name := name sv; slab := slab sv; heap := heap sv; table := tb;
     at_capacity := at_capacity sv; active_backends := active_backends sv;
     backends := backends sv; internal_stats := internal_stats sv |}.

Definition set_backends (sv : server) (bs : list brubeck_backend) : server :=
  {| name := name sv; slab := slab sv; heap := heap sv; table := table sv;
     at_capacity := at_capacity sv; active_backends := active_backends sv;
     backends := bs; internal_stats := internal_stats sv |}.

Definition set_stats (sv : server) (s : brubeck_internal_stats) : server :=
  {| name := name sv; slab := slab sv; heap := heap sv; table := table sv;
     at_capacity := at_capacity sv; active_backends := active_backends sv;
     backends := backends sv; internal_stats := s |}.

(** A store to the metric [id]. *)
Definition put (s : shared) (id : nat) (m : brubeck_metric) : shared :=
  with_sv s (set_heap (sh_sv s) (<[id := m]> (heap (sh_sv s)))).

(** The queue of the metric's backend, and its index. *)
Definition queue_of (sv : server) (m : brubeck_metric) : option (Z * brubeck_backend) :=
  shard ← brubeck_metric_shard sv m;
  b ← rd (backends sv) shard;
  Some (shard, b).

(** One step of worker [i] on the message [r]; the worker is done with the
    message when no place is left. *)
Definition worker_step (i : nat) (s : shared) (r : reading) (pc : worker_pc)
    : outcome (shared * option worker_pc * list event) :=
  let sv := sh_sv s in
  let found := brubeck_hashtable_find (table sv) (r_key r) (u16 (Z.of_nat (length (r_key r)))) in
  match pc with
  | W_start => Next (with_sv s (stats_inc sv metrics), Some W_find, [])
  | W_find => Next (s, Some (match found with Some id => W_touch id | None => W_capacity end), [])
  | W_touch id =>
      need (heap sv !! id) (fun m =>
      Next (put s id (set_expire m BRUBECK_EXPIRE_ACTIVE), Some (W_lock id), []))
  | W_capacity =>
      if at_capacity sv then Next (s, None, [Dropped i r]) else Next (s, Some W_alloc, [])
  | W_alloc =>
      need (alloc_metric sv (r_key r) (r_type r)) (fun '(sv, id, _) =>
      Next (with_sv s sv, Some (W_insert id), []))
  | W_insert id =>
      match write_mutex s with
      | Some _ => Blocked
      | None =>
          need (heap sv !! id) (fun m =>
          let '(tb, result) := brubeck_hashtable_insert (table sv) (key m) (key_len m) id in
          if result then
            Next (with_sv s (set_table sv tb), Some (W_register id), [Created id (key m) (type m)])
          else Next (with_sv s (set_table sv tb), Some W_refind, []))
      end
  | W_refind =>
      match found with
      | Some id => Next (s, Some (W_lock id), [])
      | None => Next (s, None, [Dropped i r])
      end
  | W_register id =>
      need (m ← heap sv !! id; queue_of sv m) (fun '(_, b) =>
      Next (s, Some (W_cas id (list.head (b_queue b))), []))
  | W_cas id next =>
      need (m ← heap sv !! id; queue_of sv m) (fun '(shard, b) =>
      if decide (list.head (b_queue b) = next) then
        need (register_metric (backends sv) shard id) (fun bs =>
        Next (with_sv s (set_backends sv bs), Some (W_count id), []))
      else Next (s, Some (W_register id), []))
  | W_count id => Next (with_sv s (stats_inc sv unique_keys), Some (W_lock id), [Counted id])
  | W_lock id =>
      need (heap sv !! id) (fun m =>
      match type m, spin s id with
      | BRUBECK_MT_INTERNAL_STATS, _ => Fault
      | _, None => Next (with_spin s id (Some i), Some (W_load id), [])
      | _, Some _ => Blocked
      end)
  | W_load id => need (heap sv !! id) (fun m => Next (s, Some (W_store id (as_ m)), []))
  | W_store id a =>
      need (heap sv !! id) (fun m =>
      need (brubeck_metric_record (set_as m a) (r_value r) (r_freq r) (r_mods r)) (fun m' =>
      Next (put s id (set_as m (as_ m')), Some (W_unlock id), [Recorded i id r])))
  | W_unlock id => Next (with_spin s id None, None, [])
  end.

(** One step of the thread [i] of backend [bk]. *)
Definition sampler_step (i bk : nat) (s : shared) (pc : sampler_pc)
    : outcome (shared * sampler_pc * list event) :=
  let sv := sh_sv s in
  match pc with
  | S_turn => need (backends sv !! bk) (fun b => Next (s, S_walk (b_queue b), []))
  | S_walk [] => Next (s, S_turn, [])
  | S_walk (id :: mt) =>
      need (heap sv !! id) (fun m =>
      if BRUBECK_EXPIRE_DISABLED <? expire m then
        match type m with
        | BRUBECK_MT_INTERNAL_STATS => Next (s, S_stat id internal_blocks mt, [])
        | _ => Next (s, S_lock id mt, [])
        end
      else Next (s, S_walk mt, []))
  | S_lock id mt =>
      match spin s id with
      | None => Next (with_spin s id (Some i), S_load id mt, [])
      | Some _ => Blocked
      end
  | S_load id mt => need (heap sv !! id) (fun m => Next (s, S_store id (as_ m) mt, []))
  | S_store id a mt =>
      need (heap sv !! id) (fun m =>
      need (backends sv !! bk) (fun b =>
      need (brubeck_metric_sample (internal_stats sv) (set_as m a) (b_sample_freq b) junk) (fun '(_, m', es) =>
      Next (put s id (set_as m (as_ m')), S_unlock id mt, [Sampled i id (b_sample_freq b) es]))))
  | S_unlock id mt => Next (with_spin s id None, S_walk mt, [])
  | S_stat id blocks mt =>
      need (heap sv !! id) (fun m =>
      match as_ m, blocks with
      | As_other true, (_, f) :: blocks =>
          let '(st, value) := take_stat (internal_stats sv) f in
          Next (with_sv s (set_stats sv st), S_stat id blocks mt, [Reported f value])
      | As_other true, [] => Next (put s id (set_expire m BRUBECK_EXPIRE_ACTIVE), S_walk mt, [])
      | _, _ => Fault
      end)
  end.

(** One step of the main thread in [brubeck_hashtable_foreach] with
    [expire_metric]. *)
Definition timer_step (i : nat) (s : shared) (pc : timer_pc)
    : outcome (shared * timer_pc * list event) :=
  let sv := sh_sv s in
  match pc with
  | X_idle =>
      match write_mutex s with
      | None => Next (with_mutex s (Some i), X_walk (ht_entries (table sv)).*2, [])
      | Some _ => Blocked
      end
  | X_walk [] => Next (with_mutex s None, X_idle, [])
  | X_walk (id :: mts) =>
      need (heap sv !! id) (fun m =>
      if BRUBECK_EXPIRE_DISABLED <? expire m then Next (s, X_load id mts, [])
      else Next (s, X_walk mts, []))
  | X_load id mts => need (heap sv !! id) (fun m => Next (s, X_store id (expire m) mts, []))
  | X_store id e mts =>
      need (heap sv !! id) (fun m => Next (put s id (set_expire m (u8 (e - 1))), X_walk mts, []))
  end.

(** One step of thread [i]; a worker without messages waits for the next. *)
Definition thread_step (i : nat) (s : shared) (th : thread) : outcome (shared * thread * list event) :=
  match th with
  | Worker _ [] => Blocked
  | Worker pc (r :: todo) =>
      match worker_step i s r pc with
      | Next (s, Some pc, ev) => Next (s, Worker pc (r :: todo), ev)
      | Next (s, None, ev) => Next (s, Worker W_start todo, ev)
      | Blocked => Blocked
      | Fault => Fault
      end
  | Sampler bk pc =>
      match sampler_step i bk s pc with
      | Next (s, pc, ev) => Next (s, Sampler bk pc, ev)
      | Blocked => Blocked
      | Fault => Fault
      end
  | Timer pc =>
      match timer_step i s pc with
      | Next (s, pc, ev) => Next (s, Timer pc, ev)
      | Blocked => Blocked
      | Fault => Fault
      end
  end.

Record state := { st_shared : shared; st_thr : nat -> thread }.

Definition set_thread (f : nat -> thread) (i : nat) (th : thread) : nat -> thread :=
  fun j => if decide (j = i) then th else f j.

(** A step of any thread, with its events. *)
Inductive step (st : state) : list event -> state -> Prop :=
| step_thread i s th ev :
    thread_step i (st_shared st) (st_thr st i) = Next (s, th, ev) ->
    step st ev {| st_shared := s; st_thr := set_thread (st_thr st) i th |}.

(** The runs from a state, with the events in the order they happened. *)
Inductive run (st0 : state) : list event -> state -> Prop :=
| run_start : run st0 [] st0
| run_step tr st ev st' : run st0 tr st -> step st ev st' -> run st0 (tr ++ ev) st'.

(** Every thread is between two calls. *)
Definition idle (th : thread) : Prop :=
  match th with
  | Worker W_start _ | Sampler _ S_turn | Timer X_idle => True
  | _ => False
  end.

(** ** What a thread relies on *)

Definition reading_ok (r : reading) : Prop :=
  key_fits (r_key r) /\ is_double (r_value r) /\ is_double (r_freq r) /\
  r_type r <> BRUBECK_MT_INTERNAL_STATS.

(** The metric a worker has allocated and not yet inserted, the one it has
    inserted and not yet registered, the one whose lock a thread holds, and the
    data it has read under the lock. *)
Definition fresh (th : thread) : option nat :=
  match th with Worker (W_insert id) _ => Some id | _ => None end.

Definition pending (th : thread) : option nat :=
  match th with Worker (W_register id) _ | Worker (W_cas id _) _ => Some id | _ => None end.

Definition crit (th : thread) : option nat :=
  match th with
  | Worker (W_load id) _ | Worker (W_store id _) _ | Worker (W_unlock id) _
  | Sampler _ (S_load id _) | Sampler _ (S_store id _ _) | Sampler _ (S_unlock id _) => Some id
  | _ => None
  end.

Definition loaded (th : thread) : option (nat * metric_as) :=
  match th with
  | Worker (W_store id a) _ | Sampler _ (S_store id a _) => Some (id, a)
  | _ => None
  end.

(** The timer holds the mutex of the table. *)
Definition expiring (th : thread) : Prop :=
  match th with Timer (X_walk _) | Timer (X_load _ _) | Timer (X_store _ _ _) => True | _ => False end.

(** The invariant of the server less the registration of every metric of the
    table, which is a matter of the threads. *)
Record base (sv : server) : Prop := {
  ba_slab : slab_wf (slab sv);
  ba_active : 1 <= active_backends sv <= Z.of_nat (length (backends sv));
  ba_slots : Z.of_nat (length (backends sv)) <= 8;
  ba_heap : Forall metric_ok (heap sv);
  ba_init : initialised sv;
  ba_find k id : ht_find (table sv) k = Some id -> exists m, heap sv !! id = Some m /\ key m = k;
  ba_queue i b id :
    backends sv !! i = Some b -> id ∈ b_queue b ->
    exists m, heap sv !! id = Some m /\ ht_find (table sv) (key m) = Some id /\
      i = shard_key (active_backends sv) (key m);
  ba_once : Forall (fun b => NoDup (b_queue b)) (backends sv);
}.

Definition listed (sv : server) (id : nat) : Prop := exists k, ht_find (table sv) k = Some id.

Definition unqueued (sv : server) (id : nat) : Prop :=
  forall i b, backends sv !! i = Some b -> id ∉ b_queue b.

Definition typed_as (sv : server) (id : nat) (P : brubeck_metric_t -> Prop) : Prop :=
  exists m, heap sv !! id = Some m /\ P (type m).

Definition worker_ok (sv : server) (r : reading) (pc : worker_pc) : Prop :=
  match pc with
  | W_start | W_find | W_capacity | W_alloc => True
  | W_refind => is_Some (ht_find (table sv) (r_key r))
  | W_insert id =>
      (exists m, heap sv !! id = Some m /\ key m = r_key r /\ type m = r_type r) /\ ~ listed sv id
  | W_register id | W_cas id _ => ht_find (table sv) (r_key r) = Some id /\ unqueued sv id
  | W_load id | W_store id _ | W_unlock id =>
      ht_find (table sv) (r_key r) = Some id /\ typed_as sv id (fun t => t <> BRUBECK_MT_INTERNAL_STATS)
  | W_touch id | W_count id | W_lock id => ht_find (table sv) (r_key r) = Some id
  end.

Definition sampler_ok (sv : server) (pc : sampler_pc) : Prop :=
  match pc with
  | S_turn => True
  | S_walk mt => Forall (listed sv) mt
  | S_lock id mt | S_load id mt | S_store id _ mt | S_unlock id mt =>
      Forall (listed sv) (id :: mt) /\ typed_as sv id (fun t => t <> BRUBECK_MT_INTERNAL_STATS)
  | S_stat id _ mt =>
      Forall (listed sv) (id :: mt) /\ typed_as sv id (fun t => t = BRUBECK_MT_INTERNAL_STATS)
  end.

Definition timer_ok (sv : server) (pc : timer_pc) : Prop :=
  match pc with
  | X_idle => True
  | X_walk mts => Forall (listed sv) mts
  | X_load id mts =>
      Forall (listed sv) (id :: mts) /\
      exists m, heap sv !! id = Some m /\ BRUBECK_EXPIRE_DISABLED < expire m
  | X_store id e mts =>
      Forall (listed sv) (id :: mts) /\ BRUBECK_EXPIRE_DISABLED < e <= BRUBECK_EXPIRE_ACTIVE
  end.

Definition thread_ok (sv : server) (th : thread) : Prop :=
  match th with
  | Worker pc [] => pc = W_start
  | Worker pc (r :: todo) => Forall reading_ok (r :: todo) /\ worker_ok sv r pc
  | Sampler bk pc => is_Some (backends sv !! bk) /\ sampler_ok sv pc
  | Timer pc => timer_ok sv pc
  end.

(** ** The effects of the steps

    A step of a thread changes the server in one of these ways. *)

Definition quiet (ev : list event) : Prop :=
  match ev with [] | [Dropped _ _] | [Reported _ _] | [Counted _] => True | _ => False end.

Inductive effect (i : nat) (th : thread) (sv : server) : list event -> server -> Prop :=
| eff_none ev : quiet ev -> effect i th sv ev sv
| eff_stats st ev : quiet ev -> effect i th sv ev (set_stats sv st)
| eff_expire id m e :
    heap sv !! id = Some m -> BRUBECK_EXPIRE_DISABLED <= e <= BRUBECK_EXPIRE_ACTIVE ->
    expiring th \/ e = BRUBECK_EXPIRE_ACTIVE ->
    effect i th sv [] (set_heap sv (<[id := set_expire m e]> (heap sv)))
| eff_record id m m' r todo :
    heap sv !! id = Some m -> th = Worker (W_store id (as_ m)) (r :: todo) ->
    brubeck_metric_record m (r_value r) (r_freq r) (r_mods r) = Some m' ->
    effect i th sv [Recorded i id r] (set_heap sv (<[id := m']> (heap sv)))
| eff_sample id bk b m m' mt es :
    heap sv !! id = Some m -> th = Sampler bk (S_store id (as_ m) mt) -> backends sv !! bk = Some b ->
    type m <> BRUBECK_MT_INTERNAL_STATS ->
    brubeck_metric_sample (internal_stats sv) m (b_sample_freq b) junk = Some (internal_stats sv, m', es) ->
    effect i th sv [Sampled i id (b_sample_freq b) es] (set_heap sv (<[id := m']> (heap sv)))
| eff_alloc sl r todo :
    th = Worker W_alloc (r :: todo) -> slab_wf sl ->
    effect i th sv []
      {| name := name sv; slab := sl; heap := heap sv ++ [new_metric (r_key r) (r_type r)];
         table := table sv; at_capacity := at_capacity sv; active_backends := active_backends sv;
         backends := backends sv; internal_stats := internal_stats sv |}
| eff_insert id m tb :
    fresh th = Some id -> heap sv !! id = Some m -> ht_find (table sv) (key m) = None ->
    ht_find tb (key m) = Some id ->
    (forall k, k <> key m -> ht_find tb k = ht_find (table sv) k) ->
    effect i th sv [Created id (key m) (type m)] (set_table sv tb)
| eff_push id m b :
    pending th = Some id -> heap sv !! id = Some m ->
    backends sv !! shard_key (active_backends sv) (key m) = Some b ->
    effect i th sv []
      (set_backends sv (<[shard_key (active_backends sv) (key m) :=
         {| b_sample_freq := b_sample_freq b; b_queue := id :: b_queue b |}]> (backends sv))).

Context `{!HashTableLaws T}.

Lemma record_keeps m v f mods m' :
  brubeck_metric_record m v f mods = Some m' -> m' = set_as m (as_ m') /\ type m <> BRUBECK_MT_INTERNAL_STATS.
Proof.
  unfold brubeck_metric_record, gauge__record, meter__record, counter__record, histogram__record.
  destruct (type m) eqn:Et, (as_ m); try done; try (by intros [= <-]); by intros (h' & _ & [= <-])%bind_Some.
Qed.

Lemma sample_keeps s m freq s' m' es :
  type m <> BRUBECK_MT_INTERNAL_STATS ->
  brubeck_metric_sample s m freq junk = Some (s', m', es) -> s' = s /\ m' = set_as m (as_ m').
Proof.
  intros Ht E. unfold brubeck_metric_sample in E.
  destruct (type m) eqn:Ety; [| | | | |done]; apply bind_Some in E as ([m1 es1] & E & [= <- <- <-]);
    unfold gauge__sample, meter__sample, counter__sample, histogram__sample in E;
    destruct (as_ m) eqn:Ea; try done; try (injection E as <- <-; rewrite ?(set_as_id m (as_ m)); done).
  - apply bind_Some in E as ([? ?] & _ & E). apply bind_Some in E as (? & _ & E).
    by apply bind_Some in E as (? & _ & [= <- <-]).
  - apply bind_Some in E as ([? ?] & _ & E). apply bind_Some in E as (? & _ & E).
    by apply bind_Some in E as (? & _ & [= <- <-]).
Qed.

(** *** The base invariant *)

Lemma base_ok sv id m : base sv -> heap sv !! id = Some m -> metric_ok m /\ as_ m <> As_other false.
Proof.
  intros Hb Hm. split; [exact (proj1 (Forall_lookup _ _) (ba_heap _ Hb) _ _ Hm)|].
  exact (proj1 (Forall_lookup _ _) (ba_init _ Hb) _ _ Hm).
Qed.

Lemma base_put sv id m m' :
  base sv -> heap sv !! id = Some m -> metric_ok m' -> as_ m' <> As_other false -> key m' = key m ->
  base (set_heap sv (<[id := m']> (heap sv))).
Proof.
  intros [Hsl Ha H8 Hh Hi Hfind Hq Ho] Hm Hok Hother Hkey.
  assert (Hkeep : forall j x, heap sv !! j = Some x ->
            exists x', <[id := m']> (heap sv) !! j = Some x' /\ key x' = key x).
  { intros j x Hx. destruct (decide (j = id)) as [->|].
    - exists m'. rewrite list_lookup_insert_eq by by eapply lookup_lt_Some. split; [done|congruence].
    - exists x. by rewrite list_lookup_insert_ne. }
  split; cbn [set_heap slab heap table active_backends backends]; try done.
  - by apply Forall_insert.
  - by apply Forall_insert.
  - intros k j Hj. destruct (Hfind k j Hj) as (x & Hx & <-). by apply Hkeep.
  - intros i b j Hb Hj. destruct (Hq i b j Hb Hj) as (x & Hx & Hf & Hx2).
    destruct (Hkeep j x Hx) as (x' & Hx' & E). exists x'. by rewrite E.
Qed.

Lemma base_alloc sv sl k t :
  base sv -> slab_wf sl -> key_fits k -> t <> BRUBECK_MT_INTERNAL_STATS ->
  base {| name := name sv; slab := sl; heap := heap sv ++ [new_metric k t];
          table := table sv; at_capacity := at_capacity sv; active_backends := active_backends sv;
          backends := backends sv; internal_stats := internal_stats sv |}.
Proof.
  intros [_ Ha H8 Hh Hi Hfind Hq Ho] Hsl Hk Ht.
  assert (Hold : forall id m, heap sv !! id = Some m -> (heap sv ++ [new_metric k t]) !! id = Some m)
    by (intros id m Hm; by apply lookup_app_l_Some).
  split; cbn [slab heap table active_backends backends]; try done.
  - apply Forall_app. split; [done|]. constructor; [by apply new_metric_ok|done].
  - apply Forall_app. split; [done|]. constructor; [by destruct t|done].
  - intros k' id Hid. destruct (Hfind k' id Hid) as (m & ? & ?). eauto.
  - intros i b id Hb Hid. destruct (Hq i b id Hb Hid) as (m & ? & ? & ?). eauto.
Qed.

Lemma base_insert sv id m tb :
  base sv -> heap sv !! id = Some m -> ht_find (table sv) (key m) = None ->
  ht_find tb (key m) = Some id -> (forall k, k <> key m -> ht_find tb k = ht_find (table sv) k) ->
  base (set_table sv tb).
Proof.
  intros [Hsl Ha H8 Hh Hi Hfind Hq Ho] Hm Hnone Hnew Hold.
  split; cbn [set_table slab heap table active_backends backends]; try done.
  - intros k j. destruct (decide (k = key m)) as [->|Hne].
    + rewrite Hnew. intros [= <-]. eauto.
    + rewrite Hold by done. apply Hfind.
  - intros i b j Hb Hj. destruct (Hq i b j Hb Hj) as (x & Hx & Hf & Hsh). exists x.
    split_and!; [done| |done]. rewrite Hold; [done|congruence].
Qed.

Lemma base_push sv id m b :
  base sv -> heap sv !! id = Some m -> ht_find (table sv) (key m) = Some id -> unqueued sv id ->
  backends sv !! shard_key (active_backends sv) (key m) = Some b ->
  base (set_backends sv (<[shard_key (active_backends sv) (key m) :=
         {| b_sample_freq := b_sample_freq b; b_queue := id :: b_queue b |}]> (backends sv))).
Proof.
  intros [Hsl Ha H8 Hh Hi Hfind Hq Ho] Hm Hf Hun Hb.
  split; cbn [set_backends slab heap table active_backends backends]; try done.
  - by rewrite length_insert.
  - by rewrite length_insert.
  - intros i b' j Hb'. apply list_lookup_insert_Some in Hb' as [(<- & <- & _)|[_ Hb']]; [|by apply Hq].
    cbn [b_queue]. rewrite elem_of_cons. intros [->|Hj]; [eauto|by eapply Hq].
  - apply Forall_insert; [done|]. cbn [b_queue]. apply list.NoDup_cons. split; [by eapply Hun|].
    exact (proj1 (Forall_lookup _ _) Ho _ _ Hb).
Qed.

(** The data of a metric that is not the internal one. *)
Lemma typed_other m : typed m -> type m <> BRUBECK_MT_INTERNAL_STATS -> as_ m <> As_other false.
Proof. unfold typed. by destruct (type m), (as_ m). Qed.

Lemma base_effect i th sv ev sv' :
  base sv -> thread_ok sv th -> effect i th sv ev sv' -> base sv'.
Proof.
  intros Hb Hth He. destruct He as [ev _|st ev _|id m e Hm He _|id m m' r todo Hm -> Hrec
    |id bk b m m' mt es Hm -> Hbk Ht Hs|sl r todo -> Hsl|id m tb Hfr Hm Hnone Hnew Hold|id m b Hpe Hm Hbk].
  - done.
  - by destruct Hb; split.
  - destruct (base_ok sv id m Hb Hm) as [Hok Ho].
    eapply base_put; [done|done|by apply set_expire_ok|done|done].
  - destruct (base_ok sv id m Hb Hm) as [Hok Ho]. destruct Hth as [Hr _].
    apply list.Forall_cons in Hr as [(_ & Hv & Hf & _) _]. destruct (record_keeps _ _ _ _ _ Hrec) as [Em Ht].
    pose proof (metric_record_run m (r_value r) (r_freq r) (r_mods r) Hok Hv Hf) as Hrun.
    destruct (record_fails m (r_freq r)); [congruence|]. destruct Hrun as (m1 & E1 & Hok1 & Hk1).
    assert (m1 = m') as -> by congruence. eapply base_put; [done|done|done| |done].
    apply typed_other; [apply Hok1|by rewrite Em].
  - pose proof (base_ok sv id m Hb Hm) as Hok.
    destruct (metric_sample_run (internal_stats sv) m (b_sample_freq b) junk Hok)
      as (s1 & m1 & es1 & E1 & [Hok1 Ho1] & Hk1 & _).
    assert (m1 = m') as -> by congruence. by eapply base_put.
  - destruct Hth as [Hr _]. apply list.Forall_cons in Hr as [(Hk & _ & _ & Ht) _]. by apply base_alloc.
  - by eapply base_insert.
  - destruct th as [pc [|r todo]| |]; cbn [pending] in Hpe; try done.
    { cbn [thread_ok] in Hth. by subst pc. }
    assert (Hid : ht_find (table sv) (r_key r) = Some id /\ unqueued sv id).
    { destruct Hth as [_ Hth]. by destruct pc; try done; injection Hpe as <-. }
    destruct Hid as [Hid Hun]. destruct (ba_find _ Hb _ _ Hid) as (m1 & Hm1 & Ek).
    assert (m1 = m) as -> by congruence. apply base_push; try done. by rewrite Ek.
Qed.

(** *** What the other threads see

    The table and the queues only grow, by what the thread that moves owns;
    keys and types of metrics stay; only the timer lowers [expire]. *)
Record moved (th : thread) (sv sv' : server) : Prop := {
  mv_table k id : ht_find (table sv) k = Some id -> ht_find (table sv') k = Some id;
  mv_table_new k id :
    ht_find (table sv') k = Some id -> ht_find (table sv) k = Some id \/ fresh th = Some id;
  mv_heap id m :
    heap sv !! id = Some m ->
    exists m', heap sv' !! id = Some m' /\ key m' = key m /\ type m' = type m /\
      (expiring th \/ expire m <= expire m');
  mv_active : active_backends sv' = active_backends sv;
  mv_capacity : at_capacity sv' = at_capacity sv;
  mv_backends bk b :
    backends sv !! bk = Some b ->
    exists b', backends sv' !! bk = Some b' /\
      (b_queue b' = b_queue b \/ exists id, pending th = Some id /\ b_queue b' = id :: b_queue b);
  mv_slots : length (backends sv') = length (backends sv);
}.

Lemma moved_put th sv id m m' :
  heap sv !! id = Some m -> key m' = key m -> type m' = type m ->
  expiring th \/ expire m <= expire m' ->
  moved th sv (set_heap sv (<[id := m']> (heap sv))).
Proof.
  intros Hm Hk Ht He. split; cbn [set_heap heap table active_backends backends]; try done; eauto.
  intros j x Hx. destruct (decide (j = id)) as [->|].
  - exists m'. rewrite list_lookup_insert_eq by by eapply lookup_lt_Some. assert (x = m) as -> by congruence. done.
  - exists x. rewrite list_lookup_insert_ne by done. split_and!; [done..|]. right. lia.
Qed.

Lemma moved_heap_same th (sv sv' : server) :
  heap sv' = heap sv -> forall id m, heap sv !! id = Some m ->
  exists m', heap sv' !! id = Some m' /\ key m' = key m /\ type m' = type m /\ (expiring th \/ expire m <= expire m').
Proof. intros -> id m Hm. exists m. split_and!; [done..|]. right. lia. Qed.

Lemma moved_effect i th sv ev sv' : base sv -> effect i th sv ev sv' -> moved th sv sv'.
Proof.
  intros Hb He. destruct He as [ev _|st ev _|id m e Hm He Hor|id m m' r todo Hm -> Hrec
    |id bk b m m' mt es Hm -> Hbk Ht Hs|sl r todo -> Hsl|id m tb Hfr Hm Hnone Hnew Hold|id m b Hpe Hm Hbk].
  - split; try done; [by auto|by apply moved_heap_same|by eauto].
  - split; try done; [by auto|by apply moved_heap_same|by eauto].
  - eapply moved_put; [done|done|done|]. destruct Hor as [?| ->]; [by left|right].
    destruct (base_ok sv id m Hb Hm) as [(_ & _ & _ & ?) _]. simpl. lia.
  - destruct (record_keeps _ _ _ _ _ Hrec) as [Em _]. rewrite Em. eapply moved_put; [done|done|done|]. right. simpl. lia.
  - destruct (sample_keeps _ _ _ _ _ _ Ht Hs) as [_ Em]. rewrite Em. eapply moved_put; [done|done|done|]. right. simpl. lia.
  - split; cbn [heap table active_backends backends]; try done; [by auto| |by eauto].
    intros id m Hm. exists m. split_and!; [by apply lookup_app_l_Some|done..|right; lia].
  - split; cbn [set_table heap table active_backends backends]; try done; [| |by apply moved_heap_same|by eauto].
    + intros k j Hj. rewrite Hold; [done|congruence].
    + intros k j. destruct (decide (k = key m)) as [->|Hne]; [rewrite Hnew; intros [= <-]; by right|].
      rewrite Hold by done. by left.
  - split; cbn [set_backends heap table active_backends backends]; try done; [by auto|by apply moved_heap_same| |].
    + intros bk b' Hb'. destruct (decide (bk = shard_key (active_backends sv) (key m))) as [->|Hne].
      * eexists. split; [apply list_lookup_insert_eq; by eapply lookup_lt_Some|]. right. exists id.
        split; [done|]. cbn [b_queue]. congruence.
      * exists b'. rewrite list_lookup_insert_ne by done. by auto.
    + by rewrite length_insert.
Qed.

Lemma moved_listed th sv sv' id : moved th sv sv' -> listed sv id -> listed sv' id.
Proof. intros Hm [k Hk]. exists k. by eapply mv_table. Qed.

Lemma moved_typed_as th sv sv' id P : moved th sv sv' -> typed_as sv id P -> typed_as sv' id P.
Proof.
  intros Hm (m & Hx & HP). destruct (mv_heap _ _ _ Hm _ _ Hx) as (m' & Hx' & _ & Et & _). exists m'. by rewrite Et.
Qed.

Lemma moved_unqueued th sv sv' id :
  moved th sv sv' -> pending th <> Some id -> unqueued sv id -> unqueued sv' id.
Proof.
  intros Hm Hp Hun bk b' Hb'. pose proof (lookup_lt_Some _ _ _ Hb') as Hlt. rewrite (mv_slots _ _ _ Hm) in Hlt.
  destruct (lookup_lt_is_Some_2 _ _ Hlt) as [b Hb]. destruct (mv_backends _ _ _ Hm _ _ Hb) as (b2 & Hb2 & Hq).
  assert (b2 = b') as -> by congruence. specialize (Hun bk b Hb).
  destruct Hq as [->|(j & Hj & ->)]; [done|]. rewrite elem_of_cons. intros [->|?]; [congruence|done].
Qed.

(** What a thread relies on survives the steps of the others. *)
Lemma moved_thread_ok th sv sv' th2 :
  moved th sv sv' -> ~ (expiring th /\ expiring th2) ->
  (forall id, fresh th2 = Some id -> fresh th <> Some id) ->
  (forall id, pending th2 = Some id -> pending th <> Some id) ->
  thread_ok sv th2 -> thread_ok sv' th2.
Proof.
  intros Hm Hx Hfr Hpe. assert (Hl : forall l, Forall (listed sv) l -> Forall (listed sv') l)
    by (intros l; apply Forall_impl; intros id; by eapply moved_listed).
  assert (Ht : forall id P, typed_as sv id P -> typed_as sv' id P) by (intros id P; by eapply moved_typed_as).
  assert (Hq : forall id, pending th2 = Some id -> unqueued sv id -> unqueued sv' id)
    by (intros id Hid; eapply moved_unqueued; [done|by apply Hpe]).
  destruct th2 as [pc [|r todo]|bk pc|pc]; cbn [thread_ok]; [done| | |].
  - intros [Hr Hok]. split; [done|]. destruct pc; cbn [worker_ok pending fresh] in *; try done.
    all: try (by eapply mv_table).
    all: try (destruct Hok as [Hf Hun]; split; [by eapply mv_table|by auto]).
    + destruct Hok as [(m & Hh & Hk & Htt) Hnl]. split.
      * destruct (mv_heap _ _ _ Hm _ _ Hh) as (m' & Hh' & Ek & Et & _). exists m'. split_and!; congruence.
      * intros [k Hk']. destruct (mv_table_new _ _ _ Hm _ _ Hk') as [?|Hf]; [apply Hnl; by exists k|].
        by eapply Hfr.
    + destruct Hok as [id Hid]. exists id. by eapply mv_table.
  - intros [[b Hb] Hok]. split; [destruct (mv_backends _ _ _ Hm _ _ Hb) as (b' & ? & _); eauto|].
    destruct pc; cbn [sampler_ok] in *; try done; try (by apply Hl); destruct Hok; split; auto.
  - destruct pc; cbn [timer_ok expiring] in *; try done; try (by apply Hl); intros [Hok He]; split; auto.
    destruct He as (m & Hh & Hlt). destruct (mv_heap _ _ _ Hm _ _ Hh) as (m' & ? & _ & _ & [?|?]); [tauto|].
    exists m'. split; [done|]. lia.
Qed.

(** ** The steps *)

(** The data read under the lock are still those of the metric. *)
Definition load_ok (sv : server) (th : thread) : Prop :=
  forall id a m, loaded th = Some (id, a) -> heap sv !! id = Some m -> as_ m = a.

Lemma queue_of_run sv m id :
  base sv -> heap sv !! id = Some m ->
  exists b, queue_of sv m = Some (Z.of_nat (shard_key (active_backends sv) (key m)), b) /\
    backends sv !! shard_key (active_backends sv) (key m) = Some b /\
    register_metric (backends sv) (Z.of_nat (shard_key (active_backends sv) (key m))) id =
      Some (<[shard_key (active_backends sv) (key m) :=
                {| b_sample_freq := b_sample_freq b; b_queue := id :: b_queue b |}]> (backends sv)).
Proof.
  intros Hb Hm. destruct (base_ok sv id m Hb Hm) as [((_ & Hl) & _) _].
  pose proof (ba_active _ Hb). pose proof (ba_slots _ Hb).
  pose proof (shard_key_lt (active_backends sv) (key m) ltac:(lia)) as Hlt.
  unfold queue_of. rewrite metric_shard_key by (done || lia). cbn [mbind option_bind]. rewrite rd_nat.
  destruct (lookup_lt_is_Some_2 (backends sv) (shard_key (active_backends sv) (key m))) as [b Hbk]; [lia|].
  exists b. rewrite Hbk. split_and!; [done|done|]. unfold register_metric. rewrite rd_nat, Hbk.
  cbn [mbind option_bind]. rewrite wr_in by lia. by rewrite Nat2Z.id.
Qed.

(** Why a step of a worker faults: the metric does not take the reading. *)
Definition refused (sv : server) (r : reading) : Prop :=
  exists id m, ht_find (table sv) (r_key r) = Some id /\ heap sv !! id = Some m /\
    record_fails m (r_freq r) = true.

(** What a step of a worker does: an effect on the server and the next place, a
    wait for a lock, or the fault of a refused reading. *)
Definition worker_fine (i : nat) (s : shared) (r : reading) (todo : list reading) (pc : worker_pc) : Prop :=
  match worker_step i s r pc with
  | Next (s', pc', ev) =>
      effect i (Worker pc (r :: todo)) (sh_sv s) ev (sh_sv s') /\
      match pc' with Some pc' => worker_ok (sh_sv s') r pc' | None => True end
  | Blocked =>
      (exists id, pc = W_insert id /\ write_mutex s <> None) \/ (exists id, pc = W_lock id /\ spin s id <> None)
  | Fault => refused (sh_sv s) r
  end.

Lemma worker_insert_fine i s r todo id :
  base (sh_sv s) -> reading_ok r -> worker_ok (sh_sv s) r (W_insert id) -> worker_fine i s r todo (W_insert id).
Proof.
  intros Hb (Hk & _) Hok. unfold worker_fine. cbn [worker_ok worker_step] in *.
  destruct Hok as [(m & Hm & Ek & Et) Hnl]. destruct (write_mutex s); [left; by exists id|]. rewrite Hm. cbn [need].
  destruct (base_ok _ _ _ Hb Hm) as [((_ & Hl) & _) _].
  rewrite insert_fits; [|by rewrite Ek|rewrite Hl, wrap_small; [done|]].
  2: { destruct Hk as [_ Hk]. rewrite Ek. unfold fits. lia. }
  destruct (ht_find (table (sh_sv s)) (key m)) as [id2|] eqn:E.
  - rewrite (ht_insert_old _ _ _ _ E). cbn [with_sv sh_sv worker_ok].
    replace (set_table (sh_sv s) (table (sh_sv s))) with (sh_sv s) by by destruct (sh_sv s).
    split; [by apply eff_none|]. rewrite <- Ek, E. by eexists.
  - destruct (ht_insert_new _ _ id E) as (tb & -> & Hnew & Hold). cbn [with_sv sh_sv worker_ok].
    split; [by apply eff_insert|]. rewrite <- Ek. split; [done|].
    intros bk b Hbk Hq. destruct (ba_queue _ Hb _ _ _ Hbk Hq) as (x & _ & Hx & _). apply Hnl. by eexists.
Qed.

Lemma worker_store_fine i s r todo id a :
  base (sh_sv s) -> reading_ok r -> worker_ok (sh_sv s) r (W_store id a) ->
  load_ok (sh_sv s) (Worker (W_store id a) (r :: todo)) -> worker_fine i s r todo (W_store id a).
Proof.
  intros Hb (_ & Hv & Hf & _) Hok Hload. unfold worker_fine. cbn [worker_ok worker_step] in *.
  destruct Hok as [Hid Hty]. destruct (ba_find _ Hb _ _ Hid) as (m & Hm & Ek). rewrite Hm. cbn [need].
  assert (a = as_ m) as -> by (symmetry; by eapply Hload). rewrite (set_as_id m (as_ m) eq_refl).
  destruct (base_ok _ _ _ Hb Hm) as [Hmok _].
  pose proof (metric_record_run m (r_value r) (r_freq r) (r_mods r) Hmok Hv Hf) as Hrun.
  destruct (record_fails m (r_freq r)) eqn:Efail; [rewrite Hrun; cbn [need]; by exists id, m|].
  destruct Hrun as (m' & E & _). rewrite E. cbn [need]. destruct (record_keeps _ _ _ _ _ E) as [Em _].
  rewrite <- Em. assert (He : effect i (Worker (W_store id (as_ m)) (r :: todo)) (sh_sv s) [Recorded i id r]
    (sh_sv (put s id m'))) by by eapply eff_record.
  split; [done|]. split; [done|]. by eapply moved_typed_as; [eapply moved_effect|].
Qed.

Lemma worker_step_ok i s r todo pc :
  base (sh_sv s) -> thread_ok (sh_sv s) (Worker pc (r :: todo)) -> load_ok (sh_sv s) (Worker pc (r :: todo)) ->
  worker_fine i s r todo pc.
Proof.
  intros Hb [Hr Hok] Hload. apply list.Forall_cons in Hr as [Hr _]. pose proof Hr as (Hk & Hv & Hf & Ht).
  assert (Hfound : forall id, ht_find (table (sh_sv s)) (r_key r) = Some id ->
            exists m, heap (sh_sv s) !! id = Some m /\ key m = r_key r) by (intros id; apply (ba_find _ Hb)).
  destruct pc as [| |id| | |id| |id|id next|id|id|id|id a|id]; try (by apply worker_insert_fine || by apply worker_store_fine);
    unfold worker_fine, worker_step; rewrite ?find_fits by done; cbn [worker_ok] in Hok.
  - split; [by apply eff_stats|done].
  - split; [by apply eff_none|]. by destruct (ht_find (table (sh_sv s)) (r_key r)) eqn:E.
  - destruct (Hfound id Hok) as (m & Hm & _). rewrite Hm. cbn [need]. split; [|done].
    apply eff_expire; [done|done|by right].
  - destruct (at_capacity (sh_sv s)); (split; [by apply eff_none|done]).
  - destruct (alloc_metric_run (sh_sv s) (r_key r) (r_type r) (ba_slab _ Hb) Hk) as (sl & Hsl & ->).
    cbn [need]. split; [by eapply eff_alloc|]. cbn [worker_ok sh_sv with_sv heap]. split.
    + exists (new_metric (r_key r) (r_type r)). by rewrite lookup_app_r, Nat.sub_diag.
    + intros [k Hk']. cbn [table] in Hk'. destruct (ba_find _ Hb _ _ Hk') as (m & Hm%lookup_lt_Some & _). lia.
  - destruct Hok as [id Hid]. rewrite Hid. split; [by apply eff_none|done].
  - destruct Hok as [Hid Hun]. destruct (Hfound id Hid) as (m & Hm & Ek). rewrite Hm. cbn [mbind option_bind].
    destruct (queue_of_run _ _ _ Hb Hm) as (b & -> & _). cbn [need]. split; [by apply eff_none|done].
  - destruct Hok as [Hid Hun]. destruct (Hfound id Hid) as (m & Hm & Ek). rewrite Hm. cbn [mbind option_bind].
    destruct (queue_of_run _ _ _ Hb Hm) as (b & -> & Hbk & Hreg). cbn [need].
    rewrite Hreg. cbn [need]. case_decide; (split; [|done]); [by apply eff_push|by apply eff_none].
  - split; [by apply eff_stats|done].
  - destruct (Hfound id Hok) as (m & Hm & Ek). rewrite Hm. cbn [need].
    destruct (decide (type m = BRUBECK_MT_INTERNAL_STATS)) as [E|E].
    + rewrite E. exists id, m. split_and!; [done|done|]. unfold record_fails. by rewrite E.
    + destruct (spin s id) eqn:Es; [destruct (type m); try done; right; exists id; by rewrite Es|].
      assert (typed_as (sh_sv s) id (fun t => t <> BRUBECK_MT_INTERNAL_STATS)) by by exists m.
      destruct (type m); try done; (split; [by apply eff_none|done]).
  - destruct Hok as [Hid Hty]. destruct (Hfound id Hid) as (m & Hm & Ek). rewrite Hm. cbn [need].
    split; [by apply eff_none|done].
  - split; [by apply eff_none|done].
Qed.

Lemma listed_heap sv id : base sv -> listed sv id -> exists m, heap sv !! id = Some m.
Proof. intros Hb [k Hk]. destruct (ba_find _ Hb _ _ Hk) as (m & ? & _). eauto. Qed.

Lemma queue_listed sv bk b : base sv -> backends sv !! bk = Some b -> Forall (listed sv) (b_queue b).
Proof.
  intros Hb Hbk. apply Forall_forall. intros id Hid%list_elem_of_In.
  destruct (ba_queue _ Hb _ _ _ Hbk Hid) as (m & _ & ? & _). by eexists.
Qed.

Lemma entries_listed (sv : server) : Forall (listed sv) (ht_entries (table sv)).*2.
Proof.
  apply Forall_fmap, Forall_forall. intros [k id] Hin%list_elem_of_In. exists k. by apply ht_entries_find.
Qed.

Lemma sampler_step_ok i bk s pc :
  base (sh_sv s) -> thread_ok (sh_sv s) (Sampler bk pc) -> load_ok (sh_sv s) (Sampler bk pc) ->
  match sampler_step i bk s pc with
  | Next (s', pc', ev) =>
      effect i (Sampler bk pc) (sh_sv s) ev (sh_sv s') /\
      (sampler_ok (sh_sv s) pc' \/ sampler_ok (sh_sv s') pc')
  | Blocked => exists id mt, pc = S_lock id mt /\ spin s id <> None
  | Fault => False
  end.
Proof.
  intros Hb [[b Hbk] Hok] Hload. unfold sampler_step.
  destruct pc as [|[|id mt]|id mt|id mt|id a mt|id mt|id blocks mt]; cbn [sampler_ok] in Hok.
  - rewrite Hbk. cbn [need]. split; [by apply eff_none|]. left. by eapply queue_listed.
  - split; [by apply eff_none|by left].
  - pose proof Hok as [Hid Hmt]%list.Forall_cons. destruct (listed_heap _ _ Hb Hid) as [m Hm]. rewrite Hm. cbn [need].
    destruct (BRUBECK_EXPIRE_DISABLED <? expire m); [|split; [by apply eff_none|by left]].
    destruct (type m) eqn:Et; (split; [by apply eff_none|left; split; [done|exists m; by rewrite Et]]).
  - destruct (spin s id) eqn:Es; [exists id, mt; by rewrite Es|]. split; [by apply eff_none|by left].
  - destruct Hok as [Hid (m & Hm & Ht)]. rewrite Hm. cbn [need]. split; [by apply eff_none|]. left.
    split; [done|by exists m].
  - destruct Hok as [Hid (m & Hm & Ht)]. rewrite Hm, Hbk. cbn [need].
    assert (a = as_ m) as -> by (symmetry; by eapply Hload). rewrite (set_as_id m (as_ m) eq_refl).
    destruct (metric_sample_run (internal_stats (sh_sv s)) m (b_sample_freq b) junk (base_ok _ _ _ Hb Hm))
      as (s1 & m1 & es & E & _). rewrite E. cbn [need].
    destruct (sample_keeps _ _ _ _ _ _ Ht E) as [-> Em]. rewrite <- Em.
    split; [by eapply eff_sample|]. left. split; [done|by exists m].
  - split; [by apply eff_none|]. left. destruct Hok as [[_ ?]%list.Forall_cons _]. done.
  - destruct Hok as [Hid (m & Hm & Ht)]. rewrite Hm. cbn [need]. destruct (base_ok _ _ _ Hb Hm) as [(_ & Hty & _) Ho].
    assert (as_ m = As_other true) as ->.
    { revert Hty Ho. unfold typed. rewrite Ht. by destruct (as_ m) as [| | | |[]]. }
    destruct blocks as [|[sf f] blocks].
    + split; [apply eff_expire; [done|done|by right]|]. left. by apply list.Forall_cons in Hid as [_ ?].
    + cbn [take_stat]. split; [by apply eff_stats|]. left. split; [done|by exists m].
Qed.

Lemma timer_step_ok i s pc :
  base (sh_sv s) -> thread_ok (sh_sv s) (Timer pc) ->
  match timer_step i s pc with
  | Next (s', pc', ev) =>
      effect i (Timer pc) (sh_sv s) ev (sh_sv s') /\
      (timer_ok (sh_sv s) pc' \/ exists mts, pc' = X_walk mts /\ Forall (listed (sh_sv s)) mts)
  | Blocked => pc = X_idle /\ write_mutex s <> None
  | Fault => False
  end.
Proof.
  intros Hb Hok. unfold timer_step. destruct pc as [|[|id mts]|id mts|id e mts]; cbn [thread_ok timer_ok] in Hok.
  - destruct (write_mutex s); [done|]. split; [by apply eff_none|]. left. apply entries_listed.
  - split; [by apply eff_none|by left].
  - pose proof Hok as [Hid Hmt]%list.Forall_cons. destruct (listed_heap _ _ Hb Hid) as [m Hm]. rewrite Hm. cbn [need].
    destruct (Z.ltb_spec BRUBECK_EXPIRE_DISABLED (expire m)); (split; [by apply eff_none|left]); [|done].
    split; [done|by exists m].
  - destruct Hok as [Hids (m & Hm & Hlt)]. rewrite Hm. cbn [need]. split; [by apply eff_none|left]. split; [done|].
    destruct (base_ok _ _ _ Hb Hm) as [(_ & _ & _ & ?) _]. lia.
  - destruct Hok as [[Hid Hmt]%list.Forall_cons He]. destruct (listed_heap _ _ Hb Hid) as [m Hm]. rewrite Hm. cbn [need].
    split; [|by right; exists mts]. unfold BRUBECK_EXPIRE_DISABLED, BRUBECK_EXPIRE_ACTIVE in *.
    apply eff_expire; [done| |by left]. rewrite wrap_small by (unfold fits; lia).
    unfold BRUBECK_EXPIRE_DISABLED, BRUBECK_EXPIRE_ACTIVE. lia.
Qed.

(** Why a thread waits: it has nothing to do, or another thread holds the lock
    it needs. *)
Definition waits (s : shared) (th : thread) : Prop :=
  match th with
  | Worker _ [] => True
  | Worker (W_insert _) _ | Timer X_idle => write_mutex s <> None
  | Worker (W_lock id) _ | Sampler _ (S_lock id _) => spin s id <> None
  | _ => False
  end.

(** A step of thread [i] is one of the effects and leaves what the thread
    relies on; a thread that cannot step waits, or has a reading that its metric
    does not take. *)
Lemma thread_step_ok i s th :
  base (sh_sv s) -> thread_ok (sh_sv s) th -> load_ok (sh_sv s) th ->
  match thread_step i s th with
  | Next (s', th', ev) => effect i th (sh_sv s) ev (sh_sv s') /\ thread_ok (sh_sv s') th'
  | Blocked => waits s th
  | Fault => exists pc r todo, th = Worker pc (r :: todo) /\ refused (sh_sv s) r
  end.
Proof.
  intros Hb Hok Hload. destruct th as [pc [|r todo]|bk pc|pc]; cbn [thread_step].
  - by destruct pc.
  - pose proof (worker_step_ok i s r todo pc Hb Hok Hload) as Hw. unfold worker_fine in Hw. destruct Hok as [Hr _].
    destruct (worker_step i s r pc) as [[[s' [pc'|]] ev]| |].
    + destruct Hw. done.
    + destruct Hw as [He _]. split; [done|]. apply list.Forall_cons in Hr as [_ Hr]. by destruct todo.
    + by destruct Hw as [(id & -> & ?)|(id & -> & ?)].
    + by exists pc, r, todo.
  - pose proof (sampler_step_ok i bk s pc Hb Hok Hload) as Hw.
    destruct (sampler_step i bk s pc) as [[[s' pc'] ev]| |]; [|by destruct Hw as (id & mt & -> & ?)|done].
    destruct Hw as [He Hpc]. split; [done|]. pose proof (moved_effect _ _ _ _ _ Hb He) as Hm.
    destruct Hok as [[b Hbk] _]. split; [destruct (mv_backends _ _ _ Hm _ _ Hbk) as (b' & ? & _); eauto|].
    destruct Hpc as [Hpc|]; [|done].
    apply (moved_thread_ok _ _ _ (Sampler bk pc') Hm); [by intros [_ []]|done|done|split; eauto].
  - pose proof (timer_step_ok i s pc Hb Hok) as Hw.
    destruct (timer_step i s pc) as [[[s' pc'] ev]| |] eqn:Es; [|by destruct Hw as [-> ?]|done].
    destruct Hw as [He Hpc]. split; [done|]. cbn [thread_ok].
    pose proof (moved_effect _ _ _ _ _ Hb He) as Hm.
    assert (Hl : forall l, Forall (listed (sh_sv s)) l -> Forall (listed (sh_sv s')) l)
      by (intros l; apply Forall_impl; intros id; by eapply moved_listed).
    destruct Hpc as [Hpc|(mts & -> & ?)]; [|by apply Hl].
    destruct pc as [|[|id mts]|id mts|id e mts]; cbn [timer_step] in Es.
    all: try (destruct (write_mutex s); [done|]).
    all: try (destruct (heap (sh_sv s) !! id) as [m|]; [|done]; cbn [need] in Es).
    all: try destruct (BRUBECK_EXPIRE_DISABLED <? expire m).
    all: injection Es as <- <- <-; cbn [with_mutex sh_sv]; try done; by apply Hl.
Qed.

(** ** Locks and ownership *)

(** Case analysis on the step of a thread. *)
Ltac step_cases E := unfold thread_step, worker_step, sampler_step, timer_step, need in E; break_in E.

(** How a step of thread [i] changes the locks: it keeps them, takes one that
    is free, or releases its own. *)
Lemma step_spin i s th s' th' ev :
  thread_step i s th = Next (s', th', ev) ->
  spin s' = spin s /\ crit th' = crit th \/
  (exists id, crit th = None /\ crit th' = Some id /\ spin s id = None /\ s' = with_spin s id (Some i)) \/
  (exists id, crit th = Some id /\ crit th' = None /\ s' = with_spin s id None).
Proof.
  intros E. destruct th as [pc [|r todo]|bk pc|pc]; [done| | |].
  - destruct pc; step_cases E; first [by left|by right; left; eexists|by right; right; eexists].
  - destruct pc; step_cases E; first [by left|by right; left; eexists|by right; right; eexists].
  - destruct pc; step_cases E; by left.
Qed.

Lemma step_mutex i s th s' th' ev :
  thread_step i s th = Next (s', th', ev) ->
  write_mutex s' = write_mutex s /\ (expiring th' <-> expiring th) \/
  (~ expiring th /\ expiring th' /\ write_mutex s = None /\ write_mutex s' = Some i) \/
  (expiring th /\ ~ expiring th' /\ write_mutex s' = None).
Proof.
  intros E. destruct th as [pc [|r todo]|bk pc|pc]; [done| | |].
  - left. destruct pc; step_cases E; done.
  - left. destruct pc; step_cases E; done.
  - destruct pc; step_cases E; cbn [expiring]; tauto.
Qed.

(** The metric a worker owns: allocated and not yet counted. *)
Definition own (th : thread) : option nat :=
  match th with
  | Worker (W_insert id) _ | Worker (W_register id) _ | Worker (W_cas id _) _ | Worker (W_count id) _ => Some id
  | _ => None
  end.

Lemma fresh_own th id : fresh th = Some id -> own th = Some id.
Proof. by destruct th as [[] ?| |]. Qed.

Lemma pending_own th id : pending th = Some id -> own th = Some id.
Proof. by destruct th as [[] ?| |]. Qed.

Lemma alloc_metric_id (sv : server) k t sv' id m : alloc_metric sv k t = Some (sv', id, m) -> id = length (heap sv).
Proof. unfold alloc_metric. cbv zeta. intros ([sl p] & _ & E)%bind_Some. case_match; congruence. Qed.

Lemma alloc_metric_stats (sv : server) k t sv' id m :
  alloc_metric sv k t = Some (sv', id, m) -> internal_stats sv' = internal_stats sv.
Proof. unfold alloc_metric. cbv zeta. intros ([sl p] & _ & E)%bind_Some. case_match; [|done]. by injection E as <- _ _. Qed.

Lemma step_own i s th s' th' ev id :
  thread_step i s th = Next (s', th', ev) -> own th' = Some id ->
  own th = Some id \/ id = length (heap (sh_sv s)).
Proof.
  intros E. destruct th as [pc [|r todo]|bk pc|pc]; [done| | |].
  - destruct pc; step_cases E; try done; cbn [own fresh pending]; intros [= <-]; auto.
    right. by eapply alloc_metric_id.
  - destruct pc; step_cases E; done.
  - destruct pc; step_cases E; done.
Qed.

(** A worker that inserts a metric registers it next, and keeps trying until it
    is on the queue of its backend. *)
Lemma step_inserted i s th s' th' ev k id :
  thread_step i s th = Next (s', th', ev) -> ht_find (table (sh_sv s')) k = Some id ->
  fresh th = Some id -> ht_find (table (sh_sv s)) k = Some id \/ pending th' = Some id.
Proof.
  intros E Hk Hf. destruct th as [[] [|r todo]|bk pc|pc]; try done. cbn [fresh] in Hf. injection Hf as ->.
  step_cases E; [by right|]. left. cbn [with_sv sh_sv set_table table] in Hk.
  match goal with H : brubeck_hashtable_insert ?t (key ?m) ?l _ = _ |- _ =>
    unfold brubeck_hashtable_insert in H; set (kk := take (Z.to_nat l) (key m)) in H;
    destruct (ht_find t kk) eqn:Ek; [rewrite (ht_insert_old _ _ _ _ Ek) in H; congruence|];
    destruct (ht_insert_new _ _ id Ek) as (tb & E2 & _); congruence
  end.
Qed.

Lemma step_pending i s th s' th' ev id :
  base (sh_sv s) -> thread_step i s th = Next (s', th', ev) -> pending th = Some id ->
  pending th' = Some id \/
  exists m b, heap (sh_sv s) !! id = Some m /\
    backends (sh_sv s') !! shard_key (active_backends (sh_sv s)) (key m) = Some b /\ id ∈ b_queue b.
Proof.
  intros Hb E Hp. destruct th as [[] [|r todo]|bk pc|pc]; try done; cbn [pending] in Hp; injection Hp as ->.
  - left. step_cases E; done.
  - cbn [thread_step worker_step] in E. destruct (heap (sh_sv s) !! id) as [m|] eqn:Hm; [|done].
    cbn [mbind option_bind] in E. destruct (queue_of_run _ _ _ Hb Hm) as (b & Eq & Hbk & Hreg).
    rewrite Eq in E. cbn [need] in E. rewrite Hreg in E. cbn [need] in E.
    case_decide; injection E as <- <- <-; [|by left]. right. exists m. eexists. split; [done|].
    cbn [with_sv sh_sv set_backends backends]. split; [apply list_lookup_insert_eq; by eapply lookup_lt_Some|].
    cbn [b_queue]. left.
Qed.

(** ** The invariant of every run *)

Record inv (st : state) : Prop := {
  in_base : base (sh_sv (st_shared st));
  in_thr i : thread_ok (sh_sv (st_shared st)) (st_thr st i);
  in_load i : load_ok (sh_sv (st_shared st)) (st_thr st i);
  in_spin i id : crit (st_thr st i) = Some id <-> spin (st_shared st) id = Some i;
  in_mutex i : expiring (st_thr st i) <-> write_mutex (st_shared st) = Some i;
  in_own i j id : i <> j -> own (st_thr st i) = Some id -> own (st_thr st j) <> Some id;
  in_reg k id :
    ht_find (table (sh_sv (st_shared st))) k = Some id ->
    (exists b, backends (sh_sv (st_shared st)) !! shard_key (active_backends (sh_sv (st_shared st))) k = Some b /\
       id ∈ b_queue b) \/
    exists i, pending (st_thr st i) = Some id;
}.

Lemma set_thread_eq f i th : set_thread f i th i = th.
Proof. unfold set_thread. by rewrite decide_True. Qed.

Lemma set_thread_ne f i th j : j <> i -> set_thread f i th j = f j.
Proof. intros. unfold set_thread. by rewrite decide_False. Qed.

Lemma loaded_crit th id a : loaded th = Some (id, a) -> crit th = Some id.
Proof. destruct th as [[] ?|? []|?]; cbn [loaded crit]; congruence. Qed.

Lemma own_heap sv th id : base sv -> thread_ok sv th -> own th = Some id -> exists m, heap sv !! id = Some m.
Proof.
  intros Hb Hok. destruct th as [pc [|r todo]|bk pc|pc]; cbn [thread_ok] in Hok; try done; [by subst pc|].
  destruct Hok as [_ Hok]. destruct pc; cbn [own fresh pending worker_ok] in *; try done; intros [= <-].
  - destruct Hok as [(m & ? & _) _]. eauto.
  - apply listed_heap; [done|]. eexists. apply Hok.
  - apply listed_heap; [done|]. eexists. apply Hok.
  - apply listed_heap; [done|]. by eexists.
Qed.

Lemma step_loaded i s th s' th' ev : thread_step i s th = Next (s', th', ev) -> load_ok (sh_sv s') th'.
Proof.
  intros E id a m. destruct th as [pc [|r todo]|bk pc|pc]; [done| | |];
    destruct pc; step_cases E; try done; cbn [loaded]; congruence.
Qed.

(** The data of a metric change only under its lock. *)
Lemma effect_as i th sv ev sv' id m :
  effect i th sv ev sv' -> crit th <> Some id -> heap sv' !! id = Some m ->
  heap sv !! id = None \/ exists m0, heap sv !! id = Some m0 /\ as_ m0 = as_ m.
Proof.
  assert (Hput : forall id2 m1 m2, heap sv !! id2 = Some m1 -> id2 <> id \/ as_ m2 = as_ m1 ->
            <[id2 := m2]> (heap sv) !! id = Some m ->
            heap sv !! id = None \/ exists m0, heap sv !! id = Some m0 /\ as_ m0 = as_ m).
  { intros id2 m1 m2 Hm1 Hor. destruct (decide (id2 = id)) as [->|Hne].
    - rewrite list_lookup_insert_eq by by eapply lookup_lt_Some. intros [= <-]. right. exists m1.
      destruct Hor; [done|]. by split.
    - rewrite list_lookup_insert_ne by done. eauto. }
  intros He Hc. destruct He as [ev _|st ev _|id2 m2 e Hm _ _|id2 m2 m' r todo Hm -> Hrec
    |id2 bk b m2 m' mt es Hm -> Hbk Ht Hs|sl r todo -> Hsl|id2 m2 tb Hfr Hm Hnone Hnew Hold|id2 m2 b Hpe Hm Hbk];
    cbn [set_stats set_heap set_table set_backends heap]; try (by eauto).
  - by eapply Hput; [|right].
  - eapply Hput; [done|left]. cbn [crit] in Hc. congruence.
  - eapply Hput; [done|left]. cbn [crit] in Hc. congruence.
  - intros Hm. destruct (heap sv !! id) as [m0|] eqn:E; [right|by left]. exists m0. split; [done|].
    rewrite lookup_app_l in Hm by by eapply lookup_lt_Some. congruence.
Qed.

Lemma spin_step (f : nat -> thread) i s s' th' ev :
  (forall j id, crit (f j) = Some id <-> spin s id = Some j) ->
  thread_step i s (f i) = Next (s', th', ev) ->
  forall j id, crit (set_thread f i th' j) = Some id <-> spin s' id = Some j.
Proof.
  intros Hspin E j id.
  destruct (step_spin _ _ _ _ _ _ E) as [[Es Ec]|[(id2 & Ec & Ec' & Es & ->)|(id2 & Ec & Ec' & ->)]];
    cbn [with_spin spin].
  - rewrite Es. destruct (decide (j = i)) as [->|Hj]; [by rewrite set_thread_eq, Ec|by rewrite set_thread_ne].
  - destruct (decide (j = i)) as [->|Hj]; [rewrite set_thread_eq, Ec'|rewrite set_thread_ne by done];
      case_decide as Hd; try subst id2; [split; congruence| | |apply Hspin].
    + split; [congruence|]. rewrite <- Hspin. congruence.
    + split; [rewrite Hspin; congruence|congruence].
  - pose proof (proj1 (Hspin i id2) Ec) as Hi.
    destruct (decide (j = i)) as [->|Hj]; [rewrite set_thread_eq, Ec'|rewrite set_thread_ne by done];
      case_decide as Hd; try subst id2; [split; congruence| | |apply Hspin].
    + split; [congruence|]. rewrite <- Hspin. congruence.
    + split; [rewrite Hspin; congruence|congruence].
Qed.

Lemma mutex_step (f : nat -> thread) i s s' th' ev :
  (forall j, expiring (f j) <-> write_mutex s = Some j) ->
  thread_step i s (f i) = Next (s', th', ev) ->
  forall j, expiring (set_thread f i th' j) <-> write_mutex s' = Some j.
Proof.
  intros Hmx E j. destruct (step_mutex _ _ _ _ _ _ E) as [[-> Ex]|[(Hn & Hx & Em & ->)|(Hx & Hn & ->)]];
    (destruct (decide (j = i)) as [->|Hj]; [rewrite set_thread_eq|rewrite set_thread_ne by done]).
  - by rewrite Ex.
  - done.
  - done.
  - rewrite Hmx. split; congruence.
  - done.
  - apply Hmx in Hx. rewrite Hmx. split; congruence.
Qed.

Lemma inv_step st ev st' : inv st -> step st ev st' -> inv st'.
Proof.
  intros [Hb Hthr Hload Hspin Hmx Hown Hreg] [i s' th' ev' E]. destruct st as [s f]. cbn [st_shared st_thr] in *.
  pose proof (thread_step_ok i s (f i) Hb (Hthr i) (Hload i)) as Hs. rewrite E in Hs. destruct Hs as [He Hth'].
  pose proof (base_effect _ _ _ _ _ Hb (Hthr i) He) as Hb'. pose proof (moved_effect _ _ _ _ _ Hb He) as Hm.
  split; cbn [st_shared st_thr].
  - done.
  - intros j. destruct (decide (j = i)) as [->|Hj]; [by rewrite set_thread_eq|]. rewrite set_thread_ne by done.
    eapply moved_thread_ok; [done| | | |apply Hthr].
    + rewrite !Hmx. intros [? ?]. congruence.
    + intros id Hid Hid2. by apply (Hown j i id Hj); apply fresh_own.
    + intros id Hid Hid2. by apply (Hown j i id Hj); apply pending_own.
  - intros j. destruct (decide (j = i)) as [->|Hj]; [rewrite set_thread_eq; by eapply step_loaded|].
    rewrite set_thread_ne by done. intros id a m Hl Hm'. pose proof (loaded_crit _ _ _ Hl) as Hc.
    destruct (effect_as i (f i) (sh_sv s) ev' (sh_sv s') id m He) as [Hnone|(m0 & Hm0 & <-)]; [|done| |by eapply Hload].
    { intros Hc2. apply Hspin in Hc, Hc2. congruence. }
    exfalso. assert (Hli : exists m0, heap (sh_sv s) !! id = Some m0); [|destruct Hli; congruence].
    specialize (Hthr j). destruct (f j) as [[] [|r todo]|bk []|]; cbn [loaded] in Hl; try done;
      cbn [thread_ok] in Hthr; destruct Hthr as [_ [Hl1 (m1 & Hm1 & _)]]; injection Hl as -> ->; eauto.
  - by eapply spin_step.
  - by eapply mutex_step.
  - assert (Hnew : forall j id, j <> i -> own (f j) = Some id -> own th' <> Some id).
    { intros j id Hj Ho Ho'. destruct (step_own _ _ _ _ _ _ _ E Ho') as [?| ->]; [by apply (Hown j i id)|].
      destruct (own_heap _ _ _ Hb (Hthr j) Ho) as [m Hlt%lookup_lt_Some]. lia. }
    intros j1 j2 id Hj. destruct (decide (j1 = i)) as [->|H1], (decide (j2 = i)) as [->|H2];
      rewrite ?set_thread_eq, ?set_thread_ne by done; [done| | |by apply Hown].
    + intros Ho Ho2. by apply (Hnew j2 id).
    + intros Ho. by apply (Hnew j1 id).
  - intros k id Hk. destruct (mv_table_new _ _ _ Hm _ _ Hk) as [Hold|Hfr].
    + destruct (Hreg k id Hold) as [(b & Hbk & Hq)|[j Hp]].
      * left. rewrite (mv_active _ _ _ Hm). destruct (mv_backends _ _ _ Hm _ _ Hbk) as (b' & Hb2 & Hq2).
        exists b'. split; [done|]. destruct Hq2 as [->|(id2 & _ & ->)]; [done|by right].
      * destruct (decide (j = i)) as [->|Hj]; [|right; exists j; by rewrite set_thread_ne].
        destruct (step_pending _ _ _ _ _ _ _ Hb E Hp) as [?|(m & b & Hx & Hbk & Hq)];
          [right; exists i; by rewrite set_thread_eq|left].
        destruct (ba_find _ Hb _ _ Hold) as (m2 & Hm2 & <-). assert (m2 = m) as -> by congruence.
        exists b. by rewrite (mv_active _ _ _ Hm).
    + destruct (step_inserted _ _ _ _ _ _ _ _ E Hk Hfr) as [Hold|Hp]; [|right; exists i; by rewrite set_thread_eq].
      exfalso. specialize (Hthr i). destruct (f i) as [[] [|r todo]|bk pc|pc]; try done. cbn [fresh] in Hfr.
      injection Hfr as ->. destruct Hthr as [_ [_ Hnl]]. apply Hnl. by exists k.
Qed.

(** ** Serial runs

    The events of a run, in order, are a serial execution of the operations
    on every metric. *)

Definition no_stats : brubeck_internal_stats :=
  {| sample_freq := 0; live := fun _ => 0; sample := fun _ => 0 |}.

Fixpoint replay (id : nat) (m : brubeck_metric) (tr : list event)
    : option (brubeck_metric * list (list emission)) :=
  match tr with
  | [] => Some (m, [])
  | Recorded _ id' r :: tr =>
      if decide (id' = id) then
        m ← brubeck_metric_record m (r_value r) (r_freq r) (r_mods r); replay id m tr
      else replay id m tr
  | Sampled _ id' freq _ :: tr =>
      if decide (id' = id) then
        '(_, m, es) ← brubeck_metric_sample no_stats m freq junk;
        '(m, ess) ← replay id m tr;
        Some (m, es :: ess)
      else replay id m tr
  | _ :: tr => replay id m tr
  end.

(** What the backends were given of a metric. *)
Definition reports (id : nat) (tr : list event) : list (list emission) :=
  omap (fun ev => match ev with
                  | Sampled _ id' _ es => if decide (id' = id) then Some es else None
                  | _ => None
                  end) tr.

(** What worker [i] was done with, and what it still has to do. *)
Definition handled (i : nat) (tr : list event) : list reading :=
  omap (fun ev => match ev with
                  | Recorded j _ r | Dropped j r => if decide (j = i) then Some r else None
                  | _ => None
                  end) tr.

Definition unhandled (th : thread) : list reading :=
  match th with
  | Worker (W_unlock _) (_ :: todo) => todo
  | Worker _ todo => todo
  | _ => []
  end.

(** The metric [m] at [id] as it was before the run, or as it was created. *)
Definition birth (h : list brubeck_metric) (id : nat) (m : brubeck_metric) : brubeck_metric :=
  match h !! id with Some m0 => m0 | None => new_metric (key m) (type m) end.

Lemma replay_app id tr1 : forall m tr2,
  replay id m (tr1 ++ tr2) =
    '(m1, e1) ← replay id m tr1; '(m2, e2) ← replay id m1 tr2; Some (m2, e1 ++ e2).
Proof.
  induction tr1 as [|ev tr1 IH]; intros m tr2; cbn [app replay].
  { cbn [mbind option_bind]. by destruct (replay id m tr2) as [[? ?]|]. }
  destruct ev; try (by rewrite IH); (case_decide; [|by rewrite IH]).
  - destruct (brubeck_metric_record m _ _ _); cbn [mbind option_bind]; [by rewrite IH|done].
  - destruct (brubeck_metric_sample no_stats m _ _) as [[[? m'] es1]|]; cbn [mbind option_bind]; [|done].
    rewrite IH. destruct (replay id m' tr1) as [[m1 e1]|]; cbn [mbind option_bind]; [|done].
    by destruct (replay id m1 tr2) as [[? ?]|].
Qed.

Lemma record_set_expire m e v f mods :
  brubeck_metric_record (set_expire m e) v f mods =
    m' ← brubeck_metric_record m v f mods; Some (set_expire m' e).
Proof.
  unfold brubeck_metric_record, gauge__record, meter__record, counter__record, histogram__record.
  cbn [set_expire type as_]. destruct (type m), (as_ m); try done; by destruct (brubeck_histo_push _ _ _).
Qed.

Lemma sample_set_expire s s2 m e freq m' es :
  type m <> BRUBECK_MT_INTERNAL_STATS ->
  brubeck_metric_sample s m freq junk = Some (s, m', es) ->
  brubeck_metric_sample s2 (set_expire m e) freq junk = Some (s2, set_expire m' e, es).
Proof.
  intros Ht. unfold brubeck_metric_sample, gauge__sample, meter__sample, counter__sample, histogram__sample.
  change (suffix_buffer (set_expire m e)) with (suffix_buffer m).
  cbn [set_expire type as_ key key_len].
  destruct (type m); try done; destruct (as_ m); try done; cbn [mbind option_bind]; try (by intros [= <- <-]);
    (destruct (brubeck_histo_sample h) as [[sm h']|]; [|done]); cbn [mbind option_bind];
    (destruct (suffix_buffer m _ _); [|done]); cbn [mbind option_bind];
    (destruct (emit_all _ _ _); [|done]); cbn [mbind option_bind]; by intros [= <- <-].
Qed.

(** The history of metric [id] explains its data. *)
Definition explained (h0 : list brubeck_metric) (tr : list event) (id : nat) (m : brubeck_metric) : Prop :=
  exists m1, replay id (birth h0 id m) tr = Some (m1, reports id tr) /\ m = set_expire m1 (expire m).

(** The metric an event is about. *)
Definition about (ev : event) : option nat :=
  match ev with Recorded _ id _ | Sampled _ id _ _ => Some id | _ => None end.

Lemma replay_untouched id tr :
  Forall (fun ev => about ev <> Some id) tr -> forall m, replay id m tr = Some (m, []) /\ reports id tr = [].
Proof.
  induction 1 as [|ev tr Hev _ IH]; intros m; [done|].
  destruct ev; cbn [replay reports omap list_omap about] in *; try apply IH;
    (rewrite !decide_False by congruence; apply IH).
Qed.

Lemma reports_app id tr1 tr2 : reports id (tr1 ++ tr2) = reports id tr1 ++ reports id tr2.
Proof. apply omap_app. Qed.

(** Events about other metrics, or none, and the change of [expire]. *)
Lemma explained_keep h0 tr ev id m e :
  Forall (fun ev => about ev <> Some id) ev -> explained h0 tr id m -> explained h0 (tr ++ ev) id (set_expire m e).
Proof.
  intros Hev (m1 & Hr & Em). destruct (replay_untouched id ev Hev m1) as [E1 E2].
  exists m1. change (birth h0 id (set_expire m e)) with (birth h0 id m).
  rewrite replay_app, Hr, reports_app, E2. cbn [mbind option_bind]. rewrite E1. cbn [mbind option_bind].
  split; [done|]. by rewrite Em.
Qed.

Lemma explained_same h0 tr ev id m :
  Forall (fun ev => about ev <> Some id) ev -> explained h0 tr id m -> explained h0 (tr ++ ev) id m.
Proof. intros Hev He. pose proof (explained_keep h0 tr ev id m (expire m) Hev He) as Hk. by destruct m. Qed.

Lemma explained_record h0 tr i id r m m' :
  brubeck_metric_record m (r_value r) (r_freq r) (r_mods r) = Some m' ->
  explained h0 tr id m -> explained h0 (tr ++ [Recorded i id r]) id m'.
Proof.
  intros Hrec (m1 & Hr & Em). destruct (record_keeps _ _ _ _ _ Hrec) as [Em' _].
  exists (set_expire m' (expire m1)).
  replace (birth h0 id m') with (birth h0 id m) by (rewrite Em'; done).
  assert (E1 : m1 = set_expire m (expire m1)) by (rewrite Em; by destruct m1).
  rewrite replay_app, Hr, reports_app. cbn [mbind option_bind replay]. rewrite decide_True by done.
  rewrite E1, record_set_expire, Hrec. cbn [mbind option_bind]. split; [done|]. by destruct m'.
Qed.

Lemma explained_sample h0 tr i id s freq es m m' :
  type m <> BRUBECK_MT_INTERNAL_STATS ->
  brubeck_metric_sample s m freq junk = Some (s, m', es) ->
  explained h0 tr id m -> explained h0 (tr ++ [Sampled i id freq es]) id m'.
Proof.
  intros Ht Hs (m1 & Hr & Em). destruct (sample_keeps _ _ _ _ _ _ Ht Hs) as [_ Em'].
  exists (set_expire m' (expire m1)).
  replace (birth h0 id m') with (birth h0 id m) by (rewrite Em'; done).
  assert (E1 : m1 = set_expire m (expire m1)) by (rewrite Em; by destruct m1).
  rewrite replay_app, Hr, reports_app. cbn [mbind option_bind replay reports omap list_omap].
  rewrite !decide_True by done. rewrite E1, (sample_set_expire s no_stats m _ freq m' es Ht Hs).
  cbn [mbind option_bind]. split; [done|]. by destruct m'.
Qed.

Lemma explained_effect h0 tr i th sv ev sv' :
  effect i th sv ev sv' -> (length h0 <= length (heap sv))%nat ->
  Forall (fun ev => forall id, about ev = Some id -> (id < length (heap sv))%nat) tr ->
  (forall id m, heap sv !! id = Some m -> explained h0 tr id m) ->
  forall id m, heap sv' !! id = Some m -> explained h0 (tr ++ ev) id m.
Proof.
  intros He Hlen Htr Hex id m.
  assert (Hput : forall id2 m2 ev, (forall x, heap sv !! id2 = Some x -> explained h0 (tr ++ ev) id2 m2) ->
            Forall (fun e => about e = None \/ about e = Some id2) ev ->
            <[id2 := m2]> (heap sv) !! id = Some m -> explained h0 (tr ++ ev) id m).
  { intros id2 m2 ev2 H2 Hev Hm. apply list_lookup_insert_Some in Hm as [(<- & <- & Hlt)|[Hne Hm]].
    - destruct (lookup_lt_is_Some_2 _ _ Hlt) as [x Hx]. by eapply H2.
    - apply explained_same; [|by apply Hex]. eapply Forall_impl; [|exact Hev]. intros e He2. cbv beta in *. destruct He2; congruence. }
  destruct He as [ev Hq|st ev Hq|id2 m2 e Hm _ _|id2 m2 m' r todo Hm -> Hrec
    |id2 bk b m2 m' mt es Hm -> Hbk Ht Hs|sl r todo -> Hsl|id2 m2 tb Hfr Hm Hnone Hnew Hold|id2 m2 b Hpe Hm Hbk];
    cbn [set_stats set_heap set_table set_backends heap].
  - intros Hm. apply explained_same; [|by apply Hex]. destruct ev as [|[] [|]]; try done; by repeat constructor.
  - intros Hm. apply explained_same; [|by apply Hex]. destruct ev as [|[] [|]]; try done; by repeat constructor.
  - apply Hput; [|done]. intros x Hx. apply explained_keep; [done|by apply Hex].
  - apply Hput; [|by repeat constructor; right]. intros x Hx. eapply explained_record; [done|by apply Hex].
  - apply Hput; [|by repeat constructor; right]. intros x Hx. eapply explained_sample; [done|done|by apply Hex].
  - rewrite app_nil_r. intros Hm. apply lookup_app_Some in Hm as [Hm|[Hge Hm]]; [by apply Hex|].
    apply list_lookup_singleton_Some in Hm as [Hid <-].
    exists (new_metric (r_key r) (r_type r)). unfold birth. rewrite lookup_ge_None_2 by lia.
    destruct (replay_untouched id tr) with (m := new_metric (r_key r) (r_type r)) as [E1 ->]; [|done].
    eapply Forall_impl; [|exact Htr]. intros e He Hid2. specialize (He id Hid2). lia.
  - intros Hm2. apply explained_same; [|by apply Hex]. by repeat constructor.
  - intros Hm2. apply explained_same; [|by apply Hex]. constructor.
Qed.

(** ** What the events of a step tell *)

Definition created (tr : list event) : list (nat * list Z) :=
  omap (fun ev => match ev with Created id k _ => Some (id, k) | _ => None end) tr.

Definition counted (tr : list event) : list nat :=
  omap (fun ev => match ev with Counted id => Some id | _ => None end) tr.

Lemma step_handled i s th s' th' ev :
  thread_step i s th = Next (s', th', ev) ->
  handled i ev ++ unhandled th' = unhandled th /\ forall j, j <> i -> handled j ev = [].
Proof.
  intros E. destruct th as [pc [|r todo]|bk pc|pc]; [done| | |];
    destruct pc; step_cases E; cbn [handled omap list_omap unhandled]; rewrite ?decide_True by done;
    (split; [done|]); intros j Hj; rewrite ?decide_False by done; done.
Qed.

Lemma step_dropped i s th s' th' ev j r :
  thread_ok (sh_sv s) th -> thread_step i s th = Next (s', th', ev) -> Dropped j r ∈ ev ->
  at_capacity (sh_sv s) = true.
Proof.
  intros Hok E. destruct th as [pc [|r0 todo]|bk pc|pc]; [done| | |]; destruct pc; step_cases E;
    rewrite ?elem_of_cons, ?elem_of_nil; intros Hin; repeat destruct Hin as [Hin|Hin]; try done.
  destruct Hok as [Hr Hok]. apply list.Forall_cons in Hr as [(Hk & _) _]. destruct Hok as [id Hid].
  rewrite find_fits in * by done. congruence.
Qed.

Lemma step_unique i s th s' th' ev :
  thread_step i s th = Next (s', th', ev) ->
  live (internal_stats (sh_sv s')) unique_keys =
    match counted ev with
    | [] => live (internal_stats (sh_sv s)) unique_keys
    | _ => u32 (live (internal_stats (sh_sv s)) unique_keys + 1)
    end /\
  (counted ev = [] \/ exists id, counted ev = [id] /\ own th = Some id /\ own th' = None).
Proof.
  intros E. destruct th as [pc [|r0 todo]|bk pc|pc]; [done| | |]; destruct pc; step_cases E;
    try (split; [done|by left]).
  - split; [|by left]. cbn [with_sv sh_sv]. match goal with H : alloc_metric _ _ _ = _ |- _ => rewrite (alloc_metric_stats _ _ _ _ _ _ H) end. done.
  - split; [done|]. right. by eexists.
  - split; [|by left]. match goal with H : take_stat _ ?f = _ |- _ => unfold take_stat in H; injection H as <- <-; by destruct f end.
Qed.

(** A worker owns what it has created until it has counted it. *)
Lemma step_created i s th s' th' ev id k :
  thread_step i s th = Next (s', th', ev) -> (id, k) ∈ created ev -> own th' = Some id.
Proof.
  intros E. destruct th as [pc [|r0 todo]|bk pc|pc]; [done| | |]; destruct pc; step_cases E; try done;
    cbn [created omap list_omap]; rewrite ?elem_of_cons, ?elem_of_nil; intros Hin;
    repeat destruct Hin as [Hin|Hin]; try done. by injection Hin as -> _.
Qed.

Lemma step_kept i s th s' th' ev id :
  base (sh_sv s) -> thread_ok (sh_sv s) th ->
  thread_step i s th = Next (s', th', ev) -> own th = Some id -> listed (sh_sv s) id ->
  own th' = Some id \/ id ∈ counted ev.
Proof.
  intros Hb Hok E Ho Hl. destruct th as [pc [|r0 todo]|bk pc|pc]; [done| | |]; destruct pc; cbn [own] in Ho; try done;
    injection Ho as ->; [by destruct Hok as [_ [_ []]]| | |]; step_cases E; try (by left); right; left.
Qed.

Lemma effect_created i th sv ev sv' :
  effect i th sv ev sv' -> thread_ok sv th ->
  (forall k id, ht_find (table sv') k = Some id <-> ht_find (table sv) k = Some id \/ (id, k) ∈ created ev) /\
  (forall id k, (id, k) ∈ created ev -> ht_find (table sv) k = None /\ ~ listed sv id) /\
  (length (created ev) <= 1)%nat.
Proof.
  intros He Hok. assert (Hsame : created ev = [] -> table sv' = table sv ->
    (forall k id, ht_find (table sv') k = Some id <-> ht_find (table sv) k = Some id \/ (id, k) ∈ created ev) /\
    (forall id k, (id, k) ∈ created ev -> ht_find (table sv) k = None /\ ~ listed sv id) /\
    (length (created ev) <= 1)%nat).
  { intros -> ->. split_and!; [|by intros id k ?%elem_of_nil|simpl; lia]. intros k id. rewrite elem_of_nil. tauto. }
  destruct He as [ev Hq|st ev Hq|id2 m2 e Hm _ _|id2 m2 m' r todo Hm -> Hrec
    |id2 bk b m2 m' mt es Hm -> Hbk Ht Hs|sl r todo -> Hsl|id2 m2 tb Hfr Hm Hnone Hnew Hold|id2 m2 b Hpe Hm Hbk];
    try (by apply Hsame).
  - apply Hsame; [|done]. by destruct ev as [|[] [|]].
  - apply Hsame; [|done]. by destruct ev as [|[] [|]].
  - cbn [created omap list_omap set_table table]. split_and!; [| |simpl; lia].
    + intros k id. rewrite elem_of_cons, elem_of_nil. destruct (decide (k = key m2)) as [->|Hne].
      * rewrite Hnew, Hnone. split; [intros [= <-]; by right; left|intros [?|[?|[]]]; congruence].
      * rewrite Hold by done. split; [by left|intros [?|[?|?]]; [done|congruence|done]].
    + intros id k. rewrite elem_of_cons, elem_of_nil. intros [[= -> ->]|[]]. split; [done|].
      destruct th as [[] [|r todo]| |]; cbn [fresh] in Hfr; try done. injection Hfr as ->. apply Hok.
Qed.

(** ** Runs *)

(** The daemon after start-up: a consistent store, no lock held, every worker
    with messages that the parser hands out, every backend's thread on an
    existing backend. *)
Record started (st : state) : Prop := {
  sd_wf : server_wf (sh_sv (st_shared st));
  sd_init : initialised (sh_sv (st_shared st));
  sd_unique : fits 32 (live (internal_stats (sh_sv (st_shared st))) unique_keys);
  sd_spin id : spin (st_shared st) id = None;
  sd_mutex : write_mutex (st_shared st) = None;
  sd_thr i : match st_thr st i with
             | Worker pc todo => pc = W_start /\ Forall reading_ok todo
             | Sampler bk pc => is_Some (backends (sh_sv (st_shared st)) !! bk) /\ pc = S_turn
             | Timer pc => pc = X_idle
             end;
}.

Lemma started_idle st i : started st -> idle (st_thr st i).
Proof.
  intros Hs. pose proof (sd_thr _ Hs i) as Hi. destruct (st_thr st i) as [pc l|bk pc|pc]; cbn.
  - by destruct Hi as [-> _].
  - by destruct Hi as [_ ->].
  - by rewrite Hi.
Qed.

Lemma idle_nothing th : idle th -> crit th = None /\ loaded th = None /\ own th = None /\ pending th = None /\ ~ expiring th.
Proof. destruct th as [[] ?|? []|[]]; cbn; tauto. Qed.

Lemma base_wf sv : server_wf sv -> initialised sv -> base sv.
Proof. intros [] ?. by split. Qed.

Lemma started_inv st : started st -> inv st.
Proof.
  intros Hs. pose proof (base_wf _ (sd_wf _ Hs) (sd_init _ Hs)) as Hb.
  assert (Hno : forall i, _) by (intros i; exact (idle_nothing _ (started_idle st i Hs))).
  split.
  - done.
  - intros i. pose proof (sd_thr _ Hs i) as Hi. destruct (st_thr st i) as [pc [|r todo]|bk pc|pc]; cbn [thread_ok].
    + apply Hi.
    + by destruct Hi as [-> ?].
    + by destruct Hi as [? ->].
    + by rewrite Hi.
  - intros i id a m Hl. destruct (Hno i) as (_ & E & _). congruence.
  - intros i id. destruct (Hno i) as (-> & _). by rewrite (sd_spin _ Hs).
  - intros i. destruct (Hno i) as (_ & _ & _ & _ & ?). rewrite (sd_mutex _ Hs). by split.
  - intros i j id _ Ho. destruct (Hno i) as (_ & _ & E & _). congruence.
  - intros k id Hk. left. by apply (sv_registered _ (sd_wf _ Hs)).
Qed.

(** What holds of a state and of the events that led to it. *)
Record traced (st0 : state) (tr : list event) (st : state) : Prop := {
  td_inv : inv st;
  td_len : (length (heap (sh_sv (st_shared st0))) <= length (heap (sh_sv (st_shared st))))%nat;
  td_about : Forall (fun ev => forall id, about ev = Some id -> (id < length (heap (sh_sv (st_shared st))))%nat) tr;
  td_expl id m : heap (sh_sv (st_shared st)) !! id = Some m ->
    explained (heap (sh_sv (st_shared st0))) tr id m;
  td_rec i id r : Recorded i id r ∈ tr -> ht_find (table (sh_sv (st_shared st))) (r_key r) = Some id;
  td_work i : handled i tr ++ unhandled (st_thr st i) = unhandled (st_thr st0 i);
  td_cap : at_capacity (sh_sv (st_shared st)) = at_capacity (sh_sv (st_shared st0));
  td_drop i r : Dropped i r ∈ tr -> at_capacity (sh_sv (st_shared st0)) = true;
}.

Lemma effect_about i th sv ev sv' :
  effect i th sv ev sv' ->
  Forall (fun ev => forall id, about ev = Some id -> (id < length (heap sv))%nat) ev /\
  (length (heap sv) <= length (heap sv'))%nat.
Proof.
  assert (Hone : forall id m ev, heap sv !! id = Some m -> about ev = Some id ->
            Forall (fun ev => forall id, about ev = Some id -> (id < length (heap sv))%nat) [ev]).
  { intros id m e Hm He. constructor; [|constructor]. intros id2 E. apply lookup_lt_Some in Hm.
    assert (id2 = id) as -> by congruence. done. }
  intros He. destruct He as [ev Hq|st ev Hq|id2 m2 e Hm _ _|id2 m2 m' r todo Hm -> Hrec
    |id2 bk b m2 m' mt es Hm -> Hbk Ht Hs|sl r todo -> Hsl|id2 m2 tb Hfr Hm Hnone Hnew Hold|id2 m2 b Hpe Hm Hbk];
    cbn [set_stats set_heap set_table set_backends heap]; rewrite ?length_insert, ?length_app;
    (split; [|simpl; lia]); try (by repeat constructor).
  - destruct ev as [|[] [|]]; try done; by repeat constructor.
  - destruct ev as [|[] [|]]; try done; by repeat constructor.
  - by eapply Hone.
  - by eapply Hone.
Qed.

Lemma effect_recorded i th sv ev sv' j id r :
  effect i th sv ev sv' -> thread_ok sv th -> Recorded j id r ∈ ev -> ht_find (table sv) (r_key r) = Some id.
Proof.
  intros He Hok Hin. destruct He as [ev Hq|st ev Hq| |id2 m2 m' r2 todo Hm -> Hrec| | | |];
    try (apply elem_of_cons in Hin as [?|?%elem_of_nil]; done); try (by apply elem_of_nil in Hin).
  - destruct ev as [|[] [|]]; try done; [by apply elem_of_nil in Hin|..]; by apply list_elem_of_singleton in Hin.
  - destruct ev as [|[] [|]]; try done; [by apply elem_of_nil in Hin|..]; by apply list_elem_of_singleton in Hin.
  - apply list_elem_of_singleton in Hin as [= -> -> ->]. by destruct Hok as [_ [? _]].
Qed.

Lemma handled_app i tr1 tr2 : handled i (tr1 ++ tr2) = handled i tr1 ++ handled i tr2.
Proof. apply omap_app. Qed.

Lemma traced_step st0 tr st ev st' : traced st0 tr st -> step st ev st' -> traced st0 (tr ++ ev) st'.
Proof.
  intros [Hinv Hlen Hab Hex Hrec Hwork Hcap Hdrop] Hstep. pose proof (inv_step _ _ _ Hinv Hstep) as Hinv'.
  destruct Hstep as [i s' th' ev' E]. cbn [st_shared st_thr] in *. pose proof Hinv as [Hb Hthr Hload _ _ _ _].
  pose proof (thread_step_ok i _ _ Hb (Hthr i) (Hload i)) as Hs. rewrite E in Hs. destruct Hs as [He _].
  pose proof (moved_effect _ _ _ _ _ Hb He) as Hm. destruct (effect_about _ _ _ _ _ He) as [Hab2 Hlen2].
  split; cbn [st_shared st_thr].
  - done.
  - lia.
  - apply Forall_app. split.
    + eapply Forall_impl; [|exact Hab]. intros e Hab3 id Hid. specialize (Hab3 id Hid). lia.
    + eapply Forall_impl; [|exact Hab2]. intros e Hab3 id Hid. specialize (Hab3 id Hid). lia.
  - by eapply explained_effect.
  - intros j id r [Hin|Hin]%elem_of_app; eapply mv_table; [done|by eapply Hrec|done|].
    by eapply effect_recorded.
  - intros j. destruct (step_handled _ _ _ _ _ _ E) as [Hh Hj]. rewrite handled_app.
    destruct (decide (j = i)) as [->|Hne].
    + rewrite set_thread_eq, <- app_assoc, Hh. apply Hwork.
    + rewrite set_thread_ne, Hj, app_nil_r by done. apply Hwork.
  - by rewrite (mv_capacity _ _ _ Hm).
  - intros j r [Hin|Hin]%elem_of_app; [by eapply Hdrop|]. rewrite <- Hcap. by eapply step_dropped.
Qed.

Lemma traced_run st0 tr st : started st0 -> run st0 tr st -> traced st0 tr st.
Proof.
  intros Hs. induction 1 as [|tr st ev st' _ IH Hstep]; [|by eapply traced_step].
  split; try done; try lia; try (by intros ? ? ?%elem_of_nil).
  - by apply started_inv.
  - intros id m Hm. exists m. unfold birth. rewrite Hm. split; [done|]. by destruct m.
  - by intros ? ? ? ?%elem_of_nil.
Qed.

(** The keys that appear in the table are those of the events, each is
    created once, and counted once by the worker that created it. *)
Record grown (st0 : state) (tr : list event) (st : state) : Prop := {
  gr_inv : inv st;
  gr_table k id :
    ht_find (table (sh_sv (st_shared st))) k = Some id <->
    ht_find (table (sh_sv (st_shared st0))) k = Some id \/ (id, k) ∈ created tr;
  gr_new id k : (id, k) ∈ created tr -> ht_find (table (sh_sv (st_shared st0))) k = None;
  gr_keys : NoDup (created tr).*2;
  gr_ids : NoDup (created tr).*1;
  gr_once : NoDup (counted tr);
  gr_counted id : id ∈ counted tr -> id ∈ (created tr).*1;
  gr_owed id : id ∈ (created tr).*1 -> id ∈ counted tr \/ exists i, own (st_thr st i) = Some id;
  gr_own i id :
    own (st_thr st i) = Some id ->
    id ∉ counted tr /\ (listed (sh_sv (st_shared st)) id -> id ∈ (created tr).*1);
  gr_unique :
    live (internal_stats (sh_sv (st_shared st))) unique_keys =
      u32 (live (internal_stats (sh_sv (st_shared st0))) unique_keys + Z.of_nat (length (counted tr)));
}.

Lemma created_app tr1 tr2 : created (tr1 ++ tr2) = created tr1 ++ created tr2.
Proof. apply omap_app. Qed.

Lemma counted_app tr1 tr2 : counted (tr1 ++ tr2) = counted tr1 ++ counted tr2.
Proof. apply omap_app. Qed.

Lemma grown_listed st0 tr st id : grown st0 tr st -> id ∈ (created tr).*1 -> listed (sh_sv (st_shared st)) id.
Proof. intros Hg ([id2 k] & -> & Hin)%list_elem_of_fmap. exists k. apply (gr_table _ _ _ Hg). by right. Qed.

(** The part of the step that is about the table. *)
Lemma grown_keys st0 tr st i s' th' ev :
  grown st0 tr st -> thread_step i (st_shared st) (st_thr st i) = Next (s', th', ev) ->
  (forall k id, ht_find (table (sh_sv s')) k = Some id <->
     ht_find (table (sh_sv (st_shared st0))) k = Some id \/ (id, k) ∈ created (tr ++ ev)) /\
  (forall id k, (id, k) ∈ created (tr ++ ev) -> ht_find (table (sh_sv (st_shared st0))) k = None) /\
  NoDup (created (tr ++ ev)).*2 /\ NoDup (created (tr ++ ev)).*1.
Proof.
  intros Hg E. pose proof (gr_inv _ _ _ Hg) as [Hb Hthr Hload _ _ _ _].
  pose proof (thread_step_ok i _ _ Hb (Hthr i) (Hload i)) as Hs. rewrite E in Hs. destruct Hs as [He _].
  destruct (effect_created _ _ _ _ _ He (Hthr i)) as (Htab & Hnew & Hlen).
  rewrite created_app, !fmap_app. split_and!.
  - intros k id. rewrite Htab, (gr_table _ _ _ Hg), elem_of_app. tauto.
  - intros id k [Hin|Hin]%elem_of_app; [by eapply gr_new|]. destruct (Hnew _ _ Hin) as [Hn _].
    destruct (ht_find (table (sh_sv (st_shared st0))) k) as [id2|] eqn:E0; [|done].
    assert (ht_find (table (sh_sv (st_shared st))) k = Some id2) by (apply (gr_table _ _ _ Hg); by left). congruence.
  - apply list.NoDup_app. split_and!; [apply Hg| |].
    + intros k ([id k2] & -> & Hin)%list_elem_of_fmap ([id2 k3] & E3 & Hin2)%list_elem_of_fmap. cbn [snd] in *. subst k3.
      destruct (Hnew _ _ Hin2) as [Hn _].
      assert (ht_find (table (sh_sv (st_shared st))) k2 = Some id) by (apply (gr_table _ _ _ Hg); by right). congruence.
    + destruct (created ev) as [|x [|y l]]; cbn in *; [apply base.NoDup_nil_2|apply NoDup_singleton|lia].
  - apply list.NoDup_app. split_and!; [apply Hg| |].
    + intros id Hid ([id2 k3] & -> & Hin2)%list_elem_of_fmap. cbn [fst] in *.
      destruct (Hnew _ _ Hin2) as [_ Hn]. by apply Hn, (grown_listed st0 tr).
    + destruct (created ev) as [|x [|y l]]; cbn in *; [apply base.NoDup_nil_2|apply NoDup_singleton|lia].
Qed.

Lemma grown_lt st0 tr st id :
  grown st0 tr st -> id ∈ (created tr).*1 -> (id < length (heap (sh_sv (st_shared st))))%nat.
Proof.
  intros Hg Hin. destruct (listed_heap _ _ (in_base _ (gr_inv _ _ _ Hg)) (grown_listed _ _ _ _ Hg Hin)) as [m Hm].
  by eapply lookup_lt_Some.
Qed.

(** The part that is about what the workers own. *)
Lemma grown_own st0 tr st i s' th' ev :
  grown st0 tr st -> thread_step i (st_shared st) (st_thr st i) = Next (s', th', ev) ->
  forall j id, own (set_thread (st_thr st) i th' j) = Some id ->
    id ∉ counted (tr ++ ev) /\ (listed (sh_sv s') id -> id ∈ (created (tr ++ ev)).*1).
Proof.
  intros Hg E j id. destruct (grown_keys _ _ _ _ _ _ _ Hg E) as (Htab & _). destruct (step_unique _ _ _ _ _ _ E) as [_ Hc].
  pose proof Hg as [[Hb Hthr _ _ _ Hown _] Htab0 _ _ _ _ Hco _ Hgo _].
  assert (Hl : listed (sh_sv s') id -> listed (sh_sv (st_shared st)) id \/ id ∈ (created (tr ++ ev)).*1).
  { intros [k Hkk]. apply Htab in Hkk as [Ho|Hin]; [left; exists k; apply Htab0; by left|right].
    apply list_elem_of_fmap. by exists (id, k). }
  assert (Hold : forall jj, own (st_thr st jj) = Some id -> listed (sh_sv s') id -> id ∈ (created (tr ++ ev)).*1).
  { intros jj Hjj Hli. destruct (Hl Hli) as [?|?]; [|done]. rewrite created_app, fmap_app. apply elem_of_app. left.
    by apply (proj2 (Hgo _ _ Hjj)). }
  rewrite counted_app, not_elem_of_app. destruct (decide (j = i)) as [->|Hne].
  - rewrite set_thread_eq. intros Ho. assert (Hne : id ∉ counted ev).
    { destruct Hc as [->|(id2 & -> & _ & ?)]; [by intros ?%elem_of_nil|congruence]. }
    destruct (step_own _ _ _ _ _ _ _ E Ho) as [Ho1| ->].
    + split; [split; [apply (Hgo _ _ Ho1)|done]|by eapply Hold].
    + split; [split; [|done]|].
      * intros Hin. pose proof (grown_lt _ _ _ _ Hg (Hco _ Hin)). lia.
      * intros Hli. destruct (Hl Hli) as [Hli0|?]; [|done].
        destruct (listed_heap _ _ Hb Hli0) as [m Hm%lookup_lt_Some]. lia.
  - rewrite set_thread_ne by done. intros Ho. split; [split; [apply (Hgo _ _ Ho)|]|by eapply Hold].
    destruct Hc as [->|(id2 & -> & Ho2 & _)]; [by intros ?%elem_of_nil|].
    intros ->%list_elem_of_singleton. by apply (Hown j i id2).
Qed.

Lemma grown_step st0 tr st ev st' : grown st0 tr st -> step st ev st' -> grown st0 (tr ++ ev) st'.
Proof.
  intros Hg Hstep. pose proof (inv_step _ _ _ (gr_inv _ _ _ Hg) Hstep) as Hinv'.
  destruct Hstep as [i s' th' ev' E]. cbn [st_shared st_thr] in *.
  destruct (grown_keys _ _ _ _ _ _ _ Hg E) as (Htab & Hnew & Hk & Hid).
  destruct (step_unique _ _ _ _ _ _ E) as [Hu Hc].
  pose proof Hg as [[Hb Hthr _ _ _ _ _] _ _ _ _ Hon Hco Howe Hgo Huniq].
  split; cbn [st_shared st_thr]; try done.
  - rewrite counted_app. destruct Hc as [->|(id & -> & Ho & _)]; [by rewrite app_nil_r|].
    apply list.NoDup_app. split_and!; [done| |apply NoDup_singleton].
    intros x Hx ->%list_elem_of_singleton. by apply (proj1 (Hgo _ _ Ho)).
  - intros id. rewrite counted_app, created_app, fmap_app, !elem_of_app. intros [Hin|Hin]; left; [by auto|].
    destruct Hc as [Hc|(id2 & Hc & Ho & Ho')]; rewrite Hc in Hin; [by apply elem_of_nil in Hin|].
    apply list_elem_of_singleton in Hin as ->. apply (proj2 (Hgo _ _ Ho)).
    specialize (Hthr i). destruct (st_thr st i) as [[] [|r todo]| |]; cbn [own] in Ho; try done;
      injection Ho as ->; cbn [thread_ok worker_ok] in Hthr; try done; try (by eexists; apply Hthr).
    exfalso. cbn [thread_step worker_step] in E. step_cases E; done.
  - intros id. rewrite created_app, fmap_app, counted_app, elem_of_app. intros [Hin|Hin].
    + destruct (Howe id Hin) as [?|[j Hj]]; [left; apply elem_of_app; by left|].
      destruct (decide (j = i)) as [->|Hne]; [|right; exists j; by rewrite set_thread_ne].
      destruct (step_kept _ _ _ _ _ _ _ Hb (Hthr i) E Hj) as [?|?];
        [by eapply grown_listed|right; exists i; by rewrite set_thread_eq|left; apply elem_of_app; by right].
    + apply list_elem_of_fmap in Hin as ([id2 k] & -> & Hin). right. exists i. rewrite set_thread_eq.
      by eapply step_created.
  - by eapply grown_own.
  - rewrite counted_app, length_app, Hu, Huniq. destruct Hc as [->|(id & -> & _)]; cbn [length]; [f_equal; lia|].
    rewrite wrap_add_l. f_equal. lia.
Qed.

Lemma grown_run st0 tr st : started st0 -> run st0 tr st -> grown st0 tr st.
Proof.
  intros Hs. induction 1 as [|tr st ev st' _ IH Hstep]; [|by eapply grown_step].
  assert (Hno : forall i id, own (st_thr st0 i) <> Some id).
  { intros i id. destruct (idle_nothing _ (started_idle st0 i Hs)) as (_ & _ & E & _). congruence. }
  split; cbn; try (by intros ? ?%elem_of_nil); try apply base.NoDup_nil_2.
  - by apply started_inv.
  - intros k id. rewrite elem_of_nil. tauto.
  - by intros ? ? ?%elem_of_nil.
  - intros i id Ho. by destruct (Hno i id).
  - rewrite Z.add_0_r, wrap_small; [done|]. apply Hs.
Qed.

(** ** The theorems *)

(** C2: the threads are serialisable.  However the steps of any number of
    workers, backend threads and the expiry interleave, the data of every
    metric are at every moment those of a serial execution, one operation after
    the other, of the readings and samplings that took effect, and every
    sampling reported what the serial execution reports.  A reading is recorded
    in the metric that the table has for its key; every worker gets through its
    messages in order, each recorded once, and unless the server is at capacity
    none is dropped. *)
Theorem threads_serializable (st0 st : state) (tr : list event)
  (Hstart : started st0) (Hrun : run st0 tr st) :
  (forall id m, heap (sh_sv (st_shared st)) !! id = Some m ->
     exists m1, replay id (birth (heap (sh_sv (st_shared st0))) id m) tr = Some (m1, reports id tr) /\
       m = set_expire m1 (expire m)) /\
  (forall i id r, Recorded i id r ∈ tr -> ht_find (table (sh_sv (st_shared st))) (r_key r) = Some id) /\
  (forall i, handled i tr ++ unhandled (st_thr st i) = unhandled (st_thr st0 i)) /\
  (forall i r, Dropped i r ∈ tr -> at_capacity (sh_sv (st_shared st0)) = true).
Proof. destruct (traced_run _ _ _ Hstart Hrun) as [_ _ _ Hex Hrec Hwork _ Hdrop]. done. Qed.

(** C6: racing workers create a metric once.  Whenever all threads are between
    two calls, the store is consistent again: every metric of the table is on
    the queue of its backend exactly once.  The table holds what it held before
    and the keys created in between, each created once although any number of
    workers may have looked it up and missed it at the same time, and the
    statistics count each of them once. *)
Theorem threads_create_once (st0 st : state) (tr : list event)
  (Hstart : started st0) (Hrun : run st0 tr st) (Hidle : forall i, idle (st_thr st i)) :
  server_wf (sh_sv (st_shared st)) /\ initialised (sh_sv (st_shared st)) /\
  (forall k id, ht_find (table (sh_sv (st_shared st))) k = Some id <->
     ht_find (table (sh_sv (st_shared st0))) k = Some id \/ (id, k) ∈ created tr) /\
  NoDup (created tr).*2 /\
  (forall id k, (id, k) ∈ created tr -> ht_find (table (sh_sv (st_shared st0))) k = None) /\
  live (internal_stats (sh_sv (st_shared st))) unique_keys =
    u32 (live (internal_stats (sh_sv (st_shared st0))) unique_keys + Z.of_nat (length (created tr))).
Proof.
  destruct (grown_run _ _ _ Hstart Hrun) as [Hinv Htab Hnew Hk Hids Hon Hco Howe _ Hu].
  pose proof Hinv as [[Hsl Ha H8 Hh Hi Hf Hq Ho] _ _ _ _ _ Hreg].
  assert (Hno : forall i, own (st_thr st i) = None /\ pending (st_thr st i) = None)
    by (intros i; destruct (idle_nothing _ (Hidle i)) as (_ & _ & ? & ? & _); done).
  split_and!; try done.
  - split; try done. intros k id Hkk. destruct (Hreg k id Hkk) as [?|[i Hp]]; [done|].
    destruct (Hno i) as [_ E]. congruence.
  - rewrite Hu. do 3 f_equal. rewrite <- (length_fmap fst (created tr)). apply Permutation_length, NoDup_Permutation; [done|done|].
    intros id. split; [by apply Hco|]. intros Hid. destruct (Howe id Hid) as [?|[i Hi2]]; [done|].
    destruct (Hno i) as [E _]. congruence.
Qed.









(** ** Conservation *)

(** The readings recorded in metric [id], and all that the workers handled. *)
Definition recorded_on (id : nat) (tr : list event) : list reading :=
  omap (fun ev => match ev with
                  | Recorded _ id' r => if decide (id' = id) then Some r else None
                  | _ => None
                  end) tr.

Definition all_handled (tr : list event) : list reading :=
  omap (fun ev => match ev with Recorded _ _ r | Dropped _ r => Some r | _ => None end) tr.

Lemma concat_one {A} (f g : nat -> list A) (x : A) i l :
  i ∈ l -> NoDup l -> g i = x :: f i -> (forall j, j <> i -> g j = f j) ->
  mjoin (g <$> l) ≡ₚ x :: mjoin (f <$> l).
Proof.
  intros Hi Hnd Hg Hj. induction l as [|j l IH]; [by apply elem_of_nil in Hi|].
  apply list.NoDup_cons in Hnd as [Hni Hnd]. cbn. destruct (decide (j = i)) as [->|Hne].
  - rewrite Hg. cbn [app]. do 2 f_equiv.
    assert (g <$> l = f <$> l) as ->; [|done]. apply list_fmap_ext. intros y z Hz. apply Hj. intros ->.
    by apply Hni; eapply list_elem_of_lookup_2.
  - apply elem_of_cons in Hi as [->|Hi]; [done|]. rewrite Hj by done. rewrite (IH Hi Hnd).
    by rewrite Permutation_middle.
Qed.

Lemma handled_split n tr :
  (forall i, (n <= i)%nat -> handled i tr = []) ->
  all_handled tr ≡ₚ mjoin ((fun i => handled i tr) <$> seq 0 n).
Proof.
  assert (Hone : forall j r tr', (forall i, (n <= i)%nat -> (if decide (j = i) then r :: handled i tr' else handled i tr') = []) ->
            ((forall i, (n <= i)%nat -> handled i tr' = []) -> all_handled tr' ≡ₚ mjoin ((fun i => handled i tr') <$> seq 0 n)) ->
            r :: all_handled tr' ≡ₚ mjoin ((fun i => if decide (j = i) then r :: handled i tr' else handled i tr') <$> seq 0 n)).
  { intros j r tr' Hn IH. assert (Hjn : (j < n)%nat).
    { destruct (decide (j < n)%nat); [done|]. specialize (Hn j ltac:(lia)). by rewrite decide_True in Hn. }
    rewrite (concat_one (fun i => handled i tr') _ r j).
    - rewrite IH; [done|]. intros i Hi. specialize (Hn i Hi). by case_decide.
    - apply elem_of_seq. lia.
    - apply NoDup_seq.
    - by rewrite decide_True.
    - intros i Hi. by rewrite decide_False. }
  induction tr as [|ev tr IH]; intros Hn.
  - clear. generalize (seq 0 n). intros l. by induction l.
  - destruct ev; cbn [all_handled handled omap list_omap] in *; try (by apply IH).
    + rewrite (Hone i r tr); [|intros j Hj; specialize (Hn j Hj); by case_decide|done].
      apply reflexive_eq. f_equal. apply list_fmap_ext. intros ? j _. by case_decide.
    + rewrite (Hone i r tr); [|intros j Hj; specialize (Hn j Hj); by case_decide|done].
      apply reflexive_eq. f_equal. apply list_fmap_ext. intros ? j _. by case_decide.
Qed.

(** Integer messages to meters: key, value, sample frequency. *)
Definition int_msg (x : list Z * Z * Z) : reading :=
  let '(k, v, f) := x in
  {| r_key := k; r_type := BRUBECK_MT_METER; r_value := F64 v; r_freq := F64 f; r_mods := 0 |}.

Definition amounts (k : list Z) (l : list (list Z * Z * Z)) : list (Z * Z) :=
  omap (fun '(k', v, f) => if decide (k' = k) then Some (v, f) else None) l.

Lemma replay_meter id tr : forall m m' a l es,
  type m = BRUBECK_MT_METER -> as_ m = As_meter (F64 a) ->
  ((fun r => (r_value r, r_freq r)) <$> recorded_on id tr) = (fun x : Z * Z => (F64 x.1, F64 x.2)) <$> l ->
  freqs_ok l -> Z.abs a + magnitude l < 2 ^ 53 ->
  replay id m tr = Some (m', es) ->
  exists xs z, es = (fun x => [(key m, F64 x)]) <$> xs /\ as_ m' = As_meter (F64 z) /\
    foldr Z.add 0 xs + z = a + total l.
Proof.
  induction tr as [|ev tr IH]; intros m m' a l es Ht Ha Hl Hok Hmag; cbn [replay].
  - intros [= <- <-]. destruct l; [|done]. exists [], a. split_and!; [done|done|simpl; lia].
  - destruct ev as [i id' r|i id' freq es1| | | |]; cbn [recorded_on omap list_omap] in Hl; try (by eapply IH).
    + case_decide as Hd; [|by eapply IH]. destruct l as [|[v f] l]; [done|]. cbn in Hl. injection Hl as Ev Ef Hl.
      inversion_clear Hok as [|?? Hf Hok']. cbn [fst snd magnitude foldr scaled] in *.
      fold (magnitude l) in Hmag. pose proof (magnitude_nonneg l).
      intros (m1 & Hrec & Hrun)%bind_Some. unfold brubeck_metric_record in Hrec. rewrite Ht in Hrec.
      unfold meter__record in Hrec. unfold scaled in Hmag. cbn [fst snd] in Hmag.
      rewrite Ha, Ev, Ef, F64_mul, F64_add in Hrec by lia. injection Hrec as <-.
      destruct (IH (set_as m (As_meter (F64 (a + v * f)))) _ (a + v * f) l es Ht eq_refl Hl Hok' ltac:(lia) Hrun) as (xs & z & Hx & Hz & Hsum).
      exists xs, z. split_and!; [done|done|]. cbn [total foldr]. fold (total l). unfold scaled. cbn [fst snd]. lia.
    + case_decide as Hd; [|by eapply IH]. intros ([[s1 m1] es2] & Hs & Hrun)%bind_Some.
      apply bind_Some in Hrun as ([m2 ess] & Hrun & [= <- <-]).
      unfold brubeck_metric_sample, meter__sample in Hs. rewrite Ht, Ha in Hs. cbn in Hs. injection Hs as _ <- <-.
      destruct (IH (set_as m (As_meter (S754_zero false))) _ 0 l ess Ht eq_refl Hl Hok ltac:(lia) Hrun) as (xs & z & Hx & Hz & Hsum).
      exists (a :: xs), z. split_and!; [|done|simpl; lia]. rewrite Hx. done.
Qed.

Lemma totals_perm l1 l2 : l1 ≡ₚ l2 -> total l1 = total l2 /\ magnitude l1 = magnitude l2.
Proof. induction 1 as [|x l1 l2 _ [? ?]|x y l|l1 l2 l3 _ [? ?] _ [? ?]]; simpl; [done|lia|lia|]. split; congruence. Qed.

Lemma recorded_filter id k tr :
  (forall i id' r, Recorded i id' r ∈ tr -> id' = id <-> r_key r = k) ->
  (forall i r, Dropped i r ∉ tr) ->
  recorded_on id tr = filter (fun r => r_key r = k) (all_handled tr).
Proof.
  induction tr as [|ev tr IH]; intros Hrec Hdrop; [done|].
  assert (IH' : recorded_on id tr = filter (fun r => r_key r = k) (all_handled tr)).
  { apply IH; [intros i id' r Hin|intros i r Hin]; [apply (Hrec i); by right|apply (Hdrop i r); by right]. }
  destruct ev; cbn [recorded_on all_handled omap list_omap]; try apply IH'.
  - rewrite filter_cons. fold (all_handled tr). fold (recorded_on id tr). rewrite <- IH'.
    pose proof (Hrec _ _ _ (list_elem_of_here _ _)) as Hr. do 2 case_decide; tauto.
  - destruct (Hdrop i r). left.
Qed.

Lemma amounts_filter (script : nat -> list (list Z * Z * Z)) k ws :
  (fun r => (r_value r, r_freq r)) <$>
     filter (fun r => r_key r = k) (mjoin ((fun i => int_msg <$> script i) <$> ws)) =
  (fun x : Z * Z => (F64 x.1, F64 x.2)) <$> mjoin ((fun i => amounts k (script i)) <$> ws).
Proof.
  induction ws as [|i ws IH]; [done|]. cbn [fmap list_fmap mjoin list_join]. rewrite list.filter_app, !fmap_app.
  f_equal; [clear IH|exact IH]. induction (script i) as [|[[k' v] f] l IH]; [done|].
  cbn [fmap list_fmap int_msg]. rewrite filter_cons. cbn [r_key amounts omap list_omap].
  case_decide; cbn [fmap list_fmap r_value r_freq fst snd]; [f_equal|]; exact IH.
Qed.

(** C10: no reading is lost and none counted twice.  Let the workers have integer
    messages for meters, let them all get through, and let the backend sample
    the meter of a key at any moments, any number of times.  The values
    reported and what is left in the meter add up to the readings of that key,
    each scaled by its sample frequency, of all the workers. *)
Theorem meter_conserved (n : nat) (script : nat -> list (list Z * Z * Z)) (st0 st : state)
  (tr : list event) (k : list Z) (id : nat) (m : brubeck_metric)
  (Hstart : started st0) (Hrun : run st0 tr st)
  (Hscript : forall i, unhandled (st_thr st0 i) = int_msg <$> script i)
  (Hworkers : forall i, (n <= i)%nat -> script i = [])
  (Hcap : at_capacity (sh_sv (st_shared st0)) = false)
  (Hdone : forall i, unhandled (st_thr st i) = [])
  (Hfind : ht_find (table (sh_sv (st_shared st))) k = Some id)
  (Hm : heap (sh_sv (st_shared st)) !! id = Some m) (Htype : type m = BRUBECK_MT_METER)
  (Hzero : birth (heap (sh_sv (st_shared st0))) id m = new_metric k BRUBECK_MT_METER)
  (Hfreq : freqs_ok (mjoin ((fun i => amounts k (script i)) <$> seq 0 n)))
  (Hmag : magnitude (mjoin ((fun i => amounts k (script i)) <$> seq 0 n)) < 2 ^ 53) :
  exists xs z, reports id tr = (fun x => [(k, F64 x)]) <$> xs /\ as_ m = As_meter (F64 z) /\
    foldr Z.add 0 xs + z = total (mjoin ((fun i => amounts k (script i)) <$> seq 0 n)).
Proof.
  destruct (traced_run _ _ _ Hstart Hrun) as [[Hb _ _ _ _ _ _] _ _ Hex Hrec Hwork _ Hdrop].
  set (L := mjoin ((fun i => amounts k (script i)) <$> seq 0 n)) in *.
  assert (Hh : forall i, handled i tr = int_msg <$> script i).
  { intros i. rewrite <- Hscript, <- Hwork, Hdone. by rewrite app_nil_r. }
  assert (Hpairs : (fun r => (r_value r, r_freq r)) <$> recorded_on id tr ≡ₚ (fun x : Z * Z => (F64 x.1, F64 x.2)) <$> L).
  { unfold L. rewrite (recorded_filter id k tr).
    - rewrite (handled_split n tr) by (intros i Hi; by rewrite Hh, Hworkers).
      rewrite <- (amounts_filter script k (seq 0 n)). apply reflexive_eq. do 3 f_equal. apply list_fmap_ext.
      intros ? i _. apply Hh.
    - intros i id' r Hin. specialize (Hrec _ _ _ Hin). split; [intros ->|intros <-; congruence].
      destruct (ba_find _ Hb _ _ Hrec) as (m1 & ? & ?), (ba_find _ Hb _ _ Hfind) as (m2 & ? & ?). congruence.
    - intros i r Hin. specialize (Hdrop _ _ Hin). congruence. }
  destruct (Permutation_map_inv _ _ Hpairs) as (L' & EL & HL). destruct (totals_perm _ _ HL) as [Et Em].
  destruct (Hex id m Hm) as (m1 & Hrep & E1). rewrite Hzero in Hrep.
  destruct (replay_meter id tr (new_metric k BRUBECK_MT_METER) m1 0 L' (reports id tr))
    as (xs & z & Hx & Hz & Hsum); try done.
  - unfold freqs_ok in *. by rewrite <- HL.
  - rewrite <- Em. lia.
  - exists xs, z. split_and!; [done|by rewrite E1|]. rewrite Et. lia.
Qed.

(** ** Schedules *)

(** The run of a schedule: the threads that step, in order. *)
Fixpoint exec (sched : list nat) (st : state) : option (list event * state) :=
  match sched with
  | [] => Some ([], st)
  | i :: sched =>
      match thread_step i (st_shared st) (st_thr st i) with
      | Next (s, th, ev) =>
          '(tr, st') ← exec sched {| st_shared := s; st_thr := set_thread (st_thr st) i th |};
          Some (ev ++ tr, st')
      | _ => None
      end
  end.

Lemma run_trans st0 tr1 st1 tr2 st2 : run st0 tr1 st1 -> run st1 tr2 st2 -> run st0 (tr1 ++ tr2) st2.
Proof.
  intros H1. induction 1 as [|tr st ev st' _ IH Hs]; [by rewrite app_nil_r|].
  rewrite app_assoc. by eapply run_step.
Qed.

Lemma exec_run sched : forall st tr st', exec sched st = Some (tr, st') -> run st tr st'.
Proof.
  induction sched as [|i sched IH]; intros st tr st'; cbn [exec]; [intros [= <- <-]; constructor|].
  destruct (thread_step i (st_shared st) (st_thr st i)) as [[[s th] ev]| |] eqn:E; [|done|done].
  intros ([tr2 st2] & Hrun & [= <- <-])%bind_Some. eapply run_trans; [|by apply IH].
  eapply (run_step _ [] st); [constructor|by constructor].
Qed.

End Threads.

(** ** A run

    Two workers race for the key [hits]: both miss it and allocate a metric, the
    first inserts its own, the second finds that one.  The backend's thread and
    the expiry run in between. *)

Definition demo_script (i : nat) : list (list Z * Z * Z) :=
  match i with
  | 0%nat => [(bytes "hits", 1, 10); (bytes "hits", 2, 1)]
  | 1%nat => [(bytes "hits", 5, 1)]
  | _ => []
  end.

Definition demo_thread (i : nat) : thread :=
  match i with
  | 2%nat => Sampler 2 S_turn
  | 3%nat => Timer X_idle
  | _ => Worker W_start (int_msg <$> demo_script i)
  end.

Definition demo_state : state :=
  {| st_shared := {| sh_sv := demo_server; spin := fun _ => None; write_mutex := None |};
     st_thr := demo_thread |}.

Definition demo_sched : list nat :=
  [0; 1; 0; 1; 0; 1; 0; 1; 0; 1; 1; 0; 0; 3; 1; 1; 0; 2; 1; 1; 2; 2; 3; 2; 2; 2; 0; 0; 0; 0; 3; 3;
   0; 0; 3; 3; 0; 0; 0; 0; 0; 3; 3; 2; 2; 2; 2; 2; 2; 2; 2; 2; 2]%nat.

Definition demo_run : list event * state := default ([], demo_state) (exec 7 demo_sched demo_state).

Lemma demo_exec : exec 7 demo_sched demo_state = Some demo_run.
Proof.
  assert (Hs : bool_decide (is_Some (exec 7 demo_sched demo_state)) = true) by (vm_compute; reflexivity).
  apply bool_decide_eq_true in Hs as [x E]. unfold demo_run. by rewrite E.
Qed.

Lemma demo_runs : run 7 demo_state demo_run.1 demo_run.2.
Proof. apply (exec_run 7 demo_sched). rewrite demo_exec. by destruct demo_run. Qed.

Lemma int_msg_ok k v f : key_fits k -> reading_ok (int_msg (k, v, f)).
Proof. intros Hk. split_and!; [done|apply F64_double|apply F64_double|done]. Qed.

Lemma demo_started : started demo_state.
Proof.
  assert (Hk : key_fits (bytes "hits")) by (apply demo_key_fits; [reflexivity|simpl; lia]).
  split.
  - apply demo_server_wf.
  - apply demo_initialised.
  - vm_compute. split; congruence.
  - done.
  - done.
  - intros [|[|[|[|i]]]]; cbn; try (split; [done|]); try done; try constructor; repeat constructor; by try apply int_msg_ok.
Qed.

Lemma demo_idle i : idle (st_thr demo_run.2 i).
Proof. destruct i as [|[|[|[|i]]]]; vm_compute; exact I. Qed.

Lemma threads_serializable_witness :
  (forall id m, heap (sh_sv (st_shared demo_run.2)) !! id = Some m ->
     exists m1, replay 7 id (birth (heap demo_server) id m) demo_run.1 = Some (m1, reports id demo_run.1) /\
       m = set_expire m1 (expire m)) /\
  (forall i id r, Recorded i id r ∈ demo_run.1 ->
     ht_find (table (sh_sv (st_shared demo_run.2))) (r_key r) = Some id) /\
  (forall i, handled i demo_run.1 ++ unhandled (st_thr demo_run.2 i) = unhandled (demo_thread i)) /\
  (forall i r, Dropped i r ∈ demo_run.1 -> at_capacity demo_server = true).
Proof. exact (threads_serializable 7 demo_state demo_run.2 demo_run.1 demo_started demo_runs). Defined.

Lemma threads_create_once_witness :
  server_wf (sh_sv (st_shared demo_run.2)) /\ initialised (sh_sv (st_shared demo_run.2)) /\
  (forall k id, ht_find (table (sh_sv (st_shared demo_run.2))) k = Some id <->
     ht_find (table demo_server) k = Some id \/ (id, k) ∈ created demo_run.1) /\
  NoDup (created demo_run.1).*2 /\
  (forall id k, (id, k) ∈ created demo_run.1 -> ht_find (table demo_server) k = None) /\
  live (internal_stats (sh_sv (st_shared demo_run.2))) unique_keys =
    u32 (live (internal_stats demo_server) unique_keys + Z.of_nat (length (created demo_run.1))).
Proof. exact (threads_create_once 7 demo_state demo_run.2 demo_run.1 demo_started demo_runs demo_idle). Defined.

(** Two workers missed the key, and it was created once. *)
Example demo_created : created demo_run.1 = [(1%nat, bytes "hits")].
Proof. vm_compute. reflexivity. Qed.




Lemma meter_conserved_witness :
  exists m xs z, heap (sh_sv (st_shared demo_run.2)) !! 1%nat = Some m /\
    reports 1 demo_run.1 = (fun x => [(bytes "hits", F64 x)]) <$> xs /\ as_ m = As_meter (F64 z) /\
    foldr Z.add 0 xs + z = 17.
Proof.
  destruct (heap (sh_sv (st_shared demo_run.2)) !! 1%nat) as [m|] eqn:Hm; [|vm_compute in Hm; congruence].
  assert (Ht : type <$> heap (sh_sv (st_shared demo_run.2)) !! 1%nat = Some BRUBECK_MT_METER) by (vm_compute; reflexivity).
  assert (Hk : key <$> heap (sh_sv (st_shared demo_run.2)) !! 1%nat = Some (bytes "hits")) by (vm_compute; reflexivity).
  rewrite Hm in Ht, Hk. injection Ht as Ht. injection Hk as Hk.
  destruct (meter_conserved 7 2 demo_script demo_state demo_run.2 demo_run.1 (bytes "hits") 1 m demo_started demo_runs)
    as (xs & z & Hx & Hz & Hs).
  - intros [|[|[|[|i]]]]; reflexivity.
  - intros [|[|i]] Hi; [lia|lia|reflexivity].
  - reflexivity.
  - intros [|[|[|[|i]]]]; vm_compute; reflexivity.
  - vm_compute. reflexivity.
  - exact Hm.
  - exact Ht.
  - unfold birth. cbn. rewrite Ht, Hk. reflexivity.
  - repeat constructor.
  - vm_compute. reflexivity.
  - exists m, xs, z. split; [reflexivity|]. split; [exact Hx|]. split; [exact Hz|]. rewrite Hs. reflexivity.
Defined.

(** The metric of the worker that lost the race stays allocated: no table and
    no queue refers to it. *)
Example race_leaks :
  length (heap (sh_sv (st_shared demo_run.2))) = 3%nat /\
  length (ht_entries (table (sh_sv (st_shared demo_run.2)))) = 2%nat.
Proof. vm_compute. split; reflexivity. Qed.

(** The expiry reads and writes [expire] without a lock.  A worker that marks
    the metric active in between is overwritten: in the second pass the metric
    is disabled although a reading has just been recorded in it. *)
Definition late_state : state :=
  {| st_shared := st_shared demo_run.2;
     st_thr := set_thread (st_thr demo_run.2) 1 (Worker W_start [int_msg (bytes "hits", 7, 1)]) |}.

Definition late_sched : list nat :=
  [3; 3; 3; 3; 3; 3; 3; 3; 3; 3; 3; 1; 1; 1; 3; 3; 3; 3; 3; 1; 1; 1; 1]%nat.

Example touch_lost :
  match exec 7 late_sched late_state with
  | Some (tr, st) =>
      tr = [Recorded 1 1 (int_msg (bytes "hits", 7, 1))] /\ idle (st_thr st 3%nat) /\
      expire <$> heap (sh_sv (st_shared st)) !! 1%nat = Some BRUBECK_EXPIRE_DISABLED
  | None => False
  end.
Proof. vm_compute. split_and!; done. Qed.
End Workers.
