(* ===== verification/Startup.v ===== *)
(** * The last step of start-up ([src/internal_sampler.c], [src/server.c])

    [load_config] starts the threads of the backends and samplers; the main
    thread then creates the server's own metric in [brubeck_internal__init]
    while they run.  Its steps are interleaved with theirs ([Workers]): the
    metric is in the table and on a queue before [as.other] is set. *)

From stdpp Require Import gmap sets.
From S2P Require Import Prelude Value Histogram Slab Metric City Internal Statsd Store Workers.
Import Histogram Slab Metric City Internal Store Workers.

Module Startup.

(** Where the main thread is in [brubeck_internal__init] and the
    [brubeck_metric_new] it calls. *)
Inductive init_pc :=
| I_alloc                                   (* new_metric *)
| I_insert (id : nat)                       (* brubeck_hashtable_insert *)
| I_refind                                  (* the insertion failed: brubeck_hashtable_find *)
| I_register (id : nat)                     (* next = self->queue; metric->next = next *)
| I_cas (id : nat) (next : option nat)      (* __sync_bool_compare_and_swap *)
| I_count (id : nat)                        (* brubeck_stats_inc(server, unique_keys) *)
| I_other (id : nat)                        (* internal->as.other = &server->internal_stats *)
| I_freq (id : nat)                         (* internal_stats.sample_freq = backend->sample_freq *)
| I_died                                    (* die("Failed to initialize ...") *)
| I_done.

Section Startup.
Context {T : Type} `{HashTable T} (junk : Z).

Local Notation server := (brubeck_server (T := T)).
Local Notation tstate := (state (T := T)).

Definition set_sample_freq (st : brubeck_internal_stats) (freq : Z) : brubeck_internal_stats :=
  {| sample_freq := freq; live := live st; sample := sample st |}.

(** One step of the main thread. *)
Definition init_step (s : shared) (pc : init_pc) : outcome (shared * init_pc) :=
  let sv : server := sh_sv s in
  match pc with
  | I_alloc =>
      need (alloc_metric sv (name sv) BRUBECK_MT_INTERNAL_STATS) (fun '(sv, id, _) =>
      Next (with_sv s sv, I_insert id))
  | I_insert id =>
      match write_mutex s with
      | Some _ => Blocked
      | None =>
          need (heap sv !! id) (fun m =>
          let '(tb, result) := brubeck_hashtable_insert (table sv) (key m) (key_len m) id in
          Next (with_sv s (set_table sv tb), if result then I_register id else I_refind))
      end
  | I_refind =>
      match brubeck_hashtable_find (table sv) (name sv) (u16 (Z.of_nat (length (name sv)))) with
      | Some id => Next (s, I_other id)
      | None => Next (s, I_died)
      end
  | I_register id =>
      need (m ← heap sv !! id; queue_of sv m) (fun '(_, b) => Next (s, I_cas id (list.head (b_queue b))))
  | I_cas id next =>
      need (m ← heap sv !! id; queue_of sv m) (fun '(shard, b) =>
      if decide (list.head (b_queue b) = next) then
        need (register_metric (backends sv) shard id) (fun bs => Next (with_sv s (set_backends sv bs), I_count id))
      else Next (s, I_register id))
  | I_count id => Next (with_sv s (stats_inc sv unique_keys), I_other id)
  | I_other id =>
      need (heap sv !! id) (fun m => Next (put s id (set_as m (As_other true)), I_freq id))
  | I_freq id =>
      need (m ← heap sv !! id; queue_of sv m) (fun '(_, b) =>
      Next (with_sv s (set_stats sv (set_sample_freq (internal_stats sv) (b_sample_freq b))), I_done))
  | I_died | I_done => Blocked
  end.


(** ** The metric before its data are set

    Until [as.other] is set the threads see a metric that nobody records.  To
    them it could as well be a gauge, and the main thread a worker that creates
    one: the run is then a run of [Workers]. *)

Definition gauged (m : brubeck_metric) : brubeck_metric :=
  {| key := key m; key_len := key_len m; type := BRUBECK_MT_GAUGE; expire := expire m;
     as_ := as_zero BRUBECK_MT_GAUGE |}.

Definition masked (id i : nat) (m : brubeck_metric) : brubeck_metric := if decide (i = id) then gauged m else m.

Definition mask (id : nat) (s : shared) : shared (T := T) :=
  with_sv s (set_heap (sh_sv s) (imap (masked id) (heap (sh_sv s)))).

(** A backend that is about to sample the metric is still in front of it. *)
Definition mask_thr (id : nat) (th : thread) : thread :=
  match th with
  | Sampler bk (S_stat i blocks mt) => if decide (i = id) then Sampler bk (S_walk (i :: mt)) else th
  | _ => th
  end.


Definition mask_outcome (id : nat) (o : outcome (shared * thread * list event)) :=
  match o with
  | Next (s, th, ev) => Next (mask id s, mask_thr id th, ev)
  | Blocked => Blocked
  | Fault => Fault
  end.






















Context `{!HashTableLaws T}.


(** *** The invariant of start-up *)

Section Invariant.
Context (nm : list Z) (main : nat) (nm_fits : key_fits nm).


















(** *** The data are set *)







(** *** The steps of the main thread *)









(** *** The statistics *)














(** *** Faults *)



End Invariant.


(** ** Schedules *)

(** [None] is a step of the main thread, [Some i] one of thread [i]. *)
Fixpoint startup_exec (sched : list (option nat)) (st : tstate) (pc : init_pc) : option (tstate * init_pc) :=
  match sched with
  | [] => Some (st, pc)
  | None :: sched =>
      match init_step (st_shared st) pc with
      | Next (s', pc') => startup_exec sched {| st_shared := s'; st_thr := st_thr st |} pc'
      | _ => None
      end
  | Some i :: sched =>
      match thread_step junk i (st_shared st) (st_thr st i) with
      | Next (s', th', _) => startup_exec sched {| st_shared := s'; st_thr := set_thread (st_thr st) i th' |} pc
      | _ => None
      end
  end.

End Startup.

(** ** Runs

    The server of the example before [brubeck_internal__init], its workers with
    the messages of [demo_script] or [script], the backend of the server's own
    metric as thread 2 and the main thread as thread 9. *)

Definition demo_begin (script : nat -> list (list Z * Z * Z)) : state :=
  {| st_shared := {| sh_sv := demo_fresh; spin := fun _ => None; write_mutex := None |};
     st_thr i := match i with
                 | 2%nat => Sampler 2 S_turn
                 | _ => Worker W_start (int_msg <$> script i)
                 end |}.









(** The backend takes the metric from its queue before the main thread has set
    [as.other]: the sampler follows a null pointer. *)
Example startup_null_stats :
  match startup_exec 7 [None; None; None; None; Some 2; Some 2]%nat (demo_begin demo_script) I_alloc with
  | Some (st, pc) => pc = I_count 0 /\ thread_step 7 2 (st_shared st) (st_thr st 2%nat) = Fault
  | None => False
  end.
Proof. vm_compute. done. Qed.

(** A client that sends a metric of the server's own name first: the main thread
    finds the client's metric and turns its data into a pointer, which the worker
    that holds the metric then reads as a number: the model has no such reading. *)
Example startup_name_taken :
  let mine := demo_begin (fun i => match i with 0%nat => [(bytes "brubeck", 1, 1)] | _ => [] end) in
  match startup_exec 7 [Some 0; Some 0; Some 0; Some 0; Some 0; None; None; None; None; Some 0; Some 0; Some 0;
                        Some 0; Some 0]%nat mine I_alloc with
  | Some (st, pc) =>
      type <$> heap (sh_sv (st_shared st)) !! 0%nat = Some BRUBECK_MT_METER /\
      as_ <$> heap (sh_sv (st_shared st)) !! 0%nat = Some (As_other true) /\
      thread_step 7 0 (st_shared st) (st_thr st 0%nat) = Fault
  | None => False
  end.
Proof. vm_compute. done. Qed.
End Startup.
