(* ===== verification/Backend.v ===== *)
(** * Backends ([src/backend.c])

    Worker threads register new metrics with a backend by a compare-and-swap
    loop on the head of its queue, while the backend's thread walks the queue.
    The first part models the registration as a step relation over any number
    of threads; the second is one turn of the backend's thread, and the third
    its loop: the turns with the clock and the sleep between them. *)

From stdpp Require Import sets.
From S2P Require Import Prelude Value Histogram Metric Internal Utils Carbon Store.
Import Metric Internal Utils Carbon Store.

Module Backend.

(** ** Registration

    Thread [i] registers the metric [i].  It is at the top of its loop, has
    stored the head it read in [metric->next], or has finished. *)
Inductive pc :=
| AtLoop
| AtCas (next : option nat)
| Done.

(** The head of the queue, the [next] field of every metric, the threads. *)
Record queue_state := {
  q_head : option nat;
  q_next : nat -> option nat;
  q_pc : nat -> pc;
}.

Definition upd_fun {A} (f : nat -> A) (i : nat) (x : A) : nat -> A :=
  fun j => if decide (j = i) then x else f j.

(** [next = self->queue; metric->next = next] *)
Definition do_read (s : queue_state) (i : nat) : queue_state :=
  {| q_head := q_head s; q_next := upd_fun (q_next s) i (q_head s);
     q_pc := upd_fun (q_pc s) i (AtCas (q_head s)) |}.

(** The compare-and-swap that succeeds, and the one that fails. *)
Definition do_swap (s : queue_state) (i : nat) : queue_state :=
  {| q_head := Some i; q_next := q_next s; q_pc := upd_fun (q_pc s) i Done |}.

Definition do_retry (s : queue_state) (i : nat) : queue_state :=
  {| q_head := q_head s; q_next := q_next s; q_pc := upd_fun (q_pc s) i AtLoop |}.

(** A step of thread [i]. *)
Inductive tstep (i : nat) (s : queue_state) : queue_state -> Prop :=
| step_read : q_pc s i = AtLoop -> tstep i s (do_read s i)
| step_cas next : q_pc s i = AtCas next -> q_head s = next -> tstep i s (do_swap s i)
| step_retry next : q_pc s i = AtCas next -> q_head s <> next -> tstep i s (do_retry s i).

Definition step (s s' : queue_state) : Prop := exists i, tstep i s s'.

Inductive reachable : queue_state -> Prop :=
| reach_init s :
    q_head s = None -> (forall i, q_pc s i = AtLoop) -> reachable s
| reach_step s s' : reachable s -> step s s' -> reachable s'.

(** The queue as the backend's thread walks it: [l] from [head] on. *)
Fixpoint chain (next : nat -> option nat) (head : option nat) (l : list nat) : Prop :=
  match l with
  | [] => head = None
  | i :: l => head = Some i /\ chain next (next i) l
  end.

Lemma chain_upd next head l i x :
  i ∉ l -> chain next head l -> chain (upd_fun next i x) head l.
Proof.
  revert head. induction l as [|j l IH]; intros head Hni Hc; [done|].
  apply not_elem_of_cons in Hni as [Hij Hni]. destruct Hc as [-> Hc]. split; [done|].
  unfold upd_fun at 2. rewrite decide_False by done. by apply IH.
Qed.

Lemma upd_fun_eq {A} (f : nat -> A) i x : upd_fun f i x i = x.
Proof. unfold upd_fun. by rewrite decide_True. Qed.

Lemma upd_fun_ne {A} (f : nat -> A) i j x : j <> i -> upd_fun f i x j = f j.
Proof. intros. unfold upd_fun. by rewrite decide_False. Qed.

Definition queue_inv (s : queue_state) : Prop :=
  exists l, chain (q_next s) (q_head s) l /\ NoDup l /\
    (forall i, i ∈ l <-> q_pc s i = Done) /\
    (forall i next, q_pc s i = AtCas next -> q_next s i = next).

Lemma step_inv s s' : queue_inv s -> step s s' -> queue_inv s'.
Proof.
  intros (l & Hc & Hnd & Hd & Hn) [i Hs]. destruct Hs as [Hi|next Hi Hh|next Hi Hh];
    unfold queue_inv; cbn [do_read do_swap do_retry q_head q_next q_pc].
  - assert (Hni : i ∉ l) by (rewrite Hd; congruence).
    exists l. split_and!; [by apply chain_upd|done| |].
    + intros j. destruct (decide (j = i)) as [->|].
      * rewrite upd_fun_eq. split; [done|]. done.
      * by rewrite upd_fun_ne.
    + intros j next. destruct (decide (j = i)) as [->|].
      * rewrite !upd_fun_eq. congruence.
      * rewrite !upd_fun_ne by done. apply Hn.
  - assert (Hni : i ∉ l) by (rewrite Hd; congruence).
    exists (i :: l). split_and!.
    + split; [done|]. by rewrite (Hn i next Hi), <- Hh.
    + by apply list.NoDup_cons.
    + intros j. rewrite elem_of_cons. destruct (decide (j = i)) as [->|].
      * rewrite upd_fun_eq. tauto.
      * rewrite upd_fun_ne by done. rewrite Hd. tauto.
    + intros j n. destruct (decide (j = i)) as [->|].
      * by rewrite upd_fun_eq.
      * rewrite upd_fun_ne by done. apply Hn.
  - exists l. split_and!; [done|done| |].
    + intros j. destruct (decide (j = i)) as [->|].
      * rewrite upd_fun_eq, Hd. split; congruence.
      * by rewrite upd_fun_ne.
    + intros j n. destruct (decide (j = i)) as [->|].
      * by rewrite upd_fun_eq.
      * rewrite upd_fun_ne by done. apply Hn.
Qed.

Lemma reachable_inv s : reachable s -> queue_inv s.
Proof.
  induction 1 as [s Hh Hp|s s' _ IH Hs]; [|by eapply step_inv].
  exists []. split_and!; [done|apply base.NoDup_nil_2| |].
  - intros i. rewrite Hp. split; [by intros ?%elem_of_nil|done].
  - intros i next. by rewrite Hp.
Qed.

(** Registration loses no metric, however the threads interleave: at every
    moment the queue that the backend's thread walks is a finite list that
    holds exactly the metrics whose registration has finished, each once. *)
Theorem register_linearizable (s : queue_state) (Hs : reachable s) :
  exists l, chain (q_next s) (q_head s) l /\ NoDup l /\ forall i, i ∈ l <-> q_pc s i = Done.
Proof. destruct (reachable_inv s Hs) as (l & Hc & Hnd & Hd & _). by exists l. Qed.

(** Threads 4 and 7 race: 4 reads, 7 registers, 4's swap fails and succeeds at
    the second attempt. *)
Definition race_start : queue_state :=
  {| q_head := None; q_next := fun _ => None; q_pc := fun _ => AtLoop |}.

Definition race_end : queue_state :=
  do_swap (do_read (do_retry (do_swap (do_read (do_read race_start 4) 7) 7) 4) 4) 4.

Lemma race_reachable : reachable race_end.
Proof.
  eapply reach_step; [|by eexists; eapply step_cas].
  eapply reach_step; [|by eexists; apply step_read].
  eapply reach_step; [|by eexists; eapply step_retry].
  eapply reach_step; [|by eexists; eapply step_cas].
  eapply reach_step; [|by eexists; apply step_read].
  eapply reach_step; [|by eexists; apply step_read].
  by apply reach_init.
Qed.

Lemma register_linearizable_witness :
  exists l, chain (q_next race_end) (q_head race_end) l /\ NoDup l /\
    forall i, i ∈ l <-> q_pc race_end i = Done.
Proof. apply (register_linearizable race_end race_reachable). Defined.

Example race_queue : chain (q_next race_end) (q_head race_end) [4%nat; 7%nat].
Proof. by vm_compute. Qed.

(** ** Progress

    A swap only fails when another thread's has succeeded since the read, so
    the retries are bounded.  The potential of a state sums a weight of every
    thread that has not finished; [k] of them are left. *)

Definition weight (k : nat) (s : queue_state) (i : nat) : nat :=
  match q_pc s i with
  | Done => 0
  | AtLoop => 2 * k
  | AtCas next => if decide (q_head s = next) then 2 * k - 1 else 2 * k + 1
  end.

Definition unfinished (s : queue_state) (i : nat) : nat :=
  match q_pc s i with Done => 0 | _ => 1 end.

Definition remaining (n : nat) (s : queue_state) : nat := sum_list_with (unfinished s) (seq 0 n).

Definition potential (n : nat) (s : queue_state) : nat :=
  sum_list_with (weight (remaining n s) s) (seq 0 n).

Lemma remaining_step n i s s' :
  tstep i s s' -> (i < n)%nat -> (1 <= remaining n s)%nat /\
  (q_pc s' i = Done /\ S (remaining n s') = remaining n s \/
   q_pc s' i <> Done /\ remaining n s' = remaining n s).
Proof.
  intros Hs Hi. assert (Hin : i ∈ seq 0 n) by (apply elem_of_seq; lia).
  assert (Hpos : (1 <= remaining n s)%nat).
  { unfold remaining. pose proof (sum_lt (fun _ => 0%nat) (unfinished s) (seq 0 n) i Hin) as Hlt.
    assert (unfinished s i = 1%nat) as E by (unfold unfinished; inversion Hs; case_match; congruence).
    cbv beta in Hlt. specialize (Hlt ltac:(rewrite E; lia) ltac:(intros; lia)). lia. }
  split; [done|].
  destruct Hs as [Hpc|next Hpc Hh|next Hpc Hh]; cbn [do_read do_swap do_retry q_pc]; rewrite upd_fun_eq.
  - right. split; [done|]. apply sum_ext. intros j _. unfold unfinished. cbn [do_read q_pc].
    destruct (decide (j = i)) as [->|]; [by rewrite upd_fun_eq, Hpc|by rewrite upd_fun_ne].
  - left. split; [done|]. apply (sum_one_less _ _ _ i); [apply NoDup_seq|done| |].
    + unfold unfinished. cbn [do_swap q_pc]. by rewrite upd_fun_eq, Hpc.
    + intros j Hj. unfold unfinished. cbn [do_swap q_pc]. by rewrite upd_fun_ne.
  - right. split; [done|]. apply sum_ext. intros j _. unfold unfinished. cbn [do_retry q_pc].
    destruct (decide (j = i)) as [->|]; [by rewrite upd_fun_eq, Hpc|by rewrite upd_fun_ne].
Qed.

Lemma potential_decreases n i s s' : tstep i s s' -> (i < n)%nat -> (potential n s' < potential n s)%nat.
Proof.
  intros Hs Hi. destruct (remaining_step n i s s' Hs Hi) as [Hpos Hrem].
  apply (sum_lt _ _ _ i); [apply elem_of_seq; lia| |].
  - destruct Hs as [Hpc|next Hpc Hh|next Hpc Hh]; unfold weight in *;
      cbn [do_read do_swap do_retry q_pc q_head] in *; rewrite upd_fun_eq in *; rewrite Hpc;
      destruct Hrem as [[? Hr]|[? Hr]]; try done.
    + rewrite decide_True by done. lia.
    + rewrite decide_True by done. lia.
    + rewrite decide_False by done. lia.
  - intros j _. destruct (decide (j = i)) as [->|Hj].
    + destruct Hs as [Hpc|next Hpc Hh|next Hpc Hh]; unfold weight in *;
        cbn [do_read do_swap do_retry q_pc q_head] in *; rewrite upd_fun_eq in *; rewrite Hpc;
        destruct Hrem as [[? Hr]|[? Hr]]; try done; repeat case_decide; done || lia.
    + destruct Hs as [Hpc|next Hpc Hh|next Hpc Hh]; unfold weight;
        cbn [do_read do_swap do_retry q_pc q_head] in *; rewrite upd_fun_eq in *; rewrite upd_fun_ne by done;
        destruct Hrem as [[? Hr]|[? Hr]]; try done; destruct (q_pc s j); repeat case_decide; done || lia.
Qed.

(** A run of [m] steps of the threads below [n]. *)
Inductive runs (n : nat) : nat -> queue_state -> queue_state -> Prop :=
| runs_nil s : runs n 0 s s
| runs_step m s s1 s' i : (i < n)%nat -> tstep i s s1 -> runs n m s1 s' -> runs n (S m) s s'.

Lemma runs_potential n m s s' : runs n m s s' -> (m + potential n s' <= potential n s)%nat.
Proof.
  induction 1 as [s|m s s1 s' i Hi Hs _ IH]; [lia|].
  pose proof (potential_decreases n i s s1 Hs Hi). lia.
Qed.

Lemma potential_start n s : (forall i, q_pc s i = AtLoop) -> potential n s = (2 * n * n)%nat.
Proof.
  intros Hp. unfold potential, remaining.
  assert (Hc : forall (f : nat -> nat) c l, (forall j, f j = c) -> sum_list_with f l = (c * length l)%nat).
  { intros f c l Hf. induction l as [|j l IH]; simpl; [lia|]. rewrite IH, Hf. lia. }
  rewrite (Hc (unfinished s) 1%nat) by (intros j; unfold unfinished; by rewrite Hp).
  rewrite length_seq, (Hc _ (2 * n)%nat); [rewrite length_seq; lia|].
  intros j. unfold weight. rewrite Hp. lia.
Qed.

(** C23: registration terminates, and no thread is ever blocked: whatever the
    schedule, [n] threads that each register a metric take at most [2 n^2] steps
    in all, and a thread that has not finished can always take its next step,
    so that every run that goes on as long as it can ends with all metrics
    registered. *)
Theorem register_terminates (n m : nat) (s s' : queue_state)
  (Hstart : forall i, q_pc s i = AtLoop) (Hrun : runs n m s s') :
  (m <= 2 * n * n)%nat /\
  (forall i, q_pc s' i <> Done -> exists s'', tstep i s' s'') /\
  ((forall i s'', (i < n)%nat -> ~ tstep i s' s'') -> forall i, (i < n)%nat -> q_pc s' i = Done).
Proof.
  assert (Hcan : forall i, q_pc s' i <> Done -> exists s'', tstep i s' s'').
  { intros i Hi. destruct (q_pc s' i) as [|next|] eqn:E; [eexists; by apply step_read| |done].
    destruct (decide (q_head s' = next)); eexists; [by eapply step_cas|by eapply step_retry]. }
  split_and!; [|done|].
  - pose proof (runs_potential n m s s' Hrun) as Hp. rewrite (potential_start n s Hstart) in Hp. lia.
  - intros Hstuck i Hi. destruct (q_pc s' i) as [|next|] eqn:E; [| |done];
      (destruct (Hcan i) as [s'' Hs]; [congruence|by destruct (Hstuck i s'' Hi)]).
Qed.

Lemma register_terminates_witness :
  (2 <= 2 * 1 * 1)%nat /\
  (forall i, q_pc (do_swap (do_read race_start 0) 0) i <> Done ->
     exists s'', tstep i (do_swap (do_read race_start 0) 0) s'') /\
  ((forall i s'', (i < 1)%nat -> ~ tstep i (do_swap (do_read race_start 0) 0) s'') ->
   forall i, (i < 1)%nat -> q_pc (do_swap (do_read race_start 0) 0) i = Done).
Proof.
  apply (register_terminates 1 2 race_start); [reflexivity|].
  eapply (runs_step _ _ _ _ _ 0); [lia|apply step_read; reflexivity|].
  eapply (runs_step _ _ _ _ _ 0); [lia|eapply step_cas; reflexivity|]. constructor.
Defined.

(** ** One turn of the backend's thread *)

Definition set_tick (c : brubeck_carbon) (t : Z) : brubeck_carbon :=
  {| tick_time := t; out_sock := out_sock c; pickler_ := pickler_ c; sent := sent c |}.

(** The callback of the text protocol for a run of samples. *)
Fixpoint plaintext_all (c : brubeck_carbon) (kvs : list emission) (junk : Z) (rs : list wres)
    : option (brubeck_carbon * list Z * list wres) :=
  match kvs with
  | [] => Some (c, [], rs)
  | (k, v) :: kvs =>
      '(c, out, rs) ← plaintext_each c k v junk rs;
      '(c, out', rs) ← plaintext_all c kvs junk rs;
      Some (c, out ++ out', rs)
  end.

(** The body of the loop of [backend__thread] for a Carbon backend: [fd],
    [rc] and [so] are the results of [socket], [connect] and [setsockopt], [clock]
    the second; [None] is also the end of the process in [sock_enlarge_out].  The
    callbacks do not touch the metrics, so running them behind the walk of the
    queue, in the order of the calls, gives the same result. *)
Definition backend__thread (pickle : bool) (c : brubeck_carbon) (s : brubeck_internal_stats)
    (h : list brubeck_metric) (b : brubeck_backend) (junk fd rc so clock : Z) (rs : list wres)
    : option (brubeck_carbon * brubeck_internal_stats * list brubeck_metric * list Z * list wres) :=
  '(c, r) ← carbon_connect c fd rc so;
  if r =? 0 then
    let c := set_tick c (u32 clock) in
    '(s, h, es) ← sample_queue s h (b_queue b) (b_sample_freq b) junk;
    '(c, out, rs) ← (if pickle then pickle_tick c es rs else plaintext_all c es junk rs);
    Some (c, s, h, out, rs)
  else Some (c, s, h, [], rs).

(** What Carbon reads of a sample. *)
Definition carbon_entry (t : Z) (kv : emission) : pval :=
  PTuple [PStr kv.1; PTuple [PInt t; PFloat kv.2]].

Lemma tick_sample_entry c t kv :
  Z.of_nat (length kv.1) < 256 -> 0 <= t < 2 ^ 31 -> is_double kv.2 ->
  sample_ok (tick_sample (set_tick c t) kv) /\
  sample_pval (tick_sample (set_tick c t) kv) = carbon_entry t kv.
Proof.
  intros Hk Ht Hv. unfold sample_ok, sample_pval, carbon_entry, tick_sample.
  cbn [sm_key sm_time sm_value set_tick tick_time]. rewrite wrap_small by (unfold fits; lia).
  rewrite Nat2Z.id, take_ge by lia. split_and!; lia || exact Hv || done.
Qed.

Section Turn.
Context {T : Type} `{HashTable T} `{!HashTableLaws T}.

Lemma backend_turn_run (sv : brubeck_server (T := T)) (i : nat) (b : brubeck_backend)
  (c : brubeck_carbon) (junk fd rc so clock : Z) (rs : list wres)
  (Hwf : server_wf sv) (Hinit : initialised sv) (Hb : backends sv !! i = Some b)
  (Hp : pickler_inv (pickler_ c) [])
  (Hconn : carbon_is_connected c = true \/ 0 <= fd /\ rc = 0 /\ so <> -1)
  (Hclock : 0 <= clock < 2 ^ 31)
  (Hkeys : forall id m, id ∈ b_queue b -> heap sv !! id = Some m -> Z.of_nat (length (key m)) <= 236)
  (Hrs : Forall accepting rs) (Hlen : (12 * length (b_queue b) < length rs)%nat) :
  exists s' h' es c' out rs',
    sample_queue (internal_stats sv) (heap sv) (b_queue b) (b_sample_freq b) junk = Some (s', h', es) /\
    backend__thread true c (internal_stats sv) (heap sv) b junk fd rc so clock rs = Some (c', s', h', out, rs') /\
    server_wf (after_turn sv s' h') /\ carbon_is_connected c' = true /\ pickler_inv (pickler_ c') [] /\
    decode_stream (length out) out = Some (carbon_entry clock <$> es).
Proof.
  destruct (sample_queue_wf sv i b junk Hwf Hinit Hb) as (s' & h' & es & Hrun & Hwf' & _ & Hes & Hn).
  assert (Hc : exists c1, carbon_connect c fd rc so = Some (c1, 0) /\ carbon_is_connected c1 = true /\
            pickler_ c1 = pickler_ c).
  { unfold carbon_connect. destruct (carbon_is_connected c) eqn:E; [by exists c|].
    destruct Hconn as [?|(Hfd & -> & Hso)]; [done|]. exists (set_sock c fd). cbn [set_sock out_sock].
    unfold carbon_is_connected. cbn [set_sock out_sock]. destruct (Z.leb_spec 0 fd); [|lia].
    rewrite (proj2 (Z.eqb_neq so (-1)) Hso). done. }
  destruct Hc as (c1 & E1 & Hc1 & Hp1).
  assert (Hent : Forall (fun kv => sample_ok (tick_sample (set_tick c1 clock) kv) /\
            sample_pval (tick_sample (set_tick c1 clock) kv) = carbon_entry clock kv) es).
  { eapply Forall_impl; [|exact Hes]. intros kv (id & m & Hid & Hm & Hd & Hk).
    specialize (Hkeys id m Hid Hm). apply tick_sample_entry; [lia|lia|done]. }
  exists s', h', es.
  destruct (pickle_tick_decodes (set_tick c1 clock) es rs) as (c' & out & rs' & E & Hc' & Hp' & Hd); try done.
  - cbn [set_tick pickler_]. by rewrite Hp1.
  - eapply Forall_impl; [|exact Hent]. by intros kv [? _].
  - exact (Nat.le_lt_trans _ _ _ Hn Hlen).
  - unfold backend__thread. rewrite E1, Hrun, wrap_small by (unfold fits; lia).
    cbn [Z.eqb mbind option_bind]. cbv zeta. rewrite E. cbn [mbind option_bind].
    exists c', out, rs'. split_and!; try done. rewrite Hd. f_equal. rewrite <- list_fmap_compose.
    apply list_fmap_ext. intros j kv Hj. apply (proj1 (Forall_lookup _ _) Hent _ _ Hj).
Qed.

(** A turn of a pickling backend delivers what its metrics report.  When
    the backend is or gets connected (with its buffer enlarged), the connection takes the data and the keys
    of its metrics leave room for a suffix, the turn returns, the store stays
    consistent, and Carbon decodes exactly the samples of the backend's queue,
    in order, under their keys and with the turn's timestamp. *)
Theorem backend_turn_delivers (sv : brubeck_server (T := T)) (i : nat) (b : brubeck_backend)
  (c : brubeck_carbon) (junk fd rc so clock : Z) (rs : list wres)
  (Hwf : server_wf sv) (Hinit : initialised sv) (Hb : backends sv !! i = Some b)
  (Hp : pickler_inv (pickler_ c) [])
  (Hconn : carbon_is_connected c = true \/ 0 <= fd /\ rc = 0 /\ so <> -1)
  (Hclock : 0 <= clock < 2 ^ 31)
  (Hkeys : forall id m, id ∈ b_queue b -> heap sv !! id = Some m -> Z.of_nat (length (key m)) <= 236)
  (Hrs : Forall accepting rs) (Hlen : (12 * length (b_queue b) < length rs)%nat) :
  exists s' h' es c' out rs',
    sample_queue (internal_stats sv) (heap sv) (b_queue b) (b_sample_freq b) junk = Some (s', h', es) /\
    backend__thread true c (internal_stats sv) (heap sv) b junk fd rc so clock rs = Some (c', s', h', out, rs') /\
    server_wf (after_turn sv s' h') /\ carbon_is_connected c' = true /\ pickler_inv (pickler_ c') [] /\
    decode_stream (length out) out = Some (carbon_entry clock <$> es).
Proof. by eapply backend_turn_run. Qed.
End Turn.

Lemma backend_turn_delivers_witness :
  exists b s' h' es c' out rs',
    backends demo_server !! shard_key 3 (bytes "brubeck") = Some b /\
    sample_queue (internal_stats demo_server) (heap demo_server) (b_queue b) (b_sample_freq b) 7
      = Some (s', h', es) /\
    backend__thread true demo_carbon (internal_stats demo_server) (heap demo_server) b 7 5 0 0 1500
      (replicate 13 (WOk (Z.to_nat 4096))) = Some (c', s', h', out, rs') /\
    server_wf (after_turn demo_server s' h') /\ carbon_is_connected c' = true /\
    pickler_inv (pickler_ c') [] /\
    decode_stream (length out) out = Some (carbon_entry 1500 <$> es).
Proof.
  destruct (backends demo_server !! shard_key 3 (bytes "brubeck")) as [b|] eqn:Hb; [|vm_compute in Hb; congruence].
  exists b.
  destruct (backend_turn_delivers demo_server (shard_key 3 (bytes "brubeck")) b demo_carbon 7 5 0 0 1500
              (replicate 13 (WOk (Z.to_nat 4096))) demo_server_wf demo_initialised Hb)
    as (s' & h' & es & c' & out & rs' & Hw).
  - apply demo_pickler_inv.
  - left. reflexivity.
  - lia.
  - intros id m Hid Hm. assert (In m (heap demo_server)) as [<-|[]]; [|simpl; lia].
    apply list_elem_of_In. by eapply list_elem_of_lookup_2.
  - apply Forall_replicate. exists (Z.to_nat 4096). split; [reflexivity|lia].
  - vm_compute in Hb. injection Hb as <-. simpl. lia.
  - exists s', h', es, c', out, rs'. split; [reflexivity|exact Hw].
Defined.

(** ** The loop of the backend's thread *)




Section Loop.
Context {T : Type} `{HashTable T} `{!HashTableLaws T}.













End Loop.




End Backend.
