(* ===== verification/Pipeline.v ===== *)
(** * From datagrams to Carbon

    The parts composed: the receive loop of a sampler, the parser, the store
    with its table, memory, shards and queues, the turn of a backend and the
    pickle protocol refine an aggregator that is a map from keys to the data of
    a metric. *)

From stdpp Require Import gmap sets.
From S2P Require Import Prelude Value Histogram Slab Metric City Internal Statsd Utils Carbon Store Workers Backend.
Import Metric Internal Statsd Utils Carbon Store Workers Backend.

Module Pipeline.

(** ** The aggregator *)

Abbreviation cell := (brubeck_metric_t * metric_as)%type.
Abbreviation aggregate := (gmap (list Z) cell).

(** The metric of a key with the data of a cell. *)
Definition metric_of (k : list Z) (c : cell) : brubeck_metric := set_as (new_metric k c.1) c.2.

(** The cell of a key, empty and of the type of the message if it is new. *)
Definition cell_of (A : aggregate) (k : list Z) (t : brubeck_metric_t) : cell := default (t, as_zero t) (A !! k).

(** A line of a packet: recorded under its key, or ignored when its sample rate
    is out of range. *)
Definition agg_line (A : aggregate) (l : line) : option aggregate :=
  let go f :=
    m ← brubeck_metric_record (metric_of (l_key l) (cell_of A (l_key l) (l_type l)))
          (number_value (l_num l)) f (number_mods (l_num l));
    Some (<[l_key l := (type m, as_ m)]> A) in
  match l_rate l with
  | Some y => if rate_accepted y then go (fdiv (F64 1) (number_value y)) else Some A
  | None => go (F64 1)
  end.

Fixpoint agg_lines (A : aggregate) (ls : list line) : option aggregate :=
  match ls with
  | [] => Some A
  | l :: ls => A ← agg_line A l; agg_lines A ls
  end.

(** What the aggregator reports of a key. *)
Definition agg_report (A : aggregate) (k : list Z) (freq junk : Z) : list emission :=
  match c ← A !! k; brubeck_metric_sample no_stats (metric_of k c) freq junk with
  | Some (_, _, es) => es
  | None => []
  end.

(** ** The receive loop *)

Fixpoint receive {S : Type} `{MetricSink S} (w : recv_worker (S := S)) (ds : list (list Z))
    : option (recv_worker (S := S)) :=
  match ds with
  | [] => Some w
  | d :: ds => w ← statsd_run_recvmsg w (Recv d); receive w ds
  end.

Definition packet : Type := line * list line.
Definition packet_lines (p : packet) : list line := p.1 :: p.2.
Definition datagram (p : packet) : list Z := packet_text p.1 p.2.

(** A packet of well-formed lines that fits the buffer, with keys that leave
    room for a suffix in the protocol of Carbon. *)
Definition packet_ok (p : packet) : Prop :=
  Forall line_ok (packet_lines p) /\ Forall (fun l => Z.of_nat (length (l_key l)) <= 236) (packet_lines p) /\
  Z.of_nat (length (datagram p)) < MAX_PACKET_SIZE.

Section Pipeline.
Context {T : Type} `{HashTable T} `{!HashTableLaws T}.
Local Notation server := (brubeck_server (T := T)).

(** ** The server implements the aggregator *)

Record implements (sv : server) (A : aggregate) : Prop := {
  im_wf : server_wf sv;
  im_init : initialised sv;
  im_active : Forall (fun m => expire m = BRUBECK_EXPIRE_ACTIVE) (heap sv);
  im_short : Forall (fun m => Z.of_nat (length (key m)) <= 236) (heap sv);
  im_capacity : at_capacity sv = false;
  im_cells k : A !! k = (id ← ht_find (table sv) k; m ← heap sv !! id; Some (type m, as_ m));
}.

Lemma active_metric_of m :
  metric_ok m -> expire m = BRUBECK_EXPIRE_ACTIVE -> m = metric_of (key m) (type m, as_ m).
Proof.
  intros ((_ & Hl) & _ & Hlen & _) He. destruct m as [k kl t e a].
  unfold metric_of, set_as, new_metric. cbn [key key_len type expire as_ fst snd] in *.
  rewrite wrap_small by (unfold fits; lia). by subst.
Qed.

Lemma implements_metric sv A k id m :
  implements sv A -> ht_find (table sv) k = Some id -> heap sv !! id = Some m ->
  key m = k /\ m = metric_of k (type m, as_ m) /\ A !! k = Some (type m, as_ m).
Proof.
  intros Hi Hf Hm. destruct (sv_find _ (im_wf _ _ Hi) _ _ Hf) as (m2 & Hm2 & Hk). assert (m2 = m) as -> by congruence.
  split_and!; [done| |].
  - rewrite <- Hk. apply active_metric_of.
    + exact (proj1 (Forall_lookup _ _) (sv_heap _ (im_wf _ _ Hi)) _ _ Hm).
    + exact (proj1 (Forall_lookup _ _) (im_active _ _ Hi) _ _ Hm).
  - rewrite (im_cells _ _ Hi), Hf. cbn [mbind option_bind]. by rewrite Hm.
Qed.

(** Finding the metric of a key adds its cell. *)
Lemma find_implements sv A k t :
  implements sv A -> key_fits k -> Z.of_nat (length k) <= 236 -> t <> BRUBECK_MT_INTERNAL_STATS ->
  exists sv' id, brubeck_metric_find sv k t = Some (sv', Some id) /\
    ht_find (table sv') k = Some id /\ heap sv' !! id = Some (metric_of k (cell_of A k t)) /\
    implements sv' (<[k := cell_of A k t]> A).
Proof.
  intros Hi Hk Hs Ht. destruct (metric_find_run sv k t (im_wf _ _ Hi) Hk) as (sv' & r & E & Hwf' & Hr).
  unfold cell_of. destruct (ht_find (table sv) k) as [id|] eqn:Hf.
  - destruct Hr as (m & Hm & -> & ->). destruct (implements_metric _ _ _ _ _ Hi Hf Hm) as (Ekey & Em & EA).
    exists sv, id. rewrite EA. cbn [default]. change (default (t, as_zero t) (Some (type m, as_ m))) with (type m, as_ m).
    assert (Esv : set_heap sv (<[id := set_expire m BRUBECK_EXPIRE_ACTIVE]> (heap sv)) = sv).
    { replace (set_expire m BRUBECK_EXPIRE_ACTIVE) with m by by rewrite Em.
      rewrite list_insert_id by done. by destruct sv. }
    rewrite Esv in *. rewrite (insert_id A k (type m, as_ m) EA). split_and!; [done|done|rewrite Hm; f_equal; exact Em|done].
  - rewrite (im_capacity _ _ Hi) in Hr. destruct Hr as [-> Hc]. exists sv', (length (heap sv)).
    pose proof (im_cells _ _ Hi k) as HA. rewrite Hf in HA. cbn [mbind option_bind] in HA. rewrite HA. change (default (t, as_zero t) None) with (t, as_zero t).
    assert (Hm : heap sv' !! length (heap sv) = Some (new_metric k t)).
    { rewrite (cr_heap _ _ _ _ _ Hc). by rewrite lookup_app_r, Nat.sub_diag. }
    split_and!; [done|apply Hc|done|]. split.
    + done.
    + unfold initialised. rewrite (cr_heap _ _ _ _ _ Hc). apply Forall_app. split; [apply Hi|].
      repeat constructor. by destruct t.
    + rewrite (cr_heap _ _ _ _ _ Hc). apply Forall_app. split; [apply Hi|by repeat constructor].
    + rewrite (cr_heap _ _ _ _ _ Hc). apply Forall_app. split; [apply Hi|by repeat constructor].
    + rewrite (cr_capacity _ _ _ _ _ Hc). apply Hi.
    + intros k'. destruct (decide (k' = k)) as [->|Hne].
      * rewrite lookup_insert_eq, (cr_found _ _ _ _ _ Hc). cbn [mbind option_bind]. by rewrite Hm.
      * rewrite lookup_insert_ne, (im_cells _ _ Hi), (cr_others _ _ _ _ _ Hc) by done.
        destruct (ht_find (table sv) k') as [id|] eqn:Hf'; [|done]. cbn [mbind option_bind].
        destruct (sv_find _ (im_wf _ _ Hi) _ _ Hf') as (m & Hm' & _).
        rewrite (cr_heap _ _ _ _ _ Hc), lookup_app_l by by eapply lookup_lt_Some. done.
Qed.
(** A reading recorded in a metric changes its cell. *)
Lemma record_implements sv A k id m v f mods m' :
  implements sv A -> ht_find (table sv) k = Some id -> heap sv !! id = Some m ->
  is_double v -> is_double f -> brubeck_metric_record m v f mods = Some m' ->
  exists sv', record_at sv id v f mods = Some sv' /\ implements sv' (<[k := (type m', as_ m')]> A).
Proof.
  intros Hi Hf Hm Hv Hd Hrec. destruct (record_keeps _ _ _ _ _ Hrec) as [Em Ht].
  destruct (implements_metric _ _ _ _ _ Hi Hf Hm) as (Hk & _ & _).
  pose proof (proj1 (Forall_lookup _ _) (sv_heap _ (im_wf _ _ Hi)) _ _ Hm) as Hok.
  pose proof (metric_record_run m v f mods Hok Hv Hd) as Hrun. destruct (record_fails m f); [congruence|].
  destruct Hrun as (m1 & E1 & Hok' & _). assert (m1 = m') as -> by congruence.
  unfold record_at. rewrite Hm. cbn [mbind option_bind]. rewrite Hrec. cbn [mbind option_bind].
  eexists. split; [done|]. split; cbn [set_heap heap table at_capacity].
  - apply (update_wf sv id m m'); [apply Hi|done|done|by rewrite Em].
  - apply Forall_insert; [apply Hi|]. apply typed_other; [apply Hok'|by rewrite Em].
  - apply Forall_insert; [apply Hi|]. rewrite Em. exact (proj1 (Forall_lookup _ _) (im_active _ _ Hi) _ _ Hm).
  - apply Forall_insert; [apply Hi|]. rewrite Em. exact (proj1 (Forall_lookup _ _) (im_short _ _ Hi) _ _ Hm).
  - apply Hi.
  - intros k'. destruct (decide (k' = k)) as [->|Hne].
    + rewrite lookup_insert_eq, Hf. cbn [mbind option_bind].
      by rewrite list_lookup_insert_eq by by eapply lookup_lt_Some.
    + rewrite lookup_insert_ne, (im_cells _ _ Hi) by done.
      destruct (ht_find (table sv) k') as [id'|] eqn:Hf'; [|done]. cbn [mbind option_bind].
      rewrite list_lookup_insert_ne; [done|]. intros <-.
      destruct (sv_find _ (im_wf _ _ Hi) _ _ Hf) as (m1 & ? & ?), (sv_find _ (im_wf _ _ Hi) _ _ Hf') as (m2 & ? & ?).
      congruence.
Qed.

Lemma stats_inc_implements sv A f : implements sv A -> implements (stats_inc sv f) A.
Proof. intros []. split; try done. by apply stats_inc_wf. Qed.

Lemma number_value_double x : is_double (number_value x).
Proof.
  unfold number_value, pow10. repeat case_match; auto 10 with double.
Qed.

Lemma line_implements sv A l A' :
  implements sv A -> line_ok l -> Z.of_nat (length (l_key l)) <= 236 -> agg_line A l = Some A' ->
  exists sv', line_effect sv l = Some sv' /\ implements sv' A'.
Proof.
  intros Hi (Hk & _ & _ & Ht & _) Hs.
  assert (Hfit : key_fits (l_key l)).
  { split; [|lia]. destruct Hk as (_ & Hk & _). eapply Forall_impl; [|exact Hk]. by intros b (_ & ? & _). }
  assert (Hgo : forall f, is_double f ->
    (m ← brubeck_metric_record (metric_of (l_key l) (cell_of A (l_key l) (l_type l)))
          (number_value (l_num l)) f (number_mods (l_num l));
     Some (<[l_key l := (type m, as_ m)]> A)) = Some A' ->
    exists sv', sink_metric sv (l_key l) (l_type l) (number_value (l_num l)) f (number_mods (l_num l)) = Some sv' /\
      implements sv' A').
  { intros f Hf (m' & Hrec & [= <-])%bind_Some. cbn [sink_metric server_sink].
    destruct (find_implements _ _ (l_key l) (l_type l) (stats_inc_implements _ _ metrics Hi) Hfit Hs Ht)
      as (sv1 & id & -> & Hid & Hm & Hi1). cbn [mbind option_bind].
    destruct (record_implements _ _ _ _ _ _ _ _ _ Hi1 Hid Hm (number_value_double _) Hf Hrec) as (sv' & -> & Hi').
    exists sv'. split; [done|]. by rewrite insert_insert_eq in Hi'. }
  unfold agg_line, line_effect. destruct (l_rate l) as [y|].
  - destruct (rate_accepted y).
    + apply Hgo. auto using F64_double, fdiv_double, number_value_double.
    + intros [= <-]. eexists. split; [done|]. by apply stats_inc_implements.
  - apply Hgo, F64_double.
Qed.

Lemma lines_implements ls : forall sv A A',
  implements sv A -> Forall line_ok ls -> Forall (fun l => Z.of_nat (length (l_key l)) <= 236) ls ->
  agg_lines A ls = Some A' -> exists sv', lines_effect sv ls = Some sv' /\ implements sv' A'.
Proof.
  induction ls as [|l ls IH]; intros sv A A' Hi Hok Hs; cbn [agg_lines lines_effect].
  - intros [= <-]. eauto.
  - apply list.Forall_cons in Hok as [Hl Hok], Hs as [Hsl Hs]. intros (A1 & E1 & E2)%bind_Some.
    destruct (line_implements _ _ _ _ Hi Hl Hsl E1) as (sv1 & -> & Hi1). cbn [mbind option_bind]. by eapply IH.
Qed.

Lemma agg_lines_app ls1 ls2 : forall A, agg_lines A (ls1 ++ ls2) = A ← agg_lines A ls1; agg_lines A ls2.
Proof.
  induction ls1 as [|l ls1 IH]; intros A; cbn [app agg_lines]; [done|].
  destruct (agg_line A l); cbn [mbind option_bind]; [apply IH|done].
Qed.

(** The receive loop hands the lines of every datagram to the store, whatever
    is left in its buffer from the datagram before. *)
Lemma receive_implements ps : forall (w : recv_worker (S := server)) A A',
  implements (rw_server w) A -> Forall packet_ok ps -> Z.of_nat (length (rw_buffer w)) = MAX_PACKET_SIZE ->
  agg_lines A (concat (packet_lines <$> ps)) = Some A' ->
  exists w', receive w (datagram <$> ps) = Some w' /\ implements (rw_server w') A'.
Proof.
  induction ps as [|[l ls] ps IH]; intros w A A' Hi Hok Hbuf.
  { intros [= <-]. by exists w. }
  apply list.Forall_cons in Hok as [(Hl & Hs & Hlen) Hok]. cbn [fmap list_fmap concat receive].
  rewrite agg_lines_app. intros (A1 & E1 & E2)%bind_Some.
  destruct (lines_implements _ _ _ _ Hi Hl Hs E1) as (sv1 & Es & Hi1).
  cbn [statsd_run_recvmsg]. rewrite wr_n_in by lia. cbn [mbind option_bind]. change (Z.to_nat 0) with 0%nat.
  rewrite take_0. cbn [app Nat.add].
  destruct (drop (length (datagram (l, ls))) (rw_buffer w)) as [|c post] eqn:Ed.
  { apply (f_equal length) in Ed. rewrite length_drop in Ed. cbn [length] in Ed. lia. }
  pose proof (packet_loop_render ls l (rw_server w) [] post c (length (packet_text l ls)) Hl ltac:(lia)) as Hp.
  cbn [app length] in Hp. change (l :: ls) with (packet_lines (l, ls)) in Hp. rewrite Es in Hp. apply fmap_Some in Hp as ([st' m'] & Hp & ->).
  change (packet_text l ls) with (datagram (l, ls)) in Hp.
  assert (Hparse : brubeck_statsd_packet_parse (rw_server w) (datagram (l, ls) ++ c :: post) 0
            (Z.of_nat (length (datagram (l, ls)))) = Some (st', m')).
  { unfold brubeck_statsd_packet_parse. by rewrite Z.sub_0_r, Nat2Z.id. }
  rewrite Hparse. cbn [mbind option_bind]. apply packet_parse_length in Hparse.
  apply (IH _ A1 A'); [done|done| |done]. cbn [rw_buffer]. rewrite Hparse, length_app, <- Ed, length_drop. lia.
Qed.

(** ** A turn of a backend reports the aggregator's cells *)

Definition queue_keys (sv : server) (q : list nat) : list (list Z) :=
  omap (fun id => key <$> heap sv !! id) q.

Lemma queue_keys_shard sv A i b :
  implements sv A -> backends sv !! i = Some b ->
  queue_keys sv (b_queue b) ≡ₚ filter (fun k => shard_key (active_backends sv) k = i) (elements (dom A)).
Proof.
  intros Hi Hb. pose proof (im_wf _ _ Hi) as Hwf. apply NoDup_Permutation.
  - pose proof (proj1 (Forall_lookup _ _) (sv_once _ Hwf) _ _ Hb) as Hnd.
    assert (Hq : forall id, id ∈ b_queue b -> exists m, heap sv !! id = Some m /\ ht_find (table sv) (key m) = Some id).
    { intros id Hid. destruct (sv_queue _ Hwf _ _ _ Hb Hid) as (m & ? & ? & _). eauto. }
    unfold queue_keys. induction Hnd as [|id q Hni _ IH]; [apply base.NoDup_nil_2|]. cbn [omap list_omap].
    destruct (Hq id ltac:(left)) as (m & Hm & Hf). rewrite Hm. cbn [fmap option_fmap option_map].
    apply list.NoDup_cons. split; [|apply IH; intros j Hj; apply Hq; by right].
    intros (j & Hj & Hk)%list_elem_of_omap. apply fmap_Some in Hk as (m2 & Hm2 & Ek).
    destruct (Hq j ltac:(by right)) as (m3 & Hm3 & Hf3). assert (m3 = m2) as -> by congruence.
    rewrite <- Ek in Hf3. congruence.
  - apply list.NoDup_filter, NoDup_elements.
  - intros k. unfold queue_keys. rewrite list_elem_of_filter, elem_of_elements, elem_of_dom, list_elem_of_omap. split.
    + intros (id & Hid & (m & Hm & ->)%fmap_Some). destruct (sv_queue _ Hwf _ _ _ Hb Hid) as (m2 & Hm2 & Hf & Hsh).
      assert (m2 = m) as -> by congruence. split; [done|].
      destruct (implements_metric _ _ _ _ _ Hi Hf Hm) as (_ & _ & EA). exists (type m, as_ m). exact EA.
    + intros [Hsh [c Hc]]. rewrite (im_cells _ _ Hi) in Hc. apply bind_Some in Hc as (id & Hf & Hc).
      apply bind_Some in Hc as (m & Hm & _). exists id. destruct (sv_registered _ Hwf _ _ Hf) as (b2 & Hb2 & Hid).
      rewrite Hsh in Hb2. assert (b2 = b) as -> by congruence. split; [done|].
      destruct (implements_metric _ _ _ _ _ Hi Hf Hm) as (<- & _). by rewrite Hm.
Qed.

(** The samples of one metric of the queue are what the aggregator reports. *)
Lemma sampled_report sv A h' freq junk id es :
  implements sv A -> sampled (heap sv) h' freq junk id es -> listed sv id ->
  exists k, key <$> heap sv !! id = Some k /\
    (fst <$> A !! k <> Some BRUBECK_MT_INTERNAL_STATS -> es = agg_report A k freq junk).
Proof.
  intros Hi (m & Hm & Hs) [k Hf]. destruct (implements_metric _ _ _ _ _ Hi Hf Hm) as (Hk & Em & EA).
  exists k. rewrite Hm. split; [cbn; by rewrite Hk|]. intros Ht0.
  assert (Ht : type m <> BRUBECK_MT_INTERNAL_STATS) by (intros Et; apply Ht0; rewrite EA; cbn; by rewrite Et).
  rewrite (proj1 (Forall_lookup _ _) (im_active _ _ Hi) _ _ Hm) in Hs.
  cbn [Z.ltb Z.compare BRUBECK_EXPIRE_DISABLED BRUBECK_EXPIRE_ACTIVE] in Hs.
  change (BRUBECK_EXPIRE_DISABLED <? BRUBECK_EXPIRE_ACTIVE) with true in Hs. cbn match in Hs.
  destruct Hs as (s1 & s2 & m' & E & _). destruct (sample_keeps junk _ _ _ _ _ _ Ht E) as [-> _].
  unfold agg_report. rewrite EA. cbn [mbind option_bind].
  pose proof (sample_set_expire junk s1 no_stats m (expire m) freq m' es Ht E) as E2.
  replace (set_expire m (expire m)) with m in E2 by by destruct m. rewrite <- Em, E2. done.
Qed.

Lemma turn_reports sv A i b h' junk ess :
  implements sv A -> backends sv !! i = Some b ->
  Forall2 (sampled (heap sv) h' (b_sample_freq b) junk) (b_queue b) ess ->
  exists ps : list (list Z * list emission), ps.*2 = ess /\ ps.*1 = queue_keys sv (b_queue b) /\
    forall k es, (k, es) ∈ ps -> fst <$> A !! k <> Some BRUBECK_MT_INTERNAL_STATS ->
      es = agg_report A k (b_sample_freq b) junk.
Proof.
  intros Hi Hb. assert (Hl : Forall (listed sv) (b_queue b)).
  { apply Forall_forall. intros id Hid%list_elem_of_In.
    destruct (sv_queue _ (im_wf _ _ Hi) _ _ _ Hb Hid) as (m & _ & ? & _). by eexists. }
  induction 1 as [|id es q ess Hs _ IH]; [exists []; by split_and!; [..|intros ? ? ?%elem_of_nil]|].
  apply list.Forall_cons in Hl as [Hid Hl]. destruct (IH Hl) as (ps & E2 & E1 & Hps).
  destruct (sampled_report _ _ _ _ _ _ _ Hi Hs Hid) as (k & Hk & Hes).
  exists ((k, es) :: ps). rewrite !fmap_cons, E2, E1. cbn [fst snd queue_keys omap list_omap]. rewrite Hk.
  split_and!; [done|done|]. intros k' es' [[= -> ->]|Hin]%elem_of_cons; [done|by eapply Hps].
Qed.

Lemma init_implements nm tb freqs :
  (forall k, ht_find tb k = None) -> (1 <= length freqs <= 8)%nat -> key_fits nm -> Z.of_nat (length nm) <= 236 ->
  exists sv, brubeck_internal__init (fresh_server nm tb freqs) = Some sv /\
    active_backends sv = Z.of_nat (length freqs) /\
    implements sv {[ nm := (BRUBECK_MT_INTERNAL_STATS, As_other true) ]}.
Proof.
  intros Ht Hf Hk Hs.
  destruct (internal_init_run (fresh_server nm tb freqs))
    as (sv & id & m & E & Hwf & _ & Hid & Hm & Hkm & Htm & Ham & Hin); [by apply fresh_server_wf|done|apply Ht|].
  exists sv. split; [done|]. split; [apply Hin|]. cbn [fresh_server name] in *.
  pose proof (ii_keys _ _ Hin) as Hkeys. pose proof (ii_expire _ _ Hin) as Hexp. cbn in Hkeys, Hexp.
  destruct (heap sv) as [|m0 [|]] eqn:Eh; try done. cbn in Hkeys, Hexp. injection Hkeys as Hk0. injection Hexp as He0.
  assert (id = 0%nat /\ m0 = m) as [-> ->].
  { apply list_lookup_singleton_Some in Hm as [<- <-]. done. }
  split.
  - done.
  - unfold initialised. rewrite Eh. repeat constructor. by rewrite Ham.
  - rewrite Eh. by repeat constructor.
  - rewrite Eh. repeat constructor. by rewrite Hk0.
  - by rewrite (ii_capacity _ _ Hin).
  - intros k. destruct (decide (k = nm)) as [->|Hne].
    + rewrite lookup_singleton_eq, Hid. cbn [mbind option_bind]. rewrite Eh. cbn. by rewrite Htm, Ham.
    + rewrite lookup_singleton_ne by done. destruct (ht_find (table sv) k) as [id|] eqn:Hf2; [|done]. exfalso.
      destruct (sv_find _ Hwf _ _ Hf2) as (m2 & Hm2 & <-). rewrite Eh in Hm2.
      apply list_lookup_singleton_Some in Hm2 as [_ <-]. congruence.
Qed.

(** C1: from datagrams to Carbon.  A server that starts with one to eight
    backends and is sent datagrams of well-formed lines takes them all, and its
    backends then report to Carbon what an aggregator that is a map from keys
    to metrics reports: Carbon decodes from the bytes that a backend, connected
    or getting connected with its buffer enlarged, sends in a turn the reports
    of exactly the keys of the backend's shard, each key once, with the turn's
    timestamp.  (The server's own metric reports its counters.) *)
Theorem pipeline_refines (nm : list Z) (tb : T) (freqs : list Z) (ps : list packet) (A : aggregate)
  (buffer : list Z)
  (Hempty : forall k, ht_find tb k = None) (Hfreqs : (1 <= length freqs <= 8)%nat)
  (Hname : key_fits nm) (Hshort : Z.of_nat (length nm) <= 236)
  (Hps : Forall packet_ok ps) (Hbuf : Z.of_nat (length buffer) = MAX_PACKET_SIZE)
  (Hagg : agg_lines {[ nm := (BRUBECK_MT_INTERNAL_STATS, As_other true) ]} (concat (packet_lines <$> ps)) = Some A) :
  exists sv0 w,
    brubeck_internal__init (fresh_server nm tb freqs) = Some sv0 /\
    receive {| rw_server := sv0; rw_inflow := 0; rw_buffer := buffer |} (datagram <$> ps) = Some w /\
    forall i b c junk fd rc so clock rs,
      backends (rw_server w) !! i = Some b -> pickler_inv (pickler_ c) [] ->
      carbon_is_connected c = true \/ 0 <= fd /\ rc = 0 /\ so <> -1 -> 0 <= clock < 2 ^ 31 ->
      Forall accepting rs -> (12 * length (b_queue b) < length rs)%nat ->
      exists c' s' h' out rs' reports,
        backend__thread true c (internal_stats (rw_server w)) (heap (rw_server w)) b junk fd rc so clock rs
          = Some (c', s', h', out, rs') /\
        decode_stream (length out) out = Some (carbon_entry clock <$> concat reports.*2) /\
        reports.*1 ≡ₚ filter (fun k => shard_key (active_backends (rw_server w)) k = i) (elements (dom A)) /\
        forall k es, (k, es) ∈ reports -> fst <$> A !! k <> Some BRUBECK_MT_INTERNAL_STATS ->
          es = agg_report A k (b_sample_freq b) junk.
Proof.
  destruct (init_implements nm tb freqs Hempty Hfreqs Hname Hshort) as (sv0 & E0 & _ & Hi0).
  destruct (receive_implements ps {| rw_server := sv0; rw_inflow := 0; rw_buffer := buffer |} _ A Hi0 Hps Hbuf Hagg)
    as (w & Ew & Hi).
  exists sv0, w. split; [done|]. split; [done|].
  intros i b c junk fd rc so clock rs Hb Hp Hconn Hclock Hrs Hlen.
  destruct (backend_turn_run (rw_server w) i b c junk fd rc so clock rs (im_wf _ _ Hi) (im_init _ _ Hi) Hb Hp Hconn Hclock)
    as (s' & h' & es & c' & out & rs' & Eq & Et & _ & _ & _ & Hd); [|done|done|].
  { intros id m _ Hm. exact (proj1 (Forall_lookup _ _) (im_short _ _ Hi) _ _ Hm). }
  pose proof (proj1 (Forall_lookup _ _) (sv_once _ (im_wf _ _ Hi)) _ _ Hb) as Hnd.
  destruct (sample_queue_run _ _ _ _ _ _ _ _ Hnd Eq) as (_ & ess & -> & Hess).
  destruct (turn_reports _ _ _ _ _ _ _ Hi Hb Hess) as (reps & <- & E1 & Hrep).
  exists c', s', h', out, rs', reps. split_and!; [done|done| |done]. rewrite E1. by apply queue_keys_shard.
Qed.

End Pipeline.

(** ** An example *)

Definition demo_packets : list packet :=
  [({| l_key := bytes "hits"; l_num := {| num_sign := None; num_int := [3]; num_frac := None |};
       l_type := BRUBECK_MT_METER; l_rate := None |},
    [{| l_key := bytes "load"; l_num := {| num_sign := None; num_int := [7]; num_frac := None |};
        l_type := BRUBECK_MT_GAUGE; l_rate := None |}]);
   ({| l_key := bytes "hits"; l_num := {| num_sign := None; num_int := [4]; num_frac := None |};
       l_type := BRUBECK_MT_METER;
       l_rate := Some {| num_sign := None; num_int := [0]; num_frac := Some [5] |} |}, [])].

Example demo_datagrams : datagram <$> demo_packets = [bytes "hits:3|c" ++ [10] ++ bytes "load:7|g"; bytes "hits:4|c|@0.5"].
Proof. reflexivity. Qed.

Definition demo_start : aggregate := {[ bytes "brubeck" := (BRUBECK_MT_INTERNAL_STATS, As_other true) ]}.

Definition demo_aggregate : aggregate :=
  default demo_start (agg_lines demo_start (concat (packet_lines <$> demo_packets))).

(** Three hits, and four more that stand for eight. *)
Example demo_reports :
  agg_report demo_aggregate (bytes "hits") 10 7 = [(bytes "hits", F64 11)] /\
  agg_report demo_aggregate (bytes "load") 10 7 = [(bytes "load", F64 7)].
Proof. vm_compute. split; reflexivity. Qed.

Lemma demo_packets_ok : Forall packet_ok demo_packets.
Proof.
  repeat constructor; cbn; try discriminate; try lia; by (intros E; vm_compute in E; congruence).
Qed.

Lemma pipeline_refines_witness :
  exists sv0 w,
    brubeck_internal__init demo_fresh = Some sv0 /\
    receive {| rw_server := sv0; rw_inflow := 0; rw_buffer := replicate (Z.to_nat MAX_PACKET_SIZE) 7 |}
      (datagram <$> demo_packets) = Some w /\
    forall i b c junk fd rc so clock rs,
      backends (rw_server w) !! i = Some b -> pickler_inv (pickler_ c) [] ->
      carbon_is_connected c = true \/ 0 <= fd /\ rc = 0 /\ so <> -1 -> 0 <= clock < 2 ^ 31 ->
      Forall accepting rs -> (12 * length (b_queue b) < length rs)%nat ->
      exists c' s' h' out rs' reports,
        backend__thread true c (internal_stats (rw_server w)) (heap (rw_server w)) b junk fd rc so clock rs
          = Some (c', s', h', out, rs') /\
        decode_stream (length out) out = Some (carbon_entry clock <$> concat reports.*2) /\
        reports.*1 ≡ₚ filter (fun k => shard_key (active_backends (rw_server w)) k = i) (elements (dom demo_aggregate)) /\
        forall k es, (k, es) ∈ reports -> fst <$> demo_aggregate !! k <> Some BRUBECK_MT_INTERNAL_STATS ->
          es = agg_report demo_aggregate k (b_sample_freq b) junk.
Proof.
  apply (pipeline_refines (bytes "brubeck") (∅ : gmap (list Z) nat) [10; 10; 30] demo_packets demo_aggregate
           (replicate (Z.to_nat MAX_PACKET_SIZE) 7)).
  - intros k. apply lookup_empty.
  - simpl. lia.
  - apply demo_key_fits; [reflexivity|simpl; lia].
  - simpl. lia.
  - exact demo_packets_ok.
  - rewrite length_replicate. reflexivity.
  - vm_compute. reflexivity.
Defined.

End Pipeline.
