(* ===== verification/Server.v ===== *)
(** * The server's main loop ([src/server.c])

    The loop reacts to signals and to two timers: it dumps the metrics, resets
    the flow counters and expires metrics.  The log that SIGHUP opens again and
    the process title are added in [Main]; the configuration is read in
    [Config], with [get_config_name] from here. *)

From stdpp Require Import sets.
From S2P Require Import Prelude Value Metric Internal Net Statsd Store.
Import Metric Internal Net Store.

Module Server.

(** ** Sampler flows *)

Definition set_flow (s : brubeck_sampler) (inf cur : Z) : brubeck_sampler :=
  {| sampler_type := sampler_type s; in_sock := in_sock s; addr := addr s; inflow := inf; current_flow := cur |}.

(** The two assignments of [update_flows] for one sampler. *)
Definition flow_read (s : brubeck_sampler) : brubeck_sampler :=
  set_flow s (inflow s) (inflow s).
Definition flow_reset (s : brubeck_sampler) : brubeck_sampler :=
  set_flow s 0 (current_flow s).

Definition update_flow (s : brubeck_sampler) : brubeck_sampler := flow_reset (flow_read s).

(** The loop over the active samplers. *)
Fixpoint update_flows (n : nat) (i : Z) (ss : list brubeck_sampler) : option (list brubeck_sampler) :=
  match n with
  | O => Some ss
  | S n => s ← rd ss i; ss ← wr ss i (update_flow s); update_flows n (i + 1) ss
  end.

(** A packet counted by a worker: [brubeck_atomic_inc(&sampler.inflow)]. *)
Definition flow_inc (s : brubeck_sampler) : brubeck_sampler :=
  set_flow s (u64 (inflow s + 1)) (current_flow s).

(** ** Configuration *)

(** The part of a string behind the last [c] ([strrchr], plus one), if any. *)
Fixpoint after_last (c : Z) (s : list Z) : option (list Z) :=
  match s with
  | [] => None
  | b :: s' =>
      match after_last c s' with
      | Some r => Some r
      | None => if b =? c then Some s' else None
      end
  end.

(** The part of a string before the last [c]. *)
Fixpoint before_last (c : Z) (s : list Z) : option (list Z) :=
  match s with
  | [] => None
  | b :: s' =>
      match before_last c s' with
      | Some r => Some (b :: r)
      | None => if b =? c then Some [] else None
      end
  end.

Definition get_config_name (full_path : list Z) : list Z :=
  let config_name := default full_path (after_last (chr "/") full_path) in
  default config_name (before_last (chr ".") config_name).

(** ** The dump of all metrics *)

Definition metric_type_name (t : brubeck_metric_t) : string :=
  match t with
  | BRUBECK_MT_GAUGE => "g"
  | BRUBECK_MT_METER => "c"
  | BRUBECK_MT_COUNTER => "C"
  | BRUBECK_MT_HISTO => "h"
  | BRUBECK_MT_TIMER => "ms"
  | BRUBECK_MT_INTERNAL_STATS => "internal"
  end.

Definition dump_metric (m : brubeck_metric) : list Z :=
  key m ++ bytes "|" ++ bytes (metric_type_name (type m)) ++ [10].

Section Loop.
Context {T : Type} `{HashTable T}.

Fixpoint dump_entries (es : list (list Z * nat)) (h : list brubeck_metric) : option (list Z) :=
  match es with
  | [] => Some []
  | (_, id) :: es => m ← h !! id; rest ← dump_entries es h; Some (dump_metric m ++ rest)
  end.

(** The state of the loop: the store, the samplers, [running], and what has
    been written to the dump file. *)
Record server_state := {
  ss_store : brubeck_server (T := T);
  ss_samplers : list brubeck_sampler;
  ss_active_samplers : Z;
  ss_running : bool;
  ss_dump : list Z;
}.

Inductive signal := SIGHUP | SIGUSR2 | SIGINT | SIGTERM.

(** What a poll returns: a failure, or the signal read and the timers that
    have elapsed. *)
Inductive poll :=
| PollFailed
| Polled (sig : option signal) (update expire : bool).

(** What a descriptor reports: [revents], the size that [read] returns and, for
    the signals, the number read. *)
Record ready := { revents : Z; read_size : Z; ssi_signo : Z }.

Definition POLLIN : Z := 1.

Definition timer_elapsed (fd : ready) : bool :=
  if negb (Z.land (revents fd) POLLIN =? 0) then read_size fd =? 8 else false.

(** [sizeof(struct signalfd_siginfo)] is 128. *)
Definition signal_triggered (fd : ready) : Z :=
  if negb (Z.land (revents fd) POLLIN =? 0) then if read_size fd =? 128 then ssi_signo fd else -1 else -1.

(** The cases of the [switch]. *)
Definition signal_of (signo : Z) : option signal :=
  if signo =? 1 then Some SIGHUP else if signo =? 12 then Some SIGUSR2
  else if signo =? 2 then Some SIGINT else if signo =? 15 then Some SIGTERM else None.

(** A poll of the descriptors: the third is polled only when there is an expiry
    timer, and is zero otherwise. *)
Definition poll_fds (fd_expire rc : Z) (sig upd exp : ready) : poll :=
  if rc <? 0 then PollFailed
  else Polled (signal_of (signal_triggered sig)) (timer_elapsed upd)
         (timer_elapsed (if 0 <=? fd_expire then exp else {| revents := 0; read_size := 0; ssi_signo := 0 |})).

Definition dump_all_metrics (st : server_state) (can_open : bool) : option server_state :=
  if can_open then
    d ← dump_entries (ht_entries (table (ss_store st))) (heap (ss_store st));
    Some {| ss_store := ss_store st; ss_samplers := ss_samplers st;
            ss_active_samplers := ss_active_samplers st; ss_running := ss_running st; ss_dump := d |}
  else Some st.

Definition on_signal (st : server_state) (sig : option signal) (can_open : bool) : option server_state :=
  match sig with
  | None | Some SIGHUP => Some st
  | Some SIGUSR2 => dump_all_metrics st can_open
  | Some SIGINT | Some SIGTERM =>
      Some {| ss_store := ss_store st; ss_samplers := ss_samplers st;
              ss_active_samplers := ss_active_samplers st; ss_running := false;
              ss_dump := ss_dump st |}
  end.

(** The body of the loop of [brubeck_server_run]. *)
Definition server_turn (st : server_state) (p : poll) (can_open : bool) : option server_state :=
  match p with
  | PollFailed => Some st
  | Polled sig update expire =>
      st ← on_signal st sig can_open;
      ss ← (if update then update_flows (Z.to_nat (ss_active_samplers st)) 0 (ss_samplers st)
            else Some (ss_samplers st));
      sv ← (if expire then expire_all (ss_store st) else Some (ss_store st));
      Some {| ss_store := sv; ss_samplers := ss; ss_active_samplers := ss_active_samplers st;
              ss_running := ss_running st; ss_dump := ss_dump st |}
  end.

(** The loop, with the polls that it still has; [None] also when the polls
    run out while it is running. *)
Fixpoint brubeck_server_run (st : server_state) (ps : list (poll * bool))
    : option (server_state * list (poll * bool)) :=
  if ss_running st then
    match ps with
    | [] => None
    | (p, can_open) :: ps => st ← server_turn st p can_open; brubeck_server_run st ps
    end
  else Some (st, ps).

(** ** The loop *)

Lemma update_flows_run n : forall i ss,
  0 <= i -> i + Z.of_nat n <= Z.of_nat (length ss) ->
  exists ss', update_flows n i ss = Some ss' /\ length ss' = length ss /\
    forall j, ss' !! j = if decide (i <= Z.of_nat j < i + Z.of_nat n) then update_flow <$> ss !! j
                         else ss !! j.
Proof.
  induction n as [|n IH]; intros i ss Hi Hn; cbn [update_flows].
  - exists ss. split_and!; [done|done|]. intros j. rewrite decide_False by lia. done.
  - destruct (rd_is_Some ss i ltac:(lia)) as [x Hx]. rewrite Hx. cbn [mbind option_bind].
    rewrite wr_in by lia. cbn [mbind option_bind].
    assert (Hl : ss !! Z.to_nat i = Some x) by (unfold rd in Hx; by case_match).
    destruct (IH (i + 1) (<[Z.to_nat i := update_flow x]> ss)) as (ss' & -> & Hlen & Hlook);
      rewrite ?length_insert in *; [lia|lia|].
    exists ss'. split_and!; [done|done|]. intros j. rewrite Hlook.
    destruct (decide (j = Z.to_nat i)) as [->|Hne].
    + rewrite decide_False by lia. rewrite decide_True by lia. rewrite Hl.
      rewrite list_lookup_insert_eq by lia. done.
    + rewrite list_lookup_insert_ne by done. apply decide_ext. lia.
Qed.

Lemma dump_entries_run es h :
  (forall k id, (k, id) ∈ es -> is_Some (h !! id)) -> is_Some (dump_entries es h).
Proof.
  induction es as [|[k id] es IH]; intros Hin; cbn [dump_entries]; [eauto|].
  destruct (Hin k id) as [m ->]; [left|]. cbn [mbind option_bind].
  destruct IH as [d ->]; [intros k' id' Hid; apply (Hin k'); by right|]. eauto.
Qed.

Record state_wf (st : server_state) : Prop := {
  st_store : server_wf (ss_store st);
  st_samplers : 0 <= ss_active_samplers st <= Z.of_nat (length (ss_samplers st));
}.

Definition stops (p : poll) : bool :=
  match p with
  | Polled (Some SIGINT) _ _ | Polled (Some SIGTERM) _ _ => true
  | _ => false
  end.

Context `{!HashTableLaws T}.

Lemma on_signal_run st sig can_open :
  state_wf st ->
  exists st', on_signal st sig can_open = Some st' /\ state_wf st' /\
    ss_running st' = ss_running st && negb (match sig with Some SIGINT | Some SIGTERM => true | _ => false end).
Proof.
  intros [Hwf Hs]. destruct sig as [[| | |]|]; cbn [on_signal].
  - exists st. rewrite andb_true_r. by split_and!.
  - unfold dump_all_metrics. destruct can_open; [|exists st; rewrite andb_true_r; by split_and!].
    destruct (dump_entries_run (ht_entries (table (ss_store st))) (heap (ss_store st))) as [d ->].
    { intros k id Hid. apply ht_entries_find in Hid. destruct (sv_find _ Hwf _ _ Hid) as (m & -> & _). done. }
    cbn [mbind option_bind]. eexists. split; [done|]. cbn [ss_running]. rewrite andb_true_r. done.
  - eexists. split; [done|]. rewrite andb_false_r. done.
  - eexists. split; [done|]. rewrite andb_false_r. done.
  - exists st. rewrite andb_true_r. by split_and!.
Qed.

Lemma server_turn_run st p can_open :
  state_wf st ->
  exists st', server_turn st p can_open = Some st' /\ state_wf st' /\
    ss_running st' = ss_running st && negb (stops p).
Proof.
  intros Hwf. destruct p as [|sig upd exp]; cbn [server_turn].
  { exists st. rewrite andb_true_r. by split_and!. }
  destruct (on_signal_run st sig can_open Hwf) as (st1 & -> & [Hwf1 Hs1] & Hr). cbn [mbind option_bind].
  assert (Hu : exists ss, (if upd then update_flows (Z.to_nat (ss_active_samplers st1)) 0 (ss_samplers st1)
                           else Some (ss_samplers st1)) = Some ss /\ length ss = length (ss_samplers st1)).
  { destruct upd; [|eauto].
    destruct (update_flows_run (Z.to_nat (ss_active_samplers st1)) 0 (ss_samplers st1)) as (ss & -> & Hl & _);
      [lia|lia|eauto]. }
  destruct Hu as (ss & -> & Hl). cbn [mbind option_bind].
  assert (He : exists sv, (if exp then expire_all (ss_store st1) else Some (ss_store st1)) = Some sv /\
            server_wf sv).
  { destruct exp; [|eauto]. destruct (expire_all_run _ Hwf1) as (sv & -> & ? & _). eauto. }
  destruct He as (sv & -> & Hsv). cbn [mbind option_bind]. eexists. split; [done|].
  split; [by split; cbn [ss_store ss_samplers ss_active_samplers]; rewrite ?Hl|]. cbn [ss_running].
  rewrite Hr. by destruct sig as [[| | |]|].
Qed.

(** Without an expiry timer no metric expires in a turn. *)
Lemma no_expiry st fd_expire rc sig upd exp can_open st' :
  fd_expire < 0 -> server_turn st (poll_fds fd_expire rc sig upd exp) can_open = Some st' ->
  heap (ss_store st') = heap (ss_store st).
Proof.
  intros Hfd. unfold poll_fds. destruct (rc <? 0); cbn [server_turn]; [by intros [= <-]|].
  destruct (Z.leb_spec 0 fd_expire); [lia|]. 
  change (timer_elapsed {| revents := 0; read_size := 0; ssi_signo := 0 |}) with false. intros E.
  apply bind_Some in E as (st1 & Hsig & E). apply bind_Some in E as (ss & _ & [= <-]). cbn [ss_store].
  destruct (signal_of _) as [[| | |]|]; cbn [on_signal] in Hsig; try (by injection Hsig as <-).
  unfold dump_all_metrics in Hsig. destruct can_open; [|by injection Hsig as <-].
  by apply bind_Some in Hsig as (d & _ & [= <-]).
Qed.

(** What a turn leaves alone. *)
Lemma update_flows_length n : forall i ss ss', update_flows n i ss = Some ss' -> length ss' = length ss.
Proof.
  induction n as [|n IH]; intros i ss ss' E; cbn [update_flows] in E; [by injection E as <-|].
  apply bind_Some in E as (s & _ & E). apply bind_Some in E as (ss1 & Hw & E).
  rewrite (IH _ _ _ E). by apply (wr_length _ _ _ _ Hw).
Qed.

Lemma server_turn_frame st p can_open st' :
  server_turn st p can_open = Some st' ->
  active_backends (ss_store st') = active_backends (ss_store st) /\
  ss_active_samplers st' = ss_active_samplers st /\ length (ss_samplers st') = length (ss_samplers st).
Proof.
  destruct p as [|sig upd exp]; cbn [server_turn]; [by intros [= <-]|]. intros E.
  apply bind_Some in E as (st1 & Hsig & E). apply bind_Some in E as (ss & Hss & E).
  apply bind_Some in E as (sv & Hsv & [= <-]). cbn [ss_store ss_samplers ss_active_samplers].
  assert (H1 : ss_store st1 = ss_store st /\ ss_active_samplers st1 = ss_active_samplers st /\
            ss_samplers st1 = ss_samplers st).
  { destruct sig as [[| | |]|]; cbn [on_signal] in Hsig; try (injection Hsig as <-; done).
    unfold dump_all_metrics in Hsig. destruct can_open; [|by injection Hsig as <-].
    apply bind_Some in Hsig as (d & _ & [= <-]). done. }
  destruct H1 as (Es & Ea & Ess). split_and!; [|done|].
  - rewrite <- Es. destruct exp; [|by injection Hsv as <-].
    unfold expire_all in Hsv. apply bind_Some in Hsv as (h & _ & [= <-]). done.
  - rewrite <- Ess. destruct upd; [by apply update_flows_length in Hss|by injection Hss as <-].
Qed.

(** C35: the main loop serves until it is told to stop: whatever signals and
    timers it meets, the store and the samplers stay consistent, and the loop
    ends with the first SIGINT or SIGTERM, the polls behind it untouched. *)
Theorem server_run_stops (st : server_state) (ps ps' : list (poll * bool)) (p : poll) (o : bool)
  (Hwf : state_wf st) (Hrun : ss_running st = true)
  (Hps : Forall (fun q => stops q.1 = false) ps) (Hp : stops p = true) :
  exists st', brubeck_server_run st (ps ++ (p, o) :: ps') = Some (st', ps') /\ state_wf st' /\
    ss_running st' = false.
Proof.
  revert st Hwf Hrun. induction Hps as [|[q oq] ps Hq _ IH]; intros st Hwf Hrun; cbn [app brubeck_server_run];
    rewrite Hrun.
  - destruct (server_turn_run st p o Hwf) as (st' & -> & Hwf' & Hr). cbn [mbind option_bind].
    rewrite Hrun, Hp in Hr. exists st'. split; [|done]. destruct ps'; cbn [brubeck_server_run]; by rewrite Hr.
  - destruct (server_turn_run st q oq Hwf) as (st' & -> & Hwf' & Hr). cbn [mbind option_bind].
    cbn [fst] in Hq. rewrite Hrun, Hq in Hr. by apply IH.
Qed.
End Loop.

Definition demo_sampler : brubeck_sampler :=
  {| sampler_type := BRUBECK_SAMPLER_STATSD; in_sock := 5;
     addr := {| sin_family := AF_INET; sin_port := htons 8126; sin_addr := replicate 4 0 |};
     inflow := 7; current_flow := 2 |}.

Definition demo_state : server_state :=
  {| ss_store := demo_server; ss_samplers := [demo_sampler];
     ss_active_samplers := 1; ss_running := true; ss_dump := [] |}.

Lemma demo_state_wf : state_wf demo_state.
Proof. split; [apply demo_server_wf|simpl; lia]. Qed.

Lemma server_run_stops_witness :
  exists st', brubeck_server_run demo_state
      ([(Polled None true false, true); (PollFailed, true); (Polled (Some SIGUSR2) false true, true)] ++
       (Polled (Some SIGTERM) true true, true) :: [(PollFailed, true)]) = Some (st', [(PollFailed, true)]) /\
    state_wf st' /\ ss_running st' = false.
Proof.
  apply (server_run_stops demo_state
    [(Polled None true false, true); (PollFailed, true); (Polled (Some SIGUSR2) false true, true)]
    [(PollFailed, true)] (Polled (Some SIGTERM) true true) true demo_state_wf);
    [reflexivity|repeat constructor|reflexivity].
Defined.

(** ** Flows *)

(** A packet counted between the two assignments of [update_flows] is lost: it
    is in neither counter afterwards. *)
Lemma flow_race s : flow_reset (flow_inc (flow_read s)) = update_flow s.
Proof. done. Qed.

(** ** The arrays of the configuration *)

(** ** The name of the configuration *)

Lemma after_last_none c s : c ∉ s -> after_last c s = None.
Proof.
  induction s as [|b s IH]; intros Hs; cbn [after_last]; [done|].
  apply not_elem_of_cons in Hs as [Hb Hs]. rewrite IH by done. destruct (Z.eqb_spec b c); congruence.
Qed.

Lemma after_last_app c pre s : c ∉ s -> after_last c (pre ++ c :: s) = Some s.
Proof.
  intros Hs. induction pre as [|b pre IH]; cbn [app after_last].
  - by rewrite after_last_none, Z.eqb_refl.
  - by rewrite IH.
Qed.

Lemma before_last_none c s : c ∉ s -> before_last c s = None.
Proof.
  induction s as [|b s IH]; intros Hs; cbn [before_last]; [done|].
  apply not_elem_of_cons in Hs as [Hb Hs]. rewrite IH by done. destruct (Z.eqb_spec b c); congruence.
Qed.

Lemma before_last_app c pre s : c ∉ s -> before_last c (pre ++ c :: s) = Some pre.
Proof.
  intros Hs. induction pre as [|b pre IH]; cbn [app before_last].
  - by rewrite before_last_none, Z.eqb_refl.
  - by rewrite IH.
Qed.

(** The name of [dir/name.ext] is [name], whatever dots the name has. *)
Lemma config_name_of_path dir nm ext :
  chr "/" ∉ nm ++ chr "." :: ext -> chr "." ∉ ext ->
  get_config_name (dir ++ chr "/" :: nm ++ chr "." :: ext) = nm.
Proof.
  intros Hs He. unfold get_config_name. rewrite after_last_app by done. cbn [from_option].
  unfold id. rewrite before_last_app by done. done.
Qed.

Example config_name_example : get_config_name (bytes "/etc/brubeck/prod.json") = bytes "prod".
Proof. reflexivity. Qed.
End Server.
