(* ===== verification/Http.v ===== *)
(** * The HTTP endpoint ([src/http.c])

    Requests are answered by a thread of libmicrohttpd: the status of the
    daemon, its statistics, one metric, or the expiry of a metric by name.  A
    response is its status code, its headers and its body; a JSON body is the
    document that jansson serialises.  In the build without
    [BRUBECK_METRICS_FLOW], modelled here, [flow_stats] has no answer; [Flow] has
    the other one. *)

From stdpp Require Import gmap sets.
From S2P Require Import Prelude Value Metric Internal Utils Net Json Carbon Statsd Store Server.
Import Metric Internal Utils Net Json Carbon Store Server.

Module Http.

(** ** Addresses *)

(** [inet_ntop] of an IPv4 address, given by its bytes in network order. *)
Fixpoint dotted (l : list Z) : list Z :=
  match l with
  | [] => []
  | [b] => sprintf_d b
  | b :: l => sprintf_d b ++ chr "." :: dotted l
  end.

(** ** The state a request sees *)

(** A Carbon backend: what [struct brubeck_carbon] has besides the connection
    and the buffer ([brubeck_carbon] of [Carbon]) and the queue ([Store]).
    [hb_pickle] says which callbacks [sample] and [flush] hold. *)
Record http_backend := {
  hb_sample_freq : Z;
  hb_shard_n : Z;
  hb_pickle : bool;
  hb_addr : sockaddr_in;
  hb_carbon : brubeck_carbon;
}.

Inductive body :=
| Empty
| Text (s : string)
| Document (j : json).

Record reply := { code : Z; headers : list (string * string); content : body }.

Section Http.
Context {T : Type} `{HashTable T} `{Jansson}.
Context (version : list Z) (getpid : Z).

Record http_server := {
  hv_store : brubeck_server (T := T);
  hv_backends : list http_backend;
  hv_samplers : list brubeck_sampler;
  hv_active_samplers : Z;
}.

Definition set_store (hv : http_server) (sv : brubeck_server) : http_server :=
  {| hv_store := sv; hv_backends := hv_backends hv; hv_samplers := hv_samplers hv;
     hv_active_samplers := hv_active_samplers hv |}.

(** [brubeck_stats_sample]: the value of the last sampling. *)
Definition brubeck_stats_sample (hv : http_server) (f : stat) : Z :=
  Internal.sample (internal_stats (hv_store hv)) f.

(** ** Handlers *)

(** The pointer to the metric.  [key] is a C string, without its terminator. *)
Definition safe_lookup_metric (sv : brubeck_server) (key : list Z) : option nat :=
  brubeck_hashtable_find (table sv) key (u16 (Z.of_nat (length key))).

(** The handlers that may have no answer return a null response as [None]
    inside the outer option. *)
Definition expire_metric (hv : http_server) (url : list Z) : option (http_server * option body) :=
  match safe_lookup_metric (hv_store hv) (drop 8 url) with
  | Some id =>
      m ← heap (hv_store hv) !! id;
      let m := set_expire m BRUBECK_EXPIRE_DISABLED in
      Some (set_store hv (set_heap (hv_store hv) (<[id := m]> (heap (hv_store hv)))), Some Empty)
  | None => Some (hv, None)
  end.

Definition metric_type (t : brubeck_metric_t) : string :=
  match t with
  | BRUBECK_MT_GAUGE => "gauge"
  | BRUBECK_MT_METER => "meter"
  | BRUBECK_MT_COUNTER => "counter"
  | BRUBECK_MT_HISTO => "histogram"
  | BRUBECK_MT_TIMER => "timer"
  | BRUBECK_MT_INTERNAL_STATS => "internal"
  end.

Definition expire_status : list string := ["disabled"; "inactive"; "active"]%string.

Definition send_metric (hv : http_server) (url : list Z) : option (option body) :=
  match safe_lookup_metric (hv_store hv) (drop 8 url) with
  | Some id =>
      m ← heap (hv_store hv) !! id;
      status ← rd expire_status (expire m);
      mj ← js_object [("key"%string, js_string (key m));
                      ("type"%string, js_string (bytes (metric_type (type m))));
                      ("shard"%string, js_int 0);
                      ("expire"%string, js_string (bytes status))];
      Some (Some (Document mj))
  | None => Some None
  end.

Definition backend_stats (b : http_backend) : option json :=
  js_object [("type"%string, js_string (bytes "carbon"));
             ("sample_freq"%string, js_int (hb_sample_freq b));
             ("connected"%string, Some (JBool (0 <=? out_sock (hb_carbon b))));
             ("address"%string, js_string (dotted (sin_addr (hb_addr b))));
             ("port"%string, js_int (ntohs (sin_port (hb_addr b))));
             ("sent"%string, Some (JInteger (s64 (sent (hb_carbon b)))))].

Definition sampler_name (t : brubeck_sampler_t) : string :=
  match t with
  | BRUBECK_SAMPLER_STATSD => "statsd"
  | BRUBECK_SAMPLER_STATSD_SECURE => "statsd_secure"
  end.

Definition sampler_stats (s : brubeck_sampler) : option json :=
  js_object [("type"%string, js_string (bytes (sampler_name (sampler_type s))));
             ("sample_freq"%string, js_real (F64 (current_flow s)));
             ("address"%string, js_string (dotted (sin_addr (addr s))));
             ("port"%string, js_int (ntohs (sin_port (addr s))))].

(** The loops over the first [n] elements of the arrays.  [json_array_append_new]
    of a null pointer appends nothing. *)
Fixpoint collect {A : Type} (f : A -> option json) (n : nat) (i : Z) (l : list A) : option (list json) :=
  match n with
  | O => Some []
  | S n =>
      x ← rd l i;
      js ← collect f n (i + 1) l;
      Some (match f x with Some j => j :: js | None => js end)
  end.

Definition send_stats (hv : http_server) : option body :=
  backends ← collect backend_stats (Z.to_nat (active_backends (hv_store hv))) 0 (hv_backends hv);
  samplers ← collect sampler_stats (Z.to_nat (hv_active_samplers hv)) 0 (hv_samplers hv);
  let stat f := js_int (brubeck_stats_sample hv f) in
  secure ← js_object [("failed"%string, stat secure_failed); ("from_future"%string, stat secure_from_future);
                      ("delayed"%string, stat secure_delayed); ("replayed"%string, stat secure_replayed)];
  Document <$> js_object [("version"%string, js_string version); ("metrics"%string, stat metrics);
                          ("errors"%string, stat errors); ("unique_keys"%string, stat unique_keys);
                          ("secure"%string, Some secure); ("backends"%string, Some (JArray backends));
                          ("samplers"%string, Some (JArray samplers))].

(** The loop over the backends stops at the first that is not connected. *)
Fixpoint backends_status (n : nat) (i : Z) (l : list http_backend) : option string :=
  match n with
  | O => Some "OK"%string
  | S n =>
      b ← rd l i;
      if negb (carbon_is_connected (hb_carbon b)) then Some "ERROR (backend disconnected)"%string
      else backends_status n (i + 1) l
  end.

Definition send_ping (hv : http_server) : option body :=
  let frequency := F64 (sample_freq (internal_stats (hv_store hv))) in
  status ← backends_status (Z.to_nat (active_backends (hv_store hv))) 0 (hv_backends hv);
  let per_second f := js_real (fdiv (F64 (brubeck_stats_sample hv f)) frequency) in
  Document <$> js_object [("version"%string, js_string version); ("pid"%string, js_int getpid);
                          ("status"%string, js_string (bytes status));
                          ("metrics_per_second"%string, per_second metrics);
                          ("errors_per_second"%string, per_second errors);
                          ("unique_keys"%string, js_int (brubeck_stats_sample hv unique_keys))].

Definition flow_stats (hv : http_server) : option body := None.

(** ** Routing *)

(** [starts_with(url, prefix)], on strings without their terminators. *)
Definition url_starts (url : list Z) (prefix : string) : bool :=
  default false (starts_with (url ++ [0]) (bytes prefix ++ [0])).

Definition respond (response : option body) : reply :=
  match response with
  | None => {| code := 404; headers := [("Connection", "close")]; content := Text "404 not found" |}
  | Some b => {| code := 200;
                 headers := [("Connection", "close"); ("Content-Type", "application/json")];
                 content := b |}
  end%string.

Definition route (hv : http_server) (url method : list Z) : option (http_server * option body) :=
  if bool_decide (method = bytes "GET") then
    if bool_decide (url = bytes "/_ping") || bool_decide (url = bytes "/ping") then
      b ← send_ping hv; Some (hv, Some b)
    else if bool_decide (url = bytes "/stats") then b ← send_stats hv; Some (hv, Some b)
    else if bool_decide (url = bytes "/flow_stats") then Some (hv, flow_stats hv)
    else if url_starts url "/metric/" then b ← send_metric hv url; Some (hv, b)
    else Some (hv, None)
  else if bool_decide (method = bytes "POST") then
    if url_starts url "/expire/" then expire_metric hv url else Some (hv, None)
  else Some (hv, None).

Definition handle_request (hv : http_server) (url method : list Z) : option (http_server * reply) :=
  '(hv, response) ← route hv url method;
  Some (hv, respond response).
(** ** Correctness *)

Context `{!HashTableLaws T} `{!JanssonLaws}.

(** What start-up and the other threads leave: the store is consistent, the
    arrays hold the active elements, the counters are those of [uint32_t] fields,
    and jansson accepts the version. *)
Record http_base (hv : http_server) : Prop := {
  hb_store : server_wf (hv_store hv);
  hb_backends : active_backends (hv_store hv) <= Z.of_nat (length (hv_backends hv));
  hb_samplers : 0 <= hv_active_samplers hv <= Z.of_nat (length (hv_samplers hv));
  hb_counters f : fits 32 (brubeck_stats_sample hv f);
  hb_version : utf8 version = true;
}.

(** What every response needs: besides, the sampling period is that of a backend
    and jansson accepts the keys. *)
Record http_wf (hv : http_server) : Prop := {
  hw_store : server_wf (hv_store hv);
  hw_backends : active_backends (hv_store hv) <= Z.of_nat (length (hv_backends hv));
  hw_samplers : 0 <= hv_active_samplers hv <= Z.of_nat (length (hv_samplers hv));
  hw_counters f : fits 32 (brubeck_stats_sample hv f);
  hw_freq : 1 <= sample_freq (internal_stats (hv_store hv)) < 2 ^ 31;
  hw_version : utf8 version = true;
  hw_keys : Forall (fun m => utf8 (key m) = true) (heap (hv_store hv));
}.

Lemma http_wf_base hv : http_wf hv -> http_base hv.
Proof. intros []. by split. Qed.

Lemma js_ascii (s : string) :
  forallb (fun b => (0 <? b) && (b <? 128)) (bytes s) = true -> js_string (bytes s) = Some (JString (bytes s)).
Proof.
  intros Hs. unfold js_string. rewrite utf8_ascii; [done|]. apply Forall_forall. intros b Hb.
  rewrite forallb_forall in Hs. specialize (Hs b Hb). zbool. lia.
Qed.

Lemma js_utf8 s : utf8 s = true -> js_string s = Some (JString s).
Proof. unfold js_string. by intros ->. Qed.

Lemma url_starts_prefix (prefix : string) k :
  forallb (fun b => negb (b =? 0)) (bytes prefix) = true -> url_starts (bytes prefix ++ k) prefix = true.
Proof.
  intros Hp. unfold url_starts. rewrite starts_with_prefix; [|by apply bytes_nul_free].
  cbn [default]. apply bool_decide_eq_true_2. by apply prefix_app_r.
Qed.

Lemma lookup_key sv k :
  Z.of_nat (length k) < 65536 -> safe_lookup_metric sv k = ht_find (table sv) k.
Proof.
  intros Hk. unfold safe_lookup_metric, brubeck_hashtable_find. rewrite wrap_small by (unfold fits; lia).
  rewrite Nat2Z.id. by rewrite take_ge.
Qed.

Lemma collect_total {A} (f : A -> option json) n : forall i l,
  0 <= i -> i + Z.of_nat n <= Z.of_nat (length l) -> is_Some (collect f n i l).
Proof.
  induction n as [|n IH]; intros i l Hi Hn; cbn [collect]; [eauto|].
  destruct (rd_is_Some l i ltac:(lia)) as [x ->]. cbn [mbind option_bind].
  destruct (IH (i + 1) l) as [js ->]; [lia..|]. eauto.
Qed.

Lemma backends_status_spec n : forall i l,
  0 <= i -> i + Z.of_nat n <= Z.of_nat (length l) ->
  backends_status n i l =
    Some (if forallb (fun b => carbon_is_connected (hb_carbon b)) (take n (drop (Z.to_nat i) l))
          then "OK" else "ERROR (backend disconnected)")%string.
Proof.
  induction n as [|n IH]; intros i l Hi Hn; cbn [backends_status]; [done|].
  destruct (rd_is_Some l i ltac:(lia)) as [x Hx]. rewrite Hx. cbn [mbind option_bind].
  assert (Hl : l !! Z.to_nat i = Some x) by (unfold rd in Hx; by case_match).
  rewrite (drop_S _ _ _ Hl). cbn [take forallb].
  destruct (carbon_is_connected (hb_carbon x)); cbn [negb andb]; [|done].
  rewrite IH by lia. by replace (Z.to_nat (i + 1)) with (S (Z.to_nat i)) by lia.
Qed.

Lemma rate_ok hv f :
  http_base hv -> 1 <= sample_freq (internal_stats (hv_store hv)) < 2 ^ 31 ->
  let x := fdiv (F64 (brubeck_stats_sample hv f)) (F64 (sample_freq (internal_stats (hv_store hv)))) in
  js_real x = Some (JReal x).
Proof.
  intros Hwf Hfreq. unfold js_real. pose proof (hb_counters _ Hwf f) as Hc. unfold fits in Hc.
  rewrite F64_div_finite; [done|lia..].
Qed.

Lemma send_ping_run hv :
  http_base hv -> 1 <= sample_freq (internal_stats (hv_store hv)) < 2 ^ 31 ->
  let frequency := F64 (sample_freq (internal_stats (hv_store hv))) in
  let per_second f := JReal (fdiv (F64 (brubeck_stats_sample hv f)) frequency) in
  let connected := forallb (fun b => carbon_is_connected (hb_carbon b))
                     (take (Z.to_nat (active_backends (hv_store hv))) (hv_backends hv)) in
  let status := if connected then "OK"%string else "ERROR (backend disconnected)"%string in
  send_ping hv =
    Some (Document (JObject [("version"%string, JString version); ("pid"%string, JInteger (s32 getpid));
                             ("status"%string, JString (bytes status));
                             ("metrics_per_second"%string, per_second metrics);
                             ("errors_per_second"%string, per_second errors);
                             ("unique_keys"%string, JInteger (s32 (brubeck_stats_sample hv unique_keys)))])).
Proof.
  intros Hwf Hfreq. pose proof (sv_active _ (hb_store _ Hwf)). pose proof (hb_backends _ Hwf).
  cbv zeta. unfold send_ping. rewrite backends_status_spec by lia. change (drop (Z.to_nat 0)) with (@drop http_backend 0).
  rewrite drop_0. cbn [mbind option_bind]. unfold js_object. cbn [json_pack].
  rewrite !(rate_ok hv _ Hwf Hfreq), (js_utf8 _ (hb_version _ Hwf)).
  rewrite js_ascii by (by case_match). done.
Qed.

Lemma send_stats_run hv : http_base hv -> exists j, send_stats hv = Some (Document j).
Proof.
  intros Hwf. pose proof (sv_active _ (hb_store _ Hwf)). pose proof (hb_backends _ Hwf).
  pose proof (hb_samplers _ Hwf). unfold send_stats.
  destruct (collect_total backend_stats (Z.to_nat (active_backends (hv_store hv))) 0 (hv_backends hv))
    as [bs ->]; [lia..|].
  destruct (collect_total sampler_stats (Z.to_nat (hv_active_samplers hv)) 0 (hv_samplers hv))
    as [ss ->]; [lia..|].
  cbn [mbind option_bind]. unfold js_object, js_int. cbn [json_pack mbind option_bind fmap option_fmap option_map].
  rewrite (js_utf8 _ (hb_version _ Hwf)). cbn. eauto.
Qed.

(** The metric that a request names has a key that jansson refuses. *)
Definition names_bad_key (hv : http_server) (url : list Z) : Prop :=
  exists id m, safe_lookup_metric (hv_store hv) (drop 8 url) = Some id /\ heap (hv_store hv) !! id = Some m /\
    utf8 (key m) = false.

Lemma send_metric_run hv url : server_wf (hv_store hv) -> is_Some (send_metric hv url) \/ names_bad_key hv url.
Proof.
  intros Hwf. unfold send_metric, names_bad_key. destruct (safe_lookup_metric _ _) as [id|] eqn:E; [|eauto].
  unfold safe_lookup_metric in E. destruct (sv_find _ Hwf _ _ E) as (m & Hm & _). rewrite Hm. cbn [mbind option_bind].
  pose proof (proj1 (Forall_lookup _ _) (sv_heap _ Hwf) _ _ Hm) as (_ & _ & _ & He).
  destruct (utf8 (key m)) eqn:Hk; [left|right; eauto].
  assert (exists st, rd expire_status (expire m) = Some st /\ js_string (bytes st) = Some (JString (bytes st)))
    as (st & -> & Est).
  { unfold BRUBECK_EXPIRE_DISABLED, BRUBECK_EXPIRE_ACTIVE in He.
    assert (expire m = 0 \/ expire m = 1 \/ expire m = 2) as [-> | [-> | ->]] by lia;
      (eexists; split; [reflexivity|by apply js_ascii]). }
  cbn [mbind option_bind]. unfold js_object. cbn [json_pack]. rewrite Est.
  rewrite (js_utf8 _ Hk), js_ascii by by destruct (type m). cbn. eauto.
Qed.

(** The store after the expiry of a metric by name. *)
Lemma expire_metric_run hv url :
  server_wf (hv_store hv) ->
  match safe_lookup_metric (hv_store hv) (drop 8 url) with
  | Some id => exists m, heap (hv_store hv) !! id = Some m /\
      let sv := set_heap (hv_store hv) (<[id := set_expire m BRUBECK_EXPIRE_DISABLED]> (heap (hv_store hv))) in
      expire_metric hv url = Some (set_store hv sv, Some Empty) /\ server_wf sv
  | None => expire_metric hv url = Some (hv, None)
  end.
Proof.
  intros Hwf. unfold expire_metric. destruct (safe_lookup_metric _ _) as [id|] eqn:E; [|done].
  destruct (sv_find _ Hwf _ _ E) as (m & Hm & _). exists m. split; [done|]. rewrite Hm. cbn [mbind option_bind].
  split; [done|]. eapply update_wf; [done|done| |done]. apply set_expire_ok; [|done].
  exact (proj1 (Forall_lookup _ _) (sv_heap _ Hwf) _ _ Hm).
Qed.

(** The server is returned as it was. *)
Ltac unchanged := do 2 eexists; split_and!; [reflexivity|assumption|done].

(** The requests that crash. *)
Definition crashes (hv : http_server) (url method : list Z) : Prop :=
  method = bytes "GET" /\
  ((url = bytes "/_ping" \/ url = bytes "/ping") /\ ~ 1 <= sample_freq (internal_stats (hv_store hv)) < 2 ^ 31 \/
   url_starts url "/metric/" = true /\ names_bad_key hv url).

Lemma route_run hv url method :
  http_base hv -> ~ crashes hv url method ->
  exists hv' r, route hv url method = Some (hv', r) /\ server_wf (hv_store hv') /\
    (method <> bytes "POST" -> hv' = hv).
Proof.
  intros Hwf Hno. pose proof (hb_store _ Hwf) as Hsv. unfold crashes in Hno. unfold route.
  destruct (bool_decide_reflect (method = bytes "GET")) as [Hget|_].
  - destruct (_ || _) eqn:Eping.
    { assert (Hurl : url = bytes "/_ping" \/ url = bytes "/ping").
      { apply orb_true_iff in Eping as [E%bool_decide_eq_true_1|E%bool_decide_eq_true_1]; auto. }
      rewrite (send_ping_run hv Hwf).
      - cbn [mbind option_bind]. unchanged.
      - destruct (decide (1 <= sample_freq (internal_stats (hv_store hv)) < 2 ^ 31)); [done|]. by destruct Hno; auto. }
    destruct (bool_decide (url = bytes "/stats")).
    { destruct (send_stats_run hv Hwf) as [j ->]. cbn [mbind option_bind]. unchanged. }
    destruct (bool_decide (url = bytes "/flow_stats")); [unchanged|].
    destruct (url_starts url _) eqn:Eurl; [|unchanged].
    destruct (send_metric_run hv url Hsv) as [[b ->]|Hbad]; [cbn [mbind option_bind]; unchanged|].
    by destruct Hno; auto.
  - destruct (bool_decide_reflect (method = bytes "POST")); [|unchanged].
    destruct (url_starts url "/expire/"); [|unchanged].
    pose proof (expire_metric_run hv url Hsv) as Hr. destruct (safe_lookup_metric _ _) as [id|].
    + destruct Hr as (m & _ & -> & Hwf'). do 2 eexists. split; [done|]. split; [exact Hwf'|]. by intros [].
    + rewrite Hr. unchanged.
Qed.

(** C24: the endpoint answers a request, whatever its method and URL, with code
    200 or 404, keeps the store consistent, and changes the server only by a
    POST, unless the request is one of two that crash: a ping while the sampling
    period is not that of a backend, as it is until the server's own metric is
    registered, and a GET of [/metric/] for a metric whose key is not UTF-8,
    which any client can create. *)
Theorem http_request_safe (hv : http_server) (url method : list Z)
  (Hwf : http_base hv) (Hno : ~ crashes hv url method) :
  exists hv' r, handle_request hv url method = Some (hv', r) /\ (code r = 200 \/ code r = 404) /\
    server_wf (hv_store hv') /\ (method <> bytes "POST" -> hv' = hv).
Proof.
  unfold handle_request. destruct (route_run hv url method Hwf Hno) as (hv' & r & -> & Hsv & Hsame).
  cbn [mbind option_bind]. do 2 eexists. split_and!; [done| |done|done]. destruct r; [by left|by right].
Qed.

(** C25: a POST to [/expire/<key>] disables exactly the metric of that key,
    which no backend then samples, and answers 200; the next message for the key
    makes the metric active again.  For an unknown key it answers 404 and
    changes nothing. *)
Theorem http_expire_spec (hv : http_server) (k : list Z) (t : brubeck_metric_t)
  (Hwf : server_wf (hv_store hv)) (Hk : key_fits k) :
  match ht_find (table (hv_store hv)) k with
  | Some id => exists m sv, heap (hv_store hv) !! id = Some m /\
      sv = set_heap (hv_store hv) (<[id := set_expire m BRUBECK_EXPIRE_DISABLED]> (heap (hv_store hv))) /\
      handle_request hv (bytes "/expire/" ++ k) (bytes "POST") = Some (set_store hv sv, respond (Some Empty)) /\
      server_wf sv /\
      (forall s freq junk, sample_queue s (heap sv) [id] freq junk = Some (s, heap sv, [])) /\
      exists sv', brubeck_metric_find sv k t = Some (sv', Some id) /\
        heap sv' !! id = Some (set_expire m BRUBECK_EXPIRE_ACTIVE)
  | None => handle_request hv (bytes "/expire/" ++ k) (bytes "POST") = Some (hv, respond None)
  end.
Proof.
  unfold handle_request, route. rewrite bool_decide_eq_false_2 by done.
  rewrite bool_decide_eq_true_2 by done. rewrite url_starts_prefix by done.
  pose proof (expire_metric_run hv (bytes "/expire/" ++ k) Hwf) as Hr.
  change (drop 8 (bytes "/expire/" ++ k)) with k in Hr.
  rewrite lookup_key in Hr by (destruct Hk; lia).
  destruct (ht_find (table (hv_store hv)) k) as [id|] eqn:Ef; [|by rewrite Hr].
  destruct Hr as (m & Hm & -> & Hwf'). set (sv := set_heap _ _) in *. exists m, sv.
  assert (Hm' : heap sv !! id = Some (set_expire m BRUBECK_EXPIRE_DISABLED)).
  { apply list_lookup_insert_eq. by eapply lookup_lt_Some. }
  split_and!; try done.
  - intros s freq junk. cbn [sample_queue]. by rewrite Hm'.
  - destruct (metric_find_run sv k t Hwf' Hk) as (sv' & r & E & _ & Hsv').
    change (table sv) with (table (hv_store hv)) in Hsv'. rewrite Ef in Hsv'.
    destruct Hsv' as (m' & Em' & -> & ->). rewrite Hm' in Em'. injection Em' as <-.
    exists (set_heap sv (<[id := set_expire (set_expire m BRUBECK_EXPIRE_DISABLED) BRUBECK_EXPIRE_ACTIVE]> (heap sv))).
    split; [done|]. apply list_lookup_insert_eq. by eapply lookup_lt_Some.
Qed.

(** A ping reports OK exactly when every active backend is connected, and
    the metrics and errors per second of the last sampling period; the
    divisions give finite numbers. *)
Theorem http_ping_spec (hv : http_server) (url : list Z)
  (Hwf : http_wf hv) (Hurl : url = bytes "/ping" \/ url = bytes "/_ping") :
  let frequency := F64 (sample_freq (internal_stats (hv_store hv))) in
  let per_second f := JReal (fdiv (F64 (brubeck_stats_sample hv f)) frequency) in
  let connected := forallb (fun b => carbon_is_connected (hb_carbon b))
                     (take (Z.to_nat (active_backends (hv_store hv))) (hv_backends hv)) in
  let status := if connected then "OK"%string else "ERROR (backend disconnected)"%string in
  handle_request hv url (bytes "GET") =
    Some (hv, respond (Some (Document
      (JObject [("version"%string, JString version); ("pid"%string, JInteger (s32 getpid));
                ("status"%string, JString (bytes status));
                ("metrics_per_second"%string, per_second metrics);
                ("errors_per_second"%string, per_second errors);
                ("unique_keys"%string, JInteger (s32 (brubeck_stats_sample hv unique_keys)))])))).
Proof.
  cbv zeta. unfold handle_request, route. rewrite bool_decide_eq_true_2 by done.
  assert (bool_decide (url = bytes "/_ping") || bool_decide (url = bytes "/ping") = true) as ->
    by (apply orb_true_iff; destruct Hurl as [->| ->]; [right|left]; by apply bool_decide_eq_true_2).
  rewrite (send_ping_run hv (http_wf_base hv Hwf) (hw_freq _ Hwf)). done.
Qed.
End Http.

(** ** Examples *)

(** ** Start-up

    The port is what follows the last colon; [MHD_start_daemon] takes it as a
    [uint16_t] and returns zero for a null pointer. *)
Definition brubeck_http_endpoint_init `{Kernel} (listen : list Z) : program unit :=
  let port := default listen (after_last (chr ":") listen) in
  p ← defined (atoi port);
  daemon ← sys (c_mhd_start (u16 p));
  if daemon =? 0 then die "failed to start HTTP endpoint" else mret tt.

(** A checker that accepts ASCII. *)
#[export] Instance ascii_jansson : Jansson := {| utf8 s := forallb (fun b => (0 <? b) && (b <? 128)) s |}.

#[export] Instance ascii_jansson_laws : JanssonLaws.
Proof.
  split. intros s Hs. apply forallb_forall. intros b Hb. rewrite Forall_forall in Hs.
  specialize (Hs b Hb). apply andb_true_iff. split; apply Z.ltb_lt; lia.
Qed.

Definition demo_address : sockaddr_in := {| sin_family := AF_INET; sin_port := htons 8140; sin_addr := [127; 0; 0; 1] |}.

Definition demo_http : http_server :=
  {| hv_store := demo_server;
     hv_backends := replicate 3 {| hb_sample_freq := 10; hb_shard_n := 0; hb_pickle := true;
                                  hb_addr := demo_address; hb_carbon := demo_carbon |};
     hv_samplers := [{| sampler_type := BRUBECK_SAMPLER_STATSD; in_sock := 5; addr := demo_address;
                        inflow := 0; current_flow := 12 |}];
     hv_active_samplers := 1 |}.

Lemma demo_http_wf : http_wf (bytes "brubeck 1") demo_http.
Proof.
  split.
  - apply demo_server_wf.
  - vm_compute. congruence.
  - vm_compute. intuition congruence.
  - intros f. destruct f; vm_compute; intuition congruence.
  - vm_compute. intuition congruence.
  - reflexivity.
  - repeat constructor.
Qed.

Lemma http_request_safe_witness :
  exists hv' r, handle_request (bytes "brubeck 1") 77 demo_http (bytes "/metric/brubeck") (bytes "GET") = Some (hv', r) /\
    (code r = 200 \/ code r = 404) /\ server_wf (hv_store hv') /\ (bytes "GET" <> bytes "POST" -> hv' = demo_http).
Proof.
  apply (http_request_safe (bytes "brubeck 1") 77 demo_http (bytes "/metric/brubeck") (bytes "GET")).
  - apply http_wf_base, demo_http_wf.
  - intros [_ [[[Hu|Hu] _]|[_ (id & m & _ & Hm & Hk)]]]; [vm_compute in Hu; discriminate Hu..|].
    apply list_elem_of_lookup_2, list_elem_of_In in Hm. destruct Hm as [<-|[]]. vm_compute in Hk. discriminate Hk.
Defined.

Lemma http_expire_spec_witness :
  exists m sv, heap demo_server !! 0%nat = Some m /\
    sv = set_heap demo_server (<[0%nat := set_expire m BRUBECK_EXPIRE_DISABLED]> (heap demo_server)) /\
    handle_request (bytes "brubeck 1") 77 demo_http (bytes "/expire/" ++ bytes "brubeck") (bytes "POST")
      = Some (set_store demo_http sv, respond (Some Empty)) /\
    server_wf sv /\
    (forall s freq junk, sample_queue s (heap sv) [0%nat] freq junk = Some (s, heap sv, [])) /\
    exists sv', brubeck_metric_find sv (bytes "brubeck") BRUBECK_MT_GAUGE = Some (sv', Some 0%nat) /\
      heap sv' !! 0%nat = Some (set_expire m BRUBECK_EXPIRE_ACTIVE).
Proof.
  exact (http_expire_spec (bytes "brubeck 1") 77 demo_http (bytes "brubeck") BRUBECK_MT_GAUGE demo_server_wf
           (demo_key_fits "brubeck" eq_refl ltac:(simpl; lia))).
Defined.

Lemma http_ping_spec_witness :
  exists doc, handle_request (bytes "brubeck 1") 77 demo_http (bytes "/ping") (bytes "GET")
    = Some (demo_http, respond (Some (Document (JObject doc)))) /\
    In ("status"%string, JString (bytes "OK")) doc.
Proof.
  eexists. split.
  - apply (http_ping_spec (bytes "brubeck 1") 77 demo_http (bytes "/ping") demo_http_wf). left. reflexivity.
  - right. right. left. reflexivity.
Defined.

(** A metric whose key is not UTF-8, as any client may create, makes the
    handler dereference a null pointer. *)
Example send_metric_not_utf8 :
  let key := [chr "a"; 255] in
  let sv := default demo_server (sv' ← brubeck_metric_find demo_server key BRUBECK_MT_GAUGE; Some sv'.1) in
  handle_request (bytes "brubeck 1") 77 (set_store demo_http sv) (bytes "/metric/" ++ key) (bytes "GET") = None.
Proof. vm_compute. reflexivity. Qed.

(** Before [brubeck_internal__init] sets the sampling period, a ping divides
    zero by zero. *)
Example send_ping_before_init :
  handle_request (bytes "brubeck 1") 77 (set_store demo_http demo_fresh) (bytes "/ping") (bytes "GET") = None.
Proof. vm_compute. reflexivity. Qed.

End Http.
