(* ===== verification/Flow.v ===== *)
(** * The build with flow statistics ([src/http.c], [src/metric.c])

    With [BRUBECK_METRICS_FLOW] every metric counts the messages it was found
    for, and [/flow_stats] of the HTTP endpoint answers with the busiest
    metrics.  The field [flow] of the metrics is a list beside their memory. *)

From stdpp Require Import gmap sets sorting.
From S2P Require Import Prelude Value Slab Metric Json Store.
Import Metric Json Store.

Module Flow.

(** The order of a comparison function. *)
Definition cmp_le {A} (cmp : A -> A -> Z) (a b : A) : Prop := cmp a b <= 0.

#[export] Instance cmp_le_dec {A} (cmp : A -> A -> Z) : RelDecision (cmp_le cmp).
Proof. intros a b. apply Z_le_dec. Defined.

(** [qsort] of the C library: some permutation that the comparison orders. *)
Class Qsort := { qsort {A : Type} : (A -> A -> Z) -> list A -> list A }.

Class QsortLaws `{Qsort} := {
  qsort_perm {A} (cmp : A -> A -> Z) l : qsort cmp l ≡ₚ l;
  qsort_sorted {A} (cmp : A -> A -> Z) l :
    (forall a b c, cmp a b <= 0 -> cmp b c <= 0 -> cmp a c <= 0) -> (forall a b, cmp a b <= 0 \/ cmp b a <= 0) ->
    StronglySorted (cmp_le cmp) (qsort cmp l);
}.

#[export] Instance merge_qsort : Qsort := {| qsort A cmp := merge_sort (cmp_le cmp) |}.

#[export] Instance merge_qsort_laws : QsortLaws.
Proof.
  split; intros A cmp l; cbn [qsort merge_qsort].
  - apply merge_sort_Permutation.
  - intros Htrans Htot. by apply StronglySorted_merge_sort.
Qed.

Section Flow.
Context {T : Type} `{HashTable T} `{Jansson} `{Qsort}.

Record flow_server := { fs_store : brubeck_server (T := T); fs_flow : list Z }.

(** [brubeck_metric_find]: a metric that is found counts, a new one starts at
    zero. *)
Definition flow_metric_find (fs : flow_server) (k : list Z) (t : brubeck_metric_t)
    : option (flow_server * option nat) :=
  '(sv, r) ← brubeck_metric_find (fs_store fs) k t;
  match brubeck_hashtable_find (table (fs_store fs)) k (u16 (Z.of_nat (length k))) with
  | Some id =>
      flow ← fs_flow fs !! id;
      Some ({| fs_store := sv; fs_flow := <[id := u64 (flow + 1)]> (fs_flow fs) |}, r)
  | None =>
      let created := (length (heap sv) - length (heap (fs_store fs)))%nat in
      Some ({| fs_store := sv; fs_flow := fs_flow fs ++ replicate created 0 |}, r)
  end.

(** A metric as the sort sees it through its pointer: its key and flow. *)
Definition flow_cmp (ma mb : list Z * Z) : Z :=
  if ma.2 <? mb.2 then 1 else if mb.2 <? ma.2 then -1 else 0.

Definition metric_flow (fs : flow_server) (p : option nat) : option (list Z * Z) :=
  id ← p;
  m ← heap (fs_store fs) !! id;
  flow ← fs_flow fs !! id;
  Some (key m, flow).

(** [json_object_set_new]: a key that is not UTF-8 is refused, one that is in
    the object gets the new value. *)
Fixpoint set_field (fields : list (list Z * json)) (k : list Z) (v : json) : list (list Z * json) :=
  match fields with
  | [] => [(k, v)]
  | (k', v') :: fields => if decide (k' = k) then (k, v) :: fields else (k', v') :: set_field fields k v
  end.

Definition json_object_set_new (fields : list (list Z * json)) (k : list Z) (v : json) : list (list Z * json) :=
  if utf8 k then set_field fields k v else fields.

Fixpoint top_metrics (n : nat) (i : Z) (metrics : list (list Z * Z)) (fields : list (list Z * json))
    : option (list (list Z * json)) :=
  match n with
  | O => Some fields
  | S n =>
      m ← rd metrics i;
      top_metrics n (i + 1) metrics (json_object_set_new fields m.1 (JInteger (s64 m.2)))
  end.

(** The members of the answer, in the order of insertion. *)
Definition flow_stats (fs : flow_server) : option (list (list Z * json)) :=
  '(array, metric_count) ← brubeck_hashtable_to_a (table (fs_store fs));
  metrics ← mapM (metric_flow fs) array;
  let metrics := qsort flow_cmp metrics in
  let topn := if metric_count <? 32 then metric_count else 32 in
  top_metrics (Z.to_nat topn) 0 metrics [].

(** ** Properties *)

Context `{!HashTableLaws T} `{!QsortLaws}.

Record flow_wf (fs : flow_server) : Prop := {
  fw_store : server_wf (fs_store fs);
  fw_flow : length (fs_flow fs) = length (heap (fs_store fs));
}.

Lemma sorted_impl {A} (R R' : A -> A -> Prop) l :
  (forall a b, R a b -> R' a b) -> StronglySorted R l -> StronglySorted R' l.
Proof. intros HR. induction 1 as [|a l _ IH Ha]; constructor; [done|]. eapply Forall_impl; [|exact Ha]. intros b. apply HR. Qed.

Lemma flow_cmp_le a b : flow_cmp a b <= 0 <-> b.2 <= a.2.
Proof. unfold flow_cmp. repeat zcase; lia. Qed.

(** Every message for a key that has a metric is counted in it and in no
    other. *)
Lemma flow_find_run fs k t :
  flow_wf fs -> key_fits k ->
  exists fs' r, flow_metric_find fs k t = Some (fs', r) /\ flow_wf fs' /\
    match ht_find (table (fs_store fs)) k with
    | Some id => exists flow, fs_flow fs !! id = Some flow /\
        fs_flow fs' = <[id := u64 (flow + 1)]> (fs_flow fs)
    | None => fs_flow fs' = fs_flow fs ++ if at_capacity (fs_store fs) then [] else [0]
    end.
Proof.
  intros [Hwf Hlen] Hk. unfold flow_metric_find.
  destruct (metric_find_run (fs_store fs) k t Hwf Hk) as (sv & r & -> & Hwf' & Hr). cbn [mbind option_bind].
  rewrite find_fits by done. destruct (ht_find (table (fs_store fs)) k) as [id|] eqn:Hf.
  - destruct Hr as (m & Hm & -> & ->). destruct (lookup_lt_is_Some_2 (fs_flow fs) id) as [flow Hfl].
    { rewrite Hlen. by eapply lookup_lt_Some. }
    rewrite Hfl. cbn [mbind option_bind]. do 2 eexists. split; [done|]. split; [|by exists flow].
    split; [done|]. cbn [fs_flow fs_store set_heap heap]. by rewrite !length_insert.
  - do 2 eexists. split; [done|]. cbv zeta. cbn [fs_flow fs_store].
    destruct (at_capacity (fs_store fs)).
    + destruct Hr as [-> _]. rewrite Nat.sub_diag. split; [|done]. split; [done|]. cbn. by rewrite app_nil_r.
    + destruct Hr as [_ Hc]. rewrite (cr_heap _ _ _ _ _ Hc), length_app. cbn [length].
      replace (length (heap (fs_store fs)) + 1 - length (heap (fs_store fs)))%nat with 1%nat by lia.
      split; [|done]. split; [done|]. cbn [fs_flow fs_store]. rewrite (cr_heap _ _ _ _ _ Hc), !length_app. by rewrite Hlen.
Qed.

(** The key and the flow of every metric of the table. *)
Definition flows (fs : flow_server) : list (list Z * Z) :=
  omap (fun e => metric_flow fs (Some e.2)) (ht_entries (table (fs_store fs))).

Lemma metric_flows fs :
  flow_wf fs ->
  mapM (metric_flow fs) ((fun e => Some e.2) <$> ht_entries (table (fs_store fs))) = Some (flows fs) /\
  (flows fs).*1 = (ht_entries (table (fs_store fs))).*1.
Proof.
  intros [Hwf Hlen]. unfold flows.
  assert (Hin : Forall (fun e => exists f, metric_flow fs (Some e.2) = Some (e.1, f)) (ht_entries (table (fs_store fs)))).
  { apply Forall_forall. intros [k id] Hin%list_elem_of_In. apply ht_entries_find in Hin.
    destruct (sv_find _ Hwf _ _ Hin) as (m & Hm & Hk). cbn [snd fst]. unfold metric_flow. cbn [mbind option_bind].
    rewrite Hm. cbn [mbind option_bind]. destruct (lookup_lt_is_Some_2 (fs_flow fs) id) as [f Hf].
    { rewrite Hlen. by eapply lookup_lt_Some. }
    exists f. rewrite Hf. cbn [mbind option_bind]. by rewrite Hk. }
  induction Hin as [|e es (f & Hf) _ [IH1 IH2]]; [done|]. cbn [fmap list_fmap omap list_omap]. rewrite Hf.
  cbn [mapM]. rewrite Hf. cbn [mbind option_bind]. rewrite IH1. cbn [mbind option_bind mret option_ret].
  split; [done|]. rewrite fmap_cons. cbn [fst]. by rewrite IH2.
Qed.

Lemma set_field_new fields k v : k ∉ fields.*1 -> set_field fields k v = fields ++ [(k, v)].
Proof.
  induction fields as [|[k' v'] fields IH]; [done|]. rewrite fmap_cons, not_elem_of_cons. intros [Hk Hn].
  cbn [set_field fst] in *. rewrite decide_False by done. by rewrite IH.
Qed.

(** A member of the answer: a [size_t] is printed as a [json_int_t]. *)
Definition member (m : list Z * Z) : list Z * json := (m.1, JInteger (s64 m.2)).

(** The metrics that jansson takes. *)
Definition named (l : list (list Z * Z)) : list (list Z * Z) := List.filter (fun m => utf8 m.1) l.

Lemma named_keys l : (member <$> named l).*1 ⊆ l.*1.
Proof.
  intros k. rewrite <- list_fmap_compose, !list_elem_of_fmap. intros (m & -> & Hm). exists m. split; [done|].
  apply list_elem_of_In in Hm. apply filter_In in Hm as [Hm _]. by apply list_elem_of_In.
Qed.

Lemma top_metrics_run top : forall pre rest,
  NoDup (pre ++ top).*1 ->
  top_metrics (length top) (Z.of_nat (length pre)) (pre ++ top ++ rest) (member <$> named pre) =
    Some (member <$> named (pre ++ top)).
Proof.
  induction top as [|m top IH]; intros pre rest Hnd; cbn [length top_metrics]; [by rewrite app_nil_r|].
  rewrite rd_nat. rewrite lookup_app_r, Nat.sub_diag by lia. cbn [lookup list_lookup app mbind option_bind].
  assert (Hset : json_object_set_new (member <$> named pre) m.1 (JInteger (s64 m.2)) = member <$> named (pre ++ [m])).
  { unfold json_object_set_new, named. rewrite List.filter_app. cbn [List.filter].
    destruct (utf8 m.1); [|by rewrite app_nil_r]. rewrite fmap_app. apply set_field_new. intros Hin%named_keys.
    rewrite fmap_app, fmap_cons in Hnd. apply list.NoDup_app in Hnd as (_ & Hd & _). apply (Hd _ Hin). left. }
  rewrite Hset.
  replace (Z.of_nat (length pre) + 1) with (Z.of_nat (length (pre ++ [m]))) by (rewrite length_app; cbn; lia).
  replace (pre ++ m :: top ++ rest) with ((pre ++ [m]) ++ top ++ rest) by by rewrite <- app_assoc.
  replace (pre ++ m :: top) with ((pre ++ [m]) ++ top) in * by by rewrite <- app_assoc.
  by apply IH.
Qed.

Lemma flow_stats_run fs :
  flow_wf fs ->
  exists top rest, flow_stats fs = Some (member <$> named top) /\ top ++ rest ≡ₚ flows fs /\
    length top = Nat.min 32 (length (flows fs)) /\
    StronglySorted (fun a b => b.2 <= a.2) top /\
    forall a b, a ∈ top -> b ∈ rest -> b.2 <= a.2.
Proof.
  intros Hwf. destruct (metric_flows fs Hwf) as [Hmap Hkeys]. unfold flow_stats.
  rewrite hashtable_to_a_run. cbn [mbind option_bind]. rewrite Hmap. cbn [mbind option_bind]. cbv zeta.
  set (l := qsort flow_cmp (flows fs)).
  assert (Hl : l ≡ₚ flows fs) by apply qsort_perm.
  assert (Hs : StronglySorted (fun a b => b.2 <= a.2) l).
  { eapply sorted_impl; [intros a b; apply flow_cmp_le|].
    apply qsort_sorted; [intros a b c|intros a b]; rewrite !flow_cmp_le; lia. }
  assert (Hcount : brubeck_hashtable_size (table (fs_store fs)) = Z.of_nat (length (flows fs))).
  { unfold brubeck_hashtable_size. rewrite ht_count_entries. f_equal.
    rewrite <- (length_fmap fst (ht_entries _)), <- Hkeys. apply length_fmap. }
  rewrite Hcount. set (n := Nat.min 32 (length (flows fs))).
  replace (Z.to_nat (if Z.of_nat (length (flows fs)) <? 32 then Z.of_nat (length (flows fs)) else 32)) with n
    by (unfold n; zcase; lia).
  assert (Hn : length (take n l) = n) by (rewrite length_take, Hl; unfold n; lia).
  exists (take n l), (drop n l). rewrite take_drop. split_and!; [|done|done| |].
  - rewrite <- (take_drop n l) at 1. rewrite <- Hn at 1.
    apply (top_metrics_run (take n l) [] (drop n l)).
    cbn [app]. assert (Hnd : NoDup l.*1).
      { rewrite Hl, Hkeys. apply NoDup_fmap_2_strong; [|apply ht_entries_once].
        intros [k1 i1] [k2 i2] He1 He2 E. cbn [fst] in E. subst k2. apply ht_entries_find in He1, He2. congruence. }
      rewrite <- (take_drop n l), fmap_app in Hnd. by apply list.NoDup_app in Hnd as [? _].
  - rewrite <- (take_drop n l) in Hs. by apply StronglySorted_app_1_l in Hs.
  - rewrite <- (take_drop n l) in Hs. intros a b Ha Hb.
    by apply (StronglySorted_app_1_elem_of _ _ _ a b Hs).
Qed.

(** C36: [/flow_stats] answers with the busiest metrics.  It takes at most 32,
    all of them when there are fewer, in descending order, such that no metric
    left out has a greater flow than one taken, and lists each of them once with
    its key and its flow as a signed 64-bit number; only a metric whose key is
    not UTF-8, as any client can create, is missing from the answer although it
    takes one of the 32 places. *)
Theorem flow_stats_top (fs : flow_server) (Hwf : flow_wf fs) :
  exists top rest, flow_stats fs = Some (member <$> named top) /\ top ++ rest ≡ₚ flows fs /\
    length top = Nat.min 32 (length (flows fs)) /\
    StronglySorted (fun a b => b.2 <= a.2) top /\
    forall a b, a ∈ top -> b ∈ rest -> b.2 <= a.2.
Proof. by apply flow_stats_run. Qed.
End Flow.

(** ** An example *)

#[local] Instance any_utf8 : Jansson := {| utf8 _ := true |}.

Definition demo_find (fs : flow_server (T := gmap (list Z) nat)) (k : string) : flow_server :=
  match flow_metric_find fs (bytes k) BRUBECK_MT_METER with Some (fs, _) => fs | None => fs end.

Definition demo_flows : flow_server :=
  foldl demo_find {| fs_store := demo_server; fs_flow := [0] |} ["a"; "b"; "b"; "a"; "b"; "c"]%string.

Lemma demo_finds_wf ks : forall fs,
  flow_wf fs -> Forall (fun k => key_fits (bytes k)) ks -> flow_wf (foldl demo_find fs ks).
Proof.
  induction ks as [|k ks IH]; intros fs Hwf Hks; [done|]. apply list.Forall_cons in Hks as [Hk Hks].
  cbn [foldl]. apply IH; [|done]. unfold demo_find.
  destruct (flow_find_run fs (bytes k) BRUBECK_MT_METER Hwf Hk) as (fs' & r & -> & Hwf' & _). done.
Qed.

Lemma demo_flows_wf : flow_wf demo_flows.
Proof.
  apply demo_finds_wf; [split; [apply demo_server_wf|reflexivity]|].
  repeat constructor; cbn; done || lia.
Qed.

Example demo_flow_stats :
  flow_stats demo_flows =
    Some [(bytes "b", JInteger 2); (bytes "a", JInteger 1); (bytes "brubeck", JInteger 0); (bytes "c", JInteger 0)].
Proof. vm_compute. reflexivity. Qed.

Lemma flow_stats_top_witness :
  exists top rest, flow_stats demo_flows = Some (member <$> named top) /\ top ++ rest ≡ₚ flows demo_flows /\
    length top = Nat.min 32 (length (flows demo_flows)) /\
    StronglySorted (fun a b => b.2 <= a.2) top /\
    forall a b, a ∈ top -> b ∈ rest -> b.2 <= a.2.
Proof. exact (flow_stats_top demo_flows demo_flows_wf). Defined.
End Flow.
