(* ===== verification/Config.v ===== *)
(** * Start-up ([src/server.c], the constructors of the samplers and backends)

    [brubeck_server_init] reads the configuration, creates the backends, the
    samplers and the HTTP endpoint, starts their threads and registers the
    server's own metric.  The document that [json_load_file] parsed is an input;
    the calls go through [Net].  The threads that are started on the way run
    concurrently with the rest of the start-up; the model is the main thread. *)

From stdpp Require Import gmap sets strings.
From S2P Require Import Prelude Value Slab Metric Internal Bloom Statsd StatsdSecure.
From S2P Require Import Utils Net Json Carbon Store Server Http.
Import Metric Internal Bloom StatsdSecure Utils Net Json Carbon Store Server Http.

Module Config.

(** ** The samplers *)

Record brubeck_statsd := { st_sampler : brubeck_sampler; worker_count : Z; mmsg_count : Z }.

Record secure_sampler := {
  sec_sampler : brubeck_sampler;
  hmac_key : list Z;
  sec_state : brubeck_statsd_secure;
}.

Inductive any_sampler :=
| Plain (s : brubeck_statsd)
| Secure (s : secure_sampler).

Definition base (s : any_sampler) : brubeck_sampler :=
  match s with Plain s => st_sampler s | Secure s => sec_sampler s end.

Section Config.
Context `{Kernel}.
(** What uninitialised memory holds. *)
Context (junk : Z) (malloc : Z -> list Z).
(** [log] of [math.h]. *)
Context (log : value_t -> value_t).

(** The loop of [run_worker_threads]. *)
Fixpoint start_workers (n : nat) : program unit :=
  match n with
  | O => mret tt
  | S n =>
      r ← sys (c_pthread_create t_statsd);
      if negb (r =? 0) then die "failed to start sampler thread" else start_workers n
  end.

Definition run_worker_threads (statsd : brubeck_statsd) : program unit :=
  _ ← xmalloc "pthread_t[]";
  start_workers (Z.to_nat (worker_count statsd)).

(** The sampler's memory comes from [xmalloc] and its flow is not set. *)
Definition new_sampler (t : brubeck_sampler_t) (sock : Z) : brubeck_sampler :=
  {| sampler_type := t; in_sock := sock; addr := {| sin_family := junk; sin_port := junk; sin_addr := [] |};
     inflow := junk; current_flow := junk |}.

Definition brubeck_statsd_new (settings : json) : program brubeck_statsd :=
  _ ← xmalloc "struct brubeck_statsd";
  fields ← the_object settings;
  address ← need as_string fields "address";
  port ← need as_int fields "port";
  workers ← optional as_int fields "workers" 4;
  multimsg ← optional as_int fields "multimsg" 1;
  multisock ← optional as_bool fields "multisock" false;
  s ← brubeck_sampler_init_inet (new_sampler BRUBECK_SAMPLER_STATSD (-1)) address port;
  s ← (if negb multisock then sock ← brubeck_sampler_socket s false; mret (set_in_sock s sock) else mret s);
  let std := {| st_sampler := s; worker_count := u32 workers; mmsg_count := u32 multimsg |} in
  _ ← run_worker_threads std;
  mret std.

(** What a worker does before its loop: its socket, and whether it runs
    [statsd_run_recvmmsg] instead of [statsd_run_recvmsg]. *)
Definition statsd__thread (statsd : brubeck_statsd) : program (Z * bool) :=
  sock ← (if in_sock (st_sampler statsd) <? 0 then brubeck_sampler_socket (st_sampler statsd) true
          else mret (in_sock (st_sampler statsd)));
  mret (sock, 1 <? mmsg_count statsd).

(** ** [multibloom_new]

    The structure has three [int]s in front of the pointers; its size and the
    sizes of the filters are numbers of the type [size_t]. *)
Definition sizeof_multibloom : Z := 16.
Definition sizeof_ints : Z := 12.
Definition sizeof_pointer : Z := 8.

(** The loop over the filters, from filter [i] on, in a structure of [size]
    bytes. *)
Fixpoint new_filters (n : nat) (i size nbytes : Z) : program (list (list Z)) :=
  match n with
  | O => mret []
  | S n =>
      _ ← xcalloc_bytes (u64 nbytes);
      if size <? sizeof_multibloom + sizeof_pointer * (i + 1) then undefined else
      fs ← new_filters n (i + 1) size nbytes;
      mret (replicate (Z.to_nat (u64 nbytes)) 0 :: fs)
  end.

Definition multibloom_new (filters entries : Z) (error : value_t) : program multibloom :=
  let size := u64 (sizeof_multibloom + u64 (filters * sizeof_pointer)) in
  _ ← xmalloc_bytes size;
  if size <? sizeof_ints then undefined else
  '(nbits, nbytes, nhashes) ← defined (multibloom_sizes log entries error);
  fs ← new_filters (Z.to_nat filters) 0 size nbytes;
  mret {| bits := nbits; bytes_ := nbytes; hashes := nhashes; Bloom.filters := fs |}.

Definition replay_error : value_t := decimal false 1 (-3).

Definition brubeck_statsd_secure_new (settings : json) : program secure_sampler :=
  _ ← xmalloc "struct brubeck_statsd_secure";
  fields ← the_object settings;
  address ← need as_string fields "address";
  port ← need as_int fields "port";
  key ← need as_string fields "hmac_key";
  drift ← need as_int fields "max_drift";
  replay_len ← need as_int fields "replay_len";
  s ← brubeck_sampler_init_inet (new_sampler BRUBECK_SAMPLER_STATSD_SECURE junk) address port;
  replays ← multibloom_new drift replay_len replay_error;
  sock ← brubeck_sampler_socket s false;
  r ← sys (c_pthread_create t_statsd_secure);
  if negb (r =? 0) then die "failed to start sampler thread" else
  mret {| sec_sampler := set_in_sock s sock; hmac_key := key;
          sec_state := {| replays := replays; now := 0; drift := drift |} |}.

(** ** The backends *)

Definition brubeck_backend_run_threaded (shard_n : Z) : program unit :=
  r ← sys (c_pthread_create (t_backend shard_n));
  if negb (r =? 0) then die "failed to start backend thread" else mret tt.

(** The structure comes from [xcalloc]; the buffer of the pickler comes from a
    [malloc] that is not checked, and [pickle1_init] writes to it. *)
Definition brubeck_carbon_new (settings : json) (shard_n : Z) : program http_backend :=
  _ ← xcalloc "struct brubeck_carbon";
  fields ← the_object settings;
  address ← need as_string fields "address";
  port ← need as_int fields "port";
  pickle ← optional as_bool fields "pickle" false;
  frequency ← need as_int fields "frequency";
  p ← (if pickle
       then ptr ← sys (c_malloc_bytes PICKLE_BUFFER_SIZE);
            if ptr =? 0 then undefined
            else defined (pickle1_init {| p_ptr := malloc PICKLE_BUFFER_SIZE; p_pos := 0; p_pt := 0 |})
       else mret {| p_ptr := []; p_pos := 0; p_pt := 0 |});
  a ← url_to_inaddr2 (Some address) port;
  _ ← brubeck_backend_run_threaded shard_n;
  mret {| hb_sample_freq := frequency; hb_shard_n := shard_n; hb_pickle := pickle; hb_addr := a;
          hb_carbon := {| tick_time := 0; out_sock := -1; pickler_ := p; sent := 0 |} |}.

(** ** [src/server.c] *)

Definition type_of (entry : json) : option (list Z) := json_string_value (json_object_get entry "type").

(** [server->backends[server->active_backends++] = backend]: [l] holds the
    backends so far, and the array has eight elements. *)
Definition append_slot {A} (l : list A) (a : A) : program (list A) :=
  if Z.of_nat (length l) <? 8 then mret (l ++ [a]) else undefined.

Fixpoint load_backends (entries : list json) (l : list http_backend) : program (list http_backend) :=
  match entries with
  | [] => mret l
  | b :: entries =>
      if bool_decide (type_of b = Some (bytes "carbon")) then
        backend ← brubeck_carbon_new b (Z.of_nat (length l));
        l ← append_slot l backend;
        load_backends entries l
      else load_backends entries l
  end.

Fixpoint load_samplers (entries : list json) (l : list any_sampler) : program (list any_sampler) :=
  match entries with
  | [] => mret l
  | s :: entries =>
      if bool_decide (type_of s = Some (bytes "statsd")) then
        sampler ← brubeck_statsd_new s;
        l ← append_slot l (Plain sampler);
        load_samplers entries l
      else if bool_decide (type_of s = Some (bytes "statsd-secure")) then
        sampler ← brubeck_statsd_secure_new s;
        l ← append_slot l (Secure sampler);
        load_samplers entries l
      else load_samplers entries l
  end.

Definition load_timerfd (interval : Z) : program Z :=
  timerfd ← sys c_timerfd_create;
  if timerfd <? 0 then die "failed to create timer" else
  r ← sys (c_timerfd_settime timerfd interval);
  if r <? 0 then die "failed to set system timer" else mret timerfd.

Definition NR_SIGHUP : Z := 1.
Definition NR_SIGINT : Z := 2.
Definition NR_SIGUSR2 : Z := 12.
Definition NR_SIGPIPE : Z := 13.
Definition NR_SIGTERM : Z := 15.
Definition signal_mask : list Z := [NR_SIGINT; NR_SIGTERM; NR_SIGHUP; NR_SIGUSR2].

Definition load_signalfd : program Z :=
  r ← sys (c_sigprocmask signal_mask);
  if r =? -1 then die "failed to sigprocmask the needed signals" else
  sys (c_signalfd signal_mask).

Context {T : Type} `{HashTable T} (ht_init : Z -> option T).

(** [ck_ht_init] is [ht_init]: the table, or a failure. *)
Definition brubeck_hashtable_new (size : Z) : program (option T) :=
  ht ← xmalloc "brubeck_hashtable_t";
  match ht_init size with
  | None => _ ← sys (c_free ht); mret None
  | Some table => mret (Some table)
  end.

Record daemon := {
  d_http : http_server (T := T);
  d_samplers : list any_sampler;
  config_name : list Z;
  dump_path : list Z;
  fd_signal : Z;
  fd_update : Z;
  fd_expire : Z;
}.

(** The state that [load_config] leaves, before the internal metric. *)
Definition loaded (nm : list Z) (tb : T) (bs : list http_backend) (ss : list any_sampler) : http_server :=
  {| hv_store := fresh_server nm tb (hb_sample_freq <$> bs);
     hv_backends := bs; hv_samplers := base <$> ss; hv_active_samplers := Z.of_nat (length ss) |}.

Definition load_config (path : list Z) (document : option json) (signal update : Z) : program daemon :=
  match document with
  | None => die "failed to load config file"
  | Some config =>
      fields ← the_object config;
      name ← optional as_string fields "server_name" (bytes "brubeck");
      dumpfile ← need as_string fields "dumpfile";
      capacity ← need as_int fields "capacity";
      backends ← need as_object fields "backends";
      samplers ← need as_object fields "samplers";
      http ← optional (fun j => Some <$> as_string j) fields "http" None;
      expire ← optional as_int fields "expire" 0;
      _ ← (if (0 <=? capacity) && (capacity <? 31) then mret tt else undefined);
      metrics ← brubeck_hashtable_new (Z.shiftl 1 capacity);
      match metrics with
      | None => die "failed to initialize hash table"
      | Some tb =>
          bs ← load_backends (json_array backends) [];
          ss ← load_samplers (json_array samplers) [];
          _ ← (match http with Some listen => brubeck_http_endpoint_init listen | None => mret tt end);
          expire ← (if negb (expire =? 0) then load_timerfd expire else mret (-1));
          mret {| d_http := loaded name tb bs ss; d_samplers := ss; config_name := get_config_name path;
                  dump_path := dumpfile; fd_signal := signal; fd_update := update; fd_expire := expire |}
      end
  end.

Definition with_store (d : daemon) (sv : brubeck_server) : daemon :=
  {| d_http := set_store (d_http d) sv; d_samplers := d_samplers d; config_name := config_name d;
     dump_path := dump_path d; fd_signal := fd_signal d; fd_update := fd_update d; fd_expire := fd_expire d |}.

Definition brubeck_server_init (path : list Z) (document : option json) : program daemon :=
  _ ← sys (c_signal_ignore NR_SIGPIPE);
  signal ← load_signalfd;
  update ← load_timerfd 1;
  d ← load_config path document signal update;
  sv ← defined (brubeck_internal__init (hv_store (d_http d)));
  mret (with_store d sv).

(** ** [brubeck.c] *)

(** The results of [getopt_long]. *)
Inductive main_option := OptLog (arg : list Z) | OptConfig (arg : list Z) | OptVersion | OptOther.

(** The loop over the options: the log and the configuration file, or the exit
    code of the process. *)
Fixpoint main_options (opts : list main_option) (log_file : option (list Z)) (config_file : list Z)
    : option (list Z) * list Z + Z :=
  match opts with
  | [] => inl (log_file, config_file)
  | OptLog a :: opts => main_options opts (Some a) config_file
  | OptConfig a :: opts => main_options opts log_file a
  | OptVersion :: _ => inr 0
  | OptOther :: _ => inr 1
  end.

(** [main] up to the loop: [files] is what [json_load_file] makes of a path. *)
Definition main (files : list Z -> option json) (opts : list main_option) : program (daemon + Z) :=
  match main_options opts None (bytes "config.default.json") with
  | inl (log_file, config_file) => d ← brubeck_server_init config_file (files config_file); mret (inl d)
  | inr code => mret (inr code)
  end.

(** ** What start-up establishes *)

Context `{HKL : !KernelLaws}.
Context (malloc_size : forall n, length (malloc n) = Z.to_nat n).
Context `{!HashTableLaws T} (ht_init_empty : forall n t, ht_init n = Some t -> forall k, ht_find t k = None).

Record backend_ok (i : nat) (b : http_backend) : Prop := {
  bo_shard : hb_shard_n b = Z.of_nat i;
  bo_sock : out_sock (hb_carbon b) = -1;
  bo_sent : sent (hb_carbon b) = 0;
  bo_pickler : hb_pickle b = true -> pickler_inv (pickler_ (hb_carbon b)) [];
}.

(** A plain sampler has a bound socket, or leaves one to each of its workers.
    A secure sampler has one, and its filters are ready if the drift is
    positive and the filters have bits. *)
Definition sampler_ok (s : any_sampler) : Prop :=
  match s with
  | Plain s => in_sock (st_sampler s) = -1 \/ 0 <= in_sock (st_sampler s)
  | Secure s =>
      0 <= in_sock (sec_sampler s) /\
      (0 < drift (sec_state s) -> 0 < bits (replays (sec_state s)) -> 0 <= hashes (replays (sec_state s)) ->
       secure_wf (sec_state s))
  end.

Lemma post_backend_threaded n C : post (brubeck_backend_run_threaded n) C (fun _ => True).
Proof. unfold brubeck_backend_run_threaded. repeat post_step; done. Qed.

(** The last call was the [malloc] of a pickler, and it failed. *)
Definition pickler_oom (tr : list call) : Prop :=
  exists tr0, tr = tr0 ++ [c_malloc_bytes PICKLE_BUFFER_SIZE] /\ answer tr0 (c_malloc_bytes PICKLE_BUFFER_SIZE) = 0.

Lemma post_carbon_new settings (i : nat) :
  post (brubeck_carbon_new settings (Z.of_nat i)) pickler_oom (backend_ok i).
Proof.
  unfold brubeck_carbon_new. eapply post_bind; [apply post_xcalloc|intros _ _].
  eapply post_bind; [apply post_object|intros fields _].
  eapply post_bind; [apply post_need|intros address _].
  eapply post_bind; [apply post_need|intros port _].
  eapply post_bind; [apply post_optional|intros pickle _].
  eapply post_bind; [apply post_need|intros freq _].
  apply (post_bind _ _ _ _ (fun p => pickle = true -> pickler_inv p [])).
  { destruct pickle; [|by apply post_ret].
    destruct (pickle1_init_spec {| p_ptr := malloc PICKLE_BUFFER_SIZE; p_pos := 0; p_pt := 0 |})
      as (p & E & Hp); [apply malloc_size|]. intros tr. unfold mbind, program_bind, sys. rewrite E.
    destruct (Z.eqb_spec (answer tr (c_malloc_bytes PICKLE_BUFFER_SIZE)) 0) as [E0|_]; cbn; [|by intros _].
    by exists tr. }
  intros p Hp. eapply post_bind; [apply post_url|intros a _].
  eapply post_bind; [apply post_backend_threaded|intros _ _]. apply post_ret. by split.
Qed.

Definition known_backend (e : json) : bool := bool_decide (type_of e = Some (bytes "carbon")).
Definition known_sampler (e : json) : bool :=
  bool_decide (type_of e = Some (bytes "statsd")) || bool_decide (type_of e = Some (bytes "statsd-secure")).
Definition count (known : json -> bool) (es : list json) : nat := length (List.filter known es).

(** The backends so far. *)
Definition backends_ok (l : list http_backend) : Prop :=
  (length l <= 8)%nat /\ forall i b, l !! i = Some b -> backend_ok i b.

Lemma backends_ok_snoc l b :
  backends_ok l -> (length l < 8)%nat -> backend_ok (length l) b -> backends_ok (l ++ [b]).
Proof.
  intros [Hl Hb] Hlt Hok. split; [rewrite length_app; simpl; lia|]. intros i b' Hi.
  apply lookup_app_Some in Hi as [Hi|[Hge Hi]]; [by apply Hb|].
  destruct (i - length l)%nat as [|k] eqn:E; [|by destruct k]. injection Hi as <-.
  by replace i with (length l) by lia.
Qed.

Lemma post_load_backends es : forall l, backends_ok l ->
  post (load_backends es l) (fun tr => (8 < length l + count known_backend es)%nat \/ pickler_oom tr)
    (fun l' => backends_ok l' /\ length l' = (length l + count known_backend es)%nat).
Proof.
  induction es as [|e es IH]; intros l Hl; cbn [load_backends].
  - apply post_ret. split; [done|]. unfold count. simpl. lia.
  - unfold count, known_backend in *. cbn [List.filter]. destruct (bool_decide _); [|by apply IH].
    eapply post_bind; [eapply post_weaken; [apply post_carbon_new|by right|done]|intros b Hb].
    apply (post_bind _ _ _ _ (fun l' => l' = l ++ [b] /\ (length l < 8)%nat)).
    { unfold append_slot. destruct (Z.ltb_spec (Z.of_nat (length l)) 8); [apply post_ret; split; [done|lia]|].
      apply post_undefined. cbn [length]. left. lia. }
    intros l' [-> Hlt]. eapply post_weaken; [apply IH; by apply backends_ok_snoc| |];
      rewrite length_app; cbn [length]; [intros tr [?|?]; [left; lia|by right]|]. intros l' [? ->]. split; [done|lia].
Qed.

Lemma post_start_workers n C : post (start_workers n) C (fun _ => True).
Proof. induction n as [|n IH]; cbn [start_workers]; repeat post_step; done. Qed.

Lemma post_init_inet s url port C :
  post (brubeck_sampler_init_inet s url port) C
    (fun s' => sampler_type s' = sampler_type s /\ in_sock s' = in_sock s /\ ntohs (sin_port (addr s')) = u16 port).
Proof.
  unfold brubeck_sampler_init_inet. eapply post_bind; [apply post_url|intros a Ha]. by apply post_ret.
Qed.

Lemma post_worker_threads s C : post (run_worker_threads s) C (fun _ => True).
Proof. eapply post_bind; [apply post_xmalloc|intros _ _]. apply post_start_workers. Qed.

Lemma post_statsd_new settings C : post (brubeck_statsd_new settings) C (fun s => sampler_ok (Plain s)).
Proof.
  unfold brubeck_statsd_new. eapply post_bind; [apply post_xmalloc|intros _ _].
  eapply post_bind; [apply post_object|intros fields _].
  eapply post_bind; [apply post_need|intros address _]. eapply post_bind; [apply post_need|intros port _].
  eapply post_bind; [apply post_optional|intros workers _].
  eapply post_bind; [apply post_optional|intros multimsg _].
  eapply post_bind; [apply post_optional|intros multisock _].
  eapply post_bind; [apply post_init_inet|intros s (_ & Hs & _)].
  apply (post_bind _ _ _ _ (fun s => in_sock s = -1 \/ 0 <= in_sock s)).
  { destruct (negb multisock); [|apply post_ret; by left].
    eapply post_bind; [apply post_socket|intros sock Hsock]. apply post_ret. by right. }
  intros s' Hs'. cbv zeta. eapply post_bind; [apply post_worker_threads|intros _ _]. by apply post_ret.
Qed.

(** The integer under a key. *)
Definition int_field (j : json) (k : string) : option Z :=
  match j with JObject fields => v ← assoc k fields; as_int v | _ => None end.

(** The numbers of filters and entries for which the sizes of [multibloom_new]
    are not those of the structure and its filters: a negative number, and sizes
    that are out of range. *)
Definition bloom_fault (filters entries : Z) : Prop :=
  filters < 0 \/
  match multibloom_sizes log entries replay_error with Some (_, nbytes, _) => nbytes < 0 | None => True end.

Definition replay_fault (settings : json) : Prop :=
  exists drift len, int_field settings "max_drift" = Some drift /\
    int_field settings "replay_len" = Some len /\ bloom_fault drift len.

(** The filters that [multibloom_new] makes. *)
Definition made (filters entries : Z) (bl : multibloom) : Prop :=
  exists nbits nbytes nhashes, multibloom_sizes log entries replay_error = Some (nbits, nbytes, nhashes) /\
    bl = {| bits := nbits; bytes_ := nbytes; hashes := nhashes;
            Bloom.filters := replicate (Z.to_nat filters) (replicate (Z.to_nat (u64 nbytes)) 0) |}.

(** The structure has room for its pointers. *)
Lemma bloom_size filters :
  0 <= filters < 2 ^ 31 -> u64 (sizeof_multibloom + u64 (filters * sizeof_pointer)) = 16 + 8 * filters.
Proof.
  intros Hf. unfold sizeof_multibloom, sizeof_pointer.
  rewrite (wrap_small 64 (filters * 8)), wrap_small by (unfold fits; lia). lia.
Qed.

Lemma post_new_filters n nbytes C : forall i size, 16 + 8 * (i + Z.of_nat n) <= size ->
  post (new_filters n i size nbytes) C (fun fs => fs = replicate n (replicate (Z.to_nat (u64 nbytes)) 0)).
Proof.
  induction n as [|n IH]; intros i size Hsize; cbn [new_filters]; [by apply post_ret|].
  eapply post_bind; [apply post_xcalloc_bytes|intros _ _]. unfold sizeof_multibloom, sizeof_pointer.
  zcase; [lia|]. eapply post_bind; [apply IH; lia|intros fs ->]. by apply post_ret.
Qed.

Lemma post_multibloom_new filters entries (C : list call -> Prop) :
  filters < 2 ^ 31 -> (bloom_fault filters entries -> forall tr, C tr) ->
  post (multibloom_new filters entries replay_error) C (made filters entries).
Proof.
  intros Hf HC. unfold multibloom_new. cbv zeta. eapply post_bind; [apply post_xmalloc_bytes|intros _ _].
  unfold bloom_fault in HC. set (size := u64 (_ + _)).
  destruct (Z.ltb_spec filters 0) as [Hneg|Hpos].
  - destruct (size <? sizeof_ints); [by apply post_undefined, HC; left|].
    eapply post_bind; [apply (post_defined _ _ (fun x => multibloom_sizes log entries replay_error = Some x)); [done|]|].
    { intros _. apply HC. by left. }
    assert (E0 : Z.to_nat filters = 0%nat) by lia.
    intros [[nb nbytes] nh] E. rewrite E0. apply post_ret. exists nb, nbytes, nh. by rewrite E0.
  - assert (Es : size = 16 + 8 * filters) by (by apply bloom_size). unfold sizeof_ints. zcase; [lia|].
    eapply post_bind; [apply (post_defined _ _ (fun x => multibloom_sizes log entries replay_error = Some x)); [done|]|].
    { intros E. apply HC. right. by rewrite E. }
    intros [[nb nbytes] nh] E. eapply post_bind; [apply post_new_filters; lia|intros fs ->].
    apply post_ret. by exists nb, nbytes, nh.
Qed.

Lemma post_secure_new settings :
  post (brubeck_statsd_secure_new settings) (fun _ => replay_fault settings) (fun s => sampler_ok (Secure s)).
Proof.
  unfold brubeck_statsd_secure_new. eapply post_bind; [apply post_xmalloc|intros _ _].
  eapply post_bind; [apply post_object|intros fields ->].
  eapply post_bind; [apply post_need|intros address _]. eapply post_bind; [apply post_need|intros port _].
  eapply post_bind; [apply post_need|intros key _].
  eapply post_bind; [apply post_need|intros dr (vd & Hd & Hdr)].
  eapply post_bind; [apply post_need|intros len (vl & Hl & Hlen)].
  eapply post_bind; [apply post_init_inet|intros s _].
  assert (Hr : dr < 2 ^ 31) by (destruct vd; try done; injection Hdr as <-; by apply (swrap_range 32)).
  eapply post_bind; [apply post_multibloom_new; [done|]|].
  { intros Hfault _. exists dr, len. cbn [int_field]. rewrite Hd, Hl. cbn [mbind option_bind]. done. }
  intros bl (nb & nbytes & nh & Hbl & ->). eapply post_bind; [apply post_socket|intros sock Hsock]. repeat post_step.
  split; [done|]. cbn [sec_state drift replays]. intros Hpos Hbits Hhash.
  destruct (multibloom_new_wf log (Z.to_nat dr) len replay_error nb nbytes nh Hbl Hbits Hhash) as [Hwf _].
  split; cbn [replays drift now Bloom.filters]; [done|lia|rewrite length_replicate; lia|lia].
Qed.

Lemma post_load_samplers es : forall l, Forall sampler_ok l -> (length l <= 8)%nat ->
  post (load_samplers es l)
    (fun _ => (8 < length l + count known_sampler es)%nat \/ Exists replay_fault es)
    (fun l' => Forall sampler_ok l' /\ (length l' <= 8)%nat).
Proof.
  induction es as [|e es IH]; intros l Hl H8; cbn [load_samplers]; [by apply post_ret|].
  unfold count, known_sampler in *. cbn [List.filter].
  assert (Hsnoc : forall C s, sampler_ok s -> ((8 < length l + S (length (List.filter (fun e =>
      bool_decide (type_of e = Some (bytes "statsd")) || bool_decide (type_of e = Some (bytes "statsd-secure"))) es)))%nat \/
      Exists replay_fault es -> C) ->
    post (l ← append_slot l s; load_samplers es l) (fun _ => C) (fun l' => Forall sampler_ok l' /\ (length l' <= 8)%nat)).
  { intros C s Hs HC. apply (post_bind _ _ _ _ (fun l' => l' = l ++ [s] /\ (length l < 8)%nat)).
    - unfold append_slot. destruct (Z.ltb_spec (Z.of_nat (length l)) 8); [apply post_ret; split; [done|lia]|].
      apply post_undefined. intros _. apply HC. left. lia.
    - intros l' [-> Hlt]. eapply post_weaken; [apply IH| |done].
      + apply Forall_app. split; [done|by constructor].
      + rewrite length_app. simpl. lia.
      + rewrite length_app. cbn [length]. intros _ [?|?]; apply HC; [left; lia|by right]. }
  destruct (bool_decide (type_of e = Some (bytes "statsd"))); [|destruct (bool_decide _)]; cbn [orb].
  - eapply post_bind; [apply post_statsd_new|intros s Hs]. apply Hsnoc; [done|]. cbn [length].
    intros [?|?]; [by left|right; by constructor 2].
  - eapply post_bind; [eapply post_weaken; [apply post_secure_new|intros ? ?; right; by constructor 1|done]|].
    intros s Hs. apply Hsnoc; [done|]. cbn [length]. intros [?|?]; [by left|right; by constructor 2].
  - eapply post_weaken; [by apply IH| |done]. intros ? [?|?]; [by left|right; by constructor 2].
Qed.

(** ** The daemon *)

(** The server's own metric is registered and ready to be sampled. *)
Definition has_own_metric (sv : brubeck_server (T := T)) : Prop :=
  exists id m, ht_find (table sv) (name sv) = Some id /\ heap sv !! id = Some m /\
    key m = name sv /\ type m = BRUBECK_MT_INTERNAL_STATS /\ as_ m = As_other true.

Record daemon_wf (d : daemon) : Prop := {
  dw_store : server_wf (hv_store (d_http d));
  dw_own : has_own_metric (hv_store (d_http d));
  dw_backends : backends_ok (hv_backends (d_http d));
  dw_active : active_backends (hv_store (d_http d)) = Z.of_nat (length (hv_backends (d_http d)));
  dw_samplers : Forall sampler_ok (d_samplers d);
  dw_flows : hv_samplers (d_http d) = base <$> d_samplers d;
  dw_active_samplers : hv_active_samplers (d_http d) = Z.of_nat (length (d_samplers d));
  dw_room : (length (d_samplers d) <= 8)%nat;
  dw_http `{Jansson} `{!JanssonLaws} version :
    utf8 version = true -> utf8 (name (hv_store (d_http d))) = true ->
    Forall (fun b => 1 <= hb_sample_freq b < 2 ^ 31) (hv_backends (d_http d)) ->
    http_wf version (d_http d);
}.

(** The value under a key. *)
Definition field (j : json) (k : string) : json :=
  match j with JObject fields => default (JArray []) (assoc k fields) | _ => JArray [] end.

(** The configurations that the code does not check. *)
Inductive startup_fault (config : json) : Prop :=
| fault_capacity c : int_field config "capacity" = Some c -> ~ 0 <= c < 31 -> startup_fault config
| fault_backends :
    ~ (1 <= count known_backend (json_array (field config "backends")) <= 8)%nat -> startup_fault config
| fault_samplers :
    (8 < count known_sampler (json_array (field config "samplers")))%nat -> startup_fault config
| fault_replay :
    Exists replay_fault (json_array (field config "samplers")) -> startup_fault config
| fault_http listen :
    field config "http" = JString listen -> atoi (default listen (after_last (chr ":") listen)) = None ->
    startup_fault config
| fault_name nm :
    nm = bytes "brubeck" \/ field config "server_name" = JString nm -> ~ key_fits nm -> startup_fault config.

Lemma post_timerfd n C : post (load_timerfd n) C (fun fd => 0 <= fd).
Proof. unfold load_timerfd. repeat post_step. by apply Z.ltb_ge. Qed.

Lemma post_signalfd C : post load_signalfd C (fun _ => True).
Proof. unfold load_signalfd. repeat post_step; done. Qed.

Lemma post_endpoint listen (C : list call -> Prop) :
  (atoi (default listen (after_last (chr ":") listen)) = None -> forall tr, C tr) ->
  post (brubeck_http_endpoint_init listen) C (fun _ => True).
Proof.
  intros HC. unfold brubeck_http_endpoint_init.
  eapply (post_bind _ _ _ _ (fun _ => True)); [by apply post_defined|intros p _]. repeat post_step; done.
Qed.

(** A table that was made is empty. *)
Lemma post_hashtable_new n C :
  post (brubeck_hashtable_new n) C (fun o => forall tb, o = Some tb -> forall k, ht_find tb k = None).
Proof.
  unfold brubeck_hashtable_new. eapply post_bind; [apply post_xmalloc|intros ht _].
  destruct (ht_init n) as [tb|] eqn:E; [apply post_ret; intros ? [= <-]; by eapply ht_init_empty|].
  post_step. by apply post_ret.
Qed.

(** What [load_config] leaves, with the table it made and the backends and
    samplers it created. *)
Definition config_loaded (config : json) (d : daemon) : Prop :=
  exists nm tb bs ss,
    (nm = bytes "brubeck" \/ field config "server_name" = JString nm) /\
    (forall k, ht_find tb k = None) /\ backends_ok bs /\
    length bs = count known_backend (json_array (field config "backends")) /\
    Forall sampler_ok ss /\ (length ss <= 8)%nat /\
    d_http d = loaded nm tb bs ss /\ d_samplers d = ss.

Lemma post_load_config path document signal update :
  post (load_config path document signal update)
    (fun tr => (exists config, document = Some config /\ startup_fault config) \/ pickler_oom tr)
    (fun d => exists config, document = Some config /\ config_loaded config d).
Proof.
  unfold load_config. destruct document as [config|]; [|apply post_die].
  apply (post_weaken _ (fun tr => startup_fault config \/ pickler_oom tr) _ (config_loaded config));
    [|intros tr [?|?]; [left; by exists config|by right]|by exists config].
  eapply post_bind; [apply post_object|intros fields ->].
  eapply post_bind; [apply post_optional|intros nm Hnm].
  eapply post_bind; [apply post_need|intros dump _].
  eapply post_bind; [apply post_need|intros capacity (vc & Hvc & Hc)].
  eapply post_bind; [apply post_need|intros backends (vb & Hvb & [= <-])].
  eapply post_bind; [apply post_need|intros samplers (vs & Hvs & [= <-])].
  eapply post_bind; [apply post_optional|intros http Hhttp].
  eapply post_bind; [apply post_optional|intros expire _].
  apply (post_bind _ _ _ _ (fun _ => 0 <= capacity < 31)).
  { destruct ((0 <=? capacity) && (capacity <? 31)) eqn:E; [apply post_ret; zbool; lia|].
    apply post_undefined. intros tr. left. apply (fault_capacity _ capacity); [by cbn [int_field]; rewrite Hvc|].
    intros Hr. destruct (Z.leb_spec 0 capacity), (Z.ltb_spec capacity 31); done || lia. }
  intros _ _. eapply post_bind; [apply post_hashtable_new|intros [tb|] Etb; [|apply post_die]].
  assert (Hb : field (JObject fields) "backends" = vb) by (cbn [field]; by rewrite Hvb).
  assert (Hs : field (JObject fields) "samplers" = vs) by (cbn [field]; by rewrite Hvs).
  eapply post_bind.
  { eapply post_weaken; [apply (post_load_backends (json_array vb) []); split; [simpl; lia|done]| |done].
    intros tr [HC|HC]; [left; apply fault_backends; rewrite Hb; simpl in HC; lia|by right]. }
  intros bs [Hbs Hlen]. eapply post_bind.
  { eapply post_weaken; [apply (post_load_samplers (json_array vs) []); [constructor|simpl; lia]| |done].
    intros tr [HC|HC]; left; [apply fault_samplers|apply fault_replay]; by rewrite Hs. }
  intros ss [Hss H8]. apply (post_bind _ _ _ _ (fun _ => True)).
  { destruct http as [listen|]; [|by apply post_ret]. apply post_endpoint.
    destruct Hhttp as [?|(vh & Hvh & Hl)]; [done|]. destruct vh as [s| | | | |]; try done.
    injection Hl as <-. intros E tr. left. apply (fault_http _ s); [|done]. cbn [field]. by rewrite Hvh. }
  intros _ _. apply (post_bind _ _ _ _ (fun _ => True)).
  { destruct (negb _); [|by apply post_ret]. apply (post_weaken _ (fun _ => False) _ (fun fd => 0 <= fd)); [apply post_timerfd|done|done]. }
  intros fde _. apply post_ret. exists nm, tb, bs, ss. rewrite Hb. split_and!; try done.
  - destruct Hnm as [->|(vn & Hvn & Hn)]; [by left|]. right. cbn [field]. rewrite Hvn.
    destruct vn; try done. injection Hn as <-. done.
  - by apply Etb.
Qed.

#[export] Instance key_fits_dec k : Decision (key_fits k).
Proof. unfold key_fits. apply _. Defined.

(** From the loaded configuration to the running daemon. *)
Lemma loaded_daemon config d :
  ~ startup_fault config -> config_loaded config d ->
  exists sv, brubeck_internal__init (hv_store (d_http d)) = Some sv /\ daemon_wf (with_store d sv) /\
    name sv = name (hv_store (d_http d)).
Proof.
  intros Hok (nm & tb & bs & ss & Hnm & Htb & Hbs & Hlen & Hss & H8 & Hd & Hds).
  assert (Hname : key_fits nm) by (destruct (decide (key_fits nm)); [done|by destruct Hok; apply (fault_name _ nm)]).
  assert (Hcount : (1 <= length bs <= 8)%nat).
  { rewrite Hlen. destruct (decide (1 <= count known_backend (json_array (field config "backends")) <= 8)%nat);
      [done|by destruct Hok; apply fault_backends]. }
  rewrite Hd. cbn [loaded hv_store]. set (sv0 := fresh_server nm tb (hb_sample_freq <$> bs)).
  assert (Hwf0 : server_wf sv0) by (apply fresh_server_wf; [done|by rewrite length_fmap]).
  destruct (internal_init_run sv0 Hwf0 Hname (Htb nm))
    as (sv & id & m & E & Hwf & Hn & Hf & Hm & Hk & Ht & Ha & Hin).
  exists sv. split; [done|]. split; [|done].
  assert (Hact : active_backends sv = Z.of_nat (length bs)).
  { rewrite (ii_active _ _ Hin). cbn [sv0 fresh_server active_backends]. by rewrite length_fmap. }
  split; cbn [with_store d_http d_samplers]; rewrite ?Hd, ?Hds; cbn [set_store loaded hv_store hv_backends
    hv_samplers hv_active_samplers]; try done.
  - exists id, m. by rewrite Hn.
  - intros J JL version Hv Hu Hfreq. split; cbn [set_store loaded hv_store hv_backends hv_samplers hv_active_samplers];
      [done|lia|rewrite length_fmap; lia| | |done|].
    + intros f. unfold brubeck_stats_sample. cbn [set_store hv_store]. rewrite (ii_sample _ _ Hin).
      cbn [sv0 fresh_server internal_stats Internal.sample]. unfold fits. lia.
    + destruct (ii_freq _ _ Hin) as (b & Hb & ->). cbn [sv0 fresh_server backends] in Hb.
      apply list_elem_of_fmap in Hb as (f & -> & Hb). apply list_elem_of_fmap in Hb as (hb & -> & Hb).
      cbn [b_sample_freq]. rewrite Forall_forall in Hfreq. by apply Hfreq, list_elem_of_In.
    + rewrite Hn in Hu. apply Forall_fmap with (f := key) (P := fun k => utf8 k = true).
      rewrite (ii_keys _ _ Hin). cbn [sv0 fresh_server heap name fmap list_fmap app]. by repeat constructor.
Qed.

Lemma startup_post path document :
  (forall config, document = Some config -> ~ startup_fault config) ->
  post (brubeck_server_init path document) pickler_oom daemon_wf.
Proof.
  intros Hok.
  unfold brubeck_server_init. post_step. eapply post_bind; [apply post_signalfd|intros signal _].
  eapply post_bind; [apply post_timerfd|intros update _]. eapply post_bind.
  - eapply post_weaken; [apply post_load_config|intros tr [(config & E & Hc)|?]; [by destruct (Hok config E)|done]|].
    intros d Hd. exact Hd.
  - intros d (config & E & Hd). destruct (loaded_daemon config d (Hok config E) Hd) as (sv & Es & Hwf & _).
    rewrite Es. by apply post_ret.
Qed.


(** ** Configurations that are meant *)

Record carbon_conf := { cc_address : list Z; cc_port : Z; cc_pickle : option bool; cc_frequency : Z }.

Record statsd_conf := {
  sc_address : list Z; sc_port : Z;
  sc_workers : option Z; sc_multimsg : option Z; sc_multisock : option bool;
}.

Record secure_conf := {
  xc_address : list Z; xc_port : Z; xc_key : list Z; xc_drift : Z; xc_replay_len : Z;
}.

Inductive sampler_conf := PlainConf (c : statsd_conf) | SecureConf (c : secure_conf).

Record conf := {
  cf_name : option (list Z); cf_dumpfile : list Z; cf_capacity : Z;
  cf_backends : list carbon_conf; cf_samplers : list sampler_conf;
  cf_http : option (list Z); cf_expire : option Z;
}.

Definition render_carbon (c : carbon_conf) : json := JObject
  ([("type"%string, JString (bytes "carbon")); ("address"%string, JString (cc_address c));
    ("port"%string, JInteger (cc_port c)); ("frequency"%string, JInteger (cc_frequency c))] ++
   maybe "pickle" JBool (cc_pickle c)).

Definition render_sampler (c : sampler_conf) : json :=
  match c with
  | PlainConf c => JObject
      ([("type"%string, JString (bytes "statsd")); ("address"%string, JString (sc_address c));
        ("port"%string, JInteger (sc_port c))] ++
       maybe "workers" JInteger (sc_workers c) ++ maybe "multimsg" JInteger (sc_multimsg c) ++
       maybe "multisock" JBool (sc_multisock c))
  | SecureConf c => JObject
      [("type"%string, JString (bytes "statsd-secure")); ("address"%string, JString (xc_address c));
       ("port"%string, JInteger (xc_port c)); ("hmac_key"%string, JString (xc_key c));
       ("max_drift"%string, JInteger (xc_drift c)); ("replay_len"%string, JInteger (xc_replay_len c))]
  end.

Definition render (c : conf) : json := JObject
  ([("dumpfile"%string, JString (cf_dumpfile c)); ("capacity"%string, JInteger (cf_capacity c));
    ("backends"%string, JArray (render_carbon <$> cf_backends c));
    ("samplers"%string, JArray (render_sampler <$> cf_samplers c))] ++
   maybe "server_name" JString (cf_name c) ++ maybe "http" JString (cf_http c) ++
   maybe "expire" JInteger (cf_expire c)).

(** What each entry becomes. *)
Definition carbon_matches (c : carbon_conf) (b : http_backend) : Prop :=
  resolves (cc_address c) (s32 (cc_port c)) (hb_addr b) /\ hb_sample_freq b = s32 (cc_frequency c) /\
  hb_pickle b = default false (cc_pickle c).

Definition sampler_matches (c : sampler_conf) (s : any_sampler) : Prop :=
  match c, s with
  | PlainConf c, Plain s =>
      resolves (sc_address c) (s32 (sc_port c)) (addr (st_sampler s)) /\
      worker_count s = u32 (s32 (default 4 (sc_workers c))) /\
      mmsg_count s = u32 (s32 (default 1 (sc_multimsg c))) /\
      (in_sock (st_sampler s) = -1 <-> default false (sc_multisock c) = true)
  | SecureConf c, Secure s =>
      resolves (xc_address c) (s32 (xc_port c)) (addr (sec_sampler s)) /\ hmac_key s = xc_key c /\
      drift (sec_state s) = s32 (xc_drift c)
  | _, _ => False
  end.

Section Obliging.
Context `{!Obliging}.

Lemma runs_init_inet s url port :
  runs (brubeck_sampler_init_inet s url port)
    (fun s' => in_sock s' = in_sock s /\ resolves url port (addr s')).
Proof. unfold brubeck_sampler_init_inet. eapply runs_bind; [apply runs_url|intros a Ha]. by apply runs_ret. Qed.

Lemma runs_thread t msg {A} (k : program A) Q :
  runs k Q -> runs (r ← sys (c_pthread_create t); if negb (r =? 0) then die msg else k) Q.
Proof.
  intros Hk. apply (runs_bind _ _ (fun r => r = 0)); [apply runs_sys; intros; apply ob_thread|].
  intros r ->. exact Hk.
Qed.

Lemma runs_start_workers n : runs (start_workers n) (fun _ => True).
Proof. induction n as [|n IH]; cbn [start_workers]; [by apply runs_ret|by apply runs_thread]. Qed.

Lemma runs_worker_threads s : runs (run_worker_threads s) (fun _ => True).
Proof. eapply runs_bind; [apply runs_xmalloc|intros _ _]. apply runs_start_workers. Qed.

Lemma runs_carbon_new c i : runs (brubeck_carbon_new (render_carbon c) i) (carbon_matches c).
Proof.
  unfold brubeck_carbon_new, render_carbon. eapply runs_bind; [apply runs_xcalloc|intros _ _].
  eapply runs_bind; [apply runs_object|intros ? ->].
  eapply runs_bind; [by eapply runs_need|intros ? ->]. eapply runs_bind; [by eapply runs_need|intros ? ->].
  eapply runs_bind; [apply (runs_optional _ _ _ _ (default false (cc_pickle c))); by destruct (cc_pickle c)|].
  intros ? ->. eapply runs_bind; [by eapply runs_need|intros ? ->].
  apply (runs_bind _ _ (fun _ => True)).
  { destruct (default false (cc_pickle c)); [|by apply runs_ret].
    destruct (pickle1_init_spec {| p_ptr := malloc PICKLE_BUFFER_SIZE; p_pos := 0; p_pt := 0 |})
      as (p & -> & Hp); [apply malloc_size|].
    apply (runs_bind _ _ (fun r => r <> 0)); [apply runs_sys; intros; by apply ob_malloc_bytes|].
    intros r Hr. zcase; [done|]. by apply runs_ret. }
  intros p _. eapply runs_bind; [apply runs_url|intros a Ha].
  apply (runs_bind _ _ (fun _ => True)); [apply runs_thread; by apply runs_ret|intros _ _]. by apply runs_ret.
Qed.

Lemma runs_statsd_new c :
  runs (brubeck_statsd_new (render_sampler (PlainConf c))) (fun s => sampler_matches (PlainConf c) (Plain s)).
Proof.
  unfold brubeck_statsd_new, render_sampler. eapply runs_bind; [apply runs_xmalloc|intros _ _].
  eapply runs_bind; [apply runs_object|intros ? ->].
  eapply runs_bind; [by eapply runs_need|intros ? ->]. eapply runs_bind; [by eapply runs_need|intros ? ->].
  destruct c as [address port workers multimsg multisock]. cbn [sc_workers sc_multimsg sc_multisock].
  eapply runs_bind; [apply (runs_optional _ _ _ _ (s32 (default 4 workers)));
    destruct workers, multimsg, multisock; reflexivity|intros ? ->].
  eapply runs_bind; [apply (runs_optional _ _ _ _ (s32 (default 1 multimsg)));
    destruct workers, multimsg, multisock; reflexivity|intros ? ->].
  eapply runs_bind; [apply (runs_optional _ _ _ _ (default false multisock));
    destruct workers, multimsg, multisock; reflexivity|intros ? ->].
  eapply runs_bind; [apply runs_init_inet|intros s [Hs Ha]].
  apply (runs_bind _ _ (fun s' => addr s' = addr s /\ (in_sock s' = -1 <-> default false multisock = true))).
  { destruct (default false multisock); cbn [negb]; [by apply runs_ret|].
    eapply runs_bind; [apply runs_socket|intros fd Hfd]. apply runs_ret. split; [done|]. cbn [set_in_sock in_sock].
    split; [intros ->; lia|done]. }
  intros s' [Ha' Hs']. cbv zeta. eapply runs_bind; [apply runs_worker_threads|intros _ _]. apply runs_ret.
  cbn [sampler_matches st_sampler worker_count mmsg_count sc_address sc_port sc_workers sc_multimsg sc_multisock].
  by rewrite Ha'.
Qed.

Lemma runs_new_filters n nbytes : 0 <= nbytes < 2 ^ 31 -> forall i size, 16 + 8 * (i + Z.of_nat n) <= size ->
  runs (new_filters n i size nbytes) (fun _ => True).
Proof.
  intros Hb. induction n as [|n IH]; intros i size Hsize; cbn [new_filters]; [by apply runs_ret|].
  rewrite (wrap_small 64 nbytes) by (unfold fits; lia).
  eapply runs_bind; [apply runs_xcalloc_bytes; lia|intros _ _]. unfold sizeof_multibloom, sizeof_pointer.
  zcase; [lia|]. eapply runs_bind; [apply IH; lia|intros fs _]. by apply runs_ret.
Qed.

Lemma runs_multibloom_new filters entries :
  filters < 2 ^ 31 /\ ~ bloom_fault filters entries ->
  runs (multibloom_new filters entries replay_error) (fun _ => True).
Proof.
  intros [Hf Hok]. unfold bloom_fault in Hok. unfold multibloom_new. cbv zeta.
  rewrite bloom_size by lia. eapply runs_bind; [apply runs_xmalloc_bytes; lia|intros _ _].
  unfold sizeof_ints. zcase; [lia|].
  destruct (multibloom_sizes log entries replay_error) as [[[nb nbytes] nh]|] eqn:E; [|by destruct Hok; right].
  eapply (runs_bind _ _ (fun x => x = (nb, nbytes, nh))); [by apply runs_ret|intros ? ->].
  pose proof (multibloom_sizes_range _ _ _ _ _ _ E).
  eapply runs_bind; [apply runs_new_filters; lia|intros fs _]. by apply runs_ret.
Qed.

Lemma runs_secure_new c :
  ~ replay_fault (render_sampler (SecureConf c)) ->
  runs (brubeck_statsd_secure_new (render_sampler (SecureConf c)))
    (fun s => sampler_matches (SecureConf c) (Secure s)).
Proof.
  intros Hok. unfold brubeck_statsd_secure_new, render_sampler.
  eapply runs_bind; [apply runs_xmalloc|intros _ _].
  eapply runs_bind; [apply runs_object|intros ? ->].
  eapply runs_bind; [by eapply runs_need|intros ? ->]. eapply runs_bind; [by eapply runs_need|intros ? ->].
  eapply runs_bind; [by eapply runs_need|intros ? ->]. eapply runs_bind; [by eapply runs_need|intros ? ->].
  eapply runs_bind; [by eapply runs_need|intros ? ->].
  eapply runs_bind; [apply runs_init_inet|intros s [_ Ha]].
  eapply runs_bind; [apply runs_multibloom_new|intros bl _].
  { split; [apply swrap_range; lia|]. intros Hf. destruct Hok. by exists (s32 (xc_drift c)), (s32 (xc_replay_len c)). }
  eapply runs_bind; [apply runs_socket|intros fd Hfd]. apply runs_thread. by apply runs_ret.
Qed.

Lemma runs_append {A} (l : list A) a : (length l < 8)%nat -> runs (append_slot l a) (fun l' => l' = l ++ [a]).
Proof. intros Hl. unfold append_slot. destruct (Z.ltb_spec (Z.of_nat (length l)) 8); [by apply runs_ret|lia]. Qed.

Lemma runs_load_backends cs : forall l, (length l + length cs <= 8)%nat ->
  runs (load_backends (render_carbon <$> cs) l)
    (fun l' => exists l2, l' = l ++ l2 /\ Forall2 carbon_matches cs l2).
Proof.
  induction cs as [|c cs IH]; intros l Hl; cbn [fmap list_fmap load_backends].
  - apply runs_ret. exists []. by rewrite app_nil_r.
  - cbn [length] in Hl. rewrite bool_decide_eq_true_2 by done.
    eapply runs_bind; [apply runs_carbon_new|intros b Hb].
    eapply runs_bind; [apply runs_append; lia|intros ? ->].
    eapply runs_weaken; [apply IH; rewrite length_app; simpl; lia|]. intros l' (l2 & -> & H2).
    exists (b :: l2). rewrite <- app_assoc. split; [done|by constructor].
Qed.

Lemma runs_load_samplers cs : forall l, (length l + length cs <= 8)%nat ->
  Forall (fun c => ~ replay_fault (render_sampler c)) cs ->
  runs (load_samplers (render_sampler <$> cs) l)
    (fun l' => exists l2, l' = l ++ l2 /\ Forall2 sampler_matches cs l2).
Proof.
  induction cs as [|c cs IH]; intros l Hl Hok; cbn [fmap list_fmap load_samplers].
  - apply runs_ret. exists []. by rewrite app_nil_r.
  - cbn [length] in Hl. inversion Hok as [|? ? Hc Hcs]; subst.
    assert (Hnext : forall s, sampler_matches c s ->
      runs (l ← append_slot l s; load_samplers (render_sampler <$> cs) l)
        (fun l' => exists l2, l' = l ++ l2 /\ Forall2 sampler_matches (c :: cs) l2)).
    { intros s Hs. eapply runs_bind; [apply runs_append; lia|intros ? ->].
      eapply runs_weaken; [apply IH; [rewrite length_app; simpl; lia|done]|]. intros l' (l2 & -> & H2).
      exists (s :: l2). rewrite <- app_assoc. split; [done|by constructor]. }
    destruct c as [c|c].
    + rewrite bool_decide_eq_true_2 by done.
      eapply runs_bind; [apply runs_statsd_new|intros s Hs]. by apply Hnext.
    + rewrite bool_decide_eq_false_2, bool_decide_eq_true_2 by done.
      eapply runs_bind; [by apply runs_secure_new|intros s Hs]. by apply Hnext.
Qed.

Lemma count_carbon cs : count known_backend (render_carbon <$> cs) = length cs.
Proof. unfold count. induction cs as [|c cs IH]; [done|]. cbn [fmap list_fmap List.filter length]. by rewrite <- IH. Qed.

Lemma count_samplers cs : count known_sampler (render_sampler <$> cs) = length cs.
Proof.
  unfold count. induction cs as [|c cs IH]; [done|]. cbn [fmap list_fmap List.filter length]. rewrite <- IH.
  by destruct c.
Qed.

(** The fields of a rendered configuration. *)
Lemma render_field c k v :
  assoc k (match render c with JObject f => f | _ => [] end) = Some v -> field (render c) k = v.
Proof. intros E. unfold render in *. cbn [field] in *. by rewrite E. Qed.

Lemma runs_timerfd n : runs (load_timerfd n) (fun fd => 0 <= fd).
Proof.
  unfold load_timerfd. eapply runs_bind; [apply runs_sys, ob_timer|intros fd Hfd].
  destruct (Z.ltb_spec fd 0); [lia|].
  apply (runs_bind _ _ (fun r => r = 0)); [apply runs_sys; intros; apply ob_settime|]. intros r ->. by apply runs_ret.
Qed.

Lemma runs_signalfd : runs load_signalfd (fun _ => True).
Proof.
  unfold load_signalfd. apply (runs_bind _ _ (fun r => r = 0)); [apply runs_sys; intros; apply ob_mask|].
  intros r ->. by apply runs_sys.
Qed.

Lemma runs_endpoint listen :
  atoi (default listen (after_last (chr ":") listen)) <> None ->
  runs (brubeck_http_endpoint_init listen) (fun _ => True).
Proof.
  intros Hp. unfold brubeck_http_endpoint_init. destruct (atoi _) as [p|]; [|done].
  eapply (runs_bind _ _ (fun _ => True)); [by apply runs_ret|intros q _].
  apply (runs_bind _ _ (fun r => r <> 0)); [apply runs_sys; intros; apply ob_mhd|]. intros r Hr. destruct (Z.eqb_spec r 0); [done|].
  by apply runs_ret.
Qed.

Lemma runs_hashtable_new n :
  (forall n, ht_init n <> None) -> runs (brubeck_hashtable_new n) (fun o => exists tb, o = Some tb).
Proof.
  intros Hht. eapply runs_bind; [apply runs_xmalloc|intros ht _].
  destruct (ht_init n) as [tb|] eqn:E; [|by destruct (Hht n)]. apply runs_ret. eauto.
Qed.

(** What the daemon has of its configuration. *)
Record daemon_matches (path : list Z) (c : conf) (d : daemon) : Prop := {
  dm_name : name (hv_store (d_http d)) = default (bytes "brubeck") (cf_name c);
  dm_dump : dump_path d = cf_dumpfile c;
  dm_config_name : config_name d = get_config_name path;
  dm_backends : Forall2 carbon_matches (cf_backends c) (hv_backends (d_http d));
  dm_samplers : Forall2 sampler_matches (cf_samplers c) (d_samplers d);
  dm_expire : fd_expire d = -1 <-> s32 (default 0 (cf_expire c)) = 0;
}.

Lemma runs_load_config path c signal update :
  ~ startup_fault (render c) -> (forall n, ht_init n <> None) ->
  runs (load_config path (Some (render c)) signal update) (daemon_matches path c).
Proof.
  intros Hok Hht. destruct c as [nm dump cap bs ss http expire]. unfold load_config, render.
  cbn [cf_name cf_dumpfile cf_capacity cf_backends cf_samplers cf_http cf_expire].
  eapply runs_bind; [apply runs_object|intros ? ->].
  eapply runs_bind; [apply (runs_optional _ _ _ _ (default (bytes "brubeck") nm)); by destruct nm, http, expire|].
  intros ? ->. do 4 (eapply runs_bind; [eapply runs_need; reflexivity|intros ? ->]).
  eapply runs_bind; [apply (runs_optional _ _ _ _ http); by destruct nm, http, expire|intros ? ->].
  eapply runs_bind; [apply (runs_optional _ _ _ _ (s32 (default 0 expire))); by destruct nm, http, expire|intros ? ->].
  apply (runs_bind _ _ (fun _ => True)).
  { destruct ((0 <=? s32 cap) && (s32 cap <? 31)) eqn:E; [by apply runs_ret|].
    destruct Hok. apply (fault_capacity _ (s32 cap)); [done|].
    intros Hr. destruct (Z.leb_spec 0 (s32 cap)), (Z.ltb_spec (s32 cap) 31); done || lia. }
  intros _ _. eapply runs_bind; [apply runs_hashtable_new, Hht|intros ? [tb ->]].
  cbn [json_array]. eapply runs_bind.
  { apply (runs_load_backends bs []). cbn [length]. rewrite <- (count_carbon bs).
    destruct (decide (1 <= count known_backend (render_carbon <$> bs) <= 8)%nat); [lia|].
    destruct Hok. by apply fault_backends. }
  intros lb (lb' & -> & Hlb). eapply runs_bind.
  { apply (runs_load_samplers ss []).
    - cbn [length]. rewrite <- (count_samplers ss).
      destruct (decide (8 < count known_sampler (render_sampler <$> ss))%nat); [|lia].
      destruct Hok. by apply fault_samplers.
    - apply Forall_forall. intros x Hx Hf. apply Hok, fault_replay, Exists_exists. exists (render_sampler x).
      split; [|done]. apply list_elem_of_In, list_elem_of_fmap_2. by apply list_elem_of_In. }
  intros ls (ls' & -> & Hls). apply (runs_bind _ _ (fun _ => True)).
  { destruct http as [listen|]; [|by apply runs_ret]. apply runs_endpoint. intros E.
    destruct Hok. apply (fault_http _ listen); [by destruct nm|done]. }
  intros _ _. apply (runs_bind _ _ (fun fd => fd = -1 <-> s32 (default 0 expire) = 0)).
  { destruct (Z.eqb_spec (s32 (default 0 expire)) 0) as [Ee|Ee]; cbn [negb]; [by apply runs_ret|].
    eapply runs_weaken; [apply runs_timerfd|]. intros fd Hfd. cbv beta in Hfd. lia. }
  intros fd Hfd. apply runs_ret. by split.
Qed.

(** C21: a configuration that is meant is carried out: when the system calls
    succeed and the configuration has none of the listed faults, start-up
    returns a daemon with one backend for every entry, in order, at its address,
    port and frequency, one sampler for every entry with its address, port,
    workers and key, the configured names, and an expiry timer exactly if one
    is asked for. *)
Theorem startup_runs (path : list Z) (c : conf) (tr : list call)
  (Hok : ~ startup_fault (render c)) (Hht : forall n, ht_init n <> None) :
  exists d tr', brubeck_server_init path (Some (render c)) tr = (Ret d, tr') /\
    daemon_wf d /\ daemon_matches path c d.
Proof.
  assert (Hok' : forall config, Some (render c) = Some config -> ~ startup_fault config) by (by intros ? [= <-]).
  pose proof (startup_post path (Some (render c)) Hok' tr) as Hp.
  enough (Hr : runs (brubeck_server_init path (Some (render c))) (daemon_matches path c)).
  { destruct (Hr tr) as (d & tr' & E & Hd). rewrite E in Hp. by exists d, tr'. }
  unfold brubeck_server_init. apply (runs_bind _ _ (fun _ => True)); [by apply runs_sys|intros _ _].
  eapply runs_bind; [apply runs_signalfd|intros signal _]. eapply runs_bind; [apply runs_timerfd|intros update _].
  apply (runs_bind _ _ (fun d => config_loaded (render c) d /\ daemon_matches path c d)).
  { intros tr1. destruct (runs_load_config path c signal update Hok Hht tr1) as (d & tr2 & E & Hd).
    exists d, tr2. split; [done|].
    pose proof (post_load_config path (Some (render c)) signal update tr1) as Hl. rewrite E in Hl.
    destruct Hl as (config & [= <-] & Hl). auto. }
  intros d [Hd Hm]. destruct (loaded_daemon (render c) d Hok Hd) as (sv & Es & _ & Hname). rewrite Es.
  apply runs_ret. destruct Hm as [Hn Hdump Hpath Hbs Hss He]. split; try done.
  by rewrite <- Hn.
Qed.
End Obliging.
End Config.

(** ** Example: the configuration of the repository *)

#[export] Instance demo_kernel : Kernel := {|
  answer tr c :=
    match c with
    | c_socket | c_timerfd_create | c_signalfd _ => 3 + Z.of_nat (length tr)
    | c_mhd_start _ => 1
    | c_malloc _ | c_calloc _ => 4096
    | c_malloc_bytes n | c_calloc_bytes n => if n <? 2 ^ 63 then 4096 else 0
    | c_setsockopt fd _ _ => if fd <? 0 then -1 else 0
    | _ => 0
    end;
  getaddrinfo _ :=
    Some [{| ai_family := AF_INET; ai_addrlen := 16;
             ai_addr := {| sin_family := AF_INET; sin_port := 0; sin_addr := [127; 0; 0; 1] |} |}];
|}.

#[export] Instance demo_obliging : Obliging.
Proof.
  split; cbn [answer demo_kernel]; intros; try lia; try done; try (zcase; lia).
  eexists. split; [reflexivity|]. split; [done|]. by repeat constructor.
Qed.

#[export] Instance demo_kernel_laws : KernelLaws.
Proof. split. intros tr fd o v Hfd. cbn [answer demo_kernel]. zcase; lia. Qed.

Definition demo_conf : conf :=
  {| cf_name := Some (bytes "brubeck_debug"); cf_dumpfile := bytes "./brubeck.dump"; cf_capacity := 15;
     cf_backends := [{| cc_address := bytes "localhost"; cc_port := 2003; cc_pickle := None; cc_frequency := 10 |}];
     cf_samplers :=
       [PlainConf {| sc_address := bytes "0.0.0.0"; sc_port := 8126; sc_workers := Some 4;
                     sc_multimsg := Some 8; sc_multisock := Some true |};
        SecureConf {| xc_address := bytes "0.0.0.0"; xc_port := 9126;
                      xc_key := bytes "750c783e6ab0b503eaa86e310a5db738"; xc_drift := 3; xc_replay_len := 80 |}];
     cf_http := Some (bytes ":8080"); cf_expire := Some 20 |}.

Definition demo_malloc (n : Z) : list Z := replicate (Z.to_nat n) 205.

Definition demo_ht_init (_ : Z) : option (gmap (list Z) nat) := Some ∅.

Lemma demo_no_fault : ~ startup_fault demo_log (render demo_conf).
Proof.
  intros Hf. destruct Hf as [c Hc Hr|Hr|Hr|Hr|listen Hl Hr|nm Hn Hr].
  - injection Hc as <-. apply Hr. vm_compute. intuition congruence.
  - apply Hr. vm_compute. lia.
  - vm_compute in Hr. lia.
  - apply Exists_cons in Hr as [(? & ? & Hd & _)|[(d & l & Hd & Hl & Hr)|[]%Exists_nil]%Exists_cons]; [done|].
    injection Hd as <-. injection Hl as <-. vm_compute in Hr. destruct Hr; done.
  - injection Hl as <-. vm_compute in Hr. done.
  - apply Hr. destruct Hn as [->|[= <-]]; (apply (bool_decide_eq_true_1 (key_fits _)); vm_compute; reflexivity).
Qed.

Lemma demo_malloc_size n : length (demo_malloc n) = Z.to_nat n.
Proof. apply length_replicate. Qed.

Lemma demo_ht_empty n t : demo_ht_init n = Some t -> forall k, ht_find t k = None.
Proof. by intros [= <-]. Qed.

Definition demo_init := brubeck_server_init 205 demo_malloc demo_log demo_ht_init.

Lemma startup_runs_witness :
  exists d tr', demo_init (bytes "/etc/config.json") (Some (render demo_conf)) [] = (Ret d, tr') /\
    daemon_wf d /\ daemon_matches (bytes "/etc/config.json") demo_conf d.
Proof.
  exact (startup_runs 205 demo_malloc demo_log demo_ht_init demo_malloc_size demo_ht_empty
           (bytes "/etc/config.json") demo_conf [] demo_no_fault ltac:(done)).
Defined.


(** The calls of that start-up, in order: the backend's thread starts before
    the samplers are made, and the secure sampler's socket is bound before its
    thread starts. *)
Example startup_calls :
  snd (demo_init (bytes "/etc/config.json") (Some (render demo_conf)) []) =
    let loopback p := {| sin_family := AF_INET; sin_port := htons p; sin_addr := [127; 0; 0; 1] |} in
    [c_signal_ignore NR_SIGPIPE; c_sigprocmask signal_mask; c_signalfd signal_mask;
     c_timerfd_create; c_timerfd_settime 6 1; c_malloc "brubeck_hashtable_t";
     c_calloc "struct brubeck_carbon"; c_pthread_create (t_backend 0);
     c_malloc "struct brubeck_statsd"; c_malloc "pthread_t[]"] ++
    replicate 4 (c_pthread_create t_statsd) ++
    [c_malloc "struct brubeck_statsd_secure"; c_malloc_bytes 40] ++ replicate 3 (c_calloc_bytes 144) ++
    socket_calls 22 (loopback 9126) false ++
    [c_pthread_create t_statsd_secure; c_mhd_start 8080; c_timerfd_create; c_timerfd_settime 28 20].
Proof. vm_compute. reflexivity. Qed.

(** A negative [max_drift]: the structure of the filters is eight bytes long and
    its fields are written behind it, it is empty, or it cannot be allocated. *)
Definition drift_conf (drift : Z) : json := render
  {| cf_name := None; cf_dumpfile := []; cf_capacity := 10;
     cf_backends := [{| cc_address := []; cc_port := 1; cc_pickle := None; cc_frequency := 10 |}];
     cf_samplers := [SecureConf {| xc_address := []; xc_port := 1; xc_key := []; xc_drift := drift; xc_replay_len := 80 |}];
     cf_http := None; cf_expire := None |}.

Example startup_negative_drift :
  (fun n => fst (demo_init (bytes "x") (Some (drift_conf n)) [])) <$> [-1; -2; -3] =
    [Undefined; Undefined; Exit "oom"].
Proof. vm_compute. reflexivity. Qed.

(** A pickler whose buffer cannot be allocated is written to all the same. *)
Definition oom_kernel : Kernel := {|
  answer tr c := match c with c_malloc_bytes _ => 0 | _ => answer tr c end;
  getaddrinfo := getaddrinfo;
|}.

Example startup_pickler_oom :
  fst (brubeck_carbon_new (H := oom_kernel) demo_malloc
    (render_carbon {| cc_address := []; cc_port := 2004; cc_pickle := Some true; cc_frequency := 10 |}) 0 []) = Undefined.
Proof. vm_compute. reflexivity. Qed.

(** A configuration without a backend ends in a null pointer: the internal
    metric is registered with [backends[0]]. *)
Example startup_no_backend :
  fst (demo_init (bytes "x") (Some (JObject
    [("dumpfile"%string, JString []); ("capacity"%string, JInteger 10);
     ("backends"%string, JArray []); ("samplers"%string, JArray [])])) []) = Undefined.
Proof. vm_compute. reflexivity. Qed.
End Config.
