(* ===== verification/Options.v ===== *)
(** * The command line of the daemon ([brubeck.c])

    [getopt_long] of the GNU C library on the tables that [main] gives it, and
    [main] from the strings of the command line.  Whatever way the options are
    spelled and wherever operands stand between them, [main] sees the options in
    their order; the last log and the last configuration file count. *)

From S2P Require Import Prelude Value Metric Bloom Store Net Json Config.
Import Metric Bloom Store Net Json Config.

Module Options.

(** ** The tables *)

Record long_option := { lo_name : list Z; lo_has_arg : bool; lo_val : Z }.

Definition longopts : list long_option :=
  [{| lo_name := bytes "log"; lo_has_arg := true; lo_val := chr "l" |};
   {| lo_name := bytes "config"; lo_has_arg := true; lo_val := chr "c" |};
   {| lo_name := bytes "version"; lo_has_arg := false; lo_val := chr "v" |}].

Definition optstring : list Z := bytes ":l:c:v".

(** ** [getopt_long]

    A result is the value of an option with its argument, or one of the errors
    [':'] and ['?'].  An operand is passed over (the library moves it behind the
    options), unless [posixly_correct] makes it the end of the options. *)

Inductive opt_result := Opt (val : Z) (optarg : list Z) | MissingArgument | Unrecognized.

(** An option letter of [optstring]: whether a colon follows. *)
Fixpoint find_letter (c : Z) (s : list Z) : option bool :=
  match s with
  | [] => None
  | x :: s => if x =? c then Some (match s with y :: _ => y =? chr ":" | [] => false end) else find_letter c s
  end.

Definition short_option (c : Z) : option bool :=
  if (c =? chr ":") || (c =? chr ";") then None else find_letter c optstring.

(** The option that [name] names, in full or by the start of one name only. *)
Definition find_long (name : list Z) : option long_option :=
  match List.filter (fun o => bool_decide (lo_name o = name)) longopts with
  | o :: _ => Some o
  | [] => match List.filter (fun o => bool_decide (name `prefix_of` lo_name o)) longopts with
          | [o] => Some o
          | _ => None
          end
  end.

(** The text before the first equals sign, and behind it if there is one. *)
Fixpoint split_equals (s : list Z) : list Z * option (list Z) :=
  match s with
  | [] => ([], None)
  | c :: s => if c =? chr "=" then ([], Some s) else let '(name, arg) := split_equals s in (c :: name, arg)
  end.

(** The letters behind one dash: the options without arguments, and the letter
    whose argument is the next word, if the last one has to have one. *)
Fixpoint cluster (cs : list Z) : list opt_result * option Z :=
  match cs with
  | [] => ([], None)
  | c :: cs =>
      match short_option c with
      | None => let '(rs, next) := cluster cs in (Unrecognized :: rs, next)
      | Some false => let '(rs, next) := cluster cs in (Opt c [] :: rs, next)
      | Some true => match cs with [] => ([], Some c) | _ => ([Opt c cs], None) end
      end
  end.

Definition dash : Z := chr "-".

(** What a word of the command line is. *)
Inductive word := W_operand | W_end | W_long (name : list Z) (arg : option (list Z)) | W_short (cs : list Z).

Definition read_word (w : list Z) : word :=
  match w with
  | a :: b :: s =>
      if a =? dash then
        if b =? dash then
          match s with [] => W_end | _ => let '(name, arg) := split_equals s in W_long name arg end
        else W_short (b :: s)
      else W_operand
  | _ => W_operand
  end.

Fixpoint getopt_long (posixly_correct : bool) (args : list (list Z)) : list opt_result :=
  match args with
  | [] => []
  | w :: args =>
      match read_word w with
      | W_operand => if posixly_correct then [] else getopt_long posixly_correct args
      | W_end => []
      | W_long name arg =>
          match find_long name with
          | None => Unrecognized :: getopt_long posixly_correct args
          | Some o =>
              match lo_has_arg o, arg with
              | true, Some a => Opt (lo_val o) a :: getopt_long posixly_correct args
              | true, None =>
                  match args with
                  | a :: args => Opt (lo_val o) a :: getopt_long posixly_correct args
                  | [] => [MissingArgument]
                  end
              | false, Some _ => Unrecognized :: getopt_long posixly_correct args
              | false, None => Opt (lo_val o) [] :: getopt_long posixly_correct args
              end
          end
      | W_short cs =>
          let '(rs, next) := cluster cs in
          rs ++ match next with
                | None => getopt_long posixly_correct args
                | Some c =>
                    match args with
                    | a :: args => Opt c a :: getopt_long posixly_correct args
                    | [] => [MissingArgument]
                    end
                end
      end
  end.

(** ** [main] *)

(** The cases of the switch. *)
Definition switch (r : opt_result) : main_option :=
  match r with
  | Opt val optarg =>
      if val =? chr "l" then OptLog optarg
      else if val =? chr "c" then OptConfig optarg
      else if val =? chr "v" then OptVersion
      else OptOther
  | _ => OptOther
  end.

(** The options of the words behind [argv[0]]. *)
Definition read_options (posixly_correct : bool) (args : list (list Z)) : list main_option :=
  switch <$> getopt_long posixly_correct args.

Section Main.
Context `{Kernel} (junk : Z) (malloc : Z -> list Z) (log : value_t -> value_t) {T : Type} `{HashTable T}
        (ht_init : Z -> option T).

(** [main] on its command line: [argv[0]] is not an option. *)
Definition main_argv (files : list Z -> option json) (posixly_correct : bool) (argv : list (list Z)) :=
  main junk malloc log ht_init files (read_options posixly_correct (tail argv)).
End Main.

(** ** What a command line means *)

(** The words that spell an option: a letter or the start of a long name, with
    the argument in the same word or in the next one. *)
Inductive spelled : main_option -> list (list Z) -> Prop :=
| short_apart o a : o ∈ longopts -> lo_has_arg o = true -> spelled (switch (Opt (lo_val o) a)) [[dash; lo_val o]; a]
| short_joined o a : o ∈ longopts -> lo_has_arg o = true -> a <> [] ->
    spelled (switch (Opt (lo_val o) a)) [dash :: lo_val o :: a]
| short_flag o : o ∈ longopts -> lo_has_arg o = false -> spelled (switch (Opt (lo_val o) [])) [[dash; lo_val o]]
| long_apart o p a : o ∈ longopts -> lo_has_arg o = true -> p `prefix_of` lo_name o -> p <> [] ->
    spelled (switch (Opt (lo_val o) a)) [dash :: dash :: p; a]
| long_joined o p a : o ∈ longopts -> lo_has_arg o = true -> p `prefix_of` lo_name o -> p <> [] ->
    spelled (switch (Opt (lo_val o) a)) [dash :: dash :: p ++ chr "=" :: a]
| long_flag o p : o ∈ longopts -> lo_has_arg o = false -> p `prefix_of` lo_name o -> p <> [] ->
    spelled (switch (Opt (lo_val o) [])) [dash :: dash :: p].

Definition operand (w : list Z) : Prop := head w <> Some dash \/ w = [dash].

(** A letter that is no option, or a text that starts no long name. *)
Inductive unknown : list Z -> Prop :=
| unknown_letter c s : c <> dash -> c ∉ (lo_val <$> longopts) -> unknown (dash :: c :: s)
| unknown_name p : chr "=" ∉ p -> p <> [] -> (forall o, o ∈ longopts -> ~ p `prefix_of` lo_name o) ->
    unknown (dash :: dash :: p).

Inductive ending := Starts | Version | Usage.

(** The options with files before the end of the options, the request for the
    version or the first error. *)
Inductive means (posix : bool) : list (list Z) -> list main_option -> ending -> Prop :=
| means_nothing : means posix [] [] Starts
| means_end args : means posix ([dash; dash] :: args) [] Starts
| means_operand w args opts e : operand w -> posix = false -> means posix args opts e -> means posix (w :: args) opts e
| means_stop w args : operand w -> posix = true -> means posix (w :: args) [] Starts
| means_option o ws args opts e : spelled o ws -> o <> OptVersion -> means posix args opts e ->
    means posix (ws ++ args) (o :: opts) e
| means_version ws args : spelled OptVersion ws -> means posix (ws ++ args) [] Version
| means_unknown w args : unknown w -> means posix (w :: args) [] Usage
| means_missing_short o : o ∈ longopts -> lo_has_arg o = true -> means posix [[dash; lo_val o]] [] Usage
| means_missing_long o p : o ∈ longopts -> lo_has_arg o = true -> p `prefix_of` lo_name o -> p <> [] ->
    means posix [dash :: dash :: p] [] Usage.

Definition log_arg (o : main_option) : option (list Z) := match o with OptLog a => Some a | _ => None end.
Definition config_arg (o : main_option) : option (list Z) := match o with OptConfig a => Some a | _ => None end.

(** ** Correctness *)

#[export] Instance long_option_eq_dec : EqDecision long_option.
Proof. solve_decision. Defined.

Lemma find_long_prefix o p : o ∈ longopts -> p `prefix_of` lo_name o -> p <> [] -> find_long p = Some o.
Proof.
  intros Ho [k E] Hp.
  assert (Hall : forallb (fun o => forallb (fun n => bool_decide (find_long (take (S n) (lo_name o)) = Some o))
                                    (seq 0 (length (lo_name o)))) longopts = true) by (vm_compute; reflexivity).
  rewrite forallb_forall in Hall. apply list_elem_of_In in Ho. specialize (Hall o Ho). rewrite forallb_forall in Hall.
  assert (Hin : In (pred (length p)) (seq 0 (length (lo_name o)))).
  { apply in_seq. rewrite E, length_app. destruct p; [done|]. cbn. lia. }
  specialize (Hall _ Hin). apply bool_decide_eq_true in Hall.
  assert (Htake : take (S (pred (length p))) (lo_name o) = p).
  { replace (S (pred (length p))) with (length p) by (destruct p; [done|reflexivity]). by rewrite E, take_app_length. }
  by rewrite Htake in Hall.
Qed.

Lemma split_equals_none p : chr "=" ∉ p -> split_equals p = (p, None).
Proof.
  induction p as [|c p IH]; [done|]. intros Hp. cbn [split_equals].
  destruct (Z.eqb_spec c (chr "=")) as [->|_]; [by destruct Hp; left|]. rewrite IH; [done|]. intros ?. apply Hp. by right.
Qed.

Lemma split_equals_some p a : chr "=" ∉ p -> split_equals (p ++ chr "=" :: a) = (p, Some a).
Proof.
  induction p as [|c p IH]; cbn [app split_equals]; [by rewrite Z.eqb_refl|]. intros Hp.
  destruct (Z.eqb_spec c (chr "=")) as [->|_]; [by destruct Hp; left|]. rewrite IH; [done|]. intros ?. apply Hp. by right.
Qed.

Lemma prefix_no_equals o p : o ∈ longopts -> p `prefix_of` lo_name o -> chr "=" ∉ p.
Proof.
  intros Ho [k E] Hin. assert (Hn : bool_decide (chr "=" ∈ lo_name o) = true).
  { apply bool_decide_eq_true_2. rewrite E. apply elem_of_app. by left. }
  revert Hn. clear k E Hin. revert o Ho. refine (proj1 (list.Forall_forall _ _) _). repeat constructor; vm_compute; congruence.
Qed.

(** The letters are those of the long options. *)
Lemma short_letter o : o ∈ longopts -> short_option (lo_val o) = Some (lo_has_arg o) /\ (lo_val o =? dash) = false.
Proof. revert o. refine (proj1 (list.Forall_forall _ _) _). repeat constructor. Qed.

Lemma short_unknown c : c ∉ (lo_val <$> longopts) -> short_option c = None.
Proof.
  intros Hc. unfold short_option. destruct ((c =? chr ":") || (c =? chr ";")) eqn:E; [done|].
  apply orb_false_iff in E as [E _]. cbn in Hc. rewrite !not_elem_of_cons in Hc. destruct Hc as (Hl & Hk & Hv & _).
  unfold optstring. cbn [find_letter bytes map]. rewrite Z.eqb_sym in E. cbn. cbn in E.
  repeat match goal with |- context [?a =? c] => destruct (Z.eqb_spec a c); [subst; done|] end. done.
Qed.

Lemma find_long_unknown p : p <> [] -> (forall o, o ∈ longopts -> ~ p `prefix_of` lo_name o) -> find_long p = None.
Proof.
  intros Hp Hno. unfold find_long.
  assert (Hf : forall (q : long_option -> bool) l, (forall o, o ∈ l -> q o = false) -> List.filter q l = []).
  { intros q l. induction l as [|o l IH]; [done|]. intros Hq. cbn. rewrite Hq by left. apply IH. intros o' Ho'. apply Hq. by right. }
  rewrite Hf by (intros o Ho; apply bool_decide_eq_false; intros <-; by destruct (Hno o Ho)).
  by rewrite Hf by (intros o Ho; apply bool_decide_eq_false; by apply Hno).
Qed.

Lemma read_long p : p <> [] -> read_word (dash :: dash :: p) = let '(name, arg) := split_equals p in W_long name arg.
Proof. by destruct p. Qed.

(** The words of an option give its result and leave the rest. *)
Lemma getopt_spelled posix o ws args :
  spelled o ws -> exists r, switch r = o /\ getopt_long posix (ws ++ args) = r :: getopt_long posix args.
Proof.
  intros Hs. destruct Hs as [o a Ho Ha|o a Ho Ha Hne|o Ho Ha|o p a Ho Ha Hp Hne|o p a Ho Ha Hp Hne|o p Ho Ha Hp Hne];
    eexists; (split; [reflexivity|]); cbn [app getopt_long].
  1-3: destruct (short_letter o Ho) as [El Ed]; rewrite Ha in El; cbn [read_word]; rewrite Z.eqb_refl, Ed;
    cbn [cluster]; rewrite El; try done; by destruct a.
  - rewrite read_long, split_equals_none by (done || exact (prefix_no_equals o p Ho Hp)). by rewrite (find_long_prefix o), Ha.
  - rewrite read_long, split_equals_some by (exact (prefix_no_equals o p Ho Hp) || by destruct p). by rewrite (find_long_prefix o), Ha.
  - rewrite read_long, split_equals_none by (done || exact (prefix_no_equals o p Ho Hp)). by rewrite (find_long_prefix o), Ha.
Qed.

Lemma read_operand w : operand w -> read_word w = W_operand.
Proof.
  intros [Hw| ->]; [|done]. destruct w as [|a [|b s]]; [done..|]. cbn [read_word].
  destruct (Z.eqb_spec a dash) as [->|]; [by destruct Hw|done].
Qed.

Lemma getopt_unknown posix w args : unknown w -> exists rs, getopt_long posix (w :: args) = Unrecognized :: rs.
Proof.
  intros [c s Hd Hc|p He Hp Hno]; cbn [getopt_long].
  - cbn [read_word]. rewrite Z.eqb_refl. destruct (Z.eqb_spec c dash); [done|]. cbn [cluster].
    rewrite short_unknown by done. destruct (cluster s) as [rs next]. by eexists.
  - rewrite read_long, split_equals_none, find_long_unknown by done. by eexists.
Qed.

(** The loop over the options remembers the last of each. *)
Lemma spelled_file o ws : spelled o ws -> o = OptVersion \/ (exists a, o = OptLog a) \/ exists a, o = OptConfig a.
Proof.
  assert (Hsw : forall l a, l ∈ longopts -> switch (Opt (lo_val l) a) = OptVersion \/
            (exists b, switch (Opt (lo_val l) a) = OptLog b) \/ exists b, switch (Opt (lo_val l) a) = OptConfig b).
  { intros l a Hl. revert l Hl. refine (proj1 (list.Forall_forall _ _) _). unfold longopts. rewrite !list.Forall_cons.
    split_and!; [right; left|right; right|left|]; cbn; eauto using List.Forall_nil. }
  destruct 1; eauto.
Qed.

Lemma main_options_last opts : forall l c,
  Forall (fun o => (exists a, o = OptLog a) \/ exists a, o = OptConfig a) opts -> forall rest,
  main_options (opts ++ rest) l c =
    main_options rest (match list.last (omap log_arg opts) with Some a => Some a | None => l end)
      (default c (list.last (omap config_arg opts))).
Proof.
  induction opts as [|o opts IH]; intros l c Ho rest; [done|]. apply list.Forall_cons in Ho as [[[a ->]|[a ->]] Ho];
    cbn [app main_options omap list_omap log_arg config_arg]; rewrite IH by done; rewrite list.last_cons; unfold default; repeat case_match; by simplify_eq/=.
Qed.

(** What [getopt_long] returns: the options of the meaning, and then a request
    for the version, an error, or nothing. *)
Lemma read_means posix args opts e :
  means posix args opts e ->
  Forall (fun o => (exists a, o = OptLog a) \/ exists a, o = OptConfig a) opts /\
  exists rest, read_options posix args = opts ++ rest /\
    match e with
    | Starts => rest = []
    | Version => exists more, rest = OptVersion :: more
    | Usage => exists more, rest = OptOther :: more
    end.
Proof.
  unfold read_options. induction 1 as [|args|w args opts e Hw Hp Hm [IHo IH]|w args Hw Hp|o ws args opts e Hs Hv Hm [IHo IH]
    |ws args Hs|w args Hu|o Ho Ha|o p Ho Ha Hp Hne]; (split; [try done|]).
  - by exists [].
  - by exists [].
  - subst posix. cbn [getopt_long]. by rewrite read_operand by done.
  - cbn [getopt_long]. rewrite read_operand, Hp by done. by exists [].
  - apply list.Forall_cons. split; [|done]. by destruct (spelled_file _ _ Hs).
  - destruct (getopt_spelled posix o ws args Hs) as (r & <- & ->). destruct IH as (rest & E & He). exists rest.
    rewrite fmap_cons, E. done.
  - destruct (getopt_spelled posix _ ws args Hs) as (r & Er & ->). rewrite fmap_cons, Er. eexists. split; [done|]. by eexists.
  - destruct (getopt_unknown posix w args Hu) as [rs ->]. eexists. split; [done|]. by eexists.
  - cbn [getopt_long read_word]. destruct (short_letter o Ho) as [El Ed]. rewrite Z.eqb_refl, Ed. cbn [cluster].
    rewrite El, Ha. eexists. split; [done|]. by eexists.
  - cbn [getopt_long]. rewrite read_long, split_equals_none by (done || exact (prefix_no_equals o p Ho Hp)).
    rewrite (find_long_prefix o), Ha by done. eexists. split; [done|]. by eexists.
Qed.

(** [main] behind its loop over the options. *)
Lemma main_options_means posix args opts e :
  means posix args opts e ->
  main_options (read_options posix args) None (bytes "config.default.json") =
    match e with
    | Starts => inl (list.last (omap log_arg opts), default (bytes "config.default.json") (list.last (omap config_arg opts)))
    | Version => inr 0
    | Usage => inr 1
    end.
Proof.
  intros Hm. destruct (read_means posix args opts e Hm) as (Ho & rest & -> & He). rewrite main_options_last by done.
  destruct e; [subst rest|destruct He as [more ->]..]; [|done..]. cbn [main_options].
  by destruct (list.last (omap log_arg opts)).
Qed.

Section Meaning.
Context `{Kernel} (junk : Z) (malloc : Z -> list Z) (log : value_t -> value_t) {T : Type} `{HashTable T}
        (ht_init : Z -> option T).

(** C37: the command line is understood however it is spelled: the daemon starts
    with the last log file and the last configuration file that the options
    name, or with the defaults of [main]; a request for the version before any
    error ends it with status 0, and an unknown option or a missing argument with
    status 1. *)
Theorem command_line_meaning (files : list Z -> option json) (posix : bool) (argv0 : list Z) (args : list (list Z))
  (opts : list main_option) (e : ending) (Hm : means posix args opts e) :
  let config_file := default (bytes "config.default.json") (list.last (omap config_arg opts)) in
  main_options (read_options posix args) None (bytes "config.default.json") =
    match e with Starts => inl (list.last (omap log_arg opts), config_file) | Version => inr 0 | Usage => inr 1 end /\
  main_argv junk malloc log ht_init files posix (argv0 :: args) =
    match e with
    | Starts => d ← brubeck_server_init junk malloc log ht_init config_file (files config_file); mret (inl d)
    | Version => mret (inr 0)
    | Usage => mret (inr 1)
    end.
Proof.
  intros config_file. pose proof (main_options_means posix args opts e Hm) as E. split; [done|].
  unfold main_argv, main. cbn [tail]. rewrite E. by destruct e.
Qed.
End Meaning.

(** ** A command line *)

Definition demo_args : list (list Z) :=
  [bytes "--log=a.log"; bytes "input"; bytes "-cmain.json"; bytes "--lo"; bytes "b.log"; bytes "--"; bytes "-v"].

Lemma demo_args_mean :
  means false demo_args [OptLog (bytes "a.log"); OptConfig (bytes "main.json"); OptLog (bytes "b.log")] Starts.
Proof.
  unfold demo_args. pose (log := {| lo_name := bytes "log"; lo_has_arg := true; lo_val := chr "l" |}).
  pose (config := {| lo_name := bytes "config"; lo_has_arg := true; lo_val := chr "c" |}).
  assert (Hl : log ∈ longopts) by left. assert (Hc : config ∈ longopts) by (right; left).
  apply (means_option false _ [_]); [apply (long_joined log (bytes "log") (bytes "a.log")); done|done|].
  apply means_operand; [by left|done|].
  apply (means_option false _ [_]); [apply (short_joined config (bytes "main.json")); done|done|].
  apply (means_option false _ [_; _]); [|done|apply means_end].
  apply (long_apart log (bytes "lo") (bytes "b.log")); try done. by exists (bytes "g").
Qed.

Lemma command_line_meaning_witness :
  main_options (read_options false demo_args) None (bytes "config.default.json") =
    inl (Some (bytes "b.log"), bytes "main.json").
Proof.
  exact (proj1 (command_line_meaning 205 demo_malloc demo_log demo_ht_init (fun _ => None) false (bytes "brubeck") demo_args
                  _ _ demo_args_mean)).
Defined.

(** An operand is no configuration file: it is passed over. *)
Example operand_ignored :
  main_options (read_options false [bytes "my.json"]) None (bytes "config.default.json") =
    inl (None, bytes "config.default.json").
Proof. reflexivity. Qed.
End Options.
