(* ===== verification/Title.v ===== *)
(** * The process title ([update_proctitle] of [src/server.c], [src/setproctitle.c])

    Once a second the main loop prints the state of the backends and samplers
    into a stack buffer of 2048 bytes and copies it over the arguments of the
    process, where [ps] reads it. *)

From stdpp Require Import sets.
From S2P Require Import Prelude Value Metric Internal Utils Net Carbon Statsd Store Server Http.
Import Metric Internal Utils Net Carbon Store Server Http.

Module Title.

(** ** Formats *)

(** [%d] *)
Definition fmt_d (z : Z) : list Z := if z <? 0 then chr "-" :: sprintf_d (- z) else sprintf_d z.

(** [%.1f] of a finite number: the exact value, rounded to nearest even. *)
Definition tenths (m : positive) (e : Z) : Z := rne (Z.pos m * 10 * 2 ^ Z.max e 0) (2 ^ Z.max (- e) 0).

Definition fmt_tenths (t : Z) : list Z := sprintf_d (t / 10) ++ chr "." :: sprintf_d (t mod 10).

Definition fmt_1f (x : value_t) : list Z :=
  match x with
  | S754_zero s => (if s then [chr "-"] else []) ++ fmt_tenths 0
  | S754_finite s m e => (if s then [chr "-"] else []) ++ fmt_tenths (tenths m e)
  | S754_infinity s => (if s then [chr "-"] else []) ++ bytes "inf"
  | S754_nan => bytes "nan"
  end.

(** ** The buffer *)

Definition TITLE_SIZE : Z := 2048.

(** [PUTS]: [snprintf] with what is left of the buffer, as a [size_t]; it writes
    what fits and a terminator, and returns the length of the whole text. *)
Definition puts (st : list Z * Z) (text : list Z) : option (list Z * Z) :=
  let '(buf, pos) := st in
  let room := u64 (TITLE_SIZE - pos) in
  buf ← (if room =? 0 then Some buf else wr_n buf pos (take (Z.to_nat (room - 1)) text ++ [0]));
  Some (buf, pos + Z.of_nat (length text)).

Definition size_suffix : list string := ["b"; "kb"; "mb"; "gb"; "tb"; "pb"; "eb"]%string.

(** [for (j = 0; j < 7 && sent >= 1024.0; ++j) sent /= 1024.0]: [n] is [7 - j]. *)
Fixpoint scale (n : nat) (j : Z) (sent : value_t) : value_t * Z :=
  match n with
  | O => (sent, j)
  | S n => if SFleb (F64 1024) sent then scale n (j + 1) (fdiv sent (F64 1024)) else (sent, j)
  end.

Definition comma (i : Z) : list Z := if 0 <? i then bytes "," else [].

Definition backend_text (i : Z) (c : brubeck_carbon) : option (list Z) :=
  let '(sent, j) := scale 7 0 (F64 (sent c)) in
  suffix ← rd size_suffix j;
  Some (comma i ++ bytes " #" ++ fmt_d (i + 1) ++ bytes " " ++ fmt_1f sent ++ bytes suffix ++
        (if 0 <=? out_sock c then [] else bytes " (dc)")).

Definition sampler_text (i : Z) (s : brubeck_sampler) : list Z :=
  comma i ++ bytes " :" ++ fmt_d (ntohs (sin_port (addr s))) ++ bytes " " ++ fmt_d (s32 (current_flow s)) ++ bytes "/s".

Fixpoint put_backends (n : nat) (i : Z) (bs : list http_backend) (st : list Z * Z) : option (list Z * Z) :=
  match n with
  | O => Some st
  | S n =>
      b ← rd bs i;
      text ← backend_text i (hb_carbon b);
      st ← puts st text;
      put_backends n (i + 1) bs st
  end.

Fixpoint put_samplers (n : nat) (i : Z) (ss : list brubeck_sampler) (st : list Z * Z) : option (list Z * Z) :=
  match n with
  | O => Some st
  | S n =>
      s ← rd ss i;
      st ← puts st (sampler_text i s);
      put_samplers n (i + 1) ss st
  end.

(** UTF-8 of the two arrows. *)
Definition UTF8_UPARROW : list Z := [226; 134; 145].
Definition UTF8_DOWNARROW : list Z := [226; 134; 147].

(** ** [src/setproctitle.c]

    The strings of [argv] and [envp] with their addresses; the result is
    [argv_lth].  [None]: the environment could not be copied, and [argv0] stays
    null. *)
Definition initproctitle (argv envp : list (Z * list Z)) (copied : bool) : option Z :=
  if copied then
    a0 ← list.head argv;
    '(p, s) ← list.last (match envp with [] => argv | _ => envp end);
    Some (p + Z.of_nat (length s) - fst a0)
  else None.

(** [argv0] is null or the memory of [argv_lth] bytes from [argv[0]] on; the
    second argument is cut off ([argv0[1] = NULL]).  The number returned is -1
    for a null [argv0]. *)
Definition getproctitle (argv0 : option (list Z)) : option (list Z) * Z :=
  match argv0 with
  | None => (None, -1)
  | Some area => (Some (replicate (length area) 0), Z.of_nat (length area))
  end.

(** [strcpy] of a C string. *)
Definition strcpy (dst src : list Z) : option (list Z) := wr_n dst 0 (src ++ [0]).

Definition setproctitle (prog txt : list Z) (argv0 : option (list Z)) : option (option (list Z)) :=
  match argv0 with
  | None => Some None
  | Some area =>
    if TITLE_SIZE <? Z.of_nat (length prog) + Z.of_nat (length txt) + 5 then Some (Some area) else
    buf ← wr_n (replicate (Z.to_nat TITLE_SIZE) 0) 0 (prog ++ bytes " -- " ++ txt ++ [0]);
    i ← Z.of_nat ∘ length <$> cstr buf;
    let lth := Z.of_nat (length area) in
    buf ← (if lth - 2 <? i then wr buf (lth - 2) 0 else Some buf);
    s ← cstr buf;
    area ← strcpy (replicate (length area) 0) s;
    Some (Some area)
  end.

Section Title.
Context {T : Type} `{HashTable T}.

(** [junk] is what the stack buffer holds. *)
Definition update_proctitle (config_name : list Z) (hv : http_server (T := T)) (junk : list Z)
    (argv0 : option (list Z)) : option (option (list Z)) :=
  st ← puts (junk, 0) (bytes "[" ++ config_name ++ bytes "] [ " ++ UTF8_UPARROW);
  st ← put_backends (Z.to_nat (active_backends (hv_store hv))) 0 (hv_backends hv) st;
  st ← puts st (bytes " ] [ " ++ UTF8_DOWNARROW);
  st ← put_samplers (Z.to_nat (hv_active_samplers hv)) 0 (hv_samplers hv) st;
  st ← puts st (bytes " ]");
  text ← cstr (fst st);
  setproctitle (bytes "brubeck") text argv0.
End Title.

(** ** The amount sent *)

(** A double between 1 and [2^k], or below 1024. *)
Definition upto (k : Z) (x : value_t) : Prop :=
  x = S754_zero false \/
  exists m e, x = S754_finite false m e /\ fcanon 53 1024 (Z.pos m) e /\ dle 1 0 (Z.pos m) e /\ dle (Z.pos m) e 1 k.

Lemma F64_upto z : fits 64 z -> upto 64 (F64 z).
Proof.
  intros Hz. unfold fits in Hz. destruct z as [|p|p]; [by left| |lia]. right.
  destruct (binary_round_between 53 1024 eq_refl false p 0 1 0 1 64) as (m & e & E & Hc & _ & H1 & H2);
    [by split..|done| | |].
  - apply (dle_at 53 eq_refl 0); lia.
  - apply (dle_at 53 eq_refl 0); simpl; lia.
  - exists m, e. by split_and!.
Qed.

(** A canonical number of at least 1 is normal. *)
Lemma ge_1_normal m e :
  fcanon 53 1024 (Z.pos m) e -> dle 1 0 (Z.pos m) e -> 2 ^ 52 <= Z.pos m < 2 ^ 53 /\ -52 <= e.
Proof.
  intros ([_ Hm] & He & Hn) H1. change (emin 53 1024) with (-1074) in *.
  assert (Hge : -52 <= e).
  { destruct (Z.le_gt_cases (-52) e); [done|]. apply (dle_at 53 eq_refl e) in H1; [|lia..].
    rewrite Z.sub_diag in H1. pose proof (Z.pow_le_mono_r 2 53 (0 - e)). lia. }
  split; [|done]. destruct Hn as [Hn|Hn]; [|lia]. change (53 - 1) with 52 in Hn. lia.
Qed.

Lemma upto_step k x :
  upto k x -> 0 <= k <= 64 -> SFleb (F64 1024) x = true -> 10 <= k /\ upto (k - 10) (fdiv x (F64 1024)).
Proof.
  intros [->|(m & e & -> & Hc & H1 & H2)] Hk Hle; [done|].
  assert (E : F64 1024 = S754_finite false 4503599627370496 (-42)) by reflexivity.
  assert (Hk1024 : fcanon 53 1024 4503599627370496 (-42)) by (by repeat split; try (by left)).
  rewrite E in *. apply (SFleb_dle 53 1024 eq_refl _ _ _ _ Hk1024 Hc) in Hle.
  destruct (ge_1_normal m e Hc H1) as [Hm He].
  assert (H10 : 10 <= k).
  { pose proof (dle_trans 53 eq_refl _ _ _ _ _ _ Hle H2) as Hd. apply (dle_at 53 eq_refl (-42)) in Hd; [|lia..].
    destruct (Z.le_gt_cases 10 k); [done|]. pose proof (Z.pow_le_mono_r 2 (k - -42) 51). lia. }
  split; [done|]. right.
  destruct (SFdiv_between 53 1024 eq_refl false false m e 4503599627370496 (-42) 1 0 1 (k - 10))
    as (mr & er & E' & Hcr & _ & Hr1 & Hr2); try done.
  - change (Zdigits2 4503599627370496) with 53. change (emin 53 1024) with (-1074). lia.
  - split; [lia|]. change (emin 53 1024) with (-1074). lia.
  - lia.
  - eapply (dle_trans 53 eq_refl); [exact H2|]. apply (dle_at 53 eq_refl (-42)); [lia..|].
    replace (k - 10 + -42 - -42) with (k - 10) by lia. replace (k - -42) with (52 + (k - 10)) by lia.
    rewrite Z.pow_add_r by lia. lia.
  - exists mr, er. by split_and!.
Qed.

(** Below 1024. *)
Definition small (x : value_t) : Prop :=
  x = S754_zero false \/
  exists m e, x = S754_finite false m e /\ -52 <= e /\ dle (Z.pos m) e 1 10.

Lemma upto_small k x : upto k x -> SFleb (F64 1024) x = false -> small x.
Proof.
  intros [->|(m & e & -> & Hc & H1 & H2)] Hlt; [by left|]. right. exists m, e.
  destruct (ge_1_normal m e Hc H1) as [Hm He]. split_and!; try done.
  assert (E : F64 1024 = S754_finite false 4503599627370496 (-42)) by reflexivity.
  assert (Hk1024 : fcanon 53 1024 4503599627370496 (-42)) by (by repeat split; try (by left)).
  rewrite E in Hlt. destruct (Z.le_gt_cases (Z.pos m * 2 ^ (e - -52)) (1 * 2 ^ (10 - -52))) as [Hle|Hgt].
  { apply (dle_at 53 eq_refl (-52)); lia. }
  assert (Hd : dle 4503599627370496 (-42) (Z.pos m) e) by (apply (dle_at 53 eq_refl (-52)); lia).
  apply (SFleb_dle 53 1024 eq_refl _ _ _ _ Hk1024 Hc) in Hd. congruence.
Qed.

(** The loop ends with an amount below 1024 and an index of the table. *)
Lemma scale_small n : forall j x,
  0 <= j -> 7 <= j + Z.of_nat n <= 7 -> upto (64 - 10 * j) x -> j <= 6 ->
  let '(x', j') := scale n j x in small x' /\ 0 <= j' <= 6.
Proof.
  induction n as [|n IH]; intros j x Hj Hn Hx H6; cbn [scale]; [lia|].
  destruct (SFleb (F64 1024) x) eqn:E; [|split; [by eapply upto_small|lia]].
  destruct (upto_step (64 - 10 * j) x Hx ltac:(lia) E) as [H10 Hx'].
  apply IH; [lia..| |lia]. by replace (64 - 10 * (j + 1)) with (64 - 10 * j - 10) by lia.
Qed.

(** ** The sizes of the pieces *)

Definition piece (n : nat) (l : list Z) : Prop := nul_free l /\ (length l <= n)%nat.

Lemma piece_app a b l k : piece a l -> piece b k -> piece (a + b) (l ++ k).
Proof. intros [? ?] [? ?]. split; [by apply Forall_app|rewrite length_app; lia]. Qed.

Lemma piece_weaken a b l : piece a l -> (a <= b)%nat -> piece b l.
Proof. intros [? ?] ?. split; [done|lia]. Qed.

Lemma piece_check n l : bool_decide (nul_free l) && (length l <=? n)%nat = true -> piece n l.
Proof. intros Hl. apply andb_true_iff in Hl as [Hl%bool_decide_eq_true Hn%Nat.leb_le]. done. Qed.

Lemma piece_sprintf_d z : piece 10 (sprintf_d z).
Proof.
  unfold sprintf_d. enough (Hf : forall fuel z, piece fuel (itoa_digits fuel z)).
  { destruct (Hf 10%nat z) as [Hn Hl]. split; [by apply Forall_rev|by rewrite length_rev]. }
  induction fuel as [|fuel IH]; intros x; cbn [itoa_digits]; [by split; [constructor|simpl]|].
  assert (H0 : piece 1 [chr "0" + x mod 10]).
  { split; [|simpl; lia]. constructor; [|constructor]. pose proof (Z.mod_pos_bound x 10).
    change (chr "0") with 48. lia. }
  destruct (x / 10 =? 0).
  - apply (piece_weaken 1); [done|lia].
  - apply (piece_app 1 fuel [chr "0" + x mod 10]); [done|apply IH].
Qed.

Lemma piece_fmt_d z : piece 11 (fmt_d z).
Proof.
  unfold fmt_d. destruct (z <? 0); [|apply (piece_weaken 10); [apply piece_sprintf_d|lia]].
  apply (piece_app 1 10 [chr "-"]); [by apply piece_check|apply piece_sprintf_d].
Qed.

Lemma piece_fmt_1f x : piece 22 (fmt_1f x).
Proof.
  assert (Ht : forall (s : bool) t, piece 22 ((if s then [chr "-"] else []) ++ fmt_tenths t)).
  { intros s t. apply (piece_app 1 21); [destruct s; by apply piece_check|].
    apply (piece_app 10 11); [apply piece_sprintf_d|].
    apply (piece_app 1 10 [chr "."]); [by apply piece_check|apply piece_sprintf_d]. }
  destruct x as [s|s| |s m e]; cbn [fmt_1f]; try apply Ht; [destruct s|]; by apply piece_check.
Qed.

Lemma piece_comma i : piece 1 (comma i).
Proof. unfold comma. destruct (0 <? i); by apply piece_check. Qed.

Lemma piece_sampler i s : piece 28 (sampler_text i s).
Proof.
  unfold sampler_text. apply (piece_app 1 27); [apply piece_comma|].
  apply (piece_app 2 25); [by apply piece_check|]. apply (piece_app 11 14); [apply piece_fmt_d|].
  apply (piece_app 1 13); [by apply piece_check|]. apply (piece_app 11 2); [apply piece_fmt_d|by apply piece_check].
Qed.

(** The index of the table of suffixes is inside it. *)
Lemma backend_text_run i c :
  fits 64 (sent c) -> exists text, backend_text i c = Some text /\ piece 44 text.
Proof.
  intros Hs. unfold backend_text. pose proof (scale_small 7 0 (F64 (sent c)) ltac:(lia) ltac:(lia)) as Hx.
  destruct (scale 7 0 (F64 (sent c))) as [x j]. destruct Hx as [_ Hj]; [by apply F64_upto|lia|].
  destruct (rd_is_Some size_suffix j) as [sfx Hsfx]; [simpl; lia|]. rewrite Hsfx. cbn [mbind option_bind].
  eexists. split; [done|].
  assert (H2 : piece 2 (bytes sfx)).
  { assert (Hj' : j = 0 \/ j = 1 \/ j = 2 \/ j = 3 \/ j = 4 \/ j = 5 \/ j = 6) by lia.
    destruct Hj' as [->|[->|[->|[->|[->|[->| ->]]]]]]; injection Hsfx as <-; by apply piece_check. }
  apply (piece_app 1 43); [apply piece_comma|]. apply (piece_app 2 41); [by apply piece_check|].
  apply (piece_app 11 30); [apply piece_fmt_d|]. apply (piece_app 1 29); [by apply piece_check|].
  apply (piece_app 22 7); [apply piece_fmt_1f|]. apply (piece_app 2 5); [done|].
  destruct (0 <=? out_sock c); by apply piece_check.
Qed.

(** ** The buffer is never overrun *)

(** The buffer after [text]. *)
Definition holds (st : list Z * Z) (text : list Z) : Prop :=
  length (fst st) = 2048%nat /\ snd st = Z.of_nat (length text) /\ exists rest, fst st = text ++ rest.

Lemma puts_run st text t :
  holds st text -> (length text + length t < 2048)%nat ->
  exists st' rest, puts st t = Some st' /\ holds st' (text ++ t) /\ fst st' = (text ++ t) ++ 0 :: rest.
Proof.
  destruct st as [buf pos]. intros (Hl & Hpos & rest & Hb) Hlen. cbn [fst snd] in *. subst pos buf.
  rewrite length_app in Hl. unfold puts, TITLE_SIZE. rewrite (wrap_small 64) by (unfold fits; lia).
  destruct (Z.eqb_spec (2048 - Z.of_nat (length text)) 0); [lia|]. rewrite take_ge by lia.
  rewrite wr_n_app by (rewrite length_app; simpl; lia). cbn [mbind option_bind].
  rewrite <- app_assoc, (app_assoc text t). cbn [app]. do 2 eexists. split; [done|]. cbn [fst].
  split; [|done]. unfold holds. cbn [fst snd]. split_and!.
  - rewrite !length_app. cbn [length]. rewrite length_drop. lia.
  - rewrite length_app. lia.
  - by eexists.
Qed.

Lemma puts_piece st text t a b :
  holds st text -> piece a text -> piece b t -> (a + b < 2048)%nat ->
  exists st' rest, puts st t = Some st' /\ holds st' (text ++ t) /\ piece (a + b) (text ++ t) /\
    fst st' = (text ++ t) ++ 0 :: rest.
Proof.
  intros Hst Ha Hb Hl. destruct (puts_run st text t Hst) as (st' & rest & E & Hst' & Hf); [destruct Ha, Hb; lia|].
  exists st', rest. split_and!; try done. by apply piece_app.
Qed.

(** ** The text *)

Fixpoint backends_text (n : nat) (i : Z) (bs : list http_backend) : option (list Z) :=
  match n with
  | O => Some []
  | S n => b ← rd bs i; t ← backend_text i (hb_carbon b); ts ← backends_text n (i + 1) bs; Some (t ++ ts)
  end.

Fixpoint samplers_text (n : nat) (i : Z) (ss : list brubeck_sampler) : option (list Z) :=
  match n with
  | O => Some []
  | S n => s ← rd ss i; ts ← samplers_text n (i + 1) ss; Some (sampler_text i s ++ ts)
  end.

Lemma put_backends_run n : forall i bs st text,
  0 <= i -> i + Z.of_nat n <= Z.of_nat (length bs) -> Forall (fun b => fits 64 (sent (hb_carbon b))) bs ->
  holds st text -> (length text + 44 * n < 2048)%nat ->
  exists ts st', backends_text n i bs = Some ts /\ piece (44 * n) ts /\
    put_backends n i bs st = Some st' /\ holds st' (text ++ ts).
Proof.
  induction n as [|n IH]; intros i bs st text Hi Hn Hs Hst Hl; cbn [backends_text put_backends].
  - exists [], st. rewrite app_nil_r. by split_and!; [|apply piece_check| |].
  - destruct (rd_is_Some bs i) as [b Hb]; [lia|]. rewrite Hb. cbn [mbind option_bind].
    assert (Hsb : fits 64 (sent (hb_carbon b))).
    { rewrite Forall_forall in Hs. apply Hs, list_elem_of_In.
      replace i with (Z.of_nat (Z.to_nat i)) in Hb by lia. rewrite rd_nat in Hb. by eapply list_elem_of_lookup_2. }
    destruct (backend_text_run i (hb_carbon b) Hsb) as (t & -> & Ht). cbn [mbind option_bind].
    destruct (puts_run st text t Hst) as (st1 & rest & -> & Hst1 & _); [destruct Ht; lia|]. cbn [mbind option_bind].
    destruct (IH (i + 1) bs st1 (text ++ t)) as (ts & st' & -> & Hp & -> & Hst'); [lia|lia|done|done| |].
    { rewrite length_app. destruct Ht. lia. }
    exists (t ++ ts), st'. rewrite app_assoc. split_and!; try done.
    replace (44 * S n)%nat with (44 + 44 * n)%nat by lia. by apply piece_app.
Qed.

Lemma put_samplers_run n : forall i ss st text,
  0 <= i -> i + Z.of_nat n <= Z.of_nat (length ss) ->
  holds st text -> (length text + 28 * n < 2048)%nat ->
  exists ts st', samplers_text n i ss = Some ts /\ piece (28 * n) ts /\
    put_samplers n i ss st = Some st' /\ holds st' (text ++ ts).
Proof.
  induction n as [|n IH]; intros i ss st text Hi Hn Hst Hl; cbn [samplers_text put_samplers].
  - exists [], st. rewrite app_nil_r. by split_and!; [|apply piece_check| |].
  - destruct (rd_is_Some ss i) as [s Hs]; [lia|]. rewrite Hs. cbn [mbind option_bind].
    pose proof (piece_sampler i s) as Ht.
    destruct (puts_run st text (sampler_text i s) Hst) as (st1 & rest & -> & Hst1 & _); [destruct Ht; lia|].
    cbn [mbind option_bind].
    destruct (IH (i + 1) ss st1 (text ++ sampler_text i s)) as (ts & st' & -> & Hp & -> & Hst'); [lia|lia|done| |].
    { rewrite length_app. destruct Ht. lia. }
    exists (sampler_text i s ++ ts), st'. rewrite app_assoc. split_and!; try done.
    replace (28 * S n)%nat with (28 + 28 * n)%nat by lia. by apply piece_app.
Qed.

(** ** Over the arguments *)

(** The title that the memory of the arguments has room for. *)
Definition shown (full : list Z) (lth : nat) : list Z :=
  let t := take (lth - 2) full in t ++ replicate (lth - length t) 0.

Lemma setproctitle_run prog txt area :
  nul_free prog -> nul_free txt -> (length prog + length txt + 5 <= 2048)%nat -> (2 <= length area)%nat ->
  setproctitle prog txt (Some area) = Some (Some (shown (prog ++ bytes " -- " ++ txt) (length area))).
Proof.
  intros Hp Ht Hl Ha. unfold setproctitle, TITLE_SIZE.
  destruct (Z.ltb_spec 2048 (Z.of_nat (length prog) + Z.of_nat (length txt) + 5)); [lia|].
  set (full := prog ++ bytes " -- " ++ txt).
  assert (Hfull : nul_free full) by (unfold full; apply Forall_app; split; [done|]; apply Forall_app;
    split; [by apply (bool_decide_unpack (nul_free _))|done]).
  assert (Hlen : length full = (length prog + 4 + length txt)%nat) by (unfold full; rewrite !length_app; simpl; lia).
  replace (prog ++ bytes " -- " ++ txt ++ [0]) with (full ++ [0]) by (unfold full; by rewrite <- !app_assoc).
  pose proof (wr_n_app [] (replicate (Z.to_nat 2048) 0) (full ++ [0])) as Hw. cbn [app length] in Hw.
  change (Z.of_nat 0) with 0 in Hw. rewrite Hw by (rewrite length_app, length_replicate; simpl; lia). clear Hw.
  cbn [mbind option_bind]. set (rest := drop _ _). rewrite <- app_assoc. cbn [app].
  rewrite cstr_app by done. cbn [fmap option_fmap option_map mbind option_bind compose].
  assert (Hcopy : forall t, (length t + 2 <= length area)%nat ->
    strcpy (replicate (length area) 0) t = Some (t ++ replicate (length area - length t) 0)).
  { intros t Hlt. unfold strcpy. pose proof (wr_n_app [] (replicate (length area) 0) (t ++ [0])) as Hw.
    cbn [app length] in Hw. change (Z.of_nat 0) with 0 in Hw.
    rewrite Hw by (rewrite length_app, length_replicate; simpl; lia). f_equal. rewrite <- app_assoc. f_equal.
    rewrite length_app, drop_replicate. change ([0]) with (replicate 1 0). rewrite <- replicate_add.
    f_equal. simpl. lia. }
  unfold shown. destruct (Z.ltb_spec (Z.of_nat (length area) - 2) (Z.of_nat (length full))) as [Hcut|Hfit].
  - rewrite wr_in by (rewrite length_app; simpl; lia). cbn [mbind option_bind].
    replace (Z.to_nat (Z.of_nat (length area) - 2)) with (length area - 2)%nat by lia.
    rewrite insert_app_l by lia. rewrite insert_take_drop by lia. rewrite <- app_assoc. cbn [app].
    rewrite cstr_app by (by apply Forall_take). cbn [mbind option_bind]. rewrite Hcopy by (rewrite length_take; lia). done.
  - cbn [mbind option_bind]. rewrite cstr_app by done. cbn [mbind option_bind].
    rewrite take_ge by lia. rewrite Hcopy by lia. done.
Qed.

Lemma shown_length full n : (2 <= n)%nat -> length (shown full n) = n.
Proof. intros Hn. unfold shown. rewrite length_app, length_replicate, length_take. lia. Qed.

Section Correct.
Context {T : Type} `{HashTable T}.

Definition title_text (config_name : list Z) (hv : http_server (T := T)) : option (list Z) :=
  bs ← backends_text (Z.to_nat (active_backends (hv_store hv))) 0 (hv_backends hv);
  ss ← samplers_text (Z.to_nat (hv_active_samplers hv)) 0 (hv_samplers hv);
  Some (bytes "[" ++ config_name ++ bytes "] [ " ++ UTF8_UPARROW ++ bs ++
        bytes " ] [ " ++ UTF8_DOWNARROW ++ ss ++ bytes " ]").

(** The arrays hold the active elements, at most eight each, and the amounts
    are those of [size_t] fields. *)
Record title_wf (hv : http_server (T := T)) : Prop := {
  tw_backends : 0 <= active_backends (hv_store hv) <= Z.of_nat (length (hv_backends hv));
  tw_samplers : 0 <= hv_active_samplers hv <= Z.of_nat (length (hv_samplers hv));
  tw_room : active_backends (hv_store hv) <= 8 /\ hv_active_samplers hv <= 8;
  tw_sent : Forall (fun b => fits 64 (sent (hb_carbon b))) (hv_backends hv);
}.

Lemma proctitle_run (config_name : list Z) (hv : http_server (T := T)) (junk : list Z) (argv0 : option (list Z))
  (Hwf : title_wf hv) (Hname : nul_free config_name) (Hlen : (length config_name <= 255)%nat)
  (Hjunk : length junk = 2048%nat) (Harea : forall area, argv0 = Some area -> (2 <= length area)%nat) :
  exists text, title_text config_name hv = Some text /\ (length text <= 1000)%nat /\
    update_proctitle config_name hv junk argv0 =
      Some ((fun area => shown (bytes "brubeck -- " ++ text) (length area)) <$> argv0).
Proof.
  destruct Hwf as [Hb Hs [Hb8 Hs8] Hsent]. unfold update_proctitle, title_text.
  assert (H0 : holds (junk, 0) []) by (split_and!; [done..|by exists junk]).
  set (t1 := bytes "[" ++ config_name ++ bytes "] [ " ++ UTF8_UPARROW).
  assert (Hp1 : piece 264 t1).
  { apply (piece_app 1 263); [by apply piece_check|]. apply (piece_app 255 8); [by split|by apply piece_check]. }
  destruct (puts_piece _ [] t1 0 264 H0) as (st1 & r1 & -> & Hst1 & Hq1 & _); [by apply piece_check|done|lia|].
  cbn [mbind option_bind app] in *.
  destruct (put_backends_run (Z.to_nat (active_backends (hv_store hv))) 0 (hv_backends hv) st1 t1
              ltac:(lia) ltac:(lia) Hsent Hst1) as (bs & st2 & -> & Hbs & -> & Hst2); [destruct Hp1; lia|].
  cbn [mbind option_bind]. apply (piece_weaken _ 352) in Hbs; [|lia].
  set (t2 := bytes " ] [ " ++ UTF8_DOWNARROW).
  destruct (puts_piece st2 (t1 ++ bs) t2 616 8 Hst2) as (st3 & r3 & -> & Hst3 & Hq3 & _);
    [by apply (piece_app 264 352)|by apply piece_check|lia|]. cbn [mbind option_bind].
  destruct (put_samplers_run (Z.to_nat (hv_active_samplers hv)) 0 (hv_samplers hv) st3 ((t1 ++ bs) ++ t2)
              ltac:(lia) ltac:(lia) Hst3) as (ss & st4 & -> & Hss & -> & Hst4); [destruct Hq3; lia|].
  cbn [mbind option_bind]. apply (piece_weaken _ 224) in Hss; [|lia].
  destruct (puts_piece st4 (((t1 ++ bs) ++ t2) ++ ss) (bytes " ]") 848 2 Hst4) as (st5 & r5 & -> & _ & Hq5 & Hf);
    [by apply (piece_app 624 224)|by apply piece_check|lia|]. cbn [mbind option_bind].
  rewrite Hf, cstr_app by apply Hq5. cbn [mbind option_bind].
  destruct Hq5 as [Hn5 Hl5]. rewrite <- !app_assoc in *. eexists. split; [done|].
  unfold t1, t2 in *. rewrite <- !app_assoc in *. split; [lia|].
  destruct argv0 as [area|]; [|done].
  rewrite setproctitle_run; [done|by apply (bool_decide_unpack (nul_free _))|done|simpl in *; lia|by apply Harea].
Qed.

(** C27: for a configuration file whose name has at most 255 bytes, as file
    systems demand, at most eight backends and samplers ([title_wf]) and
    arguments of at least two bytes, printing stays inside the 2048 bytes of the
    stack buffer and inside the table of unit suffixes.  The memory of the
    arguments ends up with as much of the program's name and the text as leaves
    two bytes of it free, followed by zeros; where it was not taken over at the
    start, nothing is written. *)
Theorem proctitle_safe (config_name : list Z) (hv : http_server (T := T)) (junk : list Z) (argv0 : option (list Z))
  (Hwf : title_wf hv) (Hname : nul_free config_name) (Hlen : (length config_name <= 255)%nat)
  (Hjunk : length junk = 2048%nat) (Harea : forall area, argv0 = Some area -> (2 <= length area)%nat) :
  exists text, title_text config_name hv = Some text /\ (length text <= 1000)%nat /\
    update_proctitle config_name hv junk argv0 =
      Some ((fun area => shown (bytes "brubeck -- " ++ text) (length area)) <$> argv0).
Proof. by apply proctitle_run. Qed.
End Correct.

(** ** Examples *)

Lemma demo_title_wf : title_wf demo_http.
Proof.
  assert (E : active_backends (hv_store demo_http) = 3) by (vm_compute; reflexivity).
  split; rewrite ?E; cbn [demo_http hv_backends hv_samplers hv_active_samplers length replicate]; try lia.
  repeat constructor; unfold fits; vm_compute; congruence.
Qed.

Lemma proctitle_safe_witness :
  exists text, title_text (bytes "prod") demo_http = Some text /\ (length text <= 1000)%nat /\
    update_proctitle (bytes "prod") demo_http (replicate 2048 205) (Some (replicate 40 65)) =
      Some (Some (shown (bytes "brubeck -- " ++ text) 40)).
Proof.
  apply (proctitle_safe (bytes "prod") demo_http (replicate 2048 205) (Some (replicate 40 65)) demo_title_wf).
  - by apply (bool_decide_unpack (nul_free _)).
  - simpl. lia.
  - apply length_replicate.
  - intros area [= <-]. simpl. lia.
Defined.

Example fmt_1f_examples :
  map fmt_1f [F64 0; F64 1023; fdiv (F64 1) (F64 4); fdiv (F64 5) (F64 4); fdiv (F64 12345) (F64 1000)] =
    map bytes ["0.0"; "1023.0"; "0.2"; "1.2"; "12.3"]%string.
Proof. vm_compute. reflexivity. Qed.

Example backend_text_example :
  backend_text 1 {| tick_time := 0; out_sock := -1; pickler_ := pickler_ demo_carbon; sent := 1536 * 1024 |} =
    Some (bytes ", #2 1.5mb (dc)").
Proof. vm_compute. reflexivity. Qed.

(** The whole range of [size_t] stays inside the table. *)
Example backend_text_largest :
  backend_text 0 {| tick_time := 0; out_sock := 4; pickler_ := pickler_ demo_carbon; sent := 2 ^ 64 - 1 |} =
    Some (bytes " #1 16.0eb").
Proof. vm_compute. reflexivity. Qed.
End Title.
