(* ===== verification/Log.v ===== *)
(** * The log ([src/log.c])

    The daemon logs to syslog, to a file that SIGHUP makes it open again, or to
    the standard error.  A file handle is a number that [fopen] gives out; using
    or closing a handle that is not open is undefined, the value [None]. *)

From stdpp Require Import sets.
From S2P Require Import Prelude.

Module Log.

Record log_state := {
  gh_log_path : option (list Z);
  gh_log_file : option nat;
  gh_syslog_enabled : bool;
  open_files : list nat;      (* the handles of the process that are open *)
  opened : nat;               (* how many [fopen] has given out *)
}.

Definition log_start : log_state :=
  {| gh_log_path := None; gh_log_file := None; gh_syslog_enabled := false; open_files := []; opened := 0 |}.

(** ** The C library *)

(** [fopen]: [ok] is whether it succeeds. *)
Definition fopen (st : log_state) (ok : bool) : log_state * option nat :=
  if ok then
    ({| gh_log_path := gh_log_path st; gh_log_file := gh_log_file st;
        gh_syslog_enabled := gh_syslog_enabled st;
        open_files := opened st :: open_files st; opened := S (opened st) |}, Some (opened st))
  else (st, None).

Definition fclose (st : log_state) (h : nat) : option log_state :=
  if bool_decide (h ∈ open_files st) then
    Some {| gh_log_path := gh_log_path st; gh_log_file := gh_log_file st;
            gh_syslog_enabled := gh_syslog_enabled st;
            open_files := List.filter (fun x => negb (x =? h)%nat) (open_files st); opened := opened st |}
  else None.

(** ** The operations *)

Definition set_log (st : log_state) (path : option (list Z)) (file : option nat) (syslog : bool) : log_state :=
  {| gh_log_path := path; gh_log_file := file; gh_syslog_enabled := syslog;
     open_files := open_files st; opened := opened st |}.

(** Where the caller of [gh_log_open] is: the function takes one step for each
    access to what it shares with the threads that log. *)
Inductive open_pc :=
| O_enter (path : option (list Z))
| O_fopen (path : list Z)                   (* new_log = fopen(path, "a") *)
| O_fclose (path : list Z) (new_log : nat)  (* fclose(gh_log_file) *)
| O_syslog (path : list Z) (new_log : nat)  (* gh_syslog_enabled = 0 *)
| O_file (path : list Z) (new_log : nat)    (* gh_log_file = new_log *)
| O_path (path : list Z) (new_log : nat)    (* gh_log_path = path *)
| O_return.

#[export] Instance open_pc_eq_dec : EqDecision open_pc.
Proof. solve_decision. Defined.

(** [ok] is whether [fopen] succeeds. *)
Definition open_step (st : log_state) (pc : open_pc) (ok : bool) : option (log_state * open_pc) :=
  match pc with
  | O_enter None => Some (set_log st (gh_log_path st) None false, O_return)
  | O_enter (Some p) =>
      if bool_decide (p = bytes "syslog") then Some (set_log st (gh_log_path st) (gh_log_file st) true, O_return)
      else Some (st, O_fopen p)
  | O_fopen p =>
      let '(st, new_log) := fopen st ok in
      Some (st, match new_log with None => O_return | Some h => O_fclose p h end)
  | O_fclose p h =>
      st ← (match gh_log_file st with Some old => fclose st old | None => Some st end);
      Some (st, O_syslog p h)
  | O_syslog p h => Some (set_log st (gh_log_path st) (gh_log_file st) false, O_file p h)
  | O_file p h => Some (set_log st (gh_log_path st) (Some h) (gh_syslog_enabled st), O_path p h)
  | O_path p h => Some (set_log st (Some p) (gh_log_file st) (gh_syslog_enabled st), O_return)
  | O_return => Some (st, O_return)
  end.

Fixpoint open_steps (n : nat) (st : log_state) (pc : open_pc) (ok : bool) : option log_state :=
  match n with
  | O => Some st
  | S n => '(st, pc) ← open_step st pc ok; open_steps n st pc ok
  end.

(** The whole call, of at most six steps, when no other thread logs. *)
Definition gh_log_open (st : log_state) (path : option (list Z)) (ok : bool) : option log_state :=
  open_steps 6 st (O_enter path) ok.

Definition gh_log_reopen (st : log_state) (ok : bool) : option log_state :=
  match gh_log_path st with
  | Some p => gh_log_open st (Some p) ok
  | None => Some st
  end.

Inductive destination := Syslog | File (h : nat) | Stderr.

(** Where [gh_log_write] sends a message, and whether it can be written there. *)
Definition looks (st : log_state) : destination :=
  if gh_syslog_enabled st then Syslog
  else match gh_log_file st with Some h => File h | None => Stderr end.

Definition usable (st : log_state) (d : destination) : bool :=
  match d with File h => bool_decide (h ∈ open_files st) | _ => true end.

Definition gh_log_write (st : log_state) : option destination :=
  if usable st (looks st) then Some (looks st) else None.

(** The life of the log: [main] opens it, and every SIGHUP opens it again. *)
Fixpoint reopen_all (st : log_state) (oks : list bool) : option log_state :=
  match oks with
  | [] => Some st
  | ok :: oks => st ← gh_log_reopen st ok; reopen_all st oks
  end.

Definition log_run (path : option (list Z)) (ok : bool) (hups : list bool) : option log_state :=
  st ← gh_log_open log_start path ok;
  reopen_all st hups.

(** ** With threads that log

    The main thread reopens the log while any number of other threads write:
    such a thread looks up the destination of its message and then uses it.
    [sy_epoch] counts how often [gh_log_file] has been replaced; a writer
    remembers the count at its look. *)

Record log_system := {
  sy_log : log_state;
  sy_pc : open_pc;
  sy_writers : nat -> option (destination * nat);
  sy_epoch : nat;
}.

Definition set_writer (f : nat -> option (destination * nat)) (i : nat) (w : option (destination * nat)) :=
  fun j => if decide (j = i) then w else f j.

Inductive log_step (s : log_system) : log_system -> Prop :=
| step_hup p : sy_pc s = O_return -> gh_log_path (sy_log s) = Some p ->
    log_step s {| sy_log := sy_log s; sy_pc := O_enter (Some p); sy_writers := sy_writers s; sy_epoch := sy_epoch s |}
| step_open ok st pc : sy_pc s <> O_return -> open_step (sy_log s) (sy_pc s) ok = Some (st, pc) ->
    log_step s {| sy_log := st; sy_pc := pc; sy_writers := sy_writers s;
                  sy_epoch := match sy_pc s with O_file _ _ => S (sy_epoch s) | _ => sy_epoch s end |}
| step_look i : sy_writers s i = None ->
    log_step s {| sy_log := sy_log s; sy_pc := sy_pc s;
                  sy_writers := set_writer (sy_writers s) i (Some (looks (sy_log s), sy_epoch s)); sy_epoch := sy_epoch s |}
| step_write i d n : sy_writers s i = Some (d, n) -> usable (sy_log s) d = true ->
    log_step s {| sy_log := sy_log s; sy_pc := sy_pc s; sy_writers := set_writer (sy_writers s) i None;
                  sy_epoch := sy_epoch s |}.

(** The threads start when [main] has opened the log. *)
Inductive log_reach (path : option (list Z)) (ok : bool) : log_system -> Prop :=
| reach_start st : gh_log_open log_start path ok = Some st ->
    log_reach path ok {| sy_log := st; sy_pc := O_return; sy_writers := fun _ => None; sy_epoch := 0 |}
| reach_step s s' : log_reach path ok s -> log_step s s' -> log_reach path ok s'.

(** The old file is closed and [gh_log_file] still names it. *)
Definition in_window (pc : open_pc) : Prop :=
  match pc with O_syslog _ _ | O_file _ _ => True | _ => False end.

(** ** Correctness *)

Lemma gh_log_open_eq st path ok :
  gh_log_open st path ok =
    match path with
    | None => Some (set_log st (gh_log_path st) None false)
    | Some p =>
        if bool_decide (p = bytes "syslog") then Some (set_log st (gh_log_path st) (gh_log_file st) true)
        else
          let '(st, new_log) := fopen st ok in
          match new_log with
          | None => Some st
          | Some h =>
              st ← (match gh_log_file st with Some old => fclose st old | None => Some st end);
              Some (set_log st (Some p) (Some h) false)
          end
    end.
Proof.
  unfold gh_log_open. destruct path as [p|]; [|done]. cbn [open_steps open_step mbind option_bind].
  destruct (bool_decide (p = bytes "syslog")); [done|]. cbn [mbind option_bind open_step].
  destruct (fopen st ok) as [st1 [h|]]; [|done].
  cbn [mbind option_bind open_step]. destruct (gh_log_file st1) as [old|]; [|reflexivity]. by destruct (fclose st1 old).
Qed.

(** A log in a file: its handle, the only one open, is the last given out. *)
Record logging_to (p : list Z) (h : nat) (st : log_state) : Prop := {
  lt_path : gh_log_path st = Some p;
  lt_file : gh_log_file st = Some h;
  lt_syslog : gh_syslog_enabled st = false;
  lt_open : open_files st = [h];
  lt_next : opened st = S h;
}.

(** The successful calls among the results. *)
Definition successes (oks : list bool) : nat := length (List.filter (fun b => b) oks).

Lemma reopen_run p h st ok :
  p <> bytes "syslog" -> logging_to p h st ->
  exists st', gh_log_reopen st ok = Some st' /\ logging_to p (if ok then S h else h) st'.
Proof.
  intros Hp [Hpath Hfile Hsys Hopen Hnext]. unfold gh_log_reopen. rewrite Hpath, gh_log_open_eq.
  rewrite bool_decide_eq_false_2 by done. destruct ok; cbn [fopen]; [|by eexists].
  cbn [gh_log_file]. rewrite Hfile. unfold fclose. cbn [open_files]. rewrite Hopen, Hnext.
  rewrite bool_decide_eq_true_2 by (right; left). cbn [mbind option_bind List.filter]. eexists. split; [done|].
  split; cbn; [done..| |done]. destruct (Nat.eqb_spec h h); [|done]. cbn [negb].
  destruct h as [|h]; [done|]. destruct (Nat.eqb_spec (S h) h); [lia|done].
Qed.

Lemma reopen_all_run p oks : forall h st,
  p <> bytes "syslog" -> logging_to p h st ->
  exists st', reopen_all st oks = Some st' /\ logging_to p (h + successes oks) st'.
Proof.
  induction oks as [|ok oks IH]; intros h st Hp Hst; cbn [reopen_all].
  - exists st. by rewrite Nat.add_0_r.
  - destruct (reopen_run p h st ok Hp Hst) as (st1 & -> & Hst1). cbn [mbind option_bind].
    destruct (IH _ st1 Hp Hst1) as (st' & E & Hst'). exists st'. split; [done|].
    unfold successes in *. cbn [List.filter]. destruct ok; cbn [length]; [|done].
    by replace (h + S (length (List.filter (fun b => b) oks)))%nat
      with (S h + length (List.filter (fun b => b) oks))%nat by lia.
Qed.

(** Without a path, reopening does nothing. *)
Lemma reopen_all_none st oks : gh_log_path st = None -> reopen_all st oks = Some st.
Proof.
  intros Hp. induction oks as [|ok oks IH]; cbn [reopen_all]; [done|].
  unfold gh_log_reopen. rewrite Hp. exact IH.
Qed.

(** A log that has no path, and no file, or logs to its only open file. *)
Definition log_ok (st : log_state) : Prop :=
  gh_log_path st = None /\ gh_log_file st = None \/
  exists p h, p <> bytes "syslog" /\ logging_to p h st.

Lemma log_open_ok path ok : exists st, gh_log_open log_start path ok = Some st /\ log_ok st.
Proof.
  rewrite gh_log_open_eq. destruct path as [p|]; [|eexists; split; [done|by left]].
  destruct (bool_decide (p = bytes "syslog")) eqn:E; [eexists; split; [done|by left]|].
  apply bool_decide_eq_false in E. destruct ok; cbn [fopen gh_log_file log_start mbind option_bind];
    [|eexists; split; [done|by left]].
  eexists. split; [done|]. right. exists p, 0%nat. by split.
Qed.

Lemma log_reopen_ok st ok : log_ok st -> exists st', gh_log_reopen st ok = Some st' /\ log_ok st'.
Proof.
  intros [[Hp Hf]|(p & h & Hp & Hst)].
  - exists st. unfold gh_log_reopen. rewrite Hp. split; [done|by left].
  - destruct (reopen_run p h st ok Hp Hst) as (st' & E & Hst'). exists st'. split; [done|]. right. eauto.
Qed.

Lemma log_ok_write st : log_ok st -> is_Some (gh_log_write st).
Proof.
  unfold gh_log_write, usable, looks. intros [[_ ->]|(p & h & _ & [_ -> -> -> _])]; [by destruct (gh_syslog_enabled st)|].
  by rewrite bool_decide_eq_true_2 by left.
Qed.

(** What a rotation does when nobody interferes. *)
Lemma log_run_result (path : option (list Z)) (ok : bool) (hups : list bool) :
  exists st, log_run path ok hups = Some st /\
    match path with
    | None => gh_log_write st = Some Stderr /\ open_files st = []
    | Some p =>
        if bool_decide (p = bytes "syslog") then gh_log_write st = Some Syslog /\ open_files st = []
        else if ok then gh_log_write st = Some (File (successes hups)) /\ open_files st = [successes hups]
        else gh_log_write st = Some Stderr /\ open_files st = []
    end.
Proof.
  unfold log_run. rewrite gh_log_open_eq. destruct path as [p|].
  2: { cbn [mbind option_bind]. rewrite reopen_all_none by done. by eexists. }
  destruct (bool_decide (p = bytes "syslog")) eqn:E.
  { cbn [mbind option_bind]. rewrite reopen_all_none by done. by eexists. }
  apply bool_decide_eq_false in E. destruct ok; cbn [fopen gh_log_file log_start mbind option_bind].
  - destruct (reopen_all_run p hups 0 (set_log (fst (fopen log_start true)) (Some p) (Some 0%nat) false) E)
      as (st & Er & Hst); [by split|]. exists st. split; [done|]. destruct Hst as [_ Hf Hs Ho _].
    unfold gh_log_write, usable, looks. rewrite Hf, Hs, Ho. rewrite bool_decide_eq_true_2 by left. done.
  - rewrite reopen_all_none by done. by eexists.
Qed.

(** The log at every point of a rotation of the file [h]. *)
Definition rotating (p : list Z) (h : nat) (st : log_state) (pc : open_pc) : Prop :=
  gh_log_path st = Some p /\ gh_log_file st = Some h /\ gh_syslog_enabled st = false /\ p <> bytes "syslog" /\
  match pc with
  | O_return => open_files st = [h] /\ opened st = S h
  | O_enter q => q = Some p /\ open_files st = [h] /\ opened st = S h
  | O_fopen q => q = p /\ open_files st = [h] /\ opened st = S h
  | O_fclose q n => q = p /\ n = S h /\ open_files st = [S h; h] /\ opened st = S (S h)
  | O_syslog q n | O_file q n => q = p /\ n = S h /\ open_files st = [S h] /\ opened st = S (S h)
  | O_path q n => q = p /\ n = h /\ open_files st = [h] /\ opened st = S h
  end.

Record system_ok (s : log_system) : Prop := {
  so_log : sy_pc s = O_return /\ gh_log_path (sy_log s) = None /\ gh_log_file (sy_log s) = None /\ open_files (sy_log s) = [] \/
           exists p h, rotating p h (sy_log s) (sy_pc s);
  so_writers i d n : sy_writers s i = Some (d, n) -> (n <= sy_epoch s)%nat /\ (n = sy_epoch s -> d = looks (sy_log s));
}.

(** A step of the main thread is defined and goes on with the rotation; only the
    replacement of [gh_log_file] changes where writers look. *)
Lemma open_step_run p h st pc ok :
  rotating p h st pc -> pc <> O_return ->
  exists st' pc' h', open_step st pc ok = Some (st', pc') /\ rotating p h' st' pc' /\
    match pc with O_file _ _ => True | _ => looks st' = looks st end.
Proof.
  intros (Hp & Hf & Hs & Hne & Hpc) Hpc'. unfold rotating, looks.
  destruct pc as [q|q|q n|q n|q n|q n|]; cbn [open_step]; [..|done].
  - destruct Hpc as (-> & Ho & Hn). rewrite bool_decide_eq_false_2 by done. exists st, (O_fopen p), h. by split_and!.
  - destruct Hpc as (-> & Ho & Hn). destruct ok; cbn [fopen].
    + do 2 eexists. exists h. split; [done|]. cbn. rewrite Ho, Hn. by split_and!.
    + exists st, O_return, h. by split_and!.
  - destruct Hpc as (-> & -> & Ho & Hn). rewrite Hf. unfold fclose. rewrite bool_decide_eq_true_2 by (rewrite Ho; right; left).
    cbn [mbind option_bind]. do 2 eexists. exists h. split; [done|]. cbn. rewrite Ho. cbn [List.filter].
    rewrite Nat.eqb_refl. destruct (Nat.eqb_spec (S h) h); [lia|]. rewrite Hf. by split_and!.
  - destruct Hpc as (-> & -> & Ho & Hn). do 2 eexists. exists h. split; [done|]. cbn. rewrite Hs. by split_and!.
  - destruct Hpc as (-> & -> & Ho & Hn). do 2 eexists. exists (S h). split; [done|]. by split_and!.
  - destruct Hpc as (-> & -> & Ho & Hn). do 2 eexists. exists h. split; [done|]. by split_and!.
Qed.

Lemma log_step_ok s s' : system_ok s -> log_step s s' -> system_ok s'.
Proof.
  intros [Hl Hw] Hs. destruct Hs as [p Epc Ep|ok st pc Epc Eo|i Ei|i d n Ei Eu].
  - split; [|exact Hw]. right. destruct Hl as [(_ & Hn & _)|(q & h & Hq & Hf & Hs & Hne & Hpc)]; [cbn in *; congruence|].
    rewrite Epc in Hpc. exists q, h. cbn. split_and!; try done; [congruence|apply Hpc|apply Hpc].
  - destruct Hl as [(E & _)|(p & h & Hr)]; [done|].
    destruct (open_step_run p h _ _ ok Hr Epc) as (st' & pc' & h' & E & Hr' & Hlook). rewrite E in Eo. injection Eo as <- <-.
    split; [right; by exists p, h'|]. cbn. intros i d n Hi. destruct (Hw i d n Hi) as [Hle Hd].
    destruct (sy_pc s); split; try lia; intros En; rewrite ?Hlook; by auto.
  - split; [done|]. cbn. intros j d n. unfold set_writer. case_decide; [|apply Hw]. intros [= <- <-]. done.
  - split; [done|]. cbn. intros j d' n'. unfold set_writer. case_decide; [done|apply Hw].
Qed.

Lemma log_reach_ok path ok s : log_reach path ok s -> system_ok s.
Proof.
  induction 1 as [st E|s s' _ IH Hs]; [|by eapply log_step_ok]. split; [|done]. cbn.
  rewrite gh_log_open_eq in E. destruct path as [p|]; [|injection E as <-; by left].
  destruct (bool_decide (p = bytes "syslog")) eqn:Ep; [injection E as <-; by left|]. apply bool_decide_eq_false in Ep.
  destruct ok; cbn in E; injection E as <-; [right; exists p, 0%nat; by split_and!|by left].
Qed.

(** Outside of the window the destination that a writer would look up is open. *)
Lemma looks_usable s : system_ok s -> ~ in_window (sy_pc s) -> usable (sy_log s) (looks (sy_log s)) = true.
Proof.
  intros [Hl _] Hno. unfold looks. destruct Hl as [(_ & _ & -> & _)|(p & h & _ & -> & -> & _ & Hpc)].
  - by destruct (gh_syslog_enabled (sy_log s)).
  - cbn. apply bool_decide_eq_true_2. destruct (sy_pc s); try done;
      destruct_and!; repeat match goal with H : open_files _ = _ |- _ => rewrite H end; set_solver.
Qed.

(** C38: rotating the log.  Without threads that interfere, the log has one open
    file from the first that could be opened on, the last one opened, also when
    opening it again fails; without a path, with the name syslog or when the
    first opening fails there is none and the messages go to the standard error
    or to syslog.  With any number of threads that log meanwhile, the main
    thread never closes a file that is not open, the log is as described
    whenever no rotation is under way, and a thread finds the destination it
    looked up still open when it writes, unless the time between its look and
    its write overlaps the moment of a rotation in which [gh_log_file] still
    names the file just closed: there the code writes to a closed file. *)
Theorem log_rotation (path : option (list Z)) (ok : bool) :
  (forall hups, exists st, log_run path ok hups = Some st /\
    match path with
    | None => gh_log_write st = Some Stderr /\ open_files st = []
    | Some p =>
        if bool_decide (p = bytes "syslog") then gh_log_write st = Some Syslog /\ open_files st = []
        else if ok then gh_log_write st = Some (File (successes hups)) /\ open_files st = [successes hups]
        else gh_log_write st = Some Stderr /\ open_files st = []
    end) /\
  (forall s, log_reach path ok s ->
    (forall ok', is_Some (open_step (sy_log s) (sy_pc s) ok')) /\
    (sy_pc s = O_return ->
       is_Some (gh_log_write (sy_log s)) /\ open_files (sy_log s) = match gh_log_file (sy_log s) with Some h => [h] | None => [] end) /\
    (forall i d n, sy_writers s i = Some (d, n) ->
       usable (sy_log s) d = true \/ (n < sy_epoch s)%nat \/ in_window (sy_pc s))).
Proof.
  split; [intros hups; apply log_run_result|]. intros s Hr. pose proof (log_reach_ok path ok s Hr) as Hs.
  pose proof Hs as [Hl Hw]. split_and!.
  - intros ok'. destruct Hl as [(-> & _)|(p & h & Hp)]; [by eexists|].
    destruct (decide (sy_pc s = O_return)) as [->|Hne]; [by eexists|].
    destruct (open_step_run p h _ _ ok' Hp Hne) as (st & pc & h' & -> & _). by eexists.
  - intros Epc. split; [unfold gh_log_write; rewrite looks_usable; [by eexists|done|rewrite Epc; intros []]|].
    destruct Hl as [(_ & _ & -> & ->)|(p & h & _ & -> & _ & _ & Hpc)]; [done|]. rewrite Epc in Hpc. apply Hpc.
  - intros i d n Hi. destruct (Hw i d n Hi) as [Hle Hd]. destruct (decide (n < sy_epoch s)%nat) as [|Hge]; [auto|].
    assert (Hwin : in_window (sy_pc s) \/ ~ in_window (sy_pc s)) by (destruct (sy_pc s); cbn; tauto).
    destruct Hwin as [|Hno]; [auto|]. left. rewrite Hd by lia. by apply looks_usable.
Qed.

Example log_rotated :
  (st ← log_run (Some (bytes "/var/log/brubeck.log")) true [true; false; true]; gh_log_write st) = Some (File 2).
Proof. reflexivity. Qed.

(** The race: between [fclose] and the assignment a thread looks up the closed
    file. *)
Definition race (files : list nat) (n : nat) (pc : open_pc) (writers : nat -> option (destination * nat)) : log_system :=
  {| sy_log := {| gh_log_path := Some [108]; gh_log_file := Some 0%nat; gh_syslog_enabled := false;
                  open_files := files; opened := n |};
     sy_pc := pc; sy_writers := writers; sy_epoch := 0 |}.

Example log_race :
  exists s, log_reach (Some [108]) true s /\ sy_writers s 1%nat = Some (File 0, 0%nat) /\
    usable (sy_log s) (File 0) = false.
Proof.
  pose (none := fun _ : nat => @None (destination * nat)).
  exists (race [1%nat] 2 (O_syslog [108] 1) (set_writer none 1 (Some (File 0, 0%nat)))). split; [|done].
  apply (reach_step _ _ (race [1%nat] 2 (O_syslog [108] 1) none)); [|by apply (step_look (race _ _ _ none) 1)].
  apply (reach_step _ _ (race [1; 0]%nat 2 (O_fclose [108] 1) none));
    [|by apply (step_open (race [1; 0]%nat 2 (O_fclose [108] 1) none) true (sy_log (race [1%nat] 2 O_return none)) (O_syslog [108] 1))].
  apply (reach_step _ _ (race [0%nat] 1 (O_fopen [108]) none));
    [|by apply (step_open (race [0%nat] 1 (O_fopen [108]) none) true (sy_log (race [1; 0]%nat 2 O_return none)) (O_fclose [108] 1))].
  apply (reach_step _ _ (race [0%nat] 1 (O_enter (Some [108])) none));
    [|by apply (step_open (race [0%nat] 1 (O_enter (Some [108])) none) true (sy_log (race [0%nat] 1 O_return none)) (O_fopen [108]))].
  apply (reach_step _ _ (race [0%nat] 1 O_return none)); [|by apply (step_hup (race _ _ _ none))].
  by apply (reach_start (Some [108]) true (sy_log (race [0%nat] 1 O_return none))).
Qed.
End Log.
