(* ===== verification/Main.v ===== *)
(** * The life of the process ([brubeck.c], [src/server.c])

    [main] opens the log, starts the daemon, runs the main loop and cancels the
    threads.  This file composes the parts: the turn of the loop of [Server]
    with the log ([Log]) and the process title ([Title]), and the shutdown with
    the start-up ([Config]).  It is the main thread; what the workers and the
    backends do meanwhile is an input of every turn. *)

From stdpp Require Import gmap sets strings.
From S2P Require Import Prelude Value Metric Internal Bloom Statsd StatsdSecure Utils Net Json Carbon Store.
From S2P Require Import Server Http Config Title Log.
Import Metric Internal Bloom Statsd Utils Net Json Carbon Store Server Http Config Title Log.

Module Main.

(** ** Shutdown *)




Section Main.
Context {T : Type} `{HashTable T}.


(** ** The loop *)


(** What the other threads change: the store and the statistics in it, the state
    of the backends and the flows of the samplers. *)
Record shared := {
  sh_store : brubeck_server (T := T);
  sh_backends : list http_backend;
  sh_flows : list brubeck_sampler;
}.








End Main.

(** ** The threads of the start-up *)



Section Spawns.
Context `{Kernel}.






End Spawns.


Section StartUp.
Context `{Kernel} (junk : Z) (malloc : Z -> list Z) (log : value_t -> value_t).



























Context {T : Type} `{HashTable T} (ht_init : Z -> option T).







(** ** From start-up to shutdown *)

Context `{!HashTableLaws T}.

(** What the threads leave of the shared memory for each other: a consistent
    store, as many backends as start-up made, each with its shard and an amount
    that is a number of the type [size_t], and the flows of the samplers. *)
Record shared_ok (d0 : daemon (T := T)) (sh : shared) : Prop := {
  so_store : server_wf (sh_store sh);
  so_active : active_backends (sh_store sh) = Z.of_nat (length (hv_backends (d_http d0)));
  so_shards : hb_shard_n <$> sh_backends sh = hb_shard_n <$> hv_backends (d_http d0);
  so_sent : Forall (fun b => fits 64 (sent (hb_carbon b))) (sh_backends sh);
  so_flows : length (sh_flows sh) = length (d_samplers d0);
}.











(** ** What the other threads do *)



(** A backend samples its metrics, and has sent what [c] says. *)
Definition backend_runs (i : nat) (b : brubeck_backend) (junk : Z) (c : brubeck_carbon) (sh : shared (T := T)) : shared :=
  {| sh_store :=
       match sample_queue (internal_stats (sh_store sh)) (heap (sh_store sh)) (b_queue b) (b_sample_freq b) junk with
       | Some (s, h, _) => after_turn (sh_store sh) s h
       | None => sh_store sh
       end;
     sh_backends := alter (fun hb => {| hb_sample_freq := hb_sample_freq hb; hb_shard_n := hb_shard_n hb;
                                        hb_pickle := hb_pickle hb; hb_addr := hb_addr hb; hb_carbon := c |})
                      i (sh_backends sh);
     sh_flows := sh_flows sh |}.

Lemma backend_respects d0 i b stack c sh :
  shared_ok d0 sh -> initialised (sh_store sh) -> backends (sh_store sh) !! i = Some b -> fits 64 (sent c) ->
  shared_ok d0 (backend_runs i b stack c sh).
Proof.
  intros [Hst Ha Hsh Hse Hfl] Hi Hb Hc. unfold backend_runs.
  destruct (sample_queue_wf (sh_store sh) i b stack Hst Hi Hb) as (s & h & es & -> & Hw & _).
  split; cbn [sh_store sh_backends sh_flows]; try done.
  - rewrite <- Hsh. apply list_eq. intros j. rewrite !list_lookup_fmap.
    destruct (decide (i = j)) as [->|]; [rewrite list_lookup_alter_eq|by rewrite list_lookup_alter_ne].
    by destruct (sh_backends sh !! j).
  - apply Forall_lookup. intros j hb Hj. destruct (decide (i = j)) as [->|].
    + rewrite list_lookup_alter_eq in Hj. apply fmap_Some in Hj as (? & _ & ->). done.
    + rewrite list_lookup_alter_ne in Hj by done. exact (proj1 (Forall_lookup _ _) Hse _ _ Hj).
Qed.

Context `{HKL : !KernelLaws} (malloc_size : forall n, length (malloc n) = Z.to_nat n).
Context (ht_init_empty : forall n t, ht_init n = Some t -> forall k, ht_find t k = None).

End StartUp.

(** ** Example *)






End Main.
