(* ===== verification/Tools.v ===== *)
(** * The packets of the clients ([test-bin/])

    [statsd-secure-send] signs one packet for the secure sampler and
    [udp-stress] floods a server with generated packets.  The random numbers and
    the clock are inputs. *)

From S2P Require Import Prelude Value Metric Internal Bloom Statsd StatsdSecure Utils Net.
Import Metric Internal Bloom Statsd StatsdSecure Utils Net.

Module Tools.

(** ** [statsd-secure-send] *)

Definition HMAC_KEY : list Z := bytes "750c783e6ab0b503eaa86e310a5db738".

(** [hmac key] is HMAC-SHA256; its updates digest the concatenation. *)
Section Send.
Context (hmac : list Z -> list Z -> list Z).

(** [metric] is the C string of the command line; [clock] is the second that
    [clock_gettime] returns and [nonce] the random number. *)
Definition build_packet (buffer metric : list Z) (nonce clock : Z) : option (list Z * Z) :=
  let metric_len := Z.of_nat (length metric) in
  let timestamp := u64 (clock - 2) in
  let digest := hmac HMAC_KEY (le_bytes 8 timestamp ++ le_bytes 4 nonce ++ metric) in
  buffer ← wr_n buffer 0 digest;
  buffer ← wr_n buffer SHA_SIZE (le_bytes 8 timestamp);
  buffer ← wr_n buffer (SHA_SIZE + 8) (le_bytes 4 nonce);
  buffer ← wr_n buffer (SHA_SIZE + 12) metric;
  Some (buffer, SHA_SIZE + 12 + metric_len).

Context (hmac_size : forall k x, length (hmac k x) = 32%nat).
Context (hmac_bytes : forall k x, Forall is_byte (hmac k x)).

Definition signed_part (metric : list Z) (nonce clock : Z) : list Z :=
  le_bytes 8 (u64 (clock - 2)) ++ le_bytes 4 nonce ++ metric.

Definition packet_of (metric : list Z) (nonce clock : Z) : list Z :=
  hmac HMAC_KEY (signed_part metric nonce clock) ++ signed_part metric nonce clock.

(** Writing behind what has been written. *)
Lemma wr_n_behind (done_ rest src : list Z) (p : Z) :
  p = Z.of_nat (length done_) -> (length src <= length rest)%nat ->
  wr_n (done_ ++ rest) p src = Some ((done_ ++ src) ++ drop (length src) rest).
Proof. intros -> Hl. rewrite wr_n_app by done. by rewrite app_assoc. Qed.

Lemma build_packet_run buffer metric nonce clock :
  44 + Z.of_nat (length metric) <= Z.of_nat (length buffer) ->
  exists rest, build_packet buffer metric nonce clock =
    Some (packet_of metric nonce clock ++ rest, 44 + Z.of_nat (length metric)).
Proof.
  intros Hlen. unfold build_packet, SHA_SIZE, packet_of, signed_part.
  set (d := hmac HMAC_KEY _). set (ts := le_bytes 8 _). set (no := le_bytes 4 nonce).
  assert (Hd : length d = 32%nat) by apply hmac_size.
  assert (Ht : length ts = 8%nat) by apply le_bytes_length.
  assert (Hn : length no = 4%nat) by apply le_bytes_length.
  change buffer with ([] ++ buffer).
  rewrite (wr_n_behind [] buffer d 0) by (simpl; lia). cbn [mbind option_bind app].
  rewrite (wr_n_behind d _ ts 32) by (rewrite ?length_drop; lia). cbn [mbind option_bind].
  rewrite (wr_n_behind (d ++ ts) _ no (32 + 8)) by (rewrite ?length_app, ?length_drop; lia).
  cbn [mbind option_bind].
  rewrite (wr_n_behind ((d ++ ts) ++ no) _ metric (32 + 12)) by (rewrite ?length_app, ?length_drop; lia).
  cbn [mbind option_bind]. eexists. f_equal. f_equal. by rewrite <- !app_assoc.
Qed.

Lemma packet_of_bytes metric nonce clock :
  Forall is_byte metric -> Forall is_byte (packet_of metric nonce clock).
Proof.
  intros Hm. unfold packet_of, signed_part. rewrite !Forall_app.
  split_and!; auto using le_bytes_is_byte.
Qed.

Lemma packet_of_length metric nonce clock :
  length (packet_of metric nonce clock) = (44 + length metric)%nat.
Proof. unfold packet_of, signed_part. rewrite !length_app, hmac_size, !le_bytes_length. lia. Qed.

Lemma packet_timestamp metric nonce clock rest :
  2 <= clock < 2 ^ 63 -> timestamp_of (packet_of metric nonce clock ++ rest) = clock - 2.
Proof.
  intros Hc. unfold timestamp_of, packet_of, signed_part. rewrite <- !app_assoc.
  rewrite (drop_app_length' (hmac _ _)) by (by rewrite hmac_size).
  rewrite (take_app_length' (le_bytes 8 _)) by (by rewrite le_bytes_length).
  rewrite le_combine_bytes. change (8 * Z.of_nat 8) with 64.
  rewrite !wrap_small; unfold fits; [lia|lia|]. rewrite wrap_small; unfold fits; lia.
Qed.

Context {S : Type} `{MetricSink S, StatSink S}.

(** The token of the packet is not in the filter of its second. *)
Definition fresh (s : brubeck_statsd_secure) (clock : Z) (packet : list Z) : Prop :=
  forall s1, next_second s clock = Some s1 ->
    ~ (forall x, token_bit (replays s1) (ha_of packet) (hb_of packet) x ->
         bit_set (filter_at (replays s1) (timestamp_of packet mod drift s)) x).

Lemma fresh_accepted server s buffer clock :
  secure_wf s -> 0 <= clock < 2 ^ 63 -> 40 <= Z.of_nat (length buffer) -> Forall is_byte buffer ->
  timestamp_of buffer <= clock <= timestamp_of buffer + drift s -> fresh s clock buffer ->
  exists s', verify_token server s buffer clock = Some (server, s', 0).
Proof.
  intros Hwf Hc Hl Hb Hage Hf.
  destruct (verify_token_run server s buffer clock Hwf Hc Hl Hb) as (s1 & E1 & Hwf1 & Hv).
  destruct (Z.ltb_spec clock (timestamp_of buffer)); [lia|].
  destruct (Z.ltb_spec (drift s) (clock - timestamp_of buffer)); [lia|].
  destruct Hv as (bl & hit & Eb & ->).
  destruct (next_second_run s clock Hwf Hc) as (s1' & E1' & _ & _ & Hd & _).
  assert (s1' = s1) as -> by congruence.
  assert (Hts : 0 <= timestamp_of buffer).
  { unfold timestamp_of. apply (le_combine_fits (take 8 (drop 32 buffer))). by apply Forall_take, Forall_drop. }
  destruct (second_index s1 (timestamp_of buffer) Hwf1 Hts) as [_ Hi]. rewrite Hd in Hi.
  destruct (multibloom_check_run (replays s1) _ (ha_of buffer) (hb_of buffer) (sw_bloom _ Hwf1) Hi)
    as (bl' & hit' & Eb' & _ & _ & _ & _ & _ & _ & [[_ Hall]|[-> _]]).
  - by destruct (Hf s1 E1).
  - rewrite Eb in Eb'. injection Eb' as <- ->. cbn [negb Z.eqb]. eauto.
Qed.

(** The line behind the 44 bytes of the header. *)
Lemma line_parse_behind (pk text : list Z) (st : S) (l : line) (c : Z) (post : list Z) :
  text = line_text l -> line_ok l -> length pk = (44 + length text)%nat -> pk = take 44 pk ++ text ->
  fst <$> brubeck_statsd_packet_parse st (pk ++ c :: post) 44 (Z.of_nat (length pk)) = line_effect st l.
Proof.
  intros -> Hl Hlen Hsplit. assert (H44 : length (take 44 pk) = 44%nat) by (rewrite length_take; lia).
  pose proof (packet_loop_render [] l st (take 44 pk) post c (length (line_text l))
    (Forall_cons_2 _ _ _ Hl (Forall_nil_2 _)) ltac:(done)) as Hp.
  cbn [packet_text] in Hp. rewrite app_assoc, <- Hsplit, H44 in Hp.
  unfold brubeck_statsd_packet_parse.
  replace (Z.to_nat (Z.of_nat (length pk) - 44)) with (length (line_text l)) by lia.
  change 44 with (Z.of_nat 44). rewrite Hp. cbn [lines_effect]. by destruct (line_effect st l).
Qed.

(** An authentic packet whose token is accepted is parsed. *)
Lemma thread_authentic key (w : secure_worker) clock sg s' :
  let data := hmac key sg ++ sg in
  let m := data ++ drop (length data) (sw_buffer w) in
  (12 <= length sg)%nat -> (length data <= length (sw_buffer w))%nat ->
  verify_token (sw_server w) (sw_statsd w) m clock = Some (sw_server w, s', 0) ->
  sw_server <$> statsd_secure__thread (hmac key) w clock (Recv data) =
    fst <$> brubeck_statsd_packet_parse (sw_server w) m 44 (Z.of_nat (length data)).
Proof.
  intros data m Hsg Hfit Hv. pose proof (hmac_size key sg) as Hh.
  assert (Hdl : length data = (32 + length sg)%nat) by (unfold data; rewrite length_app; lia).
  cbn [statsd_secure__thread]. change (sw_buffer w) with ([] ++ sw_buffer w) at 1.
  rewrite (wr_n_behind [] (sw_buffer w) data 0) by (simpl; lia). cbn [mbind option_bind app]. cbv zeta.
  fold m. assert (Hml : (length data <= length m)%nat) by (unfold m; rewrite length_app; lia).
  unfold MIN_PACKET_SIZE, SHA_SIZE. destruct (Z.ltb_spec (Z.of_nat (length data)) (32 + 12)); [lia|].
  rewrite rd_n_in by lia. cbn [mbind option_bind].
  assert (Esg : take (Z.to_nat (Z.of_nat (length data) - 32)) (drop (Z.to_nat 32) m) = sg).
  { unfold m, data. rewrite <- app_assoc, (drop_app_length' (hmac _ _)) by (by rewrite hmac_size).
    apply take_app_length'. rewrite length_app. lia. }
  rewrite Esg.
  destruct (memcmpct_loop_spec m (hmac key sg) 32 0 0) as (r & Er & Hr); [lia|lia|lia|].
  unfold memcmpct. change (Z.to_nat 32) with 32%nat. rewrite Er. cbn [mbind option_bind].
  assert (r = 0) as ->.
  { apply Hr. split; [done|]. change (Z.to_nat 0) with 0%nat. rewrite !drop_0.
    unfold m, data. rewrite <- app_assoc, take_app_length' by done. by rewrite take_ge by lia. }
  cbn [negb Z.eqb]. rewrite Hv. cbn [mbind option_bind Z.ltb Z.compare].
  change (32 + 12) with 44. by destruct (brubeck_statsd_packet_parse _ _ _ _) as [[st m']|].
Qed.

(** C20: what [statsd-secure-send] sends is what the secure sampler takes: for
    any StatsD line that fits the buffers, the packet is built, and a sampler
    with the same key that receives it within the drift of its timestamp, and
    has not seen its token, records exactly that line. *)
Theorem send_recorded (buffer : list Z) (l : line) (nonce sent_at clock : Z) (w : secure_worker)
  (Hbuf : length buffer = 1024%nat) (Hl : line_ok l) (Hby : Forall is_byte (line_text l))
  (Hlen : Z.of_nat (length (line_text l)) <= 979)
  (Hsent : 2 <= sent_at < 2 ^ 63) (Hclock : clock < 2 ^ 63)
  (Hwf : secure_wf (sw_statsd w)) (Hwbuf : length (sw_buffer w) = 1024%nat)
  (Hwby : Forall is_byte (sw_buffer w))
  (Hage : sent_at - 2 <= clock <= sent_at - 2 + drift (sw_statsd w))
  (Hfresh : fresh (sw_statsd w) clock (packet_of (line_text l) nonce sent_at)) :
  exists packet len, build_packet buffer (line_text l) nonce sent_at = Some (packet, len) /\
    sw_server <$> statsd_secure__thread (hmac HMAC_KEY) w clock (Recv (take (Z.to_nat len) packet))
      = line_effect (sw_server w) l.
Proof.
  set (text := line_text l) in *. set (pk := packet_of text nonce sent_at) in *.
  destruct (build_packet_run buffer text nonce sent_at ltac:(lia)) as [rest Eb].
  exists (pk ++ rest), (44 + Z.of_nat (length text)). split; [exact Eb|].
  pose proof (packet_of_length text nonce sent_at) as Hpl. fold pk in Hpl.
  replace (Z.to_nat (44 + Z.of_nat (length text))) with (length pk) by lia. rewrite take_app_length.
  destruct (drop (length pk) (sw_buffer w)) as [|c post] eqn:Ed.
  { apply (f_equal length) in Ed. rewrite length_drop in Ed. simpl in Ed. lia. }
  assert (Hts : timestamp_of (pk ++ c :: post) = sent_at - 2) by (by apply packet_timestamp).
  assert (Hts0 : timestamp_of pk = sent_at - 2).
  { rewrite <- (app_nil_r pk). by apply packet_timestamp. }
  destruct (fresh_accepted (sw_server w) (sw_statsd w) (pk ++ c :: post) clock Hwf) as (s' & Hv).
  - lia.
  - rewrite length_app. lia.
  - apply Forall_app. split; [by apply packet_of_bytes|]. rewrite <- Ed. by apply Forall_drop.
  - lia.
  - intros s1 E1. rewrite Hts, <- Hts0. unfold ha_of, hb_of.
    rewrite take_app_le by lia. rewrite drop_app_le, take_app_le by (rewrite ?length_drop; lia).
    by apply Hfresh.
  - etransitivity; [apply (thread_authentic HMAC_KEY w clock (signed_part text nonce sent_at) s')|];
      change (hmac HMAC_KEY (signed_part text nonce sent_at) ++ signed_part text nonce sent_at) with pk.
    + unfold signed_part. rewrite !length_app, !le_bytes_length. lia.
    + lia.
    + by rewrite Ed.
    + rewrite Ed. apply (line_parse_behind pk text); try done.
      unfold pk, packet_of, signed_part. rewrite !app_assoc. rewrite take_app_length'; [done|].
      rewrite !length_app, hmac_size, !le_bytes_length. lia.
Qed.
End Send.

(** ** [udp-stress] *)

Definition stress_types : list Z := bytes "gcCh".

(** [r1] and [r2] are the results of [rand], not negative. *)
Definition stress_text (r1 r2 : Z) : option (list Z) :=
  let stat := Z.rem r1 128 in
  c ← rd stress_types (Z.rem (stat * 55) 4);
  Some (bytes "github.test.packet." ++ sprintf_d stat ++ bytes ":" ++
        sprintf_d (Z.rem r2 1024) ++ bytes "|" ++ [c]).

(** [sprintf] into the buffer of the thread, with its terminator. *)
Definition stress_build_packet (buffer : list Z) (r1 r2 : Z) : option (list Z * Z) :=
  text ← stress_text r1 r2;
  buffer ← wr_n buffer 0 (text ++ [0]);
  Some (buffer, Z.of_nat (length text)).

(** The line that a stress packet is. *)
Definition stress_line (stat value : Z) : line :=
  {| l_key := bytes "github.test.packet." ++ sprintf_d stat;
     l_num := {| num_sign := None; num_int := (fun c => c - chr "0") <$> sprintf_d value; num_frac := None |};
     l_type := nth (Z.to_nat ((stat * 55) mod 4))
                 [BRUBECK_MT_GAUGE; BRUBECK_MT_METER; BRUBECK_MT_COUNTER; BRUBECK_MT_HISTO] BRUBECK_MT_GAUGE;
     l_rate := None |}.

(** ** The stress packets *)

Definition stress_ok (stat value : Z) : bool :=
  let k := bytes "github.test.packet." ++ sprintf_d stat in
  let ds := (fun c => c - chr "0") <$> sprintf_d value in
  forallb (fun b => negb (b =? chr ":") && negb (b =? 0) && negb (b =? chr " ") && negb (b =? 10)) k &&
  negb (List.last k 0 =? chr ".") && (Z.of_nat (length k) <? 23) &&
  forallb (fun d => (0 <=? d) && (d <=? 9)) ds && (digits_value 0 ds =? value) &&
  (Z.of_nat (length ds) <? 5).

Lemma stress_ok_range stat value : 0 <= stat < 128 -> 0 <= value < 1024 -> stress_ok stat value = true.
Proof.
  intros Hs Hv. unfold stress_ok. rewrite !andb_true_iff.
  assert (Hk : forallb (fun stat => let k := bytes "github.test.packet." ++ sprintf_d stat in
      forallb (fun b => negb (b =? chr ":") && negb (b =? 0) && negb (b =? chr " ") && negb (b =? 10)) k &&
      negb (List.last k 0 =? chr ".") && (Z.of_nat (length k) <? 23)) (seqZ 0 128) = true)
    by (vm_compute; reflexivity).
  assert (Hd : forallb (fun value => let ds := (fun c => c - chr "0") <$> sprintf_d value in
      forallb (fun d => (0 <=? d) && (d <=? 9)) ds && (digits_value 0 ds =? value) &&
      (Z.of_nat (length ds) <? 5)) (seqZ 0 1024) = true)
    by (vm_compute; reflexivity).
  rewrite forallb_forall in Hk, Hd. specialize (Hk stat). specialize (Hd value).
  rewrite <- list_elem_of_In, elem_of_seqZ in Hk, Hd. specialize (Hk ltac:(lia)). specialize (Hd ltac:(lia)).
  cbv zeta in Hk, Hd. rewrite !andb_true_iff in Hk, Hd. tauto.
Qed.

Lemma stress_line_ok stat value :
  0 <= stat < 128 -> 0 <= value < 1024 ->
  line_ok (stress_line stat value) /\ (length (line_text (stress_line stat value)) < 64)%nat /\
  number_value (l_num (stress_line stat value)) = F64 value.
Proof.
  intros Hs Hv. pose proof (stress_ok_range stat value Hs Hv) as Hok. unfold stress_ok in Hok. cbv zeta in Hok.
  rewrite !andb_true_iff in Hok. destruct Hok as (((((Hk & Hlast) & Hkl) & Hds) & Hval) & Hdl).
  rewrite forallb_forall in Hk, Hds. zbool.
  assert (Hdig : digits_ok ((fun c => c - chr "0") <$> sprintf_d value)).
  { split; [|rewrite Hval; lia]. apply Forall_forall. intros d Hd. specialize (Hds d Hd). zbool. lia. }
  assert (Htype : let t := l_type (stress_line stat value) in
            t <> BRUBECK_MT_INTERNAL_STATS /\ length (type_text t) = 1%nat).
  { cbn [stress_line l_type]. pose proof (Z.mod_pos_bound (stat * 55) 4 ltac:(lia)).
    destruct (Z.to_nat ((stat * 55) mod 4)) as [|[|[|[|n]]]] eqn:E; [done..|lia]. }
  split; [|split].
  - split_and!; cbn [stress_line l_key l_num l_rate num_int num_frac]; try done.
    + split_and!; [done| |done|lia]. apply Forall_forall. intros b Hb. specialize (Hk b Hb). zbool. done.
    + apply Forall_forall. intros b Hb. specialize (Hk b Hb). zbool. done.
    + apply Htype.
  - unfold line_text, render_msg, render_tail, render_number.
    destruct Htype as [_ Htl]. cbn [stress_line l_key l_num l_type l_rate num_sign num_int num_frac] in *.
    unfold render_digits. rewrite !length_app, !length_fmap, Htl. rewrite length_fmap in Hdl.
    rewrite length_app in Hkl. simpl in *. lia.
  - unfold number_value. cbn [stress_line l_num num_sign num_int num_frac]. by rewrite Hval.
Qed.

Lemma stress_text_line r1 r2 :
  0 <= r1 -> 0 <= r2 ->
  stress_text r1 r2 = Some (line_text (stress_line (r1 mod 128) (r2 mod 1024))).
Proof.
  intros H1 H2. unfold stress_text. pose proof (Z.mod_pos_bound r1 128 ltac:(lia)).
  rewrite (Z.rem_mod_nonneg r1), (Z.rem_mod_nonneg r2), Z.rem_mod_nonneg by lia.
  pose proof (Z.mod_pos_bound (r1 mod 128 * 55) 4 ltac:(lia)) as Hm.
  unfold line_text, render_msg, render_tail, render_number, render_rate.
  cbn [stress_line l_key l_num l_type l_rate num_sign num_int num_frac].
  assert (Hr : render_digits ((fun c => c - chr "0") <$> sprintf_d (r2 mod 1024)) = sprintf_d (r2 mod 1024)).
  { unfold render_digits. rewrite <- list_fmap_compose. rewrite <- (list_fmap_id (sprintf_d _)) at 2.
    apply list_fmap_ext. intros i x _. cbn [compose]. unfold id. lia. }
  rewrite Hr, !app_nil_r. cbn [app]. rewrite <- !app_assoc. unfold rd.
  destruct (Z.ltb_spec ((r1 mod 128 * 55) mod 4) 0); [lia|].
  destruct (Z.to_nat ((r1 mod 128 * 55) mod 4)) as [|[|[|[|n]]]] eqn:E; [done..|lia].
Qed.

(** What the server makes of a stress packet: one metric with the number sent,
    exactly. *)
Theorem stress_recorded {S : Type} `{MetricSink S} (st : S) (buffer : list Z) (r1 r2 : Z)
  (Hbuf : length buffer = 64%nat) (H1 : 0 <= r1) (H2 : 0 <= r2) :
  exists buffer' len, stress_build_packet buffer r1 r2 = Some (buffer', len) /\
    fst <$> brubeck_statsd_packet_parse st (take (Z.to_nat len) buffer' ++ [0]) 0 len =
      sink_metric st (l_key (stress_line (r1 mod 128) (r2 mod 1024)))
        (l_type (stress_line (r1 mod 128) (r2 mod 1024))) (F64 (r2 mod 1024)) (F64 1) 0.
Proof.
  pose proof (Z.mod_pos_bound r1 128 ltac:(lia)). pose proof (Z.mod_pos_bound r2 1024 ltac:(lia)).
  destruct (stress_line_ok (r1 mod 128) (r2 mod 1024)) as (Hok & Hlen & Hval); [lia..|].
  unfold stress_build_packet. rewrite stress_text_line by done. cbn [mbind option_bind].
  set (l := stress_line (r1 mod 128) (r2 mod 1024)) in *.
  rewrite wr_n_in; [|lia|rewrite length_app; cbn [length]; lia]. cbn [mbind option_bind].
  do 2 eexists. split; [reflexivity|]. rewrite Nat2Z.id.
  change (take (Z.to_nat 0) buffer) with (@nil Z). cbn [app].
  rewrite <- app_assoc, take_app_length.
  pose proof (packet_loop_render [] l st [] [] 0 (length (line_text l))
    (Forall_cons_2 _ _ _ Hok (Forall_nil_2 _)) ltac:(done)) as Hp.
  cbn [packet_text app length] in Hp. unfold brubeck_statsd_packet_parse.
  rewrite Z.sub_0_r, Nat2Z.id. change (Z.of_nat 0) with 0 in Hp. rewrite Hp. cbn [lines_effect].
  unfold line_effect. change (l_rate l) with (@None number). rewrite Hval.
  change (number_mods (l_num l)) with 0. by destruct (sink_metric st _ _ _ _ _).
Qed.

Lemma stress_recorded_witness :
  exists buffer' len, stress_build_packet (replicate 64 0) 300 5000 = Some (buffer', len) /\
    fst <$> brubeck_statsd_packet_parse ((0, []) : log_state) (take (Z.to_nat len) buffer' ++ [0]) 0 len =
      sink_metric ((0, []) : log_state) (bytes "github.test.packet.44") BRUBECK_MT_GAUGE (F64 904) (F64 1) 0.
Proof. apply (stress_recorded ((0, []) : log_state) (replicate 64 0) 300 5000); [reflexivity|lia|lia]. Defined.

(** ** A packet for the secure sampler *)

Definition demo_line : line :=
  {| l_key := bytes "a"; l_num := {| num_sign := None; num_int := [1]; num_frac := None |};
     l_type := BRUBECK_MT_METER; l_rate := None |}.

Definition demo_hmac (_ _ : list Z) : list Z := replicate 32 17.

Lemma demo_fresh_token :
  fresh (sw_statsd demo_secure_worker) 100 (packet_of demo_hmac (line_text demo_line) 5 102).
Proof.
  intros s1 E1 Hall. vm_compute in E1. injection E1 as <-.
  destruct (Hall (position 115 (ha_of (packet_of demo_hmac (line_text demo_line) 5 102))
                   (hb_of (packet_of demo_hmac (line_text demo_line) 5 102)) 0)) as (c & Hc & Hbit).
  - exists 0. split; [vm_compute; intuition congruence|reflexivity].
  - vm_compute in Hc. injection Hc as <-. vm_compute in Hbit. congruence.
Qed.

Lemma send_recorded_witness :
  exists packet len, build_packet demo_hmac (replicate 1024 0) (bytes "a:1|c") 5 102 = Some (packet, len) /\
    sw_server <$> statsd_secure__thread (demo_hmac HMAC_KEY) demo_secure_worker 100
                    (Recv (take (Z.to_nat len) packet))
      = sink_metric ((0, []) : log_state) (bytes "a") BRUBECK_MT_METER (F64 1) (F64 1) 0.
Proof.
  apply (send_recorded demo_hmac ltac:(reflexivity) ltac:(intros; by apply Forall_replicate)
           (replicate 1024 0) demo_line 5 102 100 demo_secure_worker).
  - reflexivity.
  - split_and!; try reflexivity; try (vm_compute; congruence); repeat constructor; vm_compute; congruence.
  - repeat constructor; vm_compute; congruence.
  - vm_compute. congruence.
  - lia.
  - lia.
  - apply demo_secure_wf.
  - reflexivity.
  - by apply Forall_replicate.
  - vm_compute. intuition congruence.
  - apply demo_fresh_token.
Defined.

End Tools.
