(* ===== verification/Clients.v ===== *)
(** * The clients ([test-bin/])

    The programs [statsd-secure-send], [udp-stress] and [balancer] from their
    command line to the datagrams they send, over an arbitrary kernel.  A
    command line is the list of its C strings; the random numbers, the clock
    and the conversions of addresses of the C library are inputs. *)

From stdpp Require Import sets.
From S2P Require Import Prelude Value Metric Statsd StatsdSecure Utils Net Tools.
Import Metric Statsd StatsdSecure Utils Net Tools.

Module Clients.

Section Clients.
Context `{Kernel}.
Context (inet_aton : list Z -> option (list Z)) (inet_addr : list Z -> list Z).

(** The address that both senders make of their first two arguments. *)
Definition target (ip port_s : list Z) : program sockaddr_in :=
  port ← defined (atoi port_s);
  match inet_aton ip with
  | None => die "inet_aton() failed"
  | Some a => mret {| sin_family := AF_INET; sin_port := htons port; sin_addr := a |}
  end.

Fixpoint create_threads (n : nat) (t : brubeck_thread) : program unit :=
  match n with
  | O => mret tt
  | S n => _ ← sys (c_pthread_create t); create_threads n t
  end.

(** ** [statsd-secure-send] *)

Section Send.
Context (hmac : list Z -> list Z -> list Z) (junk : Z).

Definition secure_send_main (argv : list (list Z)) (nonce clock : Z) : program unit :=
  match argv with
  | [_; ip; port; metric] =>
      si_other ← target ip port;
      s ← sys c_socket;
      if s <? 0 then die "socket" else
      '(buffer, len) ← defined (build_packet hmac (replicate 1024 junk) metric nonce clock);
      _ ← sys (c_sendto s (take (Z.to_nat len) buffer) si_other);
      _ ← sys (c_close s);
      mret tt
  | _ => die "Usage: udp-stress IP PORT METRIC"
  end.
End Send.

(** ** [udp-stress] *)

Definition MAX_THREADS : nat := 4.

Definition stress_main (argv : list (list Z)) : program sockaddr_in :=
  match argv with
  | [_; ip; port] =>
      si_other ← target ip port;
      _ ← sys (c_pthread_create t_report);
      _ ← create_threads MAX_THREADS t_spam;
      mret si_other
  | _ => die "Usage: udp-stress IP PORT"
  end.

(** [spam_thread] before its loop, and one turn of the loop: [packet] is the
    thread's buffer, [counter] the number shared by the threads. *)
Definition spam_socket : program Z :=
  s ← sys c_socket;
  if s =? -1 then die "socket" else mret s.

Definition spam_thread (s : Z) (si_other : sockaddr_in) (packet : list Z) (counter r1 r2 : Z)
    : program (list Z * Z) :=
  '(packet, len) ← defined (stress_build_packet packet r1 r2);
  _ ← sys (c_sendto s (take (Z.to_nat len) packet) si_other);
  mret (packet, u32 (counter + 1)).

(** One turn of [report_thread]: the number printed, and the counter. *)
Definition report_thread (counter : Z) : Z * Z := (counter, 0).

(** What the threads do, in any order: a turn of spammer [i] with the results of
    [rand], or of the reporter. *)
Inductive stress_turn := Spam (i : nat) (r1 r2 : Z) | Report.

(** The sockets and buffers of the spammers, the counter and the numbers
    printed. *)
Record stress := { ss_spam : list (Z * list Z); ss_counter : Z; ss_printed : list Z }.

Definition stress_step (si_other : sockaddr_in) (st : stress) (t : stress_turn) : program stress :=
  match t with
  | Spam i r1 r2 =>
      '(s, packet) ← defined (ss_spam st !! i);
      '(packet, counter) ← spam_thread s si_other packet (ss_counter st) r1 r2;
      mret {| ss_spam := <[i := (s, packet)]> (ss_spam st); ss_counter := counter; ss_printed := ss_printed st |}
  | Report =>
      let '(reported, counter) := report_thread (ss_counter st) in
      mret {| ss_spam := ss_spam st; ss_counter := counter; ss_printed := ss_printed st ++ [reported] |}
  end.

Fixpoint stress_run (si_other : sockaddr_in) (st : stress) (ts : list stress_turn) : program stress :=
  match ts with
  | [] => mret st
  | t :: ts => st ← stress_step si_other st t; stress_run si_other st ts
  end.

(** ** [balancer] *)

Definition MAX_FANOUT : Z := 4.
Definition BALANCER_PACKET_SIZE : Z := 512.

(** [in_socket] and the first [fanout] elements of [out]; static storage is
    zero. *)
Record balancer := { in_socket : Z; out : list (Z * sockaddr_in) }.

(** The text before and behind the first colon. *)
Fixpoint split_colon (s : list Z) : option (list Z * list Z) :=
  match s with
  | [] => None
  | c :: s => if c =? chr ":" then Some ([], s) else '(a, b) ← split_colon s; Some (c :: a, b)
  end.

Definition init_sock (address_s : list Z) : program (Z * sockaddr_in) :=
  match split_colon address_s with
  | None => die "Invalid address"
  | Some (host, port_s) =>
      port ← defined (atoi port_s);
      sock ← sys c_socket;
      if sock <? 0 then die "socket" else
      mret (sock, {| sin_family := AF_INET; sin_port := htons port;
                     sin_addr := if bool_decide (host = bytes "0.0.0.0") then replicate 4 0 else inet_addr host |})
  end.

Definition enlarge_in (fd : Z) : program unit :=
  r ← sys (c_setsockopt fd "SO_RCVBUF" LARGE_SOCK_SIZE);
  if r =? -1 then die "setsockopt" else mret tt.

Definition enlarge_out (fd : Z) : program unit :=
  r ← sys (c_setsockopt fd "SO_SNDBUF" LARGE_SOCK_SIZE);
  if r =? -1 then die "setsockopt" else mret tt.

(** The loop of [main] over the addresses. *)
Fixpoint add_outputs (args : list (list Z)) (l : list (Z * sockaddr_in)) : program (list (Z * sockaddr_in)) :=
  match args with
  | [] => mret l
  | a :: args =>
      if Z.of_nat (length l) =? MAX_FANOUT then die "usage" else
      '(sock, addr) ← init_sock a;
      _ ← enlarge_out sock;
      add_outputs args (l ++ [(sock, addr)])
  end.

(** The socket of [--listen], and the arguments that are left. *)
Definition listen_socket (argv : list (list Z)) : program (Z * list (list Z)) :=
  match argv with
  | _ :: opt :: args =>
      if bool_decide (opt = bytes "--listen") then
        match args with
        | [] => die "usage"
        | a :: args =>
            '(sock, addr) ← init_sock a;
            _ ← enlarge_in sock;
            r ← sys (c_bind sock addr);
            if r <? 0 then die "bind" else mret (sock, args)
        end
      else mret (0, opt :: args)
  | _ => mret (0, [])
  end.

Definition balancer_main (argv : list (list Z)) : program balancer :=
  '(sock, args) ← listen_socket argv;
  l ← add_outputs args [];
  if bool_decide (l = []) then die "No fanout addresses to proxy." else
  _ ← create_threads MAX_THREADS t_balancer;
  mret {| in_socket := sock; out := l |}.

(** The loop over the outputs, [n] to go. *)
Fixpoint send_all (l : list (Z * sockaddr_in)) (n : nat) (j : Z) (data : list Z) : program unit :=
  match n with
  | O => mret tt
  | S n =>
      '(sock, addr) ← defined (rd l j);
      _ ← sys (c_sendto sock data addr);
      send_all l n (j + 1) data
  end.

(** [balancer__worker] for the result of one [recvfrom], which cuts a datagram
    to the size of the buffer; a result of zero bytes or an error ([None]) is
    skipped. *)
Definition balancer__worker (b : balancer) (data : option (list Z)) : program unit :=
  match data with
  | None => mret tt
  | Some data =>
      let data := take (Z.to_nat BALANCER_PACKET_SIZE) data in
      if bool_decide (data = []) then mret tt else send_all (out b) (length (out b)) 0 data
  end.

Fixpoint balancer_run (b : balancer) (l : list (option (list Z))) : program unit :=
  match l with
  | [] => mret tt
  | d :: l => _ ← balancer__worker b d; balancer_run b l
  end.

(** ** What they send *)

(** The programs are run by their calls. *)
Lemma bind_ret {A B} (m : program A) (k : A -> program B) tr a tr' :
  m tr = (Ret a, tr') -> mbind k m tr = k a tr'.
Proof. intros E. unfold mbind, program_bind. by rewrite E. Qed.

Lemma target_run ip port p a tr :
  atoi port = Some p -> inet_aton ip = Some a ->
  target ip port tr = (Ret {| sin_family := AF_INET; sin_port := htons p; sin_addr := a |}, tr).
Proof. intros Hp Ha. unfold target. rewrite Hp. cbn [defined]. erewrite bind_ret by reflexivity. by rewrite Ha. Qed.

Section SendFacts.
Context (hmac : list Z -> list Z -> list Z) (junk : Z).
Context (hmac_size : forall k x, length (hmac k x) = 32%nat).

Lemma build_packet_overflow buffer metric nonce clock :
  Z.of_nat (length buffer) < 44 + Z.of_nat (length metric) -> (44 <= length buffer)%nat ->
  build_packet hmac buffer metric nonce clock = None.
Proof.
  intros Hlen Hmin. unfold build_packet, SHA_SIZE. cbv zeta.
  destruct (wr_n buffer 0 _) as [b1|] eqn:E1; [|done]. cbn [mbind option_bind].
  destruct (wr_n b1 32 _) as [b2|] eqn:E2; [|done]. cbn [mbind option_bind].
  destruct (wr_n b2 _ _) as [b3|] eqn:E3; [|done]. cbn [mbind option_bind].
  destruct (wr_n b3 _ _) as [b4|] eqn:E4; [|done]. apply wr_n_Some in E4 as (_ & Hle & _).
  apply wr_n_length in E1, E2, E3. lia.
Qed.

(** [statsd-secure-send] sends one signed datagram to the address of its
    command line, for every metric of at most 980 bytes; a longer one overruns
    the buffer on the stack, before anything is sent. *)
Theorem secure_send_sends (prog ip port metric : list Z) (nonce clock p : Z) (a : list Z) (tr : list call)
  (Hport : atoi port = Some p) (Haddr : inet_aton ip = Some a) (Hsock : 0 <= answer tr c_socket) :
  secure_send_main hmac junk [prog; ip; port; metric] nonce clock tr =
    if Z.of_nat (length metric) <=? 980 then
      (Ret tt, tr ++ [c_socket; c_sendto (answer tr c_socket) (packet_of hmac metric nonce clock)
                                  {| sin_family := AF_INET; sin_port := htons p; sin_addr := a |};
                      c_close (answer tr c_socket)])
    else (Undefined, tr ++ [c_socket]).
Proof.
  unfold secure_send_main. erewrite bind_ret by by apply target_run.
  erewrite bind_ret by reflexivity. destruct (Z.ltb_spec (answer tr c_socket) 0); [lia|].
  destruct (Z.leb_spec (Z.of_nat (length metric)) 980) as [Hle|Hgt].
  - destruct (build_packet_run hmac hmac_size (replicate 1024 junk) metric nonce clock) as [rest ->].
    { rewrite length_replicate. lia. }
    cbn [defined]. erewrite bind_ret by reflexivity. cbv beta iota.
    replace (Z.to_nat (44 + Z.of_nat (length metric))) with (length (packet_of hmac metric nonce clock))
      by (rewrite packet_of_length by done; lia).
    rewrite take_app_length. erewrite bind_ret by reflexivity. erewrite bind_ret by reflexivity.
    unfold mret, program_ret. by rewrite <- !app_assoc.
  - rewrite build_packet_overflow; [done|rewrite length_replicate; lia|rewrite length_replicate; lia].
Qed.
End SendFacts.

(** *** The flood *)

Definition stress_wf (n : nat) (st : stress) : Prop :=
  length (ss_spam st) = n /\ Forall (fun sp => length sp.2 = 64%nat) (ss_spam st) /\ fits 32 (ss_counter st).

Definition turn_ok (n : nat) (t : stress_turn) : Prop :=
  match t with Spam i r1 r2 => (i < n)%nat /\ 0 <= r1 /\ 0 <= r2 | Report => True end.

(** The datagram of a turn. *)
Definition turn_sends (si_other : sockaddr_in) (socks : list Z) (t : stress_turn) : list call :=
  match t with
  | Spam i r1 r2 => [c_sendto (nth i socks 0) (line_text (stress_line (r1 mod 128) (r2 mod 1024))) si_other]
  | Report => []
  end.

Definition spams (ts : list stress_turn) : Z :=
  foldr (fun t n => match t with Spam _ _ _ => 1 + n | Report => n end) 0 ts.

Definition accounted (st : stress) : Z := foldr Z.add 0 (ss_printed st) + ss_counter st.

Lemma spam_thread_run s si_other packet counter r1 r2 tr :
  length packet = 64%nat -> 0 <= r1 -> 0 <= r2 ->
  exists packet', length packet' = 64%nat /\
    spam_thread s si_other packet counter r1 r2 tr =
      (Ret (packet', u32 (counter + 1)),
       tr ++ [c_sendto s (line_text (stress_line (r1 mod 128) (r2 mod 1024))) si_other]).
Proof.
  intros Hp H1 H2. pose proof (Z.mod_pos_bound r1 128 ltac:(lia)). pose proof (Z.mod_pos_bound r2 1024 ltac:(lia)).
  destruct (stress_line_ok (r1 mod 128) (r2 mod 1024)) as (_ & Hlen & _); [lia..|].
  unfold spam_thread, stress_build_packet. rewrite stress_text_line by done. cbn [mbind option_bind].
  set (text := line_text _) in *.
  destruct (wr_n packet 0 (text ++ [0])) as [packet'|] eqn:E.
  2: { rewrite wr_n_in in E; [done|lia|rewrite length_app; cbn [length]; lia]. }
  cbn [mbind option_bind defined]. exists packet'. split; [by rewrite (wr_n_length _ _ _ _ E)|].
  erewrite bind_ret by reflexivity. cbv beta iota. erewrite bind_ret by reflexivity.
  apply wr_n_Some in E as (_ & _ & ->). change (Z.to_nat 0) with 0%nat. rewrite take_0, app_nil_l, Nat2Z.id.
  rewrite <- app_assoc, take_app_length. done.
Qed.

Lemma printed_snoc l x : foldr Z.add 0 (l ++ [x]) = foldr Z.add 0 l + x.
Proof. induction l as [|y l IH]; simpl; lia. Qed.

Lemma stress_step_run n si_other st t tr :
  stress_wf n st -> turn_ok n t ->
  exists st', stress_step si_other st t tr = (Ret st', tr ++ turn_sends si_other (ss_spam st).*1 t) /\
    stress_wf n st' /\ (ss_spam st').*1 = (ss_spam st).*1 /\
    u32 (accounted st') = u32 (accounted st + spams [t]).
Proof.
  intros (Hn & Hb & Hc) Ht. destruct t as [i r1 r2|]; cbn [stress_step turn_sends].
  - destruct Ht as (Hi & H1 & H2). destruct (lookup_lt_is_Some_2 (ss_spam st) i) as [[s packet] Hsp]; [lia|].
    rewrite Hsp. cbn [defined]. erewrite bind_ret by reflexivity. cbv beta iota.
    pose proof (proj1 (Forall_lookup _ _) Hb _ _ Hsp) as Hp. cbn [snd] in Hp.
    destruct (spam_thread_run s si_other packet (ss_counter st) r1 r2 tr Hp H1 H2) as (packet' & Hp' & E).
    erewrite bind_ret by exact E. cbv beta iota.
    assert (nth i (ss_spam st).*1 0 = s) as ->.
    { apply (nth_lookup_Some _ _ 0). by rewrite list_lookup_fmap, Hsp. }
    eexists. split; [reflexivity|]. unfold stress_wf. split_and!; cbn [ss_spam ss_counter ss_printed].
    + by rewrite length_insert.
    + by apply Forall_insert.
    + by apply wrap_fits.
    + rewrite list_fmap_insert. cbn [fst]. apply list_insert_id. by rewrite list_lookup_fmap, Hsp.
    + unfold accounted. cbn [ss_counter ss_printed spams foldr]. rewrite wrap_add_r. f_equal. lia.
  - eexists. split; [cbn; by rewrite app_nil_r|]. unfold stress_wf. split_and!; try done.
    unfold accounted. cbn [report_thread ss_counter ss_printed spams foldr]. rewrite printed_snoc. f_equal; lia.
Qed.

(** The datagrams of a run are those of its turns, and the numbers printed with
    the counter add up to the datagrams, as 32-bit numbers. *)
Lemma stress_run_accounted n si_other ts : forall st tr,
  stress_wf n st -> Forall (turn_ok n) ts ->
  exists st', stress_run si_other st ts tr =
      (Ret st', tr ++ concat (turn_sends si_other (ss_spam st).*1 <$> ts)) /\
    u32 (accounted st') = u32 (accounted st + spams ts).
Proof.
  induction ts as [|t ts IH]; intros st tr Hst Hts; cbn [stress_run].
  - exists st. split; [cbn; by rewrite app_nil_r|]. cbn. by rewrite Z.add_0_r.
  - apply list.Forall_cons in Hts as [Ht Hts].
    destruct (stress_step_run n si_other st t tr Hst Ht) as (st1 & E1 & Hst1 & Hs1 & Ha1).
    erewrite bind_ret by exact E1. 
    destruct (IH st1 (tr ++ turn_sends si_other (ss_spam st).*1 t) Hst1 Hts) as (st2 & E2 & Ha2). exists st2. rewrite E2, Hs1.
    split; [cbn [fmap list_fmap concat]; by rewrite <- app_assoc|].
    rewrite Ha2, <- wrap_add_l, Ha1, wrap_add_l. f_equal. unfold spams. cbn [foldr]. destruct t; lia.
Qed.

(** *** The fan-out *)

(** The arguments of the command line that name outputs. *)
Definition fanout_args (argv : list (list Z)) : list (list Z) :=
  match argv with
  | _ :: opt :: args => if bool_decide (opt = bytes "--listen") then tail args else opt :: args
  | _ => []
  end.

(** What an argument names: an address and a port. *)
Definition names (a : list Z) (o : Z * sockaddr_in) : Prop :=
  exists host port_s port, a = host ++ chr ":" :: port_s /\ ~ In (chr ":") host /\ atoi port_s = Some port /\
    0 <= o.1 /\ sin_port o.2 = htons port /\
    sin_addr o.2 = if bool_decide (host = bytes "0.0.0.0") then replicate 4 0 else inet_addr host.

(** The datagrams that one received datagram becomes. *)
Definition copies (outs : list (Z * sockaddr_in)) (d : option (list Z)) : list call :=
  match d with
  | Some (c :: d) => (fun '(sock, addr) => c_sendto sock (take 512 (c :: d)) addr) <$> outs
  | _ => []
  end.

Lemma split_colon_Some s a b :
  split_colon s = Some (a, b) -> s = a ++ chr ":" :: b /\ ~ In (chr ":") a.
Proof.
  revert a. induction s as [|c s IH]; intros a Hs; cbn [split_colon] in Hs; [done|].
  destruct (Z.eqb_spec c (chr ":")) as [->|Hc].
  - injection Hs as <- <-. split; [done|by intros []].
  - destruct (split_colon s) as [[a' b']|]; [|done]. injection Hs as <- <-.
    destruct (IH a' eq_refl) as [-> Hn]. split; [done|]. by intros [?|?].
Qed.

Lemma post_init_sock a : post (init_sock a) (fun _ => True) (names a).
Proof.
  unfold init_sock. destruct (split_colon a) as [[host port_s]|] eqn:Hs; [|apply post_die].
  apply split_colon_Some in Hs as [-> Hn]. apply (post_bind _ _ _ _ (fun p => atoi port_s = Some p)).
  { by apply post_defined. }
  intros port Hport. repeat post_step. apply Z.ltb_ge in E. by exists host, port_s, port.
Qed.

Lemma post_enlarge_out fd C : post (enlarge_out fd) C (fun _ => True).
Proof. unfold enlarge_out. by repeat post_step. Qed.

Lemma post_add_outputs args : forall done l,
  (length l <= 4)%nat -> Forall2 names done l ->
  post (add_outputs args l) (fun _ => True) (fun l' => (length l' <= 4)%nat /\ Forall2 names (done ++ args) l').
Proof.
  induction args as [|a args IH]; intros done l Hlen Hl; cbn [add_outputs].
  - apply post_ret. by rewrite app_nil_r.
  - post_step; [apply post_die|]. apply Z.eqb_neq in E. unfold MAX_FANOUT in E.
    eapply post_bind; [apply post_init_sock|]. intros [sock addr] Ho.
    eapply post_bind; [apply post_enlarge_out|]. intros _ _.
    rewrite (cons_middle a done args), app_assoc. apply IH.
    + rewrite length_app. cbn [length]. lia.
    + apply Forall2_app; [done|]. by repeat constructor.
Qed.

Lemma post_listen_socket argv : post (listen_socket argv) (fun _ => True) (fun r => r.2 = fanout_args argv).
Proof.
  unfold listen_socket, fanout_args. destruct argv as [|? [|opt args]]; try by apply post_ret.
  case_bool_decide; [|by apply post_ret]. destruct args as [|a args]; [apply post_die|].
  eapply post_bind; [apply post_init_sock|]. intros [sock addr] _.
  apply (post_bind _ _ _ _ (fun _ => True)).
  { unfold enlarge_in. by repeat post_step. }
  intros _ _. by repeat post_step.
Qed.

Lemma post_create_threads n t C : post (create_threads n t) C (fun _ => True).
Proof. induction n as [|n IH]; cbn [create_threads]; [by apply post_ret|]. by post_step. Qed.

Lemma post_balancer_main argv :
  post (balancer_main argv) (fun _ => True) (fun b => (1 <= length (out b) <= 4)%nat /\ Forall2 names (fanout_args argv) (out b)).
Proof.
  unfold balancer_main. eapply post_bind; [apply post_listen_socket|]. intros [sock args] Ha. cbn [snd] in Ha. subst args.
  eapply post_bind; [apply (post_add_outputs _ [] []); [simpl; lia|constructor]|]. cbn beta. intros l [Hlen Hl].
  case_bool_decide as Hne; [apply post_die|]. eapply post_bind; [apply post_create_threads|]. intros _ _.
  apply post_ret. cbn [out]. split; [|done]. destruct l; [done|simpl in *; lia].
Qed.

Lemma send_all_run data l2 : forall l1 tr,
  send_all (l1 ++ l2) (length l2) (Z.of_nat (length l1)) data tr =
    (Ret tt, tr ++ ((fun '(sock, addr) => c_sendto sock data addr) <$> l2)).
Proof.
  induction l2 as [|[sock addr] l2 IH]; intros l1 tr; cbn [send_all length].
  - cbn. by rewrite app_nil_r.
  - rewrite rd_nat, list_lookup_middle by done.
    cbn [defined]. erewrite bind_ret by reflexivity. cbv beta iota. erewrite bind_ret by reflexivity.
    rewrite (cons_middle _ l1 l2), app_assoc.
    replace (Z.of_nat (length l1) + 1) with (Z.of_nat (length (l1 ++ [(sock, addr)])))
      by (rewrite length_app; cbn [length]; lia).
    rewrite IH. cbn [fmap list_fmap]. by rewrite <- app_assoc.
Qed.

Lemma balancer_run_run b l : forall tr,
  balancer_run b l tr = (Ret tt, tr ++ concat (copies (out b) <$> l)).
Proof.
  induction l as [|d l IH]; intros tr; cbn [balancer_run]; [cbn; by rewrite app_nil_r|].
  assert (balancer__worker b d tr = (Ret tt, tr ++ copies (out b) d)) as E.
  { unfold balancer__worker, copies, BALANCER_PACKET_SIZE. change (Z.to_nat 512) with 512%nat.
    destruct d as [[|c d]|]; [|rewrite bool_decide_false by done; apply (send_all_run _ (out b) [])|];
      unfold mret, program_ret; cbn; by rewrite app_nil_r. }
  erewrite bind_ret by exact E. rewrite IH. cbn [fmap list_fmap concat]. by rewrite app_assoc.
Qed.

(** A [balancer] that starts has between one and four outputs, the addresses
    of its command line in their order, and its workers send every datagram
    that arrives, cut to 512 bytes, once to each of them and nothing else. *)
Theorem balancer_copies (argv : list (list Z)) (b : balancer) (tr tr1 : list call)
  (Hmain : balancer_main argv tr = (Ret b, tr1)) :
  (1 <= length (out b) <= 4)%nat /\ Forall2 names (fanout_args argv) (out b) /\
  forall l tr2, balancer_run b l tr2 = (Ret tt, tr2 ++ concat (copies (out b) <$> l)).
Proof.
  pose proof (post_balancer_main argv tr) as Hp. rewrite Hmain in Hp. destruct Hp as [Hlen Hn].
  split; [done|]. split; [done|]. intros l tr2. apply balancer_run_run.
Qed.

End Clients.

(** ** On a kernel that hands out descriptor 3 and refuses every datagram *)

#[local] Instance demo_kernel : Kernel :=
  {| answer _ c := match c with c_sendto _ _ _ => -1 | c_bind _ _ | c_setsockopt _ _ _ => 0 | _ => 3 end;
     getaddrinfo _ := None |}.

Definition demo_inet (_ : list Z) : list Z := [127; 0; 0; 1].

(** A metric of five bytes goes to port 8126. *)
Lemma secure_send_sends_witness :
  secure_send_main (fun a => Some (demo_inet a)) demo_hmac 0
      [bytes "send"; bytes "127.0.0.1"; bytes "8126"; bytes "a:1|c"] 5 102 [] =
    (Ret tt, [c_socket; c_sendto 3 (packet_of demo_hmac (bytes "a:1|c") 5 102)
                                 {| sin_family := AF_INET; sin_port := htons 8126; sin_addr := [127; 0; 0; 1] |};
              c_close 3]).
Proof.
  rewrite (secure_send_sends (fun a => Some (demo_inet a)) demo_hmac 0 ltac:(reflexivity) (bytes "send")
             (bytes "127.0.0.1") (bytes "8126") (bytes "a:1|c") 5 102 8126 [127; 0; 0; 1] []
             ltac:(vm_compute; reflexivity) ltac:(reflexivity) ltac:(vm_compute; congruence)).
  reflexivity.
Defined.

Definition demo_argv : list (list Z) :=
  [bytes "balancer"; bytes "--listen"; bytes "0.0.0.0:8126"; bytes "127.0.0.1:8127"; bytes "127.0.0.1:8128"].

Definition demo_addr (port : Z) : sockaddr_in :=
  {| sin_family := AF_INET; sin_port := htons port; sin_addr := [127; 0; 0; 1] |}.

Definition demo_balancer : balancer := {| in_socket := 3; out := [(3, demo_addr 8127); (3, demo_addr 8128)] |}.

(** Two outputs: every datagram is sent twice, an empty one never. *)
Lemma balancer_copies_witness :
  balancer_main demo_inet demo_argv [] = (Ret demo_balancer, snd (balancer_main demo_inet demo_argv [])) /\
  Forall2 (names demo_inet) [bytes "127.0.0.1:8127"; bytes "127.0.0.1:8128"] (out demo_balancer) /\
  balancer_run demo_balancer [Some [7; 8]; Some []; None; Some [9]] [] =
    (Ret tt, [c_sendto 3 [7; 8] (demo_addr 8127); c_sendto 3 [7; 8] (demo_addr 8128);
              c_sendto 3 [9] (demo_addr 8127); c_sendto 3 [9] (demo_addr 8128)]).
Proof.
  assert (balancer_main demo_inet demo_argv [] = (Ret demo_balancer, snd (balancer_main demo_inet demo_argv []))) as E
    by (vm_compute; reflexivity).
  destruct (balancer_copies demo_inet demo_argv demo_balancer [] _ E) as (_ & Hn & Hrun).
  split; [exact E|]. split; [exact Hn|]. rewrite Hrun. vm_compute. reflexivity.
Defined.

(** Without [--listen] the workers read from descriptor 0, which [main] never
    opened. *)
Example listen_missing :
  fst <$> (match balancer_main demo_inet [bytes "balancer"; bytes "127.0.0.1:8127"] [] with
           | (Ret b, _) => Some (in_socket b, length (out b))
           | _ => None
           end) = Some 0.
Proof. vm_compute. reflexivity. Qed.

(** A datagram that the kernel refused is counted as sent. *)
Example drops_counted :
  match stress_run {| sin_family := AF_INET; sin_port := 0; sin_addr := [] |}
          {| ss_spam := [(3, replicate 64 0)]; ss_counter := 0; ss_printed := [] |}
          [Spam 0 1 2; Spam 0 3 4; Report] [] with
  | (Ret st, tr) => Some (ss_printed st, length tr)
  | _ => None
  end = Some ([2], 2%nat).
Proof. vm_compute. reflexivity. Qed.

End Clients.
