(* ===== verification/Tests.v ===== *)
(** * The unit tests of the repository ([tests/])

    Every test of [tests/statsd_msg.c], [tests/ftoa.c], [tests/histogram.c],
    [tests/mstore.c] and [tests/atomic.c] on the definitions of this library.  A
    test is the list of its checks in order, or [None] where the code would be
    undefined.  The tests with a fixed outcome are evaluated, the capacity test
    and the test of the hash table follow from the refinement of the histogram
    and the laws of the table; the tests with threads hold for every schedule
    of the threads and every outcome of [rand]. *)

From S2P Require Import Prelude Value Histogram Metric Statsd Utils Carbon Store.
Import Histogram Metric Statsd Utils Carbon Store.

Module Tests.

(** ** [tests/statsd_msg.c] *)

(** The buffer of 128 bytes with the text at its start. *)
Definition parse_text (text : string) : option (option brubeck_statsd_msg) :=
  let t := bytes text in
  snd <$> brubeck_statsd_msg_parse (t ++ replicate (128 - length t) 205) 0 (Z.of_nat (length t)).

(** The four checks; behind a message that does not parse the others would read
    what is not set. *)
Definition must_parse (text : string) (value sample : value_t) (modifiers : Z) : option (list bool) :=
  r ← parse_text text;
  msg ← r;
  Some [true; SFeqb value (msg_value msg); SFeqb sample (msg_sample_freq msg); modifiers =? msg_modifiers msg].

Definition must_not_parse (text : string) : option (list bool) :=
  r ← parse_text text;
  Some [match r with None => true | Some _ => false end].

(** The checks of one call after the other. *)
Fixpoint in_turn (l : list (option (list bool))) : option (list bool) :=
  match l with
  | [] => Some []
  | t :: l => a ← t; b ← in_turn l; Some (a ++ b)
  end.

Definition lit (M E : Z) : value_t := decimal false M E.

Definition test_statsd_msg__parse_strings : option (list bool) :=
  in_turn ([must_parse "github.auth.fingerprint.sha1:1|c" (F64 1) (F64 1) 0;
     must_parse "github.auth.fingerprint.sha1:1|c|@0.1" (F64 1) (F64 10) 0;
     must_parse "github.auth.fingerprint.sha1:1|g" (F64 1) (F64 1) 0;
     must_parse "lol:1|ms" (F64 1) (F64 1) 0;
     must_parse "this.is.sparta:199812|C" (F64 199812) (F64 1) 0;
     must_parse "this.is.sparta:0012|h" (F64 12) (F64 1) 0;
     must_parse "this.is.sparta:23.23|g" (lit 2323 (-2)) (F64 1) 0;
     must_parse "this.is.sparta:0.232030|g" (lit 23203 (-5)) (F64 1) 0;
     must_parse "this.are.some.floats:1234567.89|g" (lit 123456789 (-2)) (F64 1) 0;
     must_parse "this.are.some.floats:1234567.89|g|@0.025" (lit 123456789 (-2)) (F64 40) 0;
     must_parse "this.are.some.floats:1234567.89|g|@0.25" (lit 123456789 (-2)) (F64 4) 0;
     must_parse "this.are.some.floats:1234567.89|g|@0.01" (lit 123456789 (-2)) (F64 100) 0;
     must_parse "this.are.some.floats:1234567.89|g|@000.0100" (lit 123456789 (-2)) (F64 100) 0;
     must_parse "this.are.some.floats:1234567.89|g|@1.0" (lit 123456789 (-2)) (F64 1) 0;
     must_parse "this.are.some.floats:1234567.89|g|@1" (lit 123456789 (-2)) (F64 1) 0;
     must_parse "this.are.some.floats:1234567.89|g|@1." (lit 123456789 (-2)) (F64 1) 0;
     must_parse "this.are.some.floats:|g" (F64 0) (F64 1) 0;
     must_parse "this.are.some.floats:1234567.89|g" (lit 123456789 (-2)) (F64 1) 0;
     must_parse "gauge.increment:+1|g" (F64 1) (F64 1) BRUBECK_MOD_RELATIVE_VALUE;
     must_parse "gauge.decrement:-1|g" (F64 (-1)) (F64 1) BRUBECK_MOD_RELATIVE_VALUE] ++
    map must_not_parse
    ["this.are.some.floats:12.89.23|g"; "this.are.some.floats:12.89|a"; "this.are.some.floats:12.89|msdos";
     "this.are.some.floats:12.89g|g"; "this.are.some.floats:12.89|"; "this.are.some.floats:12.89";
     "this.are.some.floats:12.89 |g"; "this.are.some.floats|g"; "this.are.some.floats:1.0|g|1.0";
     "this.are.some.floats:1.0|g|0.1"; "this.are.some.floats:1.0|g|@0.1.1"; "this.are.some.floats:1.0|g|@0.1@";
     "this.are.some.floats:1.0|g|@0.1125.2"; "this.are.some.floats:1.0|g|@0.1125.2"; "this.are.some.floats:1.0|g|@1.23";
     "this.are.some.floats:1.0|g|@3.0"; "this.are.some.floats:1.0|g|@-3.0"; "this.are.some.floats:1.0|g|@-1.0";
     "this.are.some.floats:1.0|g|@-0.23"; "this.are.some.floats:1.0|g|@0.0";
     "this.are.some.floats:1.0|g|@0"]%string).

Lemma test_statsd_msg__parse_strings_passes : test_statsd_msg__parse_strings = Some (replicate 101 true).
Proof. vm_compute. reflexivity. Qed.

(** ** [tests/ftoa.c] *)

(** The float literal with the text [brubeck_ftoa] must give. *)
Definition check_eq (M E : Z) (str : string) : bool :=
  bool_decide (brubeck_ftoa (bits32 (to_float (lit M E))) = Some (bytes str)).

Definition test_ftoa : option (list bool) :=
  Some [check_eq 0 0 "0"; check_eq 15 0 "15"; check_eq 155 (-1) "15.5"; check_eq 15505 (-3) "15.505";
     check_eq 125 (-3) "0.125"; check_eq 1234567 (-3) "1234.567"; check_eq 99999999 (-3) "100000";
     check_eq 999 (-3) "0.999"].

Lemma test_ftoa_passes : test_ftoa = Some (replicate 8 true).
Proof. vm_compute. reflexivity. Qed.

(** ** [tests/histogram.c] *)

Fixpoint push_all (h : brubeck_histo) (l : list (value_t * value_t)) : option brubeck_histo :=
  match l with
  | [] => Some h
  | (value, freq) :: l => h ← brubeck_histo_push h value freq; push_all h l
  end.

(** The pushes of the loops over [1.0], [2.0], ... with a sample frequency. *)
Definition ramp (n : nat) (freq : Z) : list (value_t * value_t) :=
  (fun j => (F64 (Z.of_nat j + 1), F64 freq)) <$> seq 0 n.

Definition check (x y : value_t) : bool := SFeqb x y.

Definition percentile3 (s : brubeck_histo_sample_t) : value_t := List.nth 3 (s_percentile s) S754_nan.

Definition test_histogram__single_element : option (list bool) :=
  h ← push_all histo_zero [(F64 42, F64 1)];
  let pushed := [size h =? 1; count h =? 1] in
  '(s, _) ← brubeck_histo_sample h;
  Some (pushed ++ [check (s_min s) (F64 42); check (s_max s) (F64 42); check (percentile3 s) (F64 42);
                   check (s_mean s) (F64 42); check (s_count s) (F64 1); check (s_sum s) (F64 42)]).

Definition test_histogram__large_range : option (list bool) :=
  h ← push_all histo_zero [(lit 13 11, F64 1); (F64 42, F64 1); (F64 42, F64 1)];
  '(s, _) ← brubeck_histo_sample h;
  Some [check (s_min s) (F64 42); check (s_max s) (lit 13 11); check (s_median s) (F64 42)].

(** A round over 1 to 128: the checks, and the histogram behind the sample. *)
Definition ramp_round (h : brubeck_histo) (freq : Z) : option (list bool * brubeck_histo) :=
  h ← push_all h (ramp 128 freq);
  let pushed := [size h =? 128; count h =? 128 * freq] in
  '(s, h) ← brubeck_histo_sample h;
  Some (pushed ++ [check (s_min s) (F64 1); check (s_max s) (F64 128); check (percentile3 s) (F64 127);
                   check (s_mean s) (lit 645 (-1)); check (s_count s) (F64 (128 * freq)); check (s_sum s) (F64 8256)], h).

Fixpoint ramp_rounds (n : nat) (h : brubeck_histo) : option (list bool) :=
  match n with
  | O => Some []
  | S n => '(l, h) ← ramp_round h 1; l' ← ramp_rounds n h; Some (l ++ l')
  end.

Definition test_histogram__multisamples : option (list bool) := ramp_rounds 8 histo_zero.

Definition test_histogram__with_sample_rate : option (list bool) := fst <$> ramp_round histo_zero 10.

(** A round over [HISTO_CAP + 500] values. *)
Definition capacity_round (h : brubeck_histo) (freq : Z) : option (list bool * brubeck_histo) :=
  h ← push_all h (ramp (Z.to_nat (USHRT_MAX + 500)) freq);
  let pushed := [size h =? USHRT_MAX; count h =? (USHRT_MAX + 500) * freq] in
  '(s, h) ← brubeck_histo_sample h;
  Some (pushed ++ [check (s_min s) (F64 1); check (s_max s) (F64 USHRT_MAX);
                   check (s_count s) (F64 ((USHRT_MAX + 500) * freq))], h).

Definition test_histogram__capacity : option (list bool) :=
  '(l, h) ← capacity_round histo_zero 1;
  '(l', _) ← capacity_round h 10;
  Some (l ++ l').

Lemma test_histogram_passes :
  test_histogram__single_element = Some (replicate 8 true) /\ test_histogram__large_range = Some (replicate 3 true) /\
  test_histogram__multisamples = Some (replicate 64 true) /\ test_histogram__with_sample_rate = Some (replicate 8 true).
Proof. split_and!; vm_compute; reflexivity. Qed.

(** *** The capacity test *)

(** The values the histogram holds behind [n] pushes. *)
Definition ramp_held (n : nat) : list value_t := (fun j => F64 (Z.of_nat j + 1)) <$> seq 0 (n `min` Z.to_nat USHRT_MAX).

Lemma push_all_app l1 : forall h l2, push_all h (l1 ++ l2) = (h ← push_all h l1; push_all h l2).
Proof.
  induction l1 as [|[v f] l1 IH]; intros h l2; [done|]. cbn [push_all app].
  destruct (brubeck_histo_push h v f); [apply IH|done].
Qed.

Lemma count_step c f : 0 <= c -> 0 <= f -> c + f < 2 ^ 32 -> to_unsigned 32 (fadd (F64 c) (F64 f)) = Some (c + f).
Proof.
  intros Hc Hf Hlt. unfold to_unsigned. rewrite F64_add by lia. rewrite ftrunc_F64 by lia.
  cbn [mbind option_bind]. destruct (fitsb 32 (c + f)) eqn:E; [done|]. rewrite (proj2 (fitsb_spec _ _)) in E; [done|].
  unfold fits. lia.
Qed.

Lemma ramp_held_S n : ramp_held (S n) = push_spec (ramp_held n) (F64 (Z.of_nat n + 1)).
Proof.
  unfold ramp_held, push_spec. rewrite length_fmap, length_seq. unfold USHRT_MAX.
  destruct (Z.eqb_spec (Z.of_nat (n `min` Z.to_nat 65535)) 65535) as [E|E].
  - by replace (S n `min` Z.to_nat 65535)%nat with (n `min` Z.to_nat 65535)%nat by lia.
  - replace (S n `min` Z.to_nat 65535)%nat with (S n) by lia. replace (n `min` Z.to_nat 65535)%nat with n by lia.
    by rewrite seq_S, fmap_app.
Qed.

Lemma push_ramp h freq : forall n, histo_rep h [] 0 -> 0 <= freq -> Z.of_nat n * freq < 2 ^ 32 ->
  exists h', push_all h (ramp n freq) = Some h' /\ histo_rep h' (ramp_held n) (Z.of_nat n * freq).
Proof.
  induction n as [|n IH]; intros Hh Hf Hn; [by exists h|].
  destruct IH as (h1 & E1 & H1); [done|done|lia|]. unfold ramp. rewrite seq_S, fmap_app, push_all_app.
  unfold ramp in E1. rewrite E1. cbn [mbind option_bind fmap list_fmap push_all].
  destruct (histo_push_run h1 _ _ (Z.of_nat n * freq + freq) (F64 (Z.of_nat (0 + n) + 1)) (F64 freq) H1)
    as (h2 & E2 & H2); [apply count_step; lia|].
  rewrite E2. exists h2. split; [done|]. rewrite ramp_held_S. by replace (Z.of_nat (S n) * freq) with (Z.of_nat n * freq + freq) by lia.
Qed.

Lemma sample_spec_ends l c s :
  sample_spec l c = Some s ->
  rd l 0 = Some (s_min s) /\ rd l (Z.of_nat (length l) - 1) = Some (s_max s) /\ s_count s = F64 c.
Proof.
  unfold sample_spec. destruct (rd l 0) as [mn|]; [|done]. destruct (rd l (Z.of_nat (length l) - 1)) as [mx|]; [|done].
  cbn [mbind option_bind]. destruct (pick l rank_50); [|done]. destruct (pick l rank_75); [|done].
  destruct (pick l rank_95); [|done]. destruct (pick l rank_98); [|done]. destruct (pick l rank_99); [|done].
  destruct (pick l rank_999); [|done]. cbn [mbind option_bind]. intros E. injection E as <-. cbn [s_min s_max s_count]. split_and!; reflexivity.
Qed.

(** Sorting leaves an ascending ramp as it is. *)
Lemma qsort_ramp n a : Z.of_nat (a + n) < 2 ^ 52 ->
  qsort value_cmp ((fun j => F64 (Z.of_nat j + 1)) <$> seq a n) = (fun j => F64 (Z.of_nat j + 1)) <$> seq a n.
Proof.
  intros Hn. apply qsort_in_order. revert a Hn. induction n as [|n IH]; intros a Hn; [constructor|].
  cbn [seq fmap list_fmap]. constructor; [apply (IH (S a)); lia|]. apply Forall_fmap, Forall_seq. intros j Hj. cbn.
  unfold value_cmp. rewrite F64_ltb by lia. destruct (Z.ltb_spec (Z.of_nat a + 1) (Z.of_nat j + 1)); lia.
Qed.

Lemma check_refl z : 0 <= z < 2 ^ 53 -> check (F64 z) (F64 z) = true.
Proof. intros Hz. unfold check, SFeqb. rewrite F64_compare by done. by rewrite Z.compare_refl. Qed.

(** A full histogram: the first [k] of [n] pushes are held, all are counted. *)
Lemma full_round h freq n k :
  histo_rep h [] 0 -> 0 <= freq <= 10 -> Z.of_nat n = 66035 -> Z.of_nat k = 65535 ->
  exists h1 s h2, push_all h (ramp n freq) = Some h1 /\ size h1 = 65535 /\ count h1 = 66035 * freq /\
    brubeck_histo_sample h1 = Some (s, h2) /\ histo_rep h2 [] 0 /\
    s_min s = F64 1 /\ s_max s = F64 65535 /\ s_count s = F64 (66035 * freq).
Proof.
  intros Hh Hf Hn Hk. destruct (push_ramp h freq n Hh) as (h1 & E1 & H1); [lia|lia|].
  assert (Hheld : ramp_held n = (fun j => F64 (Z.of_nat j + 1)) <$> seq 0 k).
  { unfold ramp_held. f_equal. f_equal. unfold USHRT_MAX. lia. }
  rewrite Hheld, Hn in H1. destruct (histo_sample_run _ _ _ H1) as (s & h2 & E2 & H2 & _ & Hs).
  rewrite qsort_ramp in Hs by lia. destruct (sample_spec_ends _ _ _ (Hs ltac:(by destruct k))) as (Hmn & Hmx & Hc).
  exists h1, s, h2. rewrite length_fmap, length_seq in Hmx. change 0 with (Z.of_nat 0) in Hmn.
  replace (Z.of_nat k - 1) with (Z.of_nat (k - 1)) in Hmx by lia.
  rewrite rd_nat, list_lookup_fmap, lookup_seq_lt in Hmn, Hmx by lia.
  split_and!; try done.
  - by rewrite (rep_size _ _ _ H1), length_fmap, length_seq.
  - by apply (rep_count _ _ _ H1).
  - injection Hmn as Hm. by rewrite <- Hm.
  - injection Hmx as Hm. rewrite <- Hm. f_equal. lia.
Qed.

Lemma capacity_round_passes h freq :
  histo_rep h [] 0 -> 0 <= freq <= 10 ->
  exists h', capacity_round h freq = Some (replicate 5 true, h') /\ histo_rep h' [] 0.
Proof.
  intros Hh Hf.
  destruct (full_round h freq (Z.to_nat (USHRT_MAX + 500)) (Z.to_nat USHRT_MAX) Hh Hf)
    as (h1 & s & h2 & E1 & Hs & Hc & E2 & H2 & Hmin & Hmax & Hcnt).
  { by rewrite Z2Nat.id. }
  { by rewrite Z2Nat.id. }
  exists h2. split; [|done]. unfold capacity_round. rewrite E1. cbn [mbind option_bind]. rewrite E2.
  cbn [mbind option_bind]. rewrite Hs, Hc, Hmin, Hmax, Hcnt. change (USHRT_MAX + 500) with 66035.
  rewrite !Z.eqb_refl. change USHRT_MAX with 65535. rewrite !check_refl by lia. done.
Qed.

Lemma test_histogram__capacity_passes : test_histogram__capacity = Some (replicate 10 true).
Proof.
  destruct (capacity_round_passes histo_zero 1 histo_zero_rep) as (h1 & E1 & H1); [lia|].
  destruct (capacity_round_passes h1 10 H1) as (h2 & E2 & _); [lia|].
  unfold test_histogram__capacity. rewrite E1. cbn [mbind option_bind]. by rewrite E2.
Qed.

(** ** [tests/mstore.c] *)

Section MStore.
Context {T : Type} `{HashTable T} `{!HashTableLaws T}.

Definition mstore_key (i : Z) : list Z := bytes "github.test.metric." ++ sprintf_d i.

(** The two loops, [n] turns from [i]: where they stop. *)
Fixpoint store_all (n : nat) (i : Z) (store : T) : T * Z :=
  match n with
  | O => (store, i)
  | S n =>
      let k := mstore_key i in
      let '(store, ok) := brubeck_hashtable_insert store k (u16 (Z.of_nat (length k))) (Z.to_nat i) in
      if ok then store_all n (i + 1) store else (store, i)
  end.

Fixpoint find_all (n : nat) (i : Z) (store : T) : Z :=
  match n with
  | O => i
  | S n =>
      let k := mstore_key i in
      match brubeck_hashtable_find store k (u16 (Z.of_nat (length k))) with
      | Some _ => find_all n (i + 1) store
      | None => i
      end
  end.

Definition nmetrics : Z := 15000.

Definition test_mstore__save (store : T) : option (list bool) :=
  let '(store, i) := store_all (Z.to_nat nmetrics) 0 store in
  Some [i =? nmetrics; find_all (Z.to_nat nmetrics) 0 store =? nmetrics].

Lemma sprintf_d_inj i j : 0 <= i < 10 ^ 10 -> 0 <= j < 10 ^ 10 -> sprintf_d i = sprintf_d j -> i = j.
Proof.
  intros Hi Hj E. destruct (itoa_digits_spec 10 i Hi) as [<- _]; [lia|].
  destruct (itoa_digits_spec 10 j Hj) as [<- _]; [lia|]. unfold sprintf_d in E. by rewrite E.
Qed.

Lemma mstore_key_len i :
  0 <= i < 10 ^ 10 -> take (Z.to_nat (u16 (Z.of_nat (length (mstore_key i))))) (mstore_key i) = mstore_key i.
Proof.
  intros Hi. destruct (itoa_digits_spec 10 i Hi) as (_ & _ & Hl & _); [lia|].
  assert (Hk : (length (mstore_key i) <= 29)%nat).
  { unfold mstore_key, sprintf_d. rewrite length_app, length_rev. change (length (bytes "github.test.metric.")) with 19%nat. lia. }
  rewrite wrap_small by (unfold fits; lia). rewrite Nat2Z.id. by apply take_ge.
Qed.

Lemma store_all_run n : forall i store,
  0 <= i -> i + Z.of_nat n <= 10 ^ 10 ->
  (forall j, i <= j < 10 ^ 10 -> ht_find store (mstore_key j) = None) ->
  exists store', store_all n i store = (store', i + Z.of_nat n) /\
    (forall j, i <= j < i + Z.of_nat n -> is_Some (ht_find store' (mstore_key j))) /\
    (forall k, is_Some (ht_find store k) -> is_Some (ht_find store' k)).
Proof.
  induction n as [|n IH]; intros i store Hi Hn Hnone; cbn [store_all].
  - exists store. rewrite Z.add_0_r. split; [done|]. split; [intros; lia|done].
  - unfold brubeck_hashtable_insert. rewrite mstore_key_len by lia.
    destruct (ht_insert_new store (mstore_key i) (Z.to_nat i)) as (s1 & -> & Hfound & Hother); [apply Hnone; lia|].
    destruct (IH (i + 1) s1) as (s2 & E2 & Hall & Hkeep); [lia|lia| |].
    { intros j Hj. rewrite Hother; [apply Hnone; lia|]. intros E%app_inv_head%sprintf_d_inj; lia. }
    exists s2. rewrite E2. split; [f_equal; lia|]. split.
    + intros j Hj. destruct (Z.eq_dec j i) as [->|]; [apply Hkeep; by rewrite Hfound|apply Hall; lia].
    + intros k Hk. apply Hkeep. destruct (decide (k = mstore_key i)) as [->|Hne]; [by rewrite Hfound|by rewrite Hother].
Qed.

Lemma find_all_run n : forall i store,
  0 <= i -> i + Z.of_nat n <= 10 ^ 10 ->
  (forall j, i <= j < i + Z.of_nat n -> is_Some (ht_find store (mstore_key j))) ->
  find_all n i store = i + Z.of_nat n.
Proof.
  induction n as [|n IH]; intros i store Hi Hn Hall; cbn [find_all]; [lia|].
  unfold brubeck_hashtable_find. rewrite mstore_key_len by lia.
  destruct (Hall i ltac:(lia)) as [v ->]. rewrite IH; [lia|lia|lia|]. intros j Hj. apply Hall. lia.
Qed.

(** In every table that keeps its laws. *)
Lemma test_mstore__save_passes (store : T) :
  (forall k, ht_find store k = None) -> test_mstore__save store = Some [true; true].
Proof.
  intros Hempty. unfold test_mstore__save. assert (Hn : Z.of_nat (Z.to_nat nmetrics) = nmetrics) by done.
  destruct (store_all_run (Z.to_nat nmetrics) 0 store) as (s1 & -> & Hall & _).
  { done. }
  { by rewrite Hn. }
  { done. }
  rewrite find_all_run; [by rewrite Hn|done|by rewrite Hn|done].
Qed.
End MStore.

(** ** Threads under one spinlock ([tests/thread_helper.h])

    [spawn_threads] starts sixteen threads on a shared value and waits for them.
    In both tests a thread locks, reads the value, writes what its operation
    makes of it, and unlocks; any thread can take the next step. *)

Section Spin.
Context {V Op : Type} (run_op : Op -> V -> option V).

Inductive spin_pc := P_lock | P_load | P_store (v : V) | P_unlock.

(** The value, the holder of the lock, the threads with what they have left to
    do. *)
Record spin_state := {
  sp_value : V;
  sp_lock : option nat;
  sp_thr : nat -> spin_pc * list Op;
}.

Definition goes (st : spin_state) (v : V) (l : option nat) (i : nat) (th : spin_pc * list Op) : spin_state :=
  {| sp_value := v; sp_lock := l; sp_thr := fun j => if decide (j = i) then th else sp_thr st j |}.

(** A step of thread [i] and the operation it completes, if any. *)
Inductive spin_step (st : spin_state) : list (nat * Op) -> spin_state -> Prop :=
| spin_lock i op ops : sp_thr st i = (P_lock, op :: ops) -> sp_lock st = None ->
    spin_step st [] (goes st (sp_value st) (Some i) i (P_load, op :: ops))
| spin_load i op ops : sp_thr st i = (P_load, op :: ops) ->
    spin_step st [] (goes st (sp_value st) (sp_lock st) i (P_store (sp_value st), op :: ops))
| spin_store i op ops v v' : sp_thr st i = (P_store v, op :: ops) -> run_op op v = Some v' ->
    spin_step st [(i, op)] (goes st v' (sp_lock st) i (P_unlock, ops))
| spin_unlock i ops : sp_thr st i = (P_unlock, ops) ->
    spin_step st [] (goes st (sp_value st) None i (P_lock, ops)).

Inductive spin_run (st0 : spin_state) : list (nat * Op) -> spin_state -> Prop :=
| spin_start : spin_run st0 [] st0
| spin_next log st ev st' : spin_run st0 log st -> spin_step st ev st' -> spin_run st0 (log ++ ev) st'.

(** [spawn_threads]: nothing is locked, thread [i] has [todo i] to do. *)
Definition spawn_threads (v : V) (todo : nat -> list Op) : spin_state :=
  {| sp_value := v; sp_lock := None; sp_thr := fun i => (P_lock, todo i) |}.

Definition finished (st : spin_state) : Prop := forall i, sp_thr st i = (P_lock, []).

(** The operations in the order of the log. *)
Fixpoint run_log (log : list (nat * Op)) (v : V) : option V :=
  match log with
  | [] => Some v
  | (_, op) :: log => v ← run_op op v; run_log log v
  end.

Definition done_by (i : nat) (log : list (nat * Op)) : list Op :=
  omap (fun '(j, op) => if decide (j = i) then Some op else None) log.

Lemma run_log_snoc log i op v : run_log (log ++ [(i, op)]) v = (v ← run_log log v; run_op op v).
Proof.
  revert v. induction log as [|[j o] log IH]; intros v; cbn [app run_log].
  - cbn. by destruct (run_op op v).
  - destruct (run_op o v); [apply IH|done].
Qed.

Lemma done_by_app i l1 l2 : done_by i (l1 ++ l2) = done_by i l1 ++ done_by i l2.
Proof. apply omap_app. Qed.

(** Only the holder of the lock is between its lock and its unlock, and what it
    has read is the value. *)
Definition locked (st : spin_state) : Prop :=
  match sp_lock st with
  | None => forall i, (sp_thr st i).1 = P_lock
  | Some i =>
      (forall j, j <> i -> (sp_thr st j).1 = P_lock) /\
      match sp_thr st i with
      | (P_load, _ :: _) | (P_unlock, _) => True
      | (P_store v, _ :: _) => v = sp_value st
      | _ => False
      end
  end.

Lemma locked_holder st i : locked st -> (sp_thr st i).1 <> P_lock -> sp_lock st = Some i.
Proof.
  unfold locked. destruct (sp_lock st) as [k|]; [|intros Hl Hi; by destruct (Hi (Hl i))].
  intros [Ho _] Hi. destruct (decide (i = k)) as [->|Hne]; [done|]. by destruct (Hi (Ho i Hne)).
Qed.

Lemma goes_locked st v i th :
  (forall j, j <> i -> (sp_thr st j).1 = P_lock) ->
  match th with (P_load, _ :: _) | (P_unlock, _) => True | (P_store w, _ :: _) => w = v | _ => False end ->
  locked (goes st v (Some i) i th).
Proof.
  intros Ho Hth. unfold locked, goes. cbn [sp_lock sp_thr sp_value]. rewrite decide_True by done.
  split; [|done]. intros j Hj. rewrite decide_False by done. by apply Ho.
Qed.

Lemma locked_others st i : locked st -> sp_lock st = Some i -> forall j, j <> i -> (sp_thr st j).1 = P_lock.
Proof. unfold locked. intros Hl E. rewrite E in Hl. apply Hl. Qed.

Lemma spin_step_locked st ev st' : locked st -> spin_step st ev st' -> locked st'.
Proof.
  intros Hl Hstep. destruct Hstep as [i op ops E El|i op ops E|i op ops v v' E Eo|i ops E].
  - apply goes_locked; [|done]. intros j _. unfold locked in Hl. by rewrite El in Hl.
  - assert (Hi : sp_lock st = Some i) by (apply locked_holder; [done|by rewrite E]).
    rewrite Hi. apply goes_locked; [by apply locked_others|done].
  - assert (Hi : sp_lock st = Some i) by (apply locked_holder; [done|by rewrite E]).
    rewrite Hi. apply goes_locked; [by apply locked_others|done].
  - assert (Hi : sp_lock st = Some i) by (apply locked_holder; [done|by rewrite E]).
    unfold locked, goes. cbn [sp_lock sp_thr]. intros j. case_decide; [done|]. by apply (locked_others st i).
Qed.

(** The value is that of the operations done so far, one after the other, and
    every thread has done the first of its own. *)
Record spin_inv (v0 : V) (todo : nat -> list Op) (log : list (nat * Op)) (st : spin_state) : Prop := {
  si_locked : locked st;
  si_value : run_log log v0 = Some (sp_value st);
  si_todo i : done_by i log ++ (sp_thr st i).2 = todo i;
}.

Lemma spin_step_inv v0 todo log st ev st' :
  spin_inv v0 todo log st -> spin_step st ev st' -> spin_inv v0 todo (log ++ ev) st'.
Proof.
  intros [Hl Hv Ht] Hstep. split.
  - by eapply spin_step_locked.
  - destruct Hstep as [| |i op ops v v' E Eo|]; rewrite ?app_nil_r; try done.
    rewrite run_log_snoc, Hv. cbn [mbind option_bind goes sp_value].
    assert (Hi : sp_lock st = Some i) by (apply locked_holder; [done|by rewrite E]).
    unfold locked in Hl. rewrite Hi, E in Hl. destruct Hl as [_ <-]. done.
  - intros j. rewrite done_by_app, <- (Ht j), <- app_assoc. f_equal.
    destruct Hstep as [i ? ? E|i ? ? E|i ? ? ? ? E|i ? E]; cbn [goes sp_thr];
      (destruct (decide (j = i)) as [->|Hne]; [rewrite E|]); try done; cbn;
      [by rewrite decide_True|by rewrite decide_False].
Qed.

Lemma spin_run_inv v0 todo log st :
  spin_run (spawn_threads v0 todo) log st -> spin_inv v0 todo log st.
Proof.
  remember (spawn_threads v0 todo) as st0. induction 1 as [|log st ev st' _ IH Hstep]; subst.
  - by split.
  - by eapply spin_step_inv; [apply IH|].
Qed.

(** No deadlock: as long as an operation is left and the operations are defined,
    a thread can go on. *)
Lemma spin_progress st i :
  locked st -> sp_thr st i <> (P_lock, []) -> (forall op, is_Some (run_op op (sp_value st))) ->
  exists ev st', spin_step st ev st'.
Proof.
  intros Hl Hi Hdef. unfold locked in Hl. destruct (sp_lock st) as [k|] eqn:El.
  - destruct Hl as [_ Hk]. destruct (sp_thr st k) as [pc ops] eqn:E.
    destruct pc as [| |v|], ops as [|op ops]; try done; try (do 2 eexists; first [by eapply spin_load|by eapply spin_unlock]).
    destruct (Hdef op) as [v' Hv']. rewrite <- Hk in Hv'. do 2 eexists. by eapply spin_store.
  - specialize (Hl i). destruct (sp_thr st i) as [pc [|op ops]] eqn:E; cbn [fst] in Hl; subst pc; [done|].
    do 2 eexists. by eapply spin_lock.
Qed.

(** A log of the first [n] threads is as long as what they have done. *)
Lemma log_length n log :
  (forall i, (n <= i)%nat -> done_by i log = []) ->
  length log = sum_list_with (fun i => length (done_by i log)) (seq 0 n).
Proof.
  induction log as [|[i op] log IH]; intros Hnone.
  - induction (seq 0 n) as [|j l IHl]; [done|exact IHl].
  - assert (Hcons : forall j, done_by j ((i, op) :: log) = if decide (i = j) then op :: done_by j log else done_by j log).
    { intros j. cbn. by case_decide. }
    assert (Hi : (i < n)%nat).
    { destruct (decide (i < n)%nat); [done|]. specialize (Hnone i ltac:(lia)). by rewrite Hcons, decide_True in Hnone. }
    cbn [length]. rewrite IH.
    + apply (sum_one_less _ _ _ i); [apply NoDup_seq|apply elem_of_seq; lia| |].
      * by rewrite Hcons, decide_True.
      * intros j Hj. by rewrite Hcons, decide_False.
    + intros j Hj. specialize (Hnone j Hj). rewrite Hcons, decide_False in Hnone by lia. exact Hnone.
Qed.

(** At most [k] operations for each of [n] threads are at most [n * k]. *)
Lemma spin_log_bound v0 todo log st n k :
  spin_run (spawn_threads v0 todo) log st ->
  (forall i, (i < n)%nat -> length (todo i) = k) -> (forall i, (n <= i)%nat -> todo i = []) ->
  (length log <= n * k)%nat /\ (finished st -> length log = (n * k)%nat).
Proof.
  intros Hrun Hk Hnone. pose proof (spin_run_inv _ _ _ _ Hrun) as [_ _ Ht].
  assert (Hconst : sum_list_with (fun _ => k) (seq 0 n) = (n * k)%nat).
  { assert (forall l : list nat, sum_list_with (fun _ => k) l = (length l * k)%nat) as -> by (induction l; simpl; lia).
    by rewrite length_seq. }
  rewrite (log_length n).
  2: { intros i Hi. specialize (Ht i). rewrite Hnone in Ht by done. by apply app_eq_nil in Ht as [? _]. }
  rewrite <- Hconst. split.
  - apply sum_le. intros i [_ Hi]%elem_of_seq. rewrite <- (Hk i), <- (Ht i) by lia. rewrite length_app. lia.
  - intros Hf. apply sum_ext. intros i [_ Hi]%elem_of_seq. rewrite <- (Hk i), <- (Ht i) by lia.
    rewrite (Hf i). by rewrite app_nil_r.
Qed.

(** The steps a thread has left: four for every operation. *)
Definition steps_left (th : spin_pc * list Op) : nat :=
  match th with
  | (P_lock, ops) => 4 * length ops
  | (P_load, ops) => 4 * pred (length ops) + 3
  | (P_store _, ops) => 4 * pred (length ops) + 2
  | (P_unlock, ops) => 4 * length ops + 1
  end.

Definition all_left (n : nat) (st : spin_state) : nat := sum_list_with (fun i => steps_left (sp_thr st i)) (seq 0 n).

Definition only (n : nat) (st : spin_state) : Prop := forall i, (n <= i)%nat -> sp_thr st i = (P_lock, []).

Lemma steps_left_none th : steps_left th = O -> th = (P_lock, []).
Proof. destruct th as [[| |v|] [|op ops]]; cbn; try done; lia. Qed.

Lemma step_left st ev st' :
  spin_step st ev st' -> exists i, steps_left (sp_thr st i) = S (steps_left (sp_thr st' i)) /\
    forall j, j <> i -> sp_thr st' j = sp_thr st j.
Proof.
  intros Hs. destruct Hs as [i op ops E|i op ops E|i op ops v v' E|i ops E]; exists i; cbn [goes sp_thr];
    rewrite decide_True, E by done; (split; [cbn; lia|intros j Hj; by rewrite decide_False]).
Qed.

(** Every step is one of the steps left, so that every schedule ends. *)
Lemma step_all_left n st ev st' :
  only n st -> spin_step st ev st' -> all_left n st = S (all_left n st') /\ only n st'.
Proof.
  intros Ho Hs. destruct (step_left st ev st' Hs) as (i & Hi & Hne).
  assert (Hlt : (i < n)%nat).
  { destruct (decide (i < n)%nat) as [|Hge]; [done|]. rewrite (Ho i) in Hi by lia. by cbn in Hi. }
  split.
  - symmetry. apply (sum_one_less _ _ _ i); [apply NoDup_seq|apply elem_of_seq; lia|done|].
    intros j Hj. by rewrite Hne.
  - intros j Hj. rewrite Hne by lia. by apply Ho.
Qed.

Lemma all_left_none n st : only n st -> all_left n st = O -> finished st.
Proof.
  intros Ho Hz i. destruct (decide (i < n)%nat) as [Hlt|Hge]; [|apply Ho; lia]. apply steps_left_none. unfold all_left in Hz.
  assert (Hin : i ∈ seq 0 n) by (apply elem_of_seq; lia). induction (seq 0 n) as [|j l IH]; [by apply elem_of_nil in Hin|].
  cbn in Hz. apply elem_of_cons in Hin as [->|Hin]; [lia|apply IH; [lia|done]].
Qed.

(** Threads that are never all stuck end. *)
Lemma spin_ends n st0 log st :
  spin_run st0 log st -> only n st ->
  (forall log st i, spin_run st0 log st -> sp_thr st i <> (P_lock, []) -> exists ev st', spin_step st ev st') ->
  exists log' st', spin_run st0 log' st' /\ finished st'.
Proof.
  intros Hrun Ho Hgo. remember (all_left n st) as k eqn:Ek. revert log st Hrun Ho Ek.
  induction k as [|k IH]; intros log st Hrun Ho Ek; [exists log, st; split; [done|]; by apply (all_left_none n)|].
  assert (Hi : exists i, sp_thr st i <> (P_lock, [])).
  { unfold all_left in Ek. clear -Ek. induction (seq 0 n) as [|i l IHl]; [done|]. cbn in Ek.
    destruct (steps_left (sp_thr st i)) eqn:Ei; [by apply IHl|]. exists i. intros E. by rewrite E in Ei. }
  destruct Hi as [i Hi]. destruct (Hgo log st i Hrun Hi) as (ev & st' & Hs).
  destruct (step_all_left n st ev st' Ho Hs) as [Hk Ho']. apply (IH (log ++ ev) st'); [by eapply spin_next|done|lia].
Qed.
End Spin.

Definition MAX_THREADS : nat := 16.

(** The work of the threads of a test. *)
Definition threads {Op} (f : nat -> list Op) (i : nat) : list Op := if decide (i < MAX_THREADS)%nat then f i else [].

(** ** [tests/atomic.c] *)

Definition INCREMENTS : Z := 1024 * 4.
Definition DELTA : value_t := lit 5 (-1).

(** The body of the critical section of [thread_spinlock]. *)
Definition thread_spinlock (_ : unit) (v : value_t) : option value_t := Some (fadd v DELTA).

Definition spinlock_start : spin_state :=
  spawn_threads (F64 0) (threads (fun _ => replicate (Z.to_nat INCREMENTS) tt)).

Lemma run_increments log : forall v,
  run_log thread_spinlock log v = Some (N.iter (N.of_nat (length log)) (fun v => fadd v DELTA) v).
Proof.
  induction log as [|[i []] log IH]; intros v; [done|]. cbn [run_log thread_spinlock mbind option_bind length].
  rewrite IH, Nat2N.inj_succ. f_equal. by rewrite N.iter_succ_r.
Qed.

Lemma increments_sum : check (N.iter 65536 (fun v => fadd v DELTA) (F64 0)) (F64 32768) = true.
Proof. vm_compute. reflexivity. Qed.

(** The check behind the threads, on the state they leave. *)
Definition test_atomic_spinlocks (st : spin_state (Op := unit)) : option (list bool) :=
  Some [check (sp_value st) (fmul (F64 (INCREMENTS * Z.of_nat MAX_THREADS)) DELTA)].

Lemma increments_expected : fmul (F64 (INCREMENTS * Z.of_nat MAX_THREADS)) DELTA = F64 32768.
Proof. vm_compute. reflexivity. Qed.

(** The spinlock does not race: whatever the schedule, the threads end with the
    value the test demands, and they never block each other for good. *)
Lemma test_atomic_spinlocks_passes log st :
  spin_run thread_spinlock spinlock_start log st ->
  (finished st -> test_atomic_spinlocks st = Some [true]) /\
  (forall i, sp_thr st i <> (P_lock, []) -> exists ev st', spin_step thread_spinlock st ev st').
Proof.
  intros Hrun. pose proof (spin_run_inv _ _ _ _ _ Hrun) as [Hl Hv _]. split.
  - intros Hf.
    destruct (spin_log_bound _ _ _ _ _ MAX_THREADS (Z.to_nat INCREMENTS) Hrun) as [_ Hlen].
    { intros i Hi. unfold threads. by rewrite decide_True, length_replicate. }
    { intros i Hi. unfold threads. rewrite decide_False; [done|lia]. }
    rewrite run_increments, (Hlen Hf) in Hv.
    replace (N.of_nat (MAX_THREADS * Z.to_nat INCREMENTS)) with 65536%N in Hv by (unfold MAX_THREADS, INCREMENTS; lia).
    apply (inj Some) in Hv. unfold test_atomic_spinlocks. rewrite <- Hv, increments_expected.
    by rewrite increments_sum.
  - intros i Hi. by eapply spin_progress.
Qed.

Lemma spinlocks_end : exists log st, spin_run thread_spinlock spinlock_start log st /\ finished st.
Proof.
  apply (spin_ends thread_spinlock MAX_THREADS spinlock_start [] spinlock_start).
  - apply spin_start.
  - intros i Hi. unfold spinlock_start, spawn_threads, threads. cbn [sp_thr]. rewrite decide_False by lia. done.
  - intros log st i Hrun. apply (proj2 (test_atomic_spinlocks_passes log st Hrun)).
Qed.

(** ** The threads of [tests/histogram.c] *)

Definition ITERS : Z := 4096 * 8.

(** One turn of [thread_histo], with the result of [rand]. *)
Definition thread_histo (rand : Z) (h : brubeck_histo) : option brubeck_histo :=
  if Z.rem rand 2 =? 0 then snd <$> brubeck_histo_sample h else brubeck_histo_push h (lit 42 (-2)) (F64 1).

Definition test_histogram__sampling (rands : nat -> list Z) : spin_state :=
  spawn_threads histo_zero (threads rands).

(** A turn is defined while the count has room, and adds at most one to it. *)
Lemma thread_histo_run r h vs c :
  histo_rep h vs c -> c + 1 < 2 ^ 32 ->
  exists h' vs' c', thread_histo r h = Some h' /\ histo_rep h' vs' c' /\ 0 <= c' <= c + 1.
Proof.
  intros Hh Hc. pose proof (rep_count_fits _ _ _ Hh) as Hfit. unfold fits in Hfit. unfold thread_histo. case_match.
  - destruct (histo_sample_run h vs c Hh) as (s & h' & -> & Hh' & _). exists h', [], 0. split; [done|]. split; [done|lia].
  - destruct (histo_push_run h vs c (c + 1) (lit 42 (-2)) (F64 1) Hh) as (h' & -> & Hh'); [apply count_step; lia|].
    do 3 eexists. split; [done|]. split; [done|lia].
Qed.

Lemma run_histo log : forall h vs c,
  histo_rep h vs c -> c + Z.of_nat (length log) < 2 ^ 32 ->
  exists h' vs' c', run_log thread_histo log h = Some h' /\ histo_rep h' vs' c' /\ c' <= c + Z.of_nat (length log).
Proof.
  induction log as [|[i r] log IH]; intros h vs c Hh Hc; cbn [run_log].
  - exists h, vs, c. split; [done|]. split; [done|lia].
  - cbn [length] in *. destruct (thread_histo_run r h vs c Hh) as (h1 & vs1 & c1 & -> & H1 & Hc1); [lia|].
    destruct (IH h1 vs1 c1 H1) as (h2 & vs2 & c2 & E2 & H2 & Hc2); [lia|]. exists h2, vs2, c2. cbn [mbind option_bind].
    split; [done|]. split; [done|lia].
Qed.

(** Sixteen threads that push and sample at random keep the histogram well
    formed and never block each other for good, whatever the schedule. *)
Lemma test_histogram__sampling_passes (rands : nat -> list Z) log st :
  (forall i, length (rands i) = Z.to_nat ITERS) ->
  spin_run thread_histo (test_histogram__sampling rands) log st ->
  (exists vs c, histo_rep (sp_value st) vs c) /\
  (forall i, sp_thr st i <> (P_lock, []) -> exists ev st', spin_step thread_histo st ev st').
Proof.
  intros Hr Hrun. pose proof (spin_run_inv _ _ _ _ _ Hrun) as [Hl Hv _].
  destruct (spin_log_bound _ _ _ _ _ MAX_THREADS (Z.to_nat ITERS) Hrun) as [Hlen _].
  { intros i Hi. unfold threads. by rewrite decide_True. }
  { intros i Hi. unfold threads. rewrite decide_False; [done|lia]. }
  assert (Hlt : Z.of_nat (length log) <= 524288) by (unfold MAX_THREADS, ITERS in Hlen; lia).
  destruct (run_histo log histo_zero [] 0 histo_zero_rep) as (h & vs & c & E & Hh & Hc); [lia|].
  rewrite Hv in E. apply (inj Some) in E. subst h. split; [by exists vs, c|].
  intros i Hi. eapply spin_progress; [done|done|]. intros op.
  destruct (thread_histo_run op _ vs c Hh) as (h' & _ & _ & -> & _); [lia|]. done.
Qed.

Lemma sampling_ends (rands : nat -> list Z) :
  (forall i, length (rands i) = Z.to_nat ITERS) ->
  exists log st, spin_run thread_histo (test_histogram__sampling rands) log st /\ finished st.
Proof.
  intros Hr. apply (spin_ends thread_histo MAX_THREADS _ [] (test_histogram__sampling rands)).
  - apply spin_start.
  - intros i Hi. unfold test_histogram__sampling, spawn_threads, threads. cbn [sp_thr]. rewrite decide_False by lia. done.
  - intros log st i Hrun. apply (proj2 (test_histogram__sampling_passes rands log st Hr Hrun)).
Qed.

End Tests.
