(* ===== verification/Sput.v ===== *)
(** * The harness of the unit tests ([tests/sput.h], [tests/main.c])

    The macros of [sput.h] as operations on the global [__sput], with 64-bit
    counters and the exits for calls out of order, and the [main] that runs the
    suites.  The verdict of a run is whether every check passed; the suites of
    the repository succeed under every schedule of their threads.

    The name, condition and line of a check, which are only printed, and the
    clock are not modelled. *)

From S2P Require Import Prelude Value Histogram Store Tests.
Import Histogram Store Tests.

Module Sput.

Definition SPUT_INITIALIZED : Z := 6.
Definition EXIT_SUCCESS : Z := 0.
Definition EXIT_FAILURE : Z := 1.

Record sput_overall := { all_checks : Z; all_suites : Z; all_ok : Z; all_nok : Z }.
Record sput_suite := { su_name : option string; su_nr : Z; su_checks : Z; su_ok : Z; su_nok : Z }.
Record sput_test := { te_name : option string; te_nr : Z }.

(** What is printed. *)
Inductive line :=
| L_enter (nr : Z) (name : string)
| L_check (suite check : Z) (test : string) (nr : Z) (pass : bool)
| L_leave (checks ok nok : Z)
| L_finish (checks suites ok nok : Z) (success : bool).

Record sput := {
  stream : nat;             (* out: where lines go, 0 for the standard output *)
  out : list line;          (* what has been printed *)
  initialized : Z;
  overall : sput_overall;
  suite : sput_suite;
  test : sput_test;
}.

Definition no_suite : sput_suite := {| su_name := None; su_nr := 0; su_checks := 0; su_ok := 0; su_nok := 0 |}.
Definition no_test : sput_test := {| te_name := None; te_nr := 0 |}.

(** A macro goes on, ends the process, or runs a test that is undefined. *)
Inductive harness := Goes (s : sput) | Exits (status : Z) | Undefined.

Definition then_ (r : harness) (k : sput -> harness) : harness :=
  match r with Goes s => k s | Exits c => Exits c | Undefined => Undefined end.

(** ** Internal macros *)

Definition die_unless_initialized (s : sput) (k : harness) : harness :=
  if initialized s =? SPUT_INITIALIZED then k else Exits EXIT_FAILURE.

Definition die_unless_suite_set (s : sput) (k : string -> harness) : harness :=
  match su_name (suite s) with Some n => k n | None => Exits EXIT_FAILURE end.

Definition die_unless_test_set (s : sput) (k : string -> harness) : harness :=
  match te_name (test s) with Some n => k n | None => Exits EXIT_FAILURE end.

Definition set_suite (s : sput) (su : sput_suite) : sput :=
  {| stream := stream s; out := out s; initialized := initialized s; overall := overall s; suite := su; test := test s |}.

Definition set_test (s : sput) (t : sput_test) : sput :=
  {| stream := stream s; out := out s; initialized := initialized s; overall := overall s; suite := suite s; test := t |}.

Definition set_overall (s : sput) (o : sput_overall) : sput :=
  {| stream := stream s; out := out s; initialized := initialized s; overall := o; suite := suite s; test := test s |}.

Definition print (s : sput) (l : line) : sput :=
  {| stream := stream s; out := out s ++ [l]; initialized := initialized s; overall := overall s; suite := suite s; test := test s |}.

(** [_sput_check_failed] and [_sput_check_succeeded]. *)
Definition sput_checked (pass : bool) (s : sput) : harness :=
  die_unless_initialized s (die_unless_suite_set s (fun n =>
  let su := suite s in
  let su := {| su_name := su_name su; su_nr := su_nr su; su_checks := su_checks su;
               su_ok := if pass then u64 (su_ok su + 1) else su_ok su;
               su_nok := if pass then su_nok su else u64 (su_nok su + 1) |} in
  let s := set_suite s su in
  Goes (print s (L_check (su_nr su) (su_checks su) (default "(null)"%string (te_name (test s))) (te_nr (test s)) pass)))).

(** ** User macros *)

Definition sput_start_testing (s : sput) : sput :=
  {| stream := 0; out := out s; initialized := SPUT_INITIALIZED;
     overall := {| all_checks := 0; all_suites := 0; all_ok := 0; all_nok := 0 |};
     suite := no_suite; test := no_test |}.

Definition sput_leave_suite (s : sput) : harness :=
  die_unless_initialized s (die_unless_suite_set s (fun _ =>
  let su := suite s in
  let s := print s (L_leave (su_checks su) (su_ok su) (su_nok su)) in
  let o := overall s in
  let s := set_overall s {| all_checks := u64 (all_checks o + su_checks su); all_suites := all_suites o;
                            all_ok := u64 (all_ok o + su_ok su); all_nok := u64 (all_nok o + su_nok su) |} in
  Goes (set_suite s no_suite))).

Definition sput_get_return_value (s : sput) : Z := if 0 <? all_nok (overall s) then EXIT_FAILURE else EXIT_SUCCESS.

(** A suite that is still open is left. *)
Definition leave_open (s : sput) : harness :=
  match su_name (suite s) with Some _ => sput_leave_suite s | None => Goes s end.

Definition sput_enter_suite (name : string) (s : sput) : harness :=
  die_unless_initialized s (then_ (leave_open s) (fun s =>
  let o := overall s in
  let nr := u64 (all_suites o + 1) in
  let s := set_overall s {| all_checks := all_checks o; all_suites := nr; all_ok := all_ok o; all_nok := all_nok o |} in
  let su := suite s in
  let s := set_suite s {| su_name := Some name; su_nr := nr; su_checks := su_checks su; su_ok := su_ok su; su_nok := su_nok su |} in
  Goes (print s (L_enter nr name)))).

Definition sput_finish_testing (s : sput) : harness :=
  die_unless_initialized s (then_ (leave_open s) (fun s =>
  let o := overall s in
  Goes (print s (L_finish (all_checks o) (all_suites o) (all_ok o) (all_nok o) (sput_get_return_value s =? EXIT_SUCCESS))))).

(** [sput_fail_unless]; [sput_fail_if] is the same of the negation. *)
Definition sput_fail_unless (cond : bool) (s : sput) : harness :=
  die_unless_initialized s (die_unless_suite_set s (fun _ => die_unless_test_set s (fun _ =>
  let s := set_test s {| te_name := te_name (test s); te_nr := u64 (te_nr (test s) + 1) |} in
  let su := suite s in
  let s := set_suite s {| su_name := su_name su; su_nr := su_nr su; su_checks := u64 (su_checks su + 1);
                          su_ok := su_ok su; su_nok := su_nok su |} in
  sput_checked cond s))).

(** A null stream is the standard output. *)
Definition sput_set_output_stream (fp : option nat) (s : sput) : sput :=
  {| stream := default 0%nat fp; out := out s; initialized := initialized s; overall := overall s; suite := suite s;
     test := test s |}.

Definition sput_fail_if (cond : bool) (s : sput) : harness := sput_fail_unless (negb cond) s.

Fixpoint run_checks (l : list bool) (s : sput) : harness :=
  match l with
  | [] => Goes s
  | c :: l => then_ (sput_fail_unless c s) (run_checks l)
  end.

(** [func] is the list of the test's checks. *)
Definition sput_run_test (name : string) (func : option (list bool)) (s : sput) : harness :=
  die_unless_initialized s (die_unless_suite_set s (fun _ =>
  let s := set_test s {| te_name := Some name; te_nr := 0 |} in
  match func with Some l => run_checks l s | None => Undefined end)).

(** ** [main]

    The calls between the start and the end of the testing, in order. *)

Inductive call := Enter (name : string) | Run (name : string) (func : option (list bool)).

Fixpoint run_calls (cs : list call) (s : sput) : harness :=
  match cs with
  | [] => Goes s
  | Enter name :: cs => then_ (sput_enter_suite name s) (run_calls cs)
  | Run name func :: cs => then_ (sput_run_test name func s) (run_calls cs)
  end.

(** The testing with the status it ends with. *)
Definition run_main (cs : list call) (s : sput) : harness :=
  then_ (run_calls cs (sput_start_testing s)) sput_finish_testing.

Definition exit_status (r : harness) : option Z :=
  match r with Goes s => Some (sput_get_return_value s) | Exits c => Some c | Undefined => None end.

(** Static storage is zero. *)
Definition sput_zero : sput :=
  {| stream := 0; out := []; initialized := 0; overall := {| all_checks := 0; all_suites := 0; all_ok := 0; all_nok := 0 |};
     suite := no_suite; test := no_test |}.

Section Main.
Context {T : Type} `{HashTable T}.

(** The suites; [store] is the new table and [st] where the threads of
    [test_atomic_spinlocks] end.  [test_histogram__sampling] has no checks. *)
Definition main_calls (store : T) (st : spin_state (Op := unit)) : list call :=
  [Enter "histogram: time/data series aggregation";
   Run "test_histogram__sampling" (Some []);
   Run "test_histogram__single_element" test_histogram__single_element;
   Run "test_histogram__large_range" test_histogram__large_range;
   Run "test_histogram__multisamples" test_histogram__multisamples;
   Run "test_histogram__with_sample_rate" test_histogram__with_sample_rate;
   Run "test_histogram__capacity" test_histogram__capacity;
   Enter "mstore: concurrency test for metrics hash table";
   Run "test_mstore__save" (test_mstore__save store);
   Enter "atomic: atomic primitives";
   Run "test_atomic_spinlocks" (test_atomic_spinlocks st);
   Enter "ftoa: double-to-string conversion";
   Run "test_ftoa" test_ftoa;
   Enter "statsd: packet parsing";
   Run "test_statsd_msg__parse_strings" test_statsd_msg__parse_strings].

Definition main (store : T) (st : spin_state (Op := unit)) : option Z :=
  exit_status (run_main (main_calls store st) sput_zero).
End Main.

(** ** The verdict *)

(** The checks of the calls in order, or [None] if a test is undefined. *)
Fixpoint checks_of (cs : list call) : option (list bool) :=
  match cs with
  | [] => Some []
  | Enter _ :: cs => checks_of cs
  | Run _ func :: cs => l ← func; l' ← checks_of cs; Some (l ++ l')
  end.

Definition suites_of (cs : list call) : Z := Z.of_nat (length (List.filter (fun c => if c is Enter _ then true else false) cs)).

Definition count (b : bool) (l : list bool) : Z := Z.of_nat (length (List.filter (Bool.eqb b) l)).

(** The counters of the suite and the overall ones together are those of the
    checks [l] so far. *)
Record tallied (l : list bool) (n : Z) (s : sput) : Prop := {
  ta_init : initialized s = SPUT_INITIALIZED;
  ta_checks : all_checks (overall s) + su_checks (suite s) = Z.of_nat (length l);
  ta_ok : all_ok (overall s) + su_ok (suite s) = count true l;
  ta_nok : all_nok (overall s) + su_nok (suite s) = count false l;
  ta_suite : 0 <= su_checks (suite s) /\ 0 <= su_ok (suite s) /\ 0 <= su_nok (suite s);
  ta_overall : 0 <= all_checks (overall s) /\ 0 <= all_ok (overall s) /\ 0 <= all_nok (overall s);
  ta_suites : all_suites (overall s) = n;
  ta_closed : su_name (suite s) = None -> suite s = no_suite;
}.

Lemma count_snoc b c l : count b (l ++ [c]) = count b l + if Bool.eqb b c then 1 else 0.
Proof. unfold count. rewrite List.filter_app, length_app. cbn. destruct (Bool.eqb b c); cbn; lia. Qed.

Lemma count_le b l : 0 <= count b l <= Z.of_nat (length l).
Proof. unfold count. pose proof (List.filter_length_le (Bool.eqb b) l). lia. Qed.

Lemma count_none l : count false l = 0 <-> forallb (fun b => b) l = true.
Proof.
  unfold count. induction l as [|[] l IH]; cbn [List.filter Bool.eqb length forallb andb]; [done|exact IH|].
  split; [lia|done].
Qed.

(** A counter of at most [k] checks goes up without wrapping. *)
Lemma tick x k : 0 <= x <= k -> k + 1 < 2 ^ 64 -> u64 (x + 1) = x + 1.
Proof. intros Hx Hk. apply wrap_small. unfold fits. lia. Qed.

Definition running (s : sput) : Prop := is_Some (su_name (suite s)) /\ is_Some (te_name (test s)).

Lemma fail_unless_run c l n s :
  tallied l n s -> running s -> Z.of_nat (length l) + 1 < 2 ^ 64 ->
  exists s', sput_fail_unless c s = Goes s' /\ tallied (l ++ [c]) n s' /\ running s'.
Proof.
  intros [Hi Hc Ho Hn Hs Ha Hu Hcl] [[sn Esn] [tn Etn]] Hlen. unfold sput_fail_unless, sput_checked, die_unless_initialized,
    die_unless_suite_set, die_unless_test_set. cbn [initialized suite set_suite set_test su_name].
  rewrite Hi, Z.eqb_refl, Esn, Etn. eexists. split; [reflexivity|].
  pose proof (count_le true l). pose proof (count_le false l).
  split; [|by split; cbn; rewrite ?Esn, ?Etn; eexists].
  split; cbn [print set_suite set_test out initialized overall suite test su_checks su_ok su_nok su_name];
    rewrite ?(tick _ (Z.of_nat (length l))), ?count_snoc, ?length_app by lia; cbn [length Bool.eqb]; try done;
    destruct c; rewrite ?(tick _ (Z.of_nat (length l))) by lia; cbn; lia.
Qed.

Lemma run_checks_run l' : forall l n s,
  tallied l n s -> running s -> Z.of_nat (length (l ++ l')) < 2 ^ 64 ->
  exists s', run_checks l' s = Goes s' /\ tallied (l ++ l') n s' /\ running s'.
Proof.
  induction l' as [|c l' IH]; intros l n s Ht Hr Hlen; cbn [run_checks].
  - rewrite app_nil_r. by exists s.
  - rewrite length_app in Hlen. cbn [length] in Hlen.
    destruct (fail_unless_run c l n s Ht Hr) as (s1 & -> & H1 & R1); [lia|]. cbn [then_].
    replace (l ++ c :: l') with ((l ++ [c]) ++ l') by (by rewrite <- app_assoc).
    apply IH; [done|done|]. rewrite !length_app. cbn [length]. lia.
Qed.

Lemma leave_open_run l n s :
  tallied l n s -> Z.of_nat (length l) < 2 ^ 64 ->
  exists s', leave_open s = Goes s' /\ tallied l n s' /\ suite s' = no_suite.
Proof.
  intros Ht Hlen. pose proof Ht as [Hi Hc Ho Hn Hs Ha Hu Hcl]. unfold leave_open.
  destruct (su_name (suite s)) as [sn|] eqn:Esn; [|exists s; split_and!; [done|done|by apply Hcl]].
  unfold sput_leave_suite, die_unless_initialized, die_unless_suite_set. rewrite Hi, Z.eqb_refl, Esn.
  eexists. split; [reflexivity|]. split; [|done].
  pose proof (count_le true l). pose proof (count_le false l).
  split; cbn [print set_suite set_overall out initialized overall suite no_suite su_checks su_ok su_nok su_name
    all_checks all_ok all_nok all_suites]; rewrite ?wrap_small by (unfold fits; lia); try done; lia.
Qed.

Lemma enter_suite_run name l n s :
  tallied l n s -> Z.of_nat (length l) < 2 ^ 64 -> 0 <= n -> n + 1 < 2 ^ 64 ->
  exists s', sput_enter_suite name s = Goes s' /\ tallied l (n + 1) s' /\ is_Some (su_name (suite s')).
Proof.
  intros Ht Hlen Hn Hb. unfold sput_enter_suite, die_unless_initialized. rewrite (ta_init _ _ _ Ht), Z.eqb_refl.
  destruct (leave_open_run l n s Ht Hlen) as (s1 & -> & [Hi Hc Ho Hk Hs Ha Hu Hcl] & Es). cbn [then_].
  eexists. split; [reflexivity|]. split; [|by eexists].
  split; cbn [print set_suite set_overall out initialized overall suite su_checks su_ok su_nok su_name
    all_checks all_ok all_nok all_suites]; try done. rewrite Hu. apply (tick n n); lia.
Qed.

Lemma run_test_run name l' l n s :
  tallied l n s -> is_Some (su_name (suite s)) -> Z.of_nat (length (l ++ l')) < 2 ^ 64 ->
  exists s', sput_run_test name (Some l') s = Goes s' /\ tallied (l ++ l') n s' /\ is_Some (su_name (suite s')).
Proof.
  intros Ht [sn Esn] Hlen. unfold sput_run_test, die_unless_initialized, die_unless_suite_set.
  rewrite (ta_init _ _ _ Ht), Z.eqb_refl, Esn. pose proof Ht as [Hi Hc Ho Hn Hs Ha Hu Hcl].
  destruct (run_checks_run l' l n (set_test s {| te_name := Some name; te_nr := 0 |})) as (s1 & E1 & H1 & [Hr _]).
  - by split.
  - split; [by exists sn|by eexists].
  - done.
  - by exists s1.
Qed.

Lemma run_calls_run cs : forall l' l n s,
  tallied l n s -> is_Some (su_name (suite s)) \/ (exists name cs', cs = Enter name :: cs') \/ cs = [] ->
  checks_of cs = Some l' -> Z.of_nat (length (l ++ l')) < 2 ^ 64 -> 0 <= n -> n + suites_of cs < 2 ^ 64 ->
  exists s', run_calls cs s = Goes s' /\ tallied (l ++ l') (n + suites_of cs) s'.
Proof.
  induction cs as [|[name|name func] cs IH]; intros l' l n s Ht Hs Hc Hlen Hn Hb; cbn [run_calls checks_of] in *.
  - injection Hc as <-. exists s. unfold suites_of. cbn. by rewrite app_nil_r, Z.add_0_r.
  - assert (Hsu : suites_of (Enter name :: cs) = 1 + suites_of cs) by (unfold suites_of; cbn; lia).
    assert (0 <= suites_of cs) by (unfold suites_of; lia). rewrite length_app in Hlen.
    destruct (enter_suite_run name l n s Ht) as (s1 & -> & H1 & R1); [lia..|]. cbn [then_].
    rewrite Hsu, Z.add_assoc. apply IH; [done|by left|done|rewrite length_app; lia|lia|lia].
  - destruct Hs as [Hs|[(? & ? & ?)|?]]; [|done..]. destruct func as [l1|]; [|done]. cbn [mbind option_bind] in Hc.
    destruct (checks_of cs) as [l2|] eqn:Ec; [|done]. cbn in Hc. injection Hc as <-. rewrite !length_app in Hlen.
    destruct (run_test_run name l1 l n s Ht Hs) as (s1 & -> & H1 & R1); [rewrite length_app; lia|]. cbn [then_].
    rewrite app_assoc. apply (IH l2 (l ++ l1) n s1); [done|by left|done|rewrite !length_app; lia|done|exact Hb].
Qed.

(** The verdict of a run that enters a suite before its first test: it counts
    every check once, and ends with success if and only if all have passed. *)
Theorem run_main_verdict (cs : list call) (l : list bool) (s : sput)
  (Hcs : (exists name cs', cs = Enter name :: cs') \/ cs = []) (Hl : checks_of cs = Some l)
  (Hlen : Z.of_nat (length l) < 2 ^ 64) (Hn : suites_of cs < 2 ^ 64) :
  exists s', run_main cs s = Goes s' /\
    overall s' = {| all_checks := Z.of_nat (length l); all_suites := suites_of cs;
                    all_ok := count true l; all_nok := count false l |} /\
    (exit_status (run_main cs s) = Some EXIT_SUCCESS <-> forallb (fun b => b) l = true).
Proof.
  destruct (run_calls_run cs l [] 0 (sput_start_testing s)) as (s1 & E1 & H1); try done; [by right|].
  rewrite Z.add_0_l in H1. cbn [app] in H1. destruct (leave_open_run l _ s1 H1 Hlen) as (s2 & E2 & H2 & Es).
  assert (E : run_main cs s = Goes (print s2 (L_finish (all_checks (overall s2)) (all_suites (overall s2))
    (all_ok (overall s2)) (all_nok (overall s2)) (sput_get_return_value s2 =? EXIT_SUCCESS)))).
  { unfold run_main, sput_finish_testing, die_unless_initialized. rewrite E1. cbn [then_].
    by rewrite (ta_init _ _ _ H1), Z.eqb_refl, E2. }
  destruct H2 as [_ Hc Ho Hk _ _ Hu _]. rewrite Es in Hc, Ho, Hk. cbn [no_suite su_checks su_ok su_nok] in Hc, Ho, Hk.
  rewrite !Z.add_0_r in Hc, Ho, Hk. rewrite E. eexists. split; [done|]. split.
  - cbn [print overall]. destruct (overall s2). cbn in *. by subst.
  - cbn [exit_status]. unfold sput_get_return_value at 1. cbn [overall print]. rewrite Hk, <- count_none.
    pose proof (count_le false l). unfold EXIT_FAILURE, EXIT_SUCCESS.
    destruct (Z.ltb_spec 0 (count false l)); (split; [intros E0; first [discriminate|lia]|intros; first [done|lia]]).
Qed.

(** The suites of the repository succeed: in every table that keeps its laws and
    for every schedule of the threads, which always end, the 205 checks pass and
    [main] returns 0. *)
Theorem main_succeeds {T : Type} `{HashTableLaws T} (store : T) (Hempty : forall k, ht_find store k = None) :
  (exists log st, spin_run thread_spinlock spinlock_start log st /\ finished st) /\
  forall log st, spin_run thread_spinlock spinlock_start log st -> finished st ->
    main store st = Some EXIT_SUCCESS /\
    exists s, run_main (main_calls store st) sput_zero = Goes s /\
      overall s = {| all_checks := 205; all_suites := 5; all_ok := 205; all_nok := 0 |}.
Proof.
  split; [exact spinlocks_end|]. intros log st Hrun Hf.
  assert (Hl : checks_of (main_calls store st) = Some (replicate 205 true)).
  { destruct test_histogram_passes as (E1 & E2 & E3 & E4). unfold main_calls. cbn [checks_of].
    rewrite E1, E2, E3, E4, test_histogram__capacity_passes, test_mstore__save_passes, test_ftoa_passes,
      test_statsd_msg__parse_strings_passes by done.
    rewrite (proj1 (test_atomic_spinlocks_passes log st Hrun) Hf). reflexivity. }
  assert (Hs : suites_of (main_calls store st) = 5) by (unfold suites_of, main_calls; cbn [List.filter length]; reflexivity).
  destruct (run_main_verdict (main_calls store st) _ sput_zero ltac:(left; by do 2 eexists) Hl ltac:(done) ltac:(by rewrite Hs))
    as (s & E & Ho & Hx).
  split; [apply Hx; reflexivity|]. exists s. split; [exact E|]. rewrite Ho, Hs. reflexivity.
Qed.

(** A check before any suite ends the process with a failure. *)
Example check_without_suite : exit_status (run_main [Run "test" (Some [true])] sput_zero) = Some EXIT_FAILURE.
Proof. reflexivity. Qed.
End Sput.
